(* ===== verification/_CoqProject ===== *)
-Q . S2P
Prelude.v
Text.v
Bytes.v
Memory.v
MemoryProps.v
Cpu.v
CpuFacts.v
CpuArith.v
CpuProps.v
CpuRun.v
CpuMem.v
Thumb.v
ThumbDecode.v
ThumbProps.v
ThumbDiff.v
Factorial.v
Trace.v
TraceProps.v
ThumbText.v
What.v
ParallelSim.v
ParallelSimProps.v
Loader.v
LoaderProps.v
Cli.v
CliProps.v
HexImage.v
Ring.v
Peripheral.v
PeripheralProps.v
Can.v
CanProps.v
Flash.v
Spi.v
SpiProps.v
Lm75.v
I2c.v
I2cProps.v
Scheduler.v
SchedulerProps.v
SchedTime.v
SchedLive.v
Waiters.v
Kernel.v
Semaphore.v
Mutex.v
Queue.v
EventGroup.v
KernelProps.v
HandOver.v
SemaphoreProps.v
Starvation.v
MutexProps.v
MutexGuard.v
QueueProps.v
QueueLive.v
EventGroupProps.v
EventGroupLive.v
EventGroupNested.v
Program.v
Blinky.v
Uart.v
UartProps.v
SensorDemo.v
DemoProps.v
