(* ===== verification/Prelude.v ===== *)
(** * Verification of the MCU simulator

    The program simulates a small microcontroller: a Cortex-M0 core that executes
    16-bit Thumb instructions over a flat 64 KB memory, a loader for its firmware,
    a disassembler that traces what it runs, a command line around them, a runner
    for many simulations in parallel, five memory-mapped peripherals, and,
    separately, an RTOS kernel whose tasks run on host contexts under simulated
    time, with two demos on it.  This library translates that code into functions
    and proves what it promises.

    ** Parts of the program and where they are modelled

    - Memory.v: src/src/memory.h and memory.cpp.  The interface [IMemoryBus] is a
      type class; [FlatMemoryBus] with its address translation is the instance.
      The CPU and the loader are written against the class.
    - Cpu.v: src/src/cpu.h and cpu.cpp.  [CortexM0] as a record of registers,
      flags, the halted flag and the cycle count next to the memory and the trace
      calls; one definition per instruction group, [execute] for the decoder, then
      [fetch], [step] and [run].  A step that throws keeps what it had changed.
    - Thumb.v: no part of the program but its reference, the 16-bit instructions of
      ARMv6-M as a data type with encoding and effect, and a total decoder that also
      names SVC, BKPT and what is UNDEFINED or UNPREDICTABLE, written from the
      architecture.
    - Loader.v: src/src/loader.cpp.  Raw binaries and Intel HEX, from the bytes of
      the file to calls of [IMemoryBus::load].
    - Trace.v: src/src/trace.h.  [ThumbDisassembler] as functions to text and the
      tracer attached to the core's callback.
    - What.v: the texts of the exceptions.
    - ParallelSim.v: src/src/parallel_sim.h.  A simulation in a thread is cut at its
      accesses to the shared log, counter and results; [pool_step] lets any thread
      that was started go on, so a list of choices is one interleaving.  The log and
      the counter belong to the [runner] and outlive a call of [run].
    - Cli.v: src/src/main.cpp over the arguments and a function from paths to
      contents.  Factorial.v: src/programs/factorial.s as bytes, for any start value.
    - Peripheral.v: src/peripherals/peripheral.h.  [IPeripheral] as a class over the
      state of all peripherals, [PeripheralBus] as the address decoder.
    - Ring.v, Uart.v, Flash.v, Spi.v, Lm75.v, I2c.v, Can.v: src/peripherals/uart,
      spi, i2c and can, the devices behind the SPI and I2C masters on their own.
      Ring.v is the circular buffer that the UART and the RTOS queue write out.
      Can.v keeps all controllers of a bus in one map, since sending on one changes
      the others.
    - Scheduler.v: src/rtos/scheduler.h and scheduler.cpp.  Task control blocks,
      selection, the discrete-event loop that advances the tick count when nothing
      can run, and every API function as a step that also says which context it
      switches to.
    - Kernel.v: tasks that run on that scheduler.  Tasks are cooperative, so a
      method of a synchronisation object is a set of segments between scheduler
      calls; the saved contexts are the segments still to run, and [kstep] lets the
      current context do one.  What the code of a task does next is an input, so a
      list of inputs is one program under one interleaving.
    - Waiters.v, Semaphore.v, Mutex.v, Queue.v, EventGroup.v: src/rtos/semaphore.h,
      mutex.h, queue.h and event_group.h as instances of [Component], the interface
      the kernel runs them through.  The scope guard of the mutex is the two calls
      that its constructor and its destructor make.
    - Program.v: tasks with given code, as trees of calls, run on the kernel with
      several shared objects at once.  Blinky.v and SensorDemo.v are
      src/demo/blinky.cpp and sensor_demo.cpp written in it.

    Prelude.v (this file), Bytes.v and Text.v hold what the parts share: results of
    code that may throw, integers of 8, 16 and 32 bits as Z with their ranges and
    wrap-around, sub-ranges of byte arrays and little-endian words, numbers printed
    and read as text.

    ** What the theorems show

    - MemoryProps.v: the effect of every access, exactly which accesses fault, that
      the SRAM window is the same storage as the upper half of the flat memory.
    - CpuFacts.v, CpuArith.v, CpuProps.v, CpuRun.v: a run of any length keeps the
      machine well formed and throws only what it should; arithmetic, comparison and
      shift instructions compute what the ARMv6-M manual defines, flags included;
      branches, calls and returns go where they should; runs compose, and what
      [run] returns.
    - CpuMem.v: loads and stores, and PUSH and POP, and STM and LDM, as inverse
      pairs over any code in between that keeps the stored words.
    - ThumbDecode.v, ThumbProps.v, ThumbDiff.v: what [execute] does for each of the 2^16
      encodings.  [conforms] names the instructions that it executes as the reference
      says, faults included; all others (uses of the PC and writes of SP as general
      registers, block transfers with their base in the list, four accesses with a
      register offset, extensions, reversals and CPS) are executed wrongly, each on
      some machine.  ThumbText.v: the disassembler prints the text of an instruction
      exactly when [printed] names it.
    - Factorial.v, CliProps.v: the sample program halts with the factorial for every
      start value, and does so from the file to the printout of the command line;
      options are read back, --trace only adds the trace, and how a number that
      cannot be read ends the program.
    - HexImage.v: an image gives the same output whether the program loads it as a raw
      binary or as Intel HEX.
    - TraceProps.v: tracing changes nothing but the output; the text of a branch
      names the address the core goes to; what the disassembler does not know.
    - ParallelSimProps.v: every interleaving of the threads gives the results that
      the simulations have on their own, in order, on a runner used before or not; all
      of them end; splitting a run at checkpoints changes nothing.
    - LoaderProps.v: loading the Intel HEX text of any list of records does what the
      records say, and no change of one digit goes unnoticed.
    - PeripheralProps.v, UartProps.v, SpiProps.v, I2cProps.v, CanProps.v: address
      decoding; the UART refines a pair of bounded queues; flash commands as
      transactions on its array, with write protection; the LM75 registers; delivery,
      filtering and order of CAN frames over all nodes of the bus.
    - SchedulerProps.v, SchedTime.v, SchedLive.v: over every sequence of API calls the scheduling
      loop terminates and one task runs, the current one; selection and preemption by
      priority; delayed tasks wake neither early nor late as long as calls respect
      deadlines, and how they do not otherwise; and round robin is fair, a READY
      task that nothing more urgent holds up runs after at most 15 other turns.
    - KernelProps.v, HandOver.v, SemaphoreProps.v, MutexProps.v, QueueProps.v,
      QueueLive.v, EventGroupProps.v, EventGroupLive.v: over every interleaving of
      disciplined programs (see below) the semaphore conserves tokens and the mutex excludes, and a task that was handed
      a token or the mutex can run, so neither is stuck; the queue is first in first
      out over every run at all, its wait lists never hold more than there are
      tasks, and no wake-up of it is lost; which waiters [set_bits] wakes, and that no
      task sleeps on an event that holds while its calls do not nest.
    - EventGroupNested.v: when they do nest, a waiter can be lost, and then stays
      blocked whatever the program does after, or the wait list is read out of bounds.
    - MutexGuard.v: programs that use the mutex through guards keep the discipline that
      MutexProps.v asks for, and a task that locks the mutex it holds is blocked for
      ever.
    - Starvation.v: waiters of one priority are not served in turn; a run of any
      length in which one of three waiters gets nothing.
    - DemoProps.v: both demos from boot to their last line as runs of the model, and
      what becomes of a temperature on its way to the CAN receiver.

    ** Disciplined programs

    The theorems on synchronisation objects, but for the order of the queue, are about
    programs that are [disciplined] (KernelProps.v): the methods are called by tasks;
    the code of the tasks gives the scheduler valid arguments, lets no tick count
    overflow, and does not suspend, delete or unblock a task that is inside a method or
    waits for a deadline.  The code does not defend itself against programs that do:
    [mutex_suspend] (MutexProps.v) is a run with two holders after the owner has
    suspended and resumed a task in lock, [event_unblock] (EventGroupLive.v) one in which
    unblocking a waiter again and again fills the wait list, so that another is
    forgotten.

    ** Bounds and fuel

    [run_loop] recurses on the bound the caller gives.  [schedule_loop] gets fuel for
    two more rounds than there are tasks: each round that does not end wakes a
    delayed task, so [schedule_loop_total] shows that it always returns.  A number is
    printed with fuel for 64 digits, more than any 64-bit number has.  The demos run
    with any fuel from 750 (sensor_demo) and 150 (blinky) steps on, by
    [system_run_ends]; inside them the endless loop of the CAN forwarder is good for
    11 turns, one more than there are readings, and the watchdog's for 20.  Running
    out of these is an outcome of its own ([NoFuel]) that ends no run proved here.
    All other recursion is structural.

    ** What is not modelled

    The wall-clock time of a parallel simulation; the opening of files, which are a
    function from paths to contents; the stacks and the ucontext calls beneath a
    context switch (the kernel keeps the continuations instead); names of tasks and
    peripherals; [HardFaultException], which nothing throws.  A read that is undefined
    behaviour in the source is an error of its own ([Undefined] for the kernel, an
    out-of-bounds error in the loader).  The SCS and peripheral constants of [MemMap]
    that no code uses are left out. *)
From Stdlib Require Export ZArith Lia Bool.
From stdpp Require Export base tactics numbers option list.

#[global] Open Scope Z_scope.

(** Array sizes are large: [simpl] must not turn them into unary numbers. *)
#[global] Arguments Z.to_nat _ : simpl never.

(** * Results

    C++ code that may throw is modelled by [result]: [Ok] is a normal return,
    [Err] carries the exception.  Code that throws after it has changed an
    object keeps the changed object as well; the components with that
    behaviour use a state-and-error monad of their own. *)

Inductive result (E A : Type) : Type :=
  | Ok (a : A)
  | Err (e : E).
Arguments Ok {E A} a.
Arguments Err {E A} e.

Definition result_bind {E A B} (r : result E A) (f : A -> result E B) : result E B :=
  match r with
  | Ok a => f a
  | Err e => Err e
  end.

Definition is_ok {E A} (r : result E A) : bool :=
  match r with Ok _ => true | Err _ => false end.

Declare Scope result_scope.
Delimit Scope result_scope with result.
Notation "x <- r ;; k" := (result_bind r (fun x => k))
  (at level 20, r at level 99, k at level 200) : result_scope.
Notation "' p <- r ;; k" := (result_bind r (fun x => let p := x in k))
  (at level 20, p pattern, r at level 99, k at level 200) : result_scope.

(** * Machine integers

    A [w]-bit unsigned value is the [Z] in [0, 2^w); the conversions of C++
    ([static_cast] and the implicit ones) are reductions modulo [2^w], and a
    signed value is the representative in [-2^(w-1), 2^(w-1)). *)

Definition u8 (x : Z) : Z := x mod 0x100.
Definition u16 (x : Z) : Z := x mod 0x10000.
Definition u32 (x : Z) : Z := x mod 0x100000000.
Definition u64 (x : Z) : Z := x mod 0x10000000000000000.

Definition s8 (x : Z) : Z := if u8 x <? 0x80 then u8 x else u8 x - 0x100.
Definition s16 (x : Z) : Z := if u16 x <? 0x8000 then u16 x else u16 x - 0x10000.
Definition s32 (x : Z) : Z :=
  if u32 x <? 0x80000000 then u32 x else u32 x - 0x100000000.

Definition in_u8 (x : Z) : Prop := 0 <= x < 0x100.
Definition in_u16 (x : Z) : Prop := 0 <= x < 0x10000.
Definition in_u32 (x : Z) : Prop := 0 <= x < 0x100000000.

Declare Scope word_scope.
Delimit Scope word_scope with word.
Infix ".&" := Z.land (at level 40, left associativity) : word_scope.
Infix ".|" := Z.lor (at level 50, left associativity) : word_scope.
Infix ".^" := Z.lxor (at level 45, left associativity) : word_scope.
Infix ".<<" := Z.shiftl (at level 38, left associativity) : word_scope.
Infix ".>>" := Z.shiftr (at level 38, left associativity) : word_scope.
#[global] Open Scope word_scope.

(** [~x] on a 32-bit operand. *)
Definition not32 (x : Z) : Z := u32 (Z.lnot x).

(** The conversion of [(x >> n) & 1] to [bool]. *)
Definition bit (x n : Z) : bool := negb ((x .>> n) .& 1 =? 0).

(** The conversion of a [bool] to an integer. *)
Definition b2z (b : bool) : Z := if b then 1 else 0.

(** * Automation *)

Create HintDb word.
Create Rewrite HintDb word.

Ltac unfold_words :=
  unfold u8, u16, u32, u64, in_u8, in_u16, in_u32 in *.

(** Linear arithmetic with the reductions of the word operations unfolded. *)
Ltac word_lia :=
  unfold_words; Z.div_mod_to_equations; lia.

(** Turns the boolean tests of the code into propositions. *)
Ltac reflect_bools :=
  repeat match goal with
  | H : _ && _ = true |- _ => apply andb_true_iff in H as [? ?]
  | H : _ || _ = false |- _ => apply orb_false_iff in H as [? ?]
  | H : negb _ = true |- _ => apply negb_true_iff in H
  | H : negb _ = false |- _ => apply negb_false_iff in H
  | H : (_ =? _) = true |- _ => apply Z.eqb_eq in H
  | H : (_ =? _) = false |- _ => apply Z.eqb_neq in H
  | H : (_ <? _) = true |- _ => apply Z.ltb_lt in H
  | H : (_ <? _) = false |- _ => apply Z.ltb_ge in H
  | H : (_ <=? _) = true |- _ => apply Z.leb_le in H
  | H : (_ <=? _) = false |- _ => apply Z.leb_gt in H
  end.

(** Splits on the innermost condition the goal or a hypothesis tests. *)
Ltac case_if :=
  match goal with
  | |- context [if ?b then _ else _] =>
      lazymatch b with
      | context [if _ then _ else _] => fail
      | _ => let E := fresh "E" in destruct b eqn:E; reflect_bools
      end
  | _ : context [if ?b then _ else _] |- _ =>
      lazymatch b with
      | context [if _ then _ else _] => fail
      | _ => let E := fresh "E" in destruct b eqn:E; reflect_bools
      end
  end.

(** Two results of the same call are the same value. *)
Ltac ok_inj :=
  repeat match goal with
  | H1 : ?x = Ok ?a, H2 : ?x = Ok ?b |- _ =>
      assert_fails (constr_eq a b);
      let E := fresh "E" in
      assert (a = b) as E by congruence; clear H2; subst
  end.

(** * Lemmas on words *)

Lemma u8_range x : in_u8 (u8 x).
Proof. word_lia. Qed.
Lemma u16_range x : in_u16 (u16 x).
Proof. word_lia. Qed.
Lemma u32_range x : in_u32 (u32 x).
Proof. word_lia. Qed.
#[export] Hint Resolve u8_range u16_range u32_range : word.

Lemma u8_small x : in_u8 x -> u8 x = x.
Proof. intros; apply Z.mod_small; done. Qed.
Lemma u16_small x : in_u16 x -> u16 x = x.
Proof. intros; apply Z.mod_small; done. Qed.
Lemma u32_small x : in_u32 x -> u32 x = x.
Proof. intros; apply Z.mod_small; done. Qed.

Lemma u32_u32 x : u32 (u32 x) = u32 x.
Proof. apply u32_small, u32_range. Qed.

Lemma u32_add_l x y : u32 (u32 x + y) = u32 (x + y).
Proof. apply Zplus_mod_idemp_l. Qed.
Lemma u32_add_r x y : u32 (x + u32 y) = u32 (x + y).
Proof. apply Zplus_mod_idemp_r. Qed.
Lemma u64_u64 x : u64 (u64 x) = u64 x.
Proof. apply Zmod_mod. Qed.
Lemma u64_add_l x y : u64 (u64 x + y) = u64 (x + y).
Proof. apply Zplus_mod_idemp_l. Qed.
#[export] Hint Rewrite u64_u64 u64_add_l : word.
#[export] Hint Rewrite u32_u32 u32_add_l u32_add_r : word.

Lemma in_u8_u32 x : in_u8 x -> in_u32 x.
Proof. word_lia. Qed.
Lemma in_u16_u32 x : in_u16 x -> in_u32 x.
Proof. word_lia. Qed.
#[export] Hint Resolve in_u8_u32 in_u16_u32 : word.

Lemma s32_range x : -0x80000000 <= s32 x < 0x80000000.
Proof. unfold s32. pose proof (u32_range x). case_if; word_lia. Qed.

Lemma s32_u32 x : s32 (u32 x) = s32 x.
Proof. unfold s32. by rewrite u32_u32. Qed.

Lemma u32_s32 x : u32 (s32 x) = u32 x.
Proof. unfold s32. case_if; word_lia. Qed.

Lemma s32_eq x : in_u32 x -> s32 x = if x <? 0x80000000 then x else x - 0x100000000.
Proof. intros. unfold s32. by rewrite u32_small. Qed.

(** Masking bounds the value, whatever the masked number is. *)
Lemma land_range x m : 0 <= m -> 0 <= x .& m <= m.
Proof.
  intros Hm. split.
  - apply Z.land_nonneg. auto.
  - rewrite Z.land_comm. destruct m as [|p|p]; try lia.
    + by rewrite Z.land_0_l.
    + pose proof (Z.land_nonneg (Z.pos p) x) as Hnn.
      assert (Z.pos p = (Z.pos p .& x) + Z.ldiff (Z.pos p) x) as Heq.
      { rewrite Z.add_nocarry_lxor.
        - apply Z.bits_inj'. intros n ?.
          rewrite Z.lxor_spec, Z.land_spec, Z.ldiff_spec.
          by destruct (Z.testbit _ _), (Z.testbit _ _).
        - apply Z.bits_inj'. intros n ?.
          rewrite !Z.land_spec, Z.ldiff_spec, Z.bits_0.
          by destruct (Z.testbit _ _), (Z.testbit _ _). }
      assert (0 <= Z.ldiff (Z.pos p) x) by (apply Z.ldiff_nonneg; lia). lia.
Qed.

Lemma land_mask x k : 0 <= k -> x .& Z.ones k = x mod 2 ^ k.
Proof. apply Z.land_ones. Qed.

Lemma bit_testbit x n : 0 <= n -> bit x n = Z.testbit x n.
Proof.
  intros Hn. unfold bit. change 1 with (Z.ones 1).
  rewrite land_mask by lia. rewrite Z.pow_1_r, Zmod_odd, <-Z.bit0_odd.
  rewrite Z.shiftr_spec by lia. rewrite Z.add_0_l.
  by destruct (Z.testbit x n).
Qed.

(** A tested bit as a quotient. *)
Lemma bit_div x n : 0 <= n -> bit x n = negb ((x / 2 ^ n) mod 2 =? 0).
Proof.
  intros Hn. unfold bit. rewrite Z.shiftr_div_pow2 by done.
  change 1 with (Z.ones 1). by rewrite land_mask by lia.
Qed.

Lemma testbit_msb x : in_u32 x -> Z.testbit x 31 = (0x80000000 <=? x).
Proof.
  intros Hx. rewrite Z.testbit_odd, Z.shiftr_div_pow2 by lia.
  change (2 ^ 31) with 0x80000000. destruct (Z.leb_spec 0x80000000 x).
  - replace (x / 0x80000000) with 1 by word_lia. done.
  - replace (x / 0x80000000) with 0 by word_lia. done.
Qed.

Lemma bit_msb x : in_u32 x -> bit x 31 = (0x80000000 <=? x).
Proof. intros. rewrite bit_testbit by lia. by apply testbit_msb. Qed.

Lemma b2z_bit x n : 0 <= n -> b2z (bit x n) = (x .>> n) .& 1.
Proof.
  intros. unfold bit. pose proof (land_range (x .>> n) 1).
  case_eq ((x .>> n) .& 1 =? 0); intros; reflect_bools; simpl; lia.
Qed.

(** A non-negative number fits in [w] bits when its bits from [w] on are 0. *)
Lemma fits_bits x w :
  0 <= w -> 0 <= x -> (forall n, w <= n -> Z.testbit x n = false) -> x < 2 ^ w.
Proof.
  intros Hw Hx Hb. destruct (Z.eq_dec x 0) as [->|Hne]; [by apply Z.pow_pos_nonneg|].
  apply Z.log2_lt_pow2; [lia|]. destruct (Z.lt_ge_cases (Z.log2 x) w) as [|Hge]; [done|].
  specialize (Hb _ Hge). rewrite Z.bit_log2 in Hb; [done|lia].
Qed.

Lemma testbit_high x w n : 0 <= x < 2 ^ w -> 0 <= w <= n -> Z.testbit x n = false.
Proof.
  intros Hx Hn. rewrite <-(Z.mod_small x (2 ^ w)) by done.
  apply Z.mod_pow2_bits_high. lia.
Qed.

Lemma lxor_u32 x y : in_u32 x -> in_u32 y -> in_u32 (x .^ y).
Proof.
  intros Hx Hy. split.
  - apply Z.lxor_nonneg. word_lia.
  - apply (fits_bits _ 32); [lia| |].
    + apply Z.lxor_nonneg. word_lia.
    + intros n Hn. rewrite Z.lxor_spec.
      by rewrite (testbit_high x 32), (testbit_high y 32) by (unfold in_u32 in *; lia).
Qed.

Lemma lor_u32 x y : in_u32 x -> in_u32 y -> in_u32 (x .| y).
Proof.
  intros Hx Hy. split.
  - apply Z.lor_nonneg. word_lia.
  - apply (fits_bits _ 32); [lia| |].
    + apply Z.lor_nonneg. word_lia.
    + intros n Hn. rewrite Z.lor_spec.
      by rewrite (testbit_high x 32), (testbit_high y 32) by (unfold in_u32 in *; lia).
Qed.

Lemma land_u32 x y : in_u32 y -> in_u32 (x .& y).
Proof. intros Hy. pose proof (land_range x y). word_lia. Qed.

Lemma shiftr_u32 x n : 0 <= n -> in_u32 x -> in_u32 (x .>> n).
Proof.
  intros Hn Hx. rewrite Z.shiftr_div_pow2 by lia.
  assert (0 < 2 ^ n) by (apply Z.pow_pos_nonneg; lia). split.
  - apply Z.div_pos; word_lia.
  - apply Z.div_lt_upper_bound; [lia|]. unfold in_u32 in *. nia.
Qed.
#[export] Hint Resolve lxor_u32 lor_u32 land_u32 : word.

Lemma not32_range x : in_u32 (not32 x).
Proof. apply u32_range. Qed.
#[export] Hint Resolve not32_range : word.

Lemma not32_eq x : in_u32 x -> not32 x = 0xFFFFFFFF - x.
Proof. intros Hx. unfold not32, Z.lnot. word_lia. Qed.

(** Testing a one-bit mask, as the code tests its flag constants. *)
Lemma bit_mask_test x n : 0 <= n -> negb (x .& (1 .<< n) =? 0) = bit x n.
Proof.
  intros Hn. rewrite bit_testbit by done. rewrite Z.shiftl_1_l.
  destruct (Z.testbit x n) eqn:E.
  - apply negb_true_iff, Z.eqb_neq. intros H0.
    assert (Z.testbit (x .& 2 ^ n) n = true) as H1
      by (by rewrite Z.land_spec, E, Z.pow2_bits_true).
    by rewrite H0, Z.bits_0 in H1.
  - apply negb_false_iff, Z.eqb_eq. apply Z.bits_inj'. intros k Hk.
    rewrite Z.land_spec, Z.bits_0. destruct (Z.eqb_spec k n) as [->|Hne]; [by rewrite E|].
    rewrite Z.pow2_bits_false by lia. apply andb_false_r.
Qed.

(** Packing a value next to [n] low bits. *)
Lemma lor_shiftl t r n : 0 <= n -> 0 <= r < 2 ^ n -> t .<< n .| r = t * 2 ^ n + r.
Proof.
  intros Hn Hr. rewrite <-Z.shiftl_mul_pow2 by done. pose proof (Z.add_lor_land (t .<< n) r).
  enough (t .<< n .& r = 0) by lia.
  apply Z.bits_inj'. intros k Hk. rewrite Z.land_spec, Z.bits_0.
  destruct (Z.ltb_spec k n).
  - by rewrite Z.shiftl_spec_low.
  - rewrite (testbit_high r n k) by lia. apply andb_false_r.
Qed.
