(* ===== verification/Text.v ===== *)
(** Numbers as text: what [std::ostream] and [std::printf] print of an unsigned
    number, what [std::stoul] reads, and that reading gives back what was
    printed. *)
From Stdlib Require Export Strings.String Strings.Ascii.
From S2P Require Export Prelude.

#[local] Open Scope string_scope.
#[local] Open Scope Z_scope.

Definition code (c : ascii) : Z := Z.of_nat (nat_of_ascii c).
Definition char (n : Z) : ascii := ascii_of_nat (Z.to_nat n).

(** * Printing *)

(** The digit [d], letters in upper case or not. *)
Definition digit (upper : bool) (d : Z) : ascii :=
  char (if d <? 10 then 48 + d else (if upper then 55 else 87) + d).

(** [v] in base [b] before [acc]; [n] bounds the number of digits. *)
Fixpoint digits (n : nat) (upper : bool) (b v : Z) (acc : string) : string :=
  match n with
  | O => acc
  | S n =>
      let acc := String (digit upper (v mod b)) acc in
      if v <? b then acc else digits n upper b (v / b) acc
  end.

(** 64-bit numbers: [%X] and [std::hex << std::uppercase], [std::hex], [%llu]. *)
Definition HEX (v : Z) : string := digits 64 true 16 v "".
Definition hex (v : Z) : string := digits 64 false 16 v "".
Definition dec (v : Z) : string := digits 64 false 10 v "".

Fixpoint repeat_char (n : nat) (c : ascii) : string :=
  match n with O => "" | S n => String c (repeat_char n c) end.

(** Width [w] with zeros or blanks on the left, or with blanks on the right. *)
Definition zeros (w : nat) (s : string) : string := repeat_char (w - String.length s) "0" ++ s.
Definition right (w : nat) (s : string) : string := repeat_char (w - String.length s) " " ++ s.
Definition left (w : nat) (s : string) : string := s ++ repeat_char (w - String.length s) " ".

(** * Reading *)

Definition is_space (c : ascii) : bool := (code c =? 32) || ((9 <=? code c) && (code c <=? 13)).

Fixpoint skip_spaces (s : string) : string :=
  match s with
  | String c s' => if is_space c then skip_spaces s' else s
  | "" => ""
  end.

(** The value of a digit of base [b]. *)
Definition digit_value (b : Z) (c : ascii) : option Z :=
  let n := code c in
  let d := if (48 <=? n) && (n <=? 57) then n - 48
           else if (97 <=? n) && (n <=? 122) then n - 87
           else if (65 <=? n) && (n <=? 90) then n - 55
           else 99 in
  if d <? b then Some d else None.

(** The number the leading digits make, after [v]. *)
Fixpoint read_digits (b v : Z) (s : string) : Z :=
  match s with
  | String c s' => match digit_value b c with
                   | Some d => read_digits b (v * b + d) s'
                   | None => v
                   end
  | "" => v
  end.

Inductive number_exn : Type := invalid_argument | out_of_range.

(** The digits after the sign: base 16 takes 0x before a digit. *)
Definition magnitude (b : Z) (s : string) : option Z :=
  let plain := match s with
               | String c _ => match digit_value b c with
                               | Some _ => Some (read_digits b 0 s)
                               | None => None
                               end
               | "" => None
               end in
  match s with
  | String c0 (String c1 (String c2 _ as s')) =>
      if (b =? 16) && (code c0 =? 48) && ((code c1 =? 120) || (code c1 =? 88)) then
        match digit_value b c2 with
        | Some _ => Some (read_digits b 0 s')
        | None => plain
        end
      else plain
  | _ => plain
  end.

(** [std::stoul(s, nullptr, b)] and [std::stoull] for a 64-bit result: blanks, a
    sign, digits, anything.  A minus sign negates modulo 2^64. *)
Definition stoul (b : Z) (s : string) : result number_exn Z :=
  let s := skip_spaces s in
  let '(neg, s) := match s with
                   | String c s' => if code c =? 45 then (true, s')
                                    else if code c =? 43 then (false, s') else (false, s)
                   | "" => (false, s)
                   end in
  match magnitude b s with
  | None => Err invalid_argument
  | Some v => if u64 v =? v then Ok (u64 (if neg then - v else v)) else Err out_of_range
  end.

(** * Round trips *)

Lemma code_char n : 0 <= n < 256 -> code (char n) = n.
Proof. intros Hn. unfold code, char. rewrite nat_ascii_embedding by lia. lia. Qed.

Lemma digit_value_digit up b d : 0 <= d < b -> b <= 36 -> digit_value b (digit up d) = Some d.
Proof.
  intros Hd Hb. unfold digit, digit_value.
  destruct (Z.ltb_spec d 10).
  - rewrite code_char by lia. rewrite !(proj2 (Z.leb_le _ _)) by lia. cbn [andb].
    rewrite (proj2 (Z.ltb_lt _ _)) by lia. f_equal. lia.
  - destruct up; rewrite code_char by lia.
    + rewrite (proj2 (Z.leb_le 48 _)), (proj2 (Z.leb_gt _ 57)) by lia.
      rewrite (proj2 (Z.leb_gt 97 _)) by lia. cbn [andb].
      rewrite !(proj2 (Z.leb_le _ _)) by lia. cbn [andb]. rewrite (proj2 (Z.ltb_lt _ _)) by lia. f_equal. lia.
    + rewrite (proj2 (Z.leb_le 48 _)), (proj2 (Z.leb_gt _ 57)) by lia. cbn [andb].
      rewrite !(proj2 (Z.leb_le _ _)) by lia. cbn [andb]. rewrite (proj2 (Z.ltb_lt _ _)) by lia. f_equal. lia.
Qed.

Lemma read_digits_digits n up b v acc w :
  2 <= b <= 36 -> 0 <= v < b ^ Z.of_nat n -> (0 < n)%nat ->
  exists k, 0 <= k /\ v < b ^ k /\
    read_digits b w (digits n up b v acc) = read_digits b (w * b ^ k + v) acc.
Proof.
  intros Hb. revert v acc. induction n as [|n IH]; intros v acc Hv Hn; [lia|]. cbn [digits].
  assert (digit_value b (digit up (v mod b)) = Some (v mod b)) as Hd.
  { apply digit_value_digit; [|lia]. apply Z.mod_pos_bound. lia. }
  destruct (Z.ltb_spec v b) as [Hlt|Hge].
  - exists 1. rewrite Z.pow_1_r. cbn [read_digits]. rewrite Hd, Z.mod_small by lia. split_and!; (done || lia).
  - rewrite Nat2Z.inj_succ, Z.pow_succ_r in Hv by lia.
    assert (0 < n)%nat as Hn' by (destruct n; [cbn in Hv; lia|lia]).
    destruct (IH (v / b) (String (digit up (v mod b)) acc)) as (k & Hk & Hlt & E).
    { split; [apply Z.div_pos; lia|apply Z.div_lt_upper_bound; lia]. }
    { done. }
    exists (Z.succ k). rewrite Z.pow_succ_r by done. split_and!; [lia| |].
    + pose proof (Z.div_mod v b ltac:(lia)). pose proof (Z.mod_pos_bound v b ltac:(lia)). nia.
    + rewrite E. cbn [read_digits]. rewrite Hd. f_equal.
      pose proof (Z.div_mod v b ltac:(lia)). lia.
Qed.

Fixpoint all_digits (b : Z) (s : string) : bool :=
  match s with
  | String c s => match digit_value b c with Some _ => all_digits b s | None => false end
  | "" => true
  end.

Lemma digit_value_code b c d : b <= 16 -> digit_value b c = Some d ->
  (48 <= code c <= 57 \/ 65 <= code c <= 70 \/ 97 <= code c <= 102).
Proof.
  intros Hb. unfold digit_value.
  repeat case_if; intros; simplify_eq; try lia.
Qed.

Lemma magnitude_digits b s :
  b <= 16 -> all_digits b s = true -> s <> "" -> magnitude b s = Some (read_digits b 0 s).
Proof.
  intros Hb Hs Hne. destruct s as [|c0 s]; [done|]. unfold magnitude.
  cbn [all_digits] in Hs. destruct (digit_value b c0) as [d0|] eqn:E0; [|done].
  destruct s as [|c1 s]; [done|]. destruct s as [|c2 s]; [done|].
  cbn [all_digits] in Hs. destruct (digit_value b c1) as [d1|] eqn:E1; [|done].
  apply digit_value_code in E1; [|done].
  rewrite (proj2 (Z.eqb_neq (code c1) 120)), (proj2 (Z.eqb_neq (code c1) 88)) by lia.
  by rewrite andb_false_r.
Qed.

(** Text that starts with a digit has neither blanks nor a sign in front. *)
Lemma stoul_unsigned b c s v d :
  b <= 16 -> digit_value b c = Some d -> magnitude b (String c s) = Some v ->
  0 <= v < 0x10000000000000000 -> stoul b (String c s) = Ok v.
Proof.
  intros Hb Hd Hm Hv. apply digit_value_code in Hd; [|done].
  assert (is_space c = false) as Hsp.
  { unfold is_space. rewrite (proj2 (Z.eqb_neq _ _)) by lia.
    by rewrite (proj2 (Z.leb_gt (code c) 13)), andb_false_r by lia. }
  unfold stoul. cbn [skip_spaces]. rewrite Hsp.
  rewrite (proj2 (Z.eqb_neq (code c) 45)), (proj2 (Z.eqb_neq (code c) 43)) by lia.
  rewrite Hm. unfold u64. by rewrite (Z.mod_small v), Z.eqb_refl by done.
Qed.

Lemma stoul_plain b s v :
  b <= 16 -> all_digits b s = true -> s <> "" -> read_digits b 0 s = v ->
  0 <= v < 0x10000000000000000 -> stoul b s = Ok v.
Proof.
  intros Hb Hs Hne Hr Hv. pose proof (magnitude_digits b s Hb Hs Hne) as Hm. rewrite Hr in Hm.
  destruct s as [|c s]; [done|]. cbn [all_digits] in Hs.
  destruct (digit_value b c) as [d|] eqn:Hd; [|done]. by apply (stoul_unsigned b c s v d).
Qed.

Lemma stoul_prefixed s v :
  all_digits 16 s = true -> s <> "" -> read_digits 16 0 s = v ->
  0 <= v < 0x10000000000000000 -> stoul 16 ("0x" ++ s) = Ok v.
Proof.
  intros Hs Hne Hr Hv. destruct s as [|c s]; [done|]. cbn [all_digits] in Hs.
  destruct (digit_value 16 c) as [d|] eqn:Hd; [|done].
  apply (stoul_unsigned 16 "0" _ v 0); [done|reflexivity| |done].
  change ("0x" ++ String c s) with (String "0" (String "x" (String c s))).
  unfold magnitude. change ((16 =? 16) && (code "0" =? 48) && ((code "x" =? 120) || (code "x" =? 88))) with true.
  cbn [append]. rewrite Hd. by rewrite Hr.
Qed.

Lemma all_digits_digits n up b v acc :
  2 <= b <= 36 -> all_digits b acc = true -> all_digits b (digits n up b v acc) = true.
Proof.
  intros Hb. revert v acc. induction n as [|n IH]; intros v acc Ha; [done|]. cbn [digits].
  assert (all_digits b (String (digit up (v mod b)) acc) = true) as Hc.
  { cbn [all_digits]. rewrite digit_value_digit; [done| |lia]. apply Z.mod_pos_bound. lia. }
  destruct (v <? b); [done|]. by apply IH.
Qed.

Lemma digits_nonempty n up b v acc : (0 < n)%nat \/ acc <> "" -> digits n up b v acc <> "".
Proof.
  revert v acc. induction n as [|n IH]; intros v acc Ha; [destruct Ha; [lia|done]|]. cbn [digits].
  destruct (v <? b); [done|]. apply IH. by right.
Qed.

Lemma digit_value_0 b : 0 < b -> digit_value b "0" = Some 0.
Proof.
  intros Hb. change (digit_value b "0") with (if 0 <? b then Some 0 else None).
  by rewrite (proj2 (Z.ltb_lt 0 b)).
Qed.

Lemma read_digits_zeros b w s : 0 < b -> read_digits b 0 (zeros w s) = read_digits b 0 s.
Proof.
  intros Hb. unfold zeros. induction (w - String.length s)%nat as [|n IH]; [done|].
  cbn [repeat_char append read_digits]. rewrite digit_value_0 by done. apply IH.
Qed.

Lemma all_digits_zeros b w s : 0 < b -> all_digits b s = true -> all_digits b (zeros w s) = true.
Proof.
  intros Hb Hs. unfold zeros. induction (w - String.length s)%nat as [|n IH]; [done|].
  cbn [repeat_char append all_digits]. by rewrite digit_value_0.
Qed.

Lemma zeros_nonempty w s : s <> "" -> zeros w s <> "".
Proof. unfold zeros. destruct (w - String.length s)%nat; done. Qed.

Lemma read_printed up b v :
  2 <= b <= 36 -> 0 <= v < 0x10000000000000000 -> read_digits b 0 (digits 64 up b v "") = v.
Proof.
  intros Hb Hv. destruct (read_digits_digits 64 up b v "" 0) as (k & _ & _ & ->); [done| |lia|].
  - change (Z.of_nat 64) with 64. change 0x10000000000000000 with (2 ^ 64) in Hv.
    pose proof (Z.pow_le_mono_l 2 b 64). lia.
  - cbn [read_digits]. lia.
Qed.

(** A number printed in base [b], padded with zeros, is read back. *)
Lemma stoul_digits up b w v :
  2 <= b <= 16 -> 0 <= v < 0x10000000000000000 -> stoul b (zeros w (digits 64 up b v "")) = Ok v.
Proof.
  intros Hb Hv. apply stoul_plain; [lia| | | |done].
  - apply all_digits_zeros; [lia|]. by apply all_digits_digits; [lia|].
  - apply zeros_nonempty, digits_nonempty. left. lia.
  - rewrite read_digits_zeros by lia. apply read_printed; [lia|done].
Qed.

Lemma stoul_0x up w v :
  0 <= v < 0x10000000000000000 -> stoul 16 ("0x" ++ zeros w (digits 64 up 16 v "")) = Ok v.
Proof.
  intros Hv. apply stoul_prefixed; [| | |done].
  - apply all_digits_zeros; [lia|]. by apply all_digits_digits; [lia|].
  - apply zeros_nonempty, digits_nonempty. left. lia.
  - rewrite read_digits_zeros by lia. apply read_printed; [lia|done].
Qed.
