(* ===== verification/Bytes.v ===== *)
(** Byte arrays and their little-endian reading: what [memcpy] between an
    integer and a byte array does on the little-endian host the simulator
    assumes, and the sub-ranges of an array that it touches. *)
From S2P Require Export Prelude.

Definition is_bytes (l : list Z) : Prop := Forall in_u8 l.

(** The [n] bytes of [v], least significant first. *)
Fixpoint le_bytes (n : nat) (v : Z) : list Z :=
  match n with
  | O => []
  | S n => v mod 0x100 :: le_bytes n (v / 0x100)
  end.

Fixpoint le_value (l : list Z) : Z :=
  match l with
  | [] => 0
  | b :: l => b + 0x100 * le_value l
  end.

(** The [n] elements of [l] from index [i] on. *)
Definition slice {A} (i n : nat) (l : list A) : list A := take n (drop i l).

(** * Encoding *)

Lemma length_le_bytes n v : length (le_bytes n v) = n.
Proof. revert v; induction n; intros v; simpl; auto. Qed.

Lemma le_bytes_bytes n v : is_bytes (le_bytes n v).
Proof.
  revert v; induction n; intros v; constructor; [|apply IHn]. apply u8_range.
Qed.
#[export] Hint Resolve le_bytes_bytes : word.

Lemma pow_256_succ n : 256 ^ Z.of_nat (S n) = 256 * 256 ^ Z.of_nat n.
Proof. rewrite Nat2Z.inj_succ, Z.pow_succ_r; lia. Qed.

Lemma pow_256_pos n : 0 < 256 ^ Z.of_nat n.
Proof. apply Z.pow_pos_nonneg; lia. Qed.

Lemma le_value_le_bytes n v : le_value (le_bytes n v) = v mod 256 ^ Z.of_nat n.
Proof.
  revert v; induction n as [|n IH]; intros v.
  - symmetry. apply Z.mod_1_r.
  - simpl le_value. rewrite IH, pow_256_succ. pose proof (pow_256_pos n).
    rewrite Z.rem_mul_r by lia. lia.
Qed.

Lemma le_value_small n v :
  0 <= v < 256 ^ Z.of_nat n -> le_value (le_bytes n v) = v.
Proof. intros. rewrite le_value_le_bytes. by apply Z.mod_small. Qed.

Lemma le_value_range l :
  is_bytes l -> 0 <= le_value l < 256 ^ Z.of_nat (length l).
Proof.
  induction 1 as [|b l Hb _ IH]; [done|]. simpl length. rewrite pow_256_succ.
  unfold in_u8 in Hb. simpl. lia.
Qed.

Lemma le_bytes_le_value l : is_bytes l -> le_bytes (length l) (le_value l) = l.
Proof.
  induction 1 as [|b l Hb _ IH]; [done|]. simpl. unfold in_u8 in Hb.
  replace ((b + 256 * le_value l) mod 256) with b by (Z.div_mod_to_equations; lia).
  replace ((b + 256 * le_value l) / 256) with (le_value l)
    by (Z.div_mod_to_equations; lia).
  by rewrite IH.
Qed.

Lemma le_bytes_lookup n v k :
  (k < n)%nat -> le_bytes n v !! k = Some (u8 (v / 256 ^ Z.of_nat k)).
Proof.
  revert v k; induction n as [|n IH]; intros v k Hk; [lia|].
  destruct k as [|k]; simpl lookup.
  - simpl. by rewrite Z.div_1_r.
  - simpl. rewrite IH by lia. rewrite pow_256_succ.
    pose proof (pow_256_pos k). by rewrite Z.div_div by lia.
Qed.

(** The low half of a little-endian value is the value of the low bytes. *)
Lemma take_le_bytes n m v : (n <= m)%nat -> take n (le_bytes m v) = le_bytes n v.
Proof.
  revert m v; induction n as [|n IH]; intros [|m] v Hm; try (done || lia).
  simpl. by rewrite IH by lia.
Qed.

(** * Sub-ranges *)

Section Slices.
Context {A : Type}.
Implicit Types l k : list A.

Lemma length_slice i n l : (i + n <= length l)%nat -> length (slice i n l) = n.
Proof. intros. unfold slice. rewrite length_take, length_drop. lia. Qed.

Lemma slice_lookup i n l j :
  (j < n)%nat -> slice i n l !! j = l !! (i + j)%nat.
Proof. intros. unfold slice. by rewrite lookup_take_lt, lookup_drop by lia. Qed.

Lemma slice_ext i n l l' :
  (forall j, (i <= j < i + n)%nat -> l !! j = l' !! j) -> slice i n l = slice i n l'.
Proof.
  intros Hj. apply list_eq. intros j. destruct (decide (j < n)%nat).
  - rewrite !slice_lookup by done. apply Hj. lia.
  - by rewrite !lookup_ge_None_2 by (unfold slice; rewrite length_take; lia).
Qed.

(** Reading back the range that was written. *)
Lemma slice_inserts_same i k l :
  (i + length k <= length l)%nat ->
  slice i (length k) (list_inserts i k l) = k.
Proof.
  intros. apply list_eq. intros j. destruct (decide (j < length k)%nat).
  - rewrite slice_lookup by done. rewrite list_lookup_inserts by lia. f_equal. lia.
  - by rewrite !lookup_ge_None_2 by (unfold slice; rewrite ?length_take; lia).
Qed.

(** A range disjoint from the written one keeps its contents. *)
Lemma slice_inserts_disjoint i k l j n :
  (j + n <= i \/ i + length k <= j)%nat ->
  slice j n (list_inserts i k l) = slice j n l.
Proof.
  intros Hd. apply slice_ext. intros p Hp. destruct Hd.
  - apply list_lookup_inserts_lt. lia.
  - apply list_lookup_inserts_ge. lia.
Qed.
End Slices.

Lemma is_bytes_inserts i k l :
  is_bytes k -> is_bytes l -> is_bytes (list_inserts i k l).
Proof.
  unfold is_bytes. rewrite !Forall_lookup. intros Hk Hl p x Hp.
  apply list_lookup_inserts_Some in Hp as [[? ?]|(? & ? & ?)]; eauto.
Qed.

Lemma is_bytes_slice i n l : is_bytes l -> is_bytes (slice i n l).
Proof. intros. by apply Forall_take, Forall_drop. Qed.

Lemma is_bytes_replicate n b : in_u8 b -> is_bytes (replicate n b).
Proof. intros. by apply Forall_replicate. Qed.
#[export] Hint Resolve is_bytes_inserts is_bytes_slice is_bytes_replicate : word.
