(* ===== verification/Memory.v ===== *)
(** The memory of the simulated MCU: the [IMemoryBus] interface
    (src/src/memory.h) as a class with the laws its clients rely on, and
    [FlatMemoryBus] (src/src/memory.h, src/src/memory.cpp), which implements it. *)
From S2P Require Export Bytes.

(** * The interface *)

(** [BusFaultException] carries the address of the faulting access. *)
Inductive bus_fault : Type :=
  | BusFaultException (address : Z).

(** [IMemoryBus]: the accesses return their value or the changed bus, or throw. *)
Class IMemoryBus (M : Type) : Type := {
  bus_read8 : M -> Z -> result bus_fault Z;
  bus_read16 : M -> Z -> result bus_fault Z;
  bus_read32 : M -> Z -> result bus_fault Z;
  bus_write8 : M -> Z -> Z -> result bus_fault M;
  bus_write16 : M -> Z -> Z -> result bus_fault M;
  bus_write32 : M -> Z -> Z -> result bus_fault M;
  bus_load : M -> Z -> list Z -> result bus_fault M
}.

(** What a client may assume: values have the width of the access, accesses
    keep the bus well formed, and a successful write is read back. *)
Class IMemoryBusLaws (M : Type) `{IMemoryBus M} : Type := {
  bus_ok : M -> Prop;
  bus_read8_range m a v : bus_ok m -> in_u32 a -> bus_read8 m a = Ok v -> in_u8 v;
  bus_read16_range m a v : bus_ok m -> in_u32 a -> bus_read16 m a = Ok v -> in_u16 v;
  bus_read32_range m a v : bus_ok m -> in_u32 a -> bus_read32 m a = Ok v -> in_u32 v;
  bus_write8_ok m a v m' :
    bus_ok m -> in_u32 a -> in_u8 v -> bus_write8 m a v = Ok m' ->
    bus_ok m' /\ bus_read8 m' a = Ok v;
  bus_write16_ok m a v m' :
    bus_ok m -> in_u32 a -> in_u16 v -> bus_write16 m a v = Ok m' ->
    bus_ok m' /\ bus_read16 m' a = Ok v;
  bus_write32_ok m a v m' :
    bus_ok m -> in_u32 a -> in_u32 v -> bus_write32 m a v = Ok m' ->
    bus_ok m' /\ bus_read32 m' a = Ok v;
  bus_load_ok m a l m' :
    bus_ok m -> in_u32 a -> is_bytes l -> bus_load m a l = Ok m' -> bus_ok m'
}.

(** * The memory map *)

Module MemMap.
Definition FLASH_BASE : Z := 0x00000000.
Definition FLASH_SIZE : Z := 0x00008000.
Definition SRAM_BASE : Z := 0x20000000.
Definition SRAM_SIZE : Z := 0x00004000.
Definition TOTAL_SIZE : Z := 0x00010000.
End MemMap.

(** * The flat memory bus *)

Module FlatMemoryBus.

Record t : Type := mk { data_ : list Z }.

Definition SIZE : Z := MemMap.TOTAL_SIZE.

(** The constructor and [clear] both fill the array with zeros. *)
Definition clear : t := mk (replicate (Z.to_nat SIZE) 0).

Definition translate (addr : Z) : result bus_fault Z :=
  if addr <? SIZE then Ok addr
  else if (MemMap.SRAM_BASE <=? addr) &&
          (addr <? MemMap.SRAM_BASE + MemMap.SRAM_SIZE)
  then Ok (MemMap.FLASH_SIZE + (addr - MemMap.SRAM_BASE))
  else Err (BusFaultException addr).

(** Declared and defined in the source, called by none of the accesses. *)
Definition check_bounds (addr access_size : Z) : result bus_fault unit :=
  (flat <- translate addr;;
   if SIZE <? u64 (flat + access_size) then Err (BusFaultException addr)
   else Ok tt)%result.

Definition read8 (m : t) (addr : Z) : result bus_fault Z :=
  (flat <- translate addr;; Ok (data_ m !!! Z.to_nat flat))%result.

Definition read16 (m : t) (addr : Z) : result bus_fault Z :=
  (flat <- translate addr;;
   if SIZE <? u32 (flat + 2) then Err (BusFaultException addr)
   else Ok (le_value (slice (Z.to_nat flat) 2 (data_ m))))%result.

Definition read32 (m : t) (addr : Z) : result bus_fault Z :=
  (flat <- translate addr;;
   if SIZE <? u32 (flat + 4) then Err (BusFaultException addr)
   else Ok (le_value (slice (Z.to_nat flat) 4 (data_ m))))%result.

Definition write8 (m : t) (addr val : Z) : result bus_fault t :=
  (flat <- translate addr;; Ok (mk (<[Z.to_nat flat := val]> (data_ m))))%result.

Definition write16 (m : t) (addr val : Z) : result bus_fault t :=
  (flat <- translate addr;;
   if SIZE <? u32 (flat + 2) then Err (BusFaultException addr)
   else Ok (mk (list_inserts (Z.to_nat flat) (le_bytes 2 val) (data_ m))))%result.

Definition write32 (m : t) (addr val : Z) : result bus_fault t :=
  (flat <- translate addr;;
   if SIZE <? u32 (flat + 4) then Err (BusFaultException addr)
   else Ok (mk (list_inserts (Z.to_nat flat) (le_bytes 4 val) (data_ m))))%result.

Definition load (m : t) (addr : Z) (src : list Z) : result bus_fault t :=
  (flat <- translate addr;;
   if SIZE <? u64 (flat + Z.of_nat (length src)) then Err (BusFaultException addr)
   else Ok (mk (list_inserts (Z.to_nat flat) src (data_ m))))%result.

Definition flash_region (m : t) : list Z :=
  take (Z.to_nat MemMap.FLASH_SIZE) (data_ m).

Definition sram_region (m : t) : list Z :=
  take (Z.to_nat MemMap.SRAM_SIZE) (drop (Z.to_nat MemMap.FLASH_SIZE) (data_ m)).

#[global] Instance bus : IMemoryBus t := {
  bus_read8 := read8; bus_read16 := read16; bus_read32 := read32;
  bus_write8 := write8; bus_write16 := write16; bus_write32 := write32;
  bus_load := load
}.

End FlatMemoryBus.
