(* ===== verification/MemoryProps.v ===== *)
(** Correctness of [FlatMemoryBus]: the laws of [IMemoryBus], what a write
    changes, when an access faults, the SRAM window, and [load]. *)
From S2P Require Export Memory.
Import FlatMemoryBus.

(** The backing array has its full size and holds bytes. *)
Definition mem_wf (m : t) : Prop :=
  length (data_ m) = Z.to_nat SIZE /\ is_bytes (data_ m).

(** The three access widths, to state once what holds of each. *)
Inductive width : Type := W8 | W16 | W32.

Definition width_bytes (w : width) : nat :=
  match w with W8 => 1 | W16 => 2 | W32 => 4 end.

Definition fits (w : width) (v : Z) : Prop := 0 <= v < 256 ^ Z.of_nat (width_bytes w).

Definition read (w : width) : t -> Z -> result bus_fault Z :=
  match w with W8 => read8 | W16 => read16 | W32 => read32 end.

Definition write (w : width) : t -> Z -> Z -> result bus_fault t :=
  match w with W8 => write8 | W16 => write16 | W32 => write32 end.

(** Where an access of [n] bytes is allowed to start. *)
Definition mapped (addr : Z) (n : nat) : bool :=
  (addr + Z.of_nat n <=? 0x10000) || ((0x20000000 <=? addr) && (addr <? 0x20004000)).

(** * Translation *)

Ltac unfold_map :=
  unfold SIZE, MemMap.TOTAL_SIZE, MemMap.FLASH_SIZE, MemMap.SRAM_BASE,
    MemMap.SRAM_SIZE, MemMap.FLASH_BASE in *.

Lemma translate_inv a f :
  in_u32 a -> translate a = Ok f ->
  (a < SIZE /\ f = a) \/
  (0x20000000 <= a < 0x20004000 /\ f = 0x8000 + (a - 0x20000000)).
Proof.
  unfold translate, in_u32. unfold_map. intros Ha.
  repeat case_if; intros [= <-]; reflect_bools; lia.
Qed.

Lemma translate_range a f : in_u32 a -> translate a = Ok f -> 0 <= f < SIZE.
Proof. intros Ha Hf. apply translate_inv in Hf as [[??]|[??]]; unfold_words; unfold_map; lia. Qed.

Lemma translate_err a e : translate a = Err e -> e = BusFaultException a.
Proof. unfold translate. repeat case_if; congruence. Qed.

(** Inside a window the translation is an offset. *)
Lemma translate_offset a k f g :
  in_u32 a -> in_u32 (a + k) -> 0 <= k -> f + k < SIZE ->
  translate a = Ok f -> translate (a + k) = Ok g -> g = f + k.
Proof.
  intros Ha Hak Hk Hf H1 H2.
  apply translate_inv in H1; [|done]. apply translate_inv in H2; [|done].
  unfold_map. lia.
Qed.

(** * One description of the three widths *)

Definition read_n (n : nat) (m : t) (a : Z) : result bus_fault Z :=
  match translate a with
  | Ok f => if SIZE <? f + Z.of_nat n then Err (BusFaultException a)
            else Ok (le_value (slice (Z.to_nat f) n (data_ m)))
  | Err e => Err e
  end.

Definition write_n (n : nat) (m : t) (a v : Z) : result bus_fault t :=
  match translate a with
  | Ok f => if SIZE <? f + Z.of_nat n then Err (BusFaultException a)
            else Ok (mk (list_inserts (Z.to_nat f) (le_bytes n v) (data_ m)))
  | Err e => Err e
  end.

Lemma read_width w m a :
  mem_wf m -> in_u32 a -> read w m a = read_n (width_bytes w) m a.
Proof.
  intros [Hlen _] Ha.
  destruct w; unfold read, read8, read16, read32, read_n, result_bind;
    (destruct (translate a) as [f|e] eqn:Hf; [|done]);
    pose proof (translate_range _ _ Ha Hf) as Hr; unfold_map; simpl width_bytes.
  - case_if; [lia|]. f_equal. unfold slice.
    destruct (lookup_lt_is_Some_2 (data_ m) (Z.to_nat f)) as [b Hb]; [lia|].
    rewrite (list_lookup_total_correct _ _ _ Hb), (drop_S _ _ _ Hb). simpl. lia.
  - by rewrite u32_small by word_lia.
  - by rewrite u32_small by word_lia.
Qed.

Lemma write_width w m a v :
  in_u32 a -> fits w v -> write w m a v = write_n (width_bytes w) m a v.
Proof.
  intros Ha Hv.
  destruct w; unfold write, write8, write16, write32, write_n, result_bind;
    (destruct (translate a) as [f|e] eqn:Hf; [|done]);
    pose proof (translate_range _ _ Ha Hf) as Hr; unfold_map; simpl width_bytes.
  - case_if; [lia|]. simpl. unfold fits in Hv. simpl in Hv. by rewrite Z.mod_small by lia.
  - by rewrite u32_small by word_lia.
  - by rewrite u32_small by word_lia.
Qed.

Lemma write_n_inv n m a v m' :
  in_u32 a -> write_n n m a v = Ok m' ->
  exists f, translate a = Ok f /\ 0 <= f /\ f + Z.of_nat n <= SIZE /\
            m' = mk (list_inserts (Z.to_nat f) (le_bytes n v) (data_ m)).
Proof.
  intros Ha. unfold write_n. destruct (translate a) as [f|] eqn:Hf; [|done].
  pose proof (translate_range _ _ Ha Hf). case_if; intros [= <-]. eauto with lia.
Qed.

Lemma write_n_wf n m a v m' : in_u32 a -> mem_wf m -> write_n n m a v = Ok m' -> mem_wf m'.
Proof.
  intros Ha [Hl Hb] Hw. apply write_n_inv in Hw as (f & _ & _ & _ & ->); [|done].
  split; simpl; [by rewrite length_inserts|]. auto with word.
Qed.

Lemma read_write_n_same n m a v m' :
  mem_wf m -> in_u32 a -> 0 <= v < 256 ^ Z.of_nat n ->
  write_n n m a v = Ok m' -> read_n n m' a = Ok v.
Proof.
  intros [Hl _] Ha Hv Hw. apply write_n_inv in Hw as (f & Hf & H0 & Hle & ->); [|done].
  unfold read_n. rewrite Hf. case_if; [lia|]. simpl. f_equal.
  rewrite <-(length_le_bytes n v) at 1. rewrite slice_inserts_same.
  - by apply le_value_small.
  - rewrite length_le_bytes, Hl. unfold_map. lia.
Qed.

Lemma read_write_n_other n k m a v m' b f g :
  in_u32 a -> in_u32 b -> write_n n m a v = Ok m' ->
  translate a = Ok f -> translate b = Ok g ->
  (g + Z.of_nat k <= f \/ f + Z.of_nat n <= g) ->
  read_n k m' b = read_n k m b.
Proof.
  intros Ha Hb Hw Hf Hg Hd. pose proof (translate_range _ _ Hb Hg).
  apply write_n_inv in Hw as (f' & Hf' & H0 & Hle & ->); [|done].
  ok_inj. unfold read_n. rewrite Hg. case_if; [done|]. simpl.
  by rewrite slice_inserts_disjoint by (rewrite length_le_bytes; lia).
Qed.

(** Byte [k] of what was written. *)
Lemma read_write_n_byte n m a v m' k g :
  mem_wf m -> in_u32 a -> in_u32 (a + Z.of_nat k) -> (k < n)%nat ->
  write_n n m a v = Ok m' -> translate (a + Z.of_nat k) = Ok g ->
  read_n 1 m' (a + Z.of_nat k) = Ok (u8 (v / 256 ^ Z.of_nat k)).
Proof.
  intros [Hl _] Ha Hak Hk Hw Hg. apply write_n_inv in Hw as (f & Hf & H0 & Hle & ->); [|done].
  assert (g = f + Z.of_nat k) as -> by (eapply (translate_offset a); eauto; lia).
  unfold read_n. rewrite Hg. case_if; [lia|]. simpl. f_equal.
  assert (list_inserts (Z.to_nat f) (le_bytes n v) (data_ m) !! Z.to_nat (f + Z.of_nat k)
          = Some (u8 (v / 256 ^ Z.of_nat k))) as Hb.
  { rewrite list_lookup_inserts by (rewrite ?length_le_bytes, ?Hl; unfold_map; lia).
    replace (Z.to_nat (f + Z.of_nat k) - Z.to_nat f)%nat with k by lia.
    by apply le_bytes_lookup. }
  unfold slice. rewrite (drop_S _ _ _ Hb). simpl. lia.
Qed.

Lemma read_n_range n m a v :
  mem_wf m -> in_u32 a -> read_n n m a = Ok v -> 0 <= v < 256 ^ Z.of_nat n.
Proof.
  intros [Hl Hb] Ha. unfold read_n. destruct (translate a) as [f|] eqn:Hf; [|done].
  pose proof (translate_range _ _ Ha Hf). case_if; intros [= <-].
  pose proof (le_value_range (slice (Z.to_nat f) n (data_ m))) as Hr.
  rewrite length_slice in Hr by (rewrite Hl; unfold_map; lia). auto with word.
Qed.

Lemma mapped_translate a n :
  (0 < n)%nat -> in_u32 a ->
  mapped a n = true <->
  exists f, translate a = Ok f /\ 0 <= f /\
            (a < SIZE -> f + Z.of_nat n <= SIZE).
Proof.
  unfold mapped, translate, in_u32. unfold_map. intros Hn Ha. split.
  - intros Hm. apply orb_true_iff in Hm. destruct (a <? 65536) eqn:E; reflect_bools.
    + exists a. split_and!; [done|lia|]. intros _. destruct Hm; reflect_bools; lia.
    + case_if.
      * eexists. split_and!; [reflexivity|lia|lia].
      * apply andb_false_iff in E0. destruct Hm, E0; reflect_bools; lia.
  - intros (f & Hf & H0 & Hle). apply orb_true_iff.
    destruct (a <? 65536) eqn:E; reflect_bools.
    + left. injection Hf as ->. apply Z.leb_le. lia.
    + case_if; [|done]. right. apply andb_true_iff. split; [by apply Z.leb_le|apply Z.ltb_lt; lia].
Qed.

Lemma list_inserts_splice {A} (i : nat) (k l : list A) :
  (i + length k <= length l)%nat ->
  list_inserts i k l = take i l ++ k ++ drop (i + length k) l.
Proof.
  intros Hl. apply list_eq. intros j.
  destruct (decide (j < i)%nat); [|destruct (decide (j < i + length k)%nat)].
  - rewrite list_lookup_inserts_lt by done.
    by rewrite lookup_app_l, lookup_take_lt by (rewrite ?length_take; lia).
  - rewrite list_lookup_inserts by lia.
    rewrite lookup_app_r by (rewrite length_take; lia).
    rewrite length_take, Nat.min_l by lia. by rewrite lookup_app_l by lia.
  - rewrite list_lookup_inserts_ge by lia.
    rewrite lookup_app_r by (rewrite length_take; lia).
    rewrite length_take, Nat.min_l by lia. rewrite lookup_app_r, lookup_drop by lia.
    f_equal. lia.
Qed.

(** * The laws of the interface *)

Lemma read_write_same w m a v m' :
  mem_wf m -> in_u32 a -> fits w v -> write w m a v = Ok m' ->
  mem_wf m' /\ read w m' a = Ok v.
Proof.
  intros Hm Ha Hv Hw. rewrite write_width in Hw by done.
  assert (mem_wf m') as Hm' by (by eapply write_n_wf).
  split; [done|]. rewrite read_width by done. by apply (read_write_n_same _ m).
Qed.

Lemma read_fits w m a v : mem_wf m -> in_u32 a -> read w m a = Ok v -> fits w v.
Proof. intros Hm Ha. rewrite read_width by done. by apply read_n_range. Qed.

Lemma load_inv m a l m' :
  in_u32 a -> load m a l = Ok m' ->
  exists f, translate a = Ok f /\ 0 <= f < SIZE /\
            m' = mk (list_inserts (Z.to_nat f) l (data_ m)).
Proof.
  intros Ha. unfold load, result_bind. destruct (translate a) as [f|] eqn:Hf; [|done].
  pose proof (translate_range _ _ Ha Hf). case_if; intros [= <-]. eauto.
Qed.

Lemma load_wf m a l m' :
  mem_wf m -> in_u32 a -> is_bytes l -> load m a l = Ok m' -> mem_wf m'.
Proof.
  intros [Hl Hb] Ha Hbl Hld. apply load_inv in Hld as (f & _ & _ & ->); [|done].
  split; simpl; [by rewrite length_inserts|]. auto with word.
Qed.

Lemma clear_wf : mem_wf clear.
Proof.
  split; [apply length_replicate|]. apply is_bytes_replicate. split; lia.
Qed.

#[export] Instance bus_laws : IMemoryBusLaws t.
Proof.
  refine {| bus_ok := mem_wf |}; simpl.
  - exact (read_fits W8).
  - exact (read_fits W16).
  - exact (read_fits W32).
  - exact (read_write_same W8).
  - exact (read_write_same W16).
  - exact (read_write_same W32).
  - exact load_wf.
Defined.

(** * Properties *)

(** C18: A successful write of 1, 2 or 4 bytes leaves the memory well formed; a
    read of the same width at the same address returns the written value; each
    byte of the written range that is itself addressable holds the
    corresponding little-endian byte of the value; and a read of any width
    whose bytes lie outside the written range is unchanged. *)
Theorem memory_write_effect w m a v m' :
  mem_wf m -> in_u32 a -> fits w v -> write w m a v = Ok m' ->
  mem_wf m' /\
  read w m' a = Ok v /\
  (forall k, (k < width_bytes w)%nat -> mapped (a + Z.of_nat k) 1 = true ->
     read8 m' (a + Z.of_nat k) = Ok (u8 (v / 256 ^ Z.of_nat k))) /\
  (forall w' b f g, in_u32 b -> translate a = Ok f -> translate b = Ok g ->
     g + Z.of_nat (width_bytes w') <= f \/ f + Z.of_nat (width_bytes w) <= g ->
     read w' m' b = read w' m b).
Proof.
  intros Hm Ha Hv Hw. rewrite write_width in Hw by done.
  assert (mem_wf m') as Hm' by (by eapply write_n_wf).
  split_and!; [done| | |].
  - rewrite read_width by done. by apply (read_write_n_same _ m).
  - intros k Hk Hmap. assert (in_u32 (a + Z.of_nat k)) as Hak.
    { unfold mapped in Hmap. apply orb_true_iff in Hmap as [?|?]; reflect_bools; word_lia. }
    apply mapped_translate in Hmap as (g & Hg & _); [|lia|done].
    change read8 with (read W8). rewrite read_width by done. simpl width_bytes.
    by apply (read_write_n_byte (width_bytes w) m a v m' k g).
  - intros w' b f g Hb Hf Hg Hd. rewrite !read_width by done.
    by apply (read_write_n_other (width_bytes w) _ m a v m' b f g).
Qed.

(** C34: An access of 1, 2 or 4 bytes succeeds, for reads and for writes alike,
    exactly when its first byte is below 64 KB with the whole access inside,
    or in the 16 KB SRAM window; it then touches only bytes of the backing
    array and a read returns a value of the access width.  Any other access
    throws [BusFaultException] with its address.  Alignment plays no role. *)
Theorem memory_fault_iff w m a v :
  mem_wf m -> in_u32 a -> fits w v ->
  if mapped a (width_bytes w)
  then exists f x m',
    translate a = Ok f /\
    0 <= f /\ f + Z.of_nat (width_bytes w) <= Z.of_nat (length (data_ m)) /\
    read w m a = Ok x /\ fits w x /\ write w m a v = Ok m'
  else read w m a = Err (BusFaultException a) /\
       write w m a v = Err (BusFaultException a).
Proof.
  intros Hm Ha Hv. destruct (mapped a (width_bytes w)) eqn:Hmap.
  - apply mapped_translate in Hmap as (f & Hf & H0 & Hle); [|destruct w; simpl; lia|done].
    assert (f + Z.of_nat (width_bytes w) <= SIZE) as Hin.
    { pose proof (translate_inv _ _ Ha Hf). unfold_map. destruct w; simpl in *; lia. }
    rewrite write_width, read_width by done.
    assert (exists x, read_n (width_bytes w) m a = Ok x) as [x Hx].
    { unfold read_n. rewrite Hf. case_if; [lia|]. eauto. }
    exists f, x. unfold write_n. rewrite Hf. case_if; [lia|]. eexists.
    split_and!; [done|done| |done|by eapply read_n_range|done].
    destruct Hm as [-> _]. unfold_map. lia.
  - rewrite write_width, read_width by done. unfold read_n, write_n.
    destruct (translate a) as [f|e] eqn:Hf.
    + case_if; [done|]. exfalso. apply not_true_iff_false in Hmap. apply Hmap.
      apply mapped_translate; [destruct w; simpl; lia|done|]. exists f. pose proof (translate_range _ _ Ha Hf).
      split_and!; [done|lia|lia].
    + apply translate_err in Hf as ->. done.
Qed.


(** The 16 KB SRAM window at 0x2000_0000 is the second half of the flat
    array: the byte at offset [o] of the window is the byte at flat address
    [0x8000 + o] and element [o] of [sram_region]; a byte written through either
    address gives the same memory, in which [sram_region] has that element
    replaced and [flash_region] is unchanged. *)
Theorem sram_window m o v :
  mem_wf m -> 0 <= o < 0x4000 ->
  read8 m (0x20000000 + o) = read8 m (0x8000 + o) /\
  read8 m (0x20000000 + o) = Ok (sram_region m !!! Z.to_nat o) /\
  exists m',
    write8 m (0x20000000 + o) v = Ok m' /\ write8 m (0x8000 + o) v = Ok m' /\
    sram_region m' = <[Z.to_nat o := v]> (sram_region m) /\
    flash_region m' = flash_region m.
Proof.
  intros [Hl _] Ho.
  assert (translate (0x20000000 + o) = Ok (0x8000 + o)) as Ht.
  { unfold translate. unfold_map. case_if; [lia|]. case_if; [f_equal; lia|].
    apply andb_false_iff in E0 as [?|?]; reflect_bools; lia. }
  assert (translate (0x8000 + o) = Ok (0x8000 + o)) as Ht'.
  { unfold translate. unfold_map. case_if; [done|lia]. }
  unfold read8, write8, result_bind. rewrite Ht, Ht'.
  unfold sram_region, flash_region. unfold_map. split_and!; [done| |].
  - f_equal. rewrite !list_lookup_total_alt, lookup_take_lt, lookup_drop by lia.
    do 2 f_equal. lia.
  - eexists. split_and!; [done|done| |]; simpl data_.
    + rewrite drop_insert_ge, take_insert_lt by lia. f_equal. lia.
    + rewrite take_insert_ge by lia. done.
Qed.

(** [load] copies the whole byte string to the translated address and
    leaves every other byte alone, or throws [BusFaultException] with the load
    address exactly when that address is unmapped or the string does not fit
    below 64 KB. *)
Theorem load_effect m a l :
  mem_wf m -> in_u32 a -> is_bytes l -> Z.of_nat (length l) < 2 ^ 63 ->
  match load m a l with
  | Ok m' =>
      mem_wf m' /\
      exists f, translate a = Ok (Z.of_nat f) /\
        Z.of_nat (f + length l) <= SIZE /\
        data_ m' = take f (data_ m) ++ l ++ drop (f + length l) (data_ m)
  | Err e =>
      e = BusFaultException a /\
      (translate a = Err (BusFaultException a) \/
       exists f, translate a = Ok f /\ SIZE < f + Z.of_nat (length l))
  end.
Proof.
  intros Hm Ha Hb Hlen. pose proof (load_wf m a l) as Hwf. revert Hwf.
  unfold load, result_bind. destruct (translate a) as [f|e] eqn:Hf.
  - pose proof (translate_range _ _ Ha Hf) as Hr.
    assert (u64 (f + Z.of_nat (length l)) = f + Z.of_nat (length l)) as ->.
    { apply Z.mod_small. unfold_map. lia. }
    case_if; intros Hwf.
    + split; [done|]. right. by exists f.
    + split; [by apply (Hwf _)|]. exists (Z.to_nat f). split_and!.
      * f_equal. lia.
      * lia.
      * simpl. apply list_inserts_splice. destruct Hm as [-> _]. unfold_map. lia.
  - apply translate_err in Hf as ->. auto.
Qed.

(** * Witnesses *)

Lemma memory_write_effect_witness :
  exists m', write W32 clear 0x20000010 0xDEADBEEF = Ok m' /\
             read W32 m' 0x20000010 = Ok 0xDEADBEEF.
Proof.
  eexists. split; [reflexivity|].
  refine (proj1 (proj2 (memory_write_effect W32 clear 0x20000010 0xDEADBEEF _ _ _ _ _))).
  - exact clear_wf.
  - split; reflexivity || lia.
  - split; reflexivity || lia.
  - reflexivity.
Defined.

Lemma memory_fault_iff_witness :
  mapped 0x10000 2 = false /\ read W16 clear 0x10000 = Err (BusFaultException 0x10000).
Proof.
  split; [reflexivity|].
  refine (proj1 (memory_fault_iff W16 clear 0x10000 7 _ _ _)).
  - exact clear_wf.
  - split; lia.
  - split; reflexivity || lia.
Defined.

Lemma sram_window_witness : read8 clear 0x20000123 = read8 clear 0x8123.
Proof.
  refine (proj1 (sram_window clear 0x123 7 _ _)).
  - exact clear_wf.
  - split; reflexivity || lia.
Defined.

Lemma load_effect_witness :
  exists m', load clear 0x200 [0xAB; 0xCD] = Ok m' /\ mem_wf m'.
Proof.
  eexists. split; [reflexivity|].
  refine (proj1 (load_effect clear 0x200 [0xAB; 0xCD] _ _ _ _)).
  - exact clear_wf.
  - split; reflexivity || lia.
  - repeat constructor; lia.
  - reflexivity.
Defined.
