(* ===== verification/Cpu.v ===== *)
(** The Cortex-M0 core (src/src/cpu.h, src/src/cpu.cpp): registers, flags, the
    decoder and one definition per instruction group, over any [IMemoryBus].
    A step is a function on the machine that also says whether it threw; what
    was changed before a throw stays changed, as in the source. *)
From S2P Require Export Memory.

(** * State *)

Inductive sim_exn : Type :=
  | BusFault (e : bus_fault)
  | UndefinedInstructionException (opcode : Z).

Record APSR : Type := mkAPSR {
  flag_N : bool; flag_Z : bool; flag_C : bool; flag_V : bool
}.

Definition update_nz (f : APSR) (res : Z) : APSR :=
  {| flag_N := bit res 31; flag_Z := res =? 0;
     flag_C := flag_C f; flag_V := flag_V f |}.

Definition set_C (b : bool) (f : APSR) : APSR :=
  mkAPSR (flag_N f) (flag_Z f) b (flag_V f).
Definition set_V (b : bool) (f : APSR) : APSR :=
  mkAPSR (flag_N f) (flag_Z f) (flag_C f) b.

(** [RegIndex] for the registers with a role of their own. *)
Definition SP : Z := 13.
Definition LR : Z := 14.
Definition PC : Z := 15.

Definition RESET_SP : Z := 0x2000.
Definition RESET_PC : Z := 0x0001.

(** [trace_cb_] is the callback pointer: [true] when one is set. *)
Record CortexM0 : Type := mkCpu {
  regs_ : list Z;
  apsr_ : APSR;
  cycles_ : Z;
  halted_ : bool;
  bl_offset_ : Z;
  trace_cb_ : bool
}.

Definition with_regs (f : list Z -> list Z) (c : CortexM0) : CortexM0 :=
  mkCpu (f (regs_ c)) (apsr_ c) (cycles_ c) (halted_ c) (bl_offset_ c) (trace_cb_ c).
Definition with_apsr (f : APSR -> APSR) (c : CortexM0) : CortexM0 :=
  mkCpu (regs_ c) (f (apsr_ c)) (cycles_ c) (halted_ c) (bl_offset_ c) (trace_cb_ c).
Definition with_cycles (f : Z -> Z) (c : CortexM0) : CortexM0 :=
  mkCpu (regs_ c) (apsr_ c) (f (cycles_ c)) (halted_ c) (bl_offset_ c) (trace_cb_ c).
Definition with_halted (b : bool) (c : CortexM0) : CortexM0 :=
  mkCpu (regs_ c) (apsr_ c) (cycles_ c) b (bl_offset_ c) (trace_cb_ c).
Definition with_bl_offset (v : Z) (c : CortexM0) : CortexM0 :=
  mkCpu (regs_ c) (apsr_ c) (cycles_ c) (halted_ c) v (trace_cb_ c).

Definition reg (c : CortexM0) (r : Z) : Z := regs_ c !!! Z.to_nat r.

Definition set_reg (r v : Z) (c : CortexM0) : CortexM0 :=
  with_regs <[Z.to_nat r := v]> c.

Definition set_trace (cb : bool) (c : CortexM0) : CortexM0 :=
  mkCpu (regs_ c) (apsr_ c) (cycles_ c) (halted_ c) (bl_offset_ c) cb.

(** [reset] leaves the trace callback as it is. *)
Definition reset (c : CortexM0) : CortexM0 :=
  {| regs_ := <[15%nat := RESET_PC .& not32 1]>
                (<[13%nat := RESET_SP]> (replicate 16 0));
     apsr_ := mkAPSR false false false false;
     cycles_ := 0; halted_ := false; bl_offset_ := 0;
     trace_cb_ := trace_cb_ c |}.

(** The constructor: zero registers, no callback, then [reset]. *)
Definition new_cpu : CortexM0 :=
  reset (mkCpu (replicate 16 0) (mkAPSR false false false false) 0 false 0 false).

(** * Arithmetic helpers *)

Definition WORD_BITS : Z := 32.
Definition MSB_POS : Z := 31.
Definition BL_SIGN_SHIFT : Z := 21.

Definition add32 (a b : Z) (cin : bool) : Z * bool :=
  let res64 := u64 (a + b + b2z cin) in
  (u32 res64, negb (res64 .>> WORD_BITS =? 0)).

Definition sub32 (a b : Z) : Z * bool := add32 a (not32 b) true.

(** Arithmetic shift right of a register value seen as [int32_t]. *)
Definition asr32 (x n : Z) : Z := u32 (s32 x .>> n).

Definition condition_passes (f : APSR) (cond : Z) : bool :=
  let cond := cond .& 0xF in
  if cond =? 0x0 then flag_Z f
  else if cond =? 0x1 then negb (flag_Z f)
  else if cond =? 0x2 then flag_C f
  else if cond =? 0x3 then negb (flag_C f)
  else if cond =? 0x4 then flag_N f
  else if cond =? 0x5 then negb (flag_N f)
  else if cond =? 0x6 then flag_V f
  else if cond =? 0x7 then negb (flag_V f)
  else if cond =? 0x8 then flag_C f && negb (flag_Z f)
  else if cond =? 0x9 then negb (flag_C f) || flag_Z f
  else if cond =? 0xA then eqb (flag_N f) (flag_V f)
  else if cond =? 0xB then negb (eqb (flag_N f) (flag_V f))
  else if cond =? 0xC then negb (flag_Z f) && eqb (flag_N f) (flag_V f)
  else if cond =? 0xD then flag_Z f || negb (eqb (flag_N f) (flag_V f))
  else if cond =? 0xE then true
  else false.

(** * The machine and its monad *)

(** A core, the memory its bus reference points to, and the calls made so far
    to the trace callback as (address, opcode), oldest first. *)
Record machine (M : Type) : Type := mkMachine {
  cpu : CortexM0;
  mem_ : M;
  trace_log : list (Z * Z)
}.
Arguments mkMachine {M} _ _ _.
Arguments cpu {M} _.
Arguments mem_ {M} _.
Arguments trace_log {M} _.

Definition exec (M A : Type) : Type := machine M -> result sim_exn A * machine M.

Definition ret {M A} (a : A) : exec M A := fun s => (Ok a, s).
Definition throw {M A} (e : sim_exn) : exec M A := fun s => (Err e, s).
Definition bind {M A B} (c : exec M A) (k : A -> exec M B) : exec M B :=
  fun s => match c s with
           | (Ok a, s') => k a s'
           | (Err e, s') => (Err e, s')
           end.

Declare Scope exec_scope.
Delimit Scope exec_scope with exec.
Notation "x <- c ;; k" := (bind c (fun x => k))
  (at level 20, c at level 99, k at level 200) : exec_scope.
Notation "c >> k" := (bind c (fun _ => k))
  (at level 98, right associativity) : exec_scope.
#[global] Open Scope exec_scope.

Section Core.
Context {M : Type} `{IMemoryBus M}.
Local Abbreviation exec := (exec M).

Definition gets {A} (f : CortexM0 -> A) : exec A := fun s => (Ok (f (cpu s)), s).
Definition modify (f : CortexM0 -> CortexM0) : exec unit :=
  fun s => (Ok tt, mkMachine (f (cpu s)) (mem_ s) (trace_log s)).

Definition get_reg (r : Z) : exec Z := gets (fun c => reg c r).
Definition put_reg (r v : Z) : exec unit := modify (set_reg r v).
Definition put_C (b : bool) : exec unit := modify (with_apsr (set_C b)).
Definition put_V (b : bool) : exec unit := modify (with_apsr (set_V b)).
Definition put_nz (res : Z) : exec unit := modify (with_apsr (fun f => update_nz f res)).
Definition halt : exec unit := modify (with_halted true).

(** Calls on the bus: a fault is thrown on, a successful write changes it. *)
Definition mem_read (rd : M -> Z -> result bus_fault Z) (addr : Z) : exec Z :=
  fun s => match rd (mem_ s) addr with
           | Ok v => (Ok v, s)
           | Err e => (Err (BusFault e), s)
           end.
Definition mem_write (wr : M -> Z -> Z -> result bus_fault M) (addr v : Z) : exec unit :=
  fun s => match wr (mem_ s) addr v with
           | Ok m => (Ok tt, mkMachine (cpu s) m (trace_log s))
           | Err e => (Err (BusFault e), s)
           end.

Definition pc : exec Z := get_reg PC.
Definition set_pc (v : Z) : exec unit := put_reg PC (v .& not32 1).
Definition advance_pc : exec unit := v <- get_reg PC;; put_reg PC (u32 (v + 2)).

Fixpoint for_each (l : list Z) (f : Z -> exec unit) : exec unit :=
  match l with
  | [] => ret tt
  | i :: l => f i >> for_each l f
  end.

(** * Instruction groups *)

(** Format 1: LSL, LSR, ASR by an immediate. *)
Definition exec_shift_imm (instr : Z) : exec unit :=
  let op := (instr .>> 11) .& 0x3 in
  let imm5 := (instr .>> 6) .& 0x1F in
  let rs := (instr .>> 3) .& 0x7 in
  let rd := instr .& 0x7 in
  val <- get_reg rs;;
  result <- (if op =? 0 then
               if imm5 =? 0 then ret val
               else put_C (bit val (WORD_BITS - imm5)) >> ret (u32 (val .<< imm5))
             else if op =? 1 then
               if imm5 =? 0 then put_C (bit val MSB_POS) >> ret 0
               else put_C (bit val (imm5 - 1)) >> ret (val .>> imm5)
             else if op =? 2 then
               if imm5 =? 0 then put_C (bit val MSB_POS) >> ret (asr32 val MSB_POS)
               else put_C (bit val (imm5 - 1)) >> ret (asr32 val imm5)
             else throw (UndefinedInstructionException instr));;
  put_nz result >> put_reg rd result.

(** Format 2: ADD, SUB with a register or a 3-bit immediate. *)
Definition exec_add_sub (instr : Z) : exec unit :=
  let I := bit instr 10 in
  let sub := bit instr 9 in
  let rn := (instr .>> 6) .& 0x7 in
  let rs := (instr .>> 3) .& 0x7 in
  let rd := instr .& 0x7 in
  a <- get_reg rs;;
  b <- (if I then ret rn else get_reg rn);;
  let '(result, carry) := if sub then sub32 a b else add32 a b false in
  put_C carry >>
  put_V (if sub then bit ((a .^ b) .& (a .^ result)) MSB_POS
         else bit ((a .^ result) .& (b .^ result)) MSB_POS) >>
  put_nz result >> put_reg rd result.

(** Format 3: MOV, CMP, ADD, SUB with an 8-bit immediate. *)
Definition exec_imm8 (instr : Z) : exec unit :=
  let op := (instr .>> 11) .& 0x3 in
  let rd := (instr .>> 8) .& 0x7 in
  let imm8 := instr .& 0xFF in
  if op =? 0 then put_nz imm8 >> put_reg rd imm8
  else if op =? 1 then
    a <- get_reg rd;;
    let '(res, carry) := sub32 a imm8 in
    put_C carry >> put_V (bit ((a .^ imm8) .& (a .^ res)) MSB_POS) >> put_nz res
  else if op =? 2 then
    a <- get_reg rd;;
    let '(res, carry) := add32 a imm8 false in
    put_C carry >> put_V (bit ((a .^ res) .& (imm8 .^ res)) MSB_POS) >>
    put_nz res >> put_reg rd res
  else
    a <- get_reg rd;;
    let '(res, carry) := sub32 a imm8 in
    put_C carry >> put_V (bit ((a .^ imm8) .& (a .^ res)) MSB_POS) >>
    put_nz res >> put_reg rd res.

(** Format 4, shifts by a register: LSL, LSR, ASR, ROR. *)
Definition exec_alu_shift (op rd a b : Z) : exec unit :=
  let sh := b .& 0xFF in
  result <-
    (if op =? 0x2 then
       (if 0 <? sh then
          put_C (if sh <? WORD_BITS then bit a (WORD_BITS - sh)
                 else if sh =? WORD_BITS then negb (a .& 1 =? 0) else false)
        else ret tt) >>
       ret (if WORD_BITS <=? sh then 0 else u32 (a .<< sh))
     else if op =? 0x3 then
       (if 0 <? sh then
          put_C (if sh <? WORD_BITS then bit a (sh - 1)
                 else if sh =? WORD_BITS then bit a MSB_POS else false)
        else ret tt) >>
       ret (if WORD_BITS <=? sh then 0 else a .>> sh)
     else if op =? 0x4 then
       (if 0 <? sh then
          put_C (if sh <? WORD_BITS then bit a (sh - 1) else bit a MSB_POS)
        else ret tt) >>
       ret (if WORD_BITS <=? sh then asr32 a MSB_POS else asr32 a sh)
     else
       let raw := sh in
       let sh := raw .& 0x1F in
       if raw =? 0 then ret a
       else if sh =? 0 then put_C (bit a MSB_POS) >> ret a
       else put_C (bit a (sh - 1)) >>
            ret ((a .>> sh) .| u32 (a .<< (WORD_BITS - sh))));;
  put_nz result >> put_reg rd result.

(** Format 4, arithmetic: ADC, SBC, NEG, CMP, CMN. *)
Definition exec_alu_arith (op rd a b : Z) : exec unit :=
  if op =? 0x5 then
    cin <- gets (fun c => flag_C (apsr_ c));;
    let '(res, c) := add32 a b cin in
    put_C c >> put_V (bit ((a .^ res) .& (b .^ res)) MSB_POS) >>
    put_nz res >> put_reg rd res
  else if op =? 0x6 then
    cin <- gets (fun c => flag_C (apsr_ c));;
    let '(res, c) := add32 a (not32 b) cin in
    put_C c >> put_V (bit ((a .^ res) .& (not32 b .^ res)) MSB_POS) >>
    put_nz res >> put_reg rd res
  else if op =? 0x9 then
    let '(res, c) := sub32 0 b in
    put_C c >> put_V (bit (b .& res) MSB_POS) >> put_nz res >> put_reg rd res
  else if op =? 0xA then
    let '(res, c) := sub32 a b in
    put_C c >> put_V (bit ((a .^ b) .& (a .^ res)) MSB_POS) >> put_nz res
  else if op =? 0xB then
    let '(res, c) := add32 a b false in
    put_C c >> put_V (bit ((a .^ res) .& (b .^ res)) MSB_POS) >> put_nz res
  else ret tt.

(** Format 4: the dispatcher and the bitwise operations and MUL. *)
Definition exec_alu (instr : Z) : exec unit :=
  let op := (instr .>> 6) .& 0xF in
  let rs := (instr .>> 3) .& 0x7 in
  let rd := instr .& 0x7 in
  a <- get_reg rd;;
  b <- get_reg rs;;
  if ((0x2 <=? op) && (op <=? 0x4)) || (op =? 0x7) then exec_alu_shift op rd a b
  else if (op =? 0x5) || (op =? 0x6) || ((0x9 <=? op) && (op <=? 0xB))
  then exec_alu_arith op rd a b
  else
    let finish (result : Z) := put_nz result >> put_reg rd result in
    if op =? 0x0 then finish (a .& b)
    else if op =? 0x1 then finish (a .^ b)
    else if op =? 0x8 then put_nz (a .& b)
    else if op =? 0xC then finish (a .| b)
    else if op =? 0xD then finish (u32 (a * b))
    else if op =? 0xE then finish (a .& not32 b)
    else if op =? 0xF then finish (not32 b)
    else ret tt.

(** Format 5: ADD, CMP, MOV on all registers; BX and BLX. *)
Definition exec_hi_reg_bx (instr : Z) : exec unit :=
  let op := (instr .>> 8) .& 0x3 in
  let rs := (instr .>> 3) .& 0xF in
  let rd := (((instr .>> 7) .& 0x1) .<< 3) .| (instr .& 0x7) in
  val_s <- get_reg rs;;
  val_d <- get_reg rd;;
  if op =? 0 then put_reg rd (u32 (val_d + val_s))
  else if op =? 1 then
    let '(res, carry) := sub32 val_d val_s in
    put_C carry >> put_V (bit ((val_d .^ val_s) .& (val_d .^ res)) MSB_POS) >>
    put_nz res
  else if op =? 2 then put_reg rd val_s
  else
    (if (op =? 3) && bit instr 7
     then p <- pc;; put_reg LR (p .| 1)
     else ret tt) >>
    set_pc (val_s .& not32 1) >>
    (if negb (bit val_s 0) then halt else ret tt).

(** Format 6: LDR from a PC-relative address. *)
Definition exec_ldr_pc (instr : Z) : exec unit :=
  let rd := (instr .>> 8) .& 0x7 in
  let off := (instr .& 0xFF) .<< 2 in
  p <- pc;;
  let base := u32 (p + 2) .& not32 3 in
  v <- mem_read bus_read32 (u32 (base + off));;
  put_reg rd v.

(** The access that ends formats 7 and 9. *)
Definition load_store (L B : bool) (rd addr : Z) : exec unit :=
  if L then
    v <- (if B then mem_read bus_read8 addr else mem_read bus_read32 addr);;
    put_reg rd v
  else
    v <- get_reg rd;;
    if B then mem_write bus_write8 addr (v .& 0xFF) else mem_write bus_write32 addr v.

(** Format 7: LDR, STR, LDRB, STRB with a register offset. *)
Definition exec_ldr_str_reg (instr : Z) : exec unit :=
  let L := bit instr 11 in
  let B := bit instr 10 in
  let ro := (instr .>> 6) .& 0x7 in
  let rb := (instr .>> 3) .& 0x7 in
  let rd := instr .& 0x7 in
  vb <- get_reg rb;;
  vo <- get_reg ro;;
  load_store L B rd (u32 (vb + vo)).

(** Format 9: LDR, STR, LDRB, STRB with a 5-bit immediate offset. *)
Definition exec_ldr_str_imm (instr : Z) : exec unit :=
  let B := bit instr 12 in
  let L := bit instr 11 in
  let off5 := (instr .>> 6) .& 0x1F in
  let rb := (instr .>> 3) .& 0x7 in
  let rd := instr .& 0x7 in
  let off := if B then off5 else off5 .<< 2 in
  vb <- get_reg rb;;
  load_store L B rd (u32 (vb + off)).

(** Format 10: LDRH, STRH with a 5-bit immediate offset. *)
Definition exec_ldrh_strh_imm (instr : Z) : exec unit :=
  let L := bit instr 11 in
  let off5 := (instr .>> 6) .& 0x1F in
  let rb := (instr .>> 3) .& 0x7 in
  let rd := instr .& 0x7 in
  vb <- get_reg rb;;
  let addr := u32 (vb + (off5 .<< 1)) in
  if L then v <- mem_read bus_read16 addr;; put_reg rd v
  else v <- get_reg rd;; mem_write bus_write16 addr (v .& 0xFFFF).

(** Format 11: LDR, STR relative to SP. *)
Definition exec_ldr_str_sp (instr : Z) : exec unit :=
  let L := bit instr 11 in
  let rd := (instr .>> 8) .& 0x7 in
  let off := (instr .& 0xFF) .<< 2 in
  sp <- get_reg SP;;
  let addr := u32 (sp + off) in
  if L then v <- mem_read bus_read32 addr;; put_reg rd v
  else v <- get_reg rd;; mem_write bus_write32 addr v.

(** Format 12: ADD of an offset to SP or to the aligned PC. *)
Definition exec_add_sp_pc (instr : Z) : exec unit :=
  let sp := bit instr 11 in
  let rd := (instr .>> 8) .& 0x7 in
  let imm := (instr .& 0xFF) .<< 2 in
  base <- (if sp then get_reg SP else p <- pc;; ret (u32 (p + 2) .& not32 3));;
  put_reg rd (u32 (base + imm)).

(** Format 13: ADD and SUB on SP. *)
Definition exec_sp_ops (instr : Z) : exec unit :=
  let sub := bit instr 7 in
  let imm := (instr .& 0x7F) .<< 2 in
  sp <- get_reg SP;;
  put_reg SP (if sub then u32 (sp - imm) else u32 (sp + imm)).

(** [regs_[13] -= 4; mem_.write32(regs_[13], regs_[r])] *)
Definition push_reg (r : Z) : exec unit :=
  sp <- get_reg SP;;
  put_reg SP (u32 (sp - 4)) >>
  sp' <- get_reg SP;;
  v <- get_reg r;;
  mem_write bus_write32 sp' v.

(** [regs_[r] = mem_.read32(regs_[13]); regs_[13] += 4] *)
Definition pop_reg (r : Z) : exec unit :=
  sp <- get_reg SP;;
  v <- mem_read bus_read32 sp;;
  put_reg r v >>
  sp' <- get_reg SP;;
  put_reg SP (u32 (sp' + 4)).

(** Whether register [i] is in the list of a block transfer. *)
Definition in_rlist (rlist i : Z) : bool := negb (rlist .& (1 .<< i) =? 0).

(** Format 14: PUSH and POP. *)
Definition exec_push_pop (instr : Z) : exec unit :=
  let L := bit instr 11 in
  let R := bit instr 8 in
  let rlist := instr .& 0xFF in
  if negb L then
    (if R then push_reg LR else ret tt) >>
    for_each [7; 6; 5; 4; 3; 2; 1; 0]
      (fun i => if in_rlist rlist i then push_reg i else ret tt)
  else
    for_each [0; 1; 2; 3; 4; 5; 6; 7]
      (fun i => if in_rlist rlist i then pop_reg i else ret tt) >>
    (if R then
       sp <- get_reg SP;;
       new_pc <- mem_read bus_read32 sp;;
       sp' <- get_reg SP;;
       put_reg SP (u32 (sp' + 4)) >>
       set_pc (new_pc .& not32 1) >>
       (if negb (bit new_pc 0) then halt else ret tt)
     else ret tt).

(** The loop of format 15 over the registers [l], from address [addr]; returns
    the address after the last transfer. *)
Fixpoint ldm_stm_loop (L : bool) (rlist : Z) (l : list Z) (addr : Z) : exec Z :=
  match l with
  | [] => ret addr
  | i :: l =>
      if in_rlist rlist i then
        (if L then v <- mem_read bus_read32 addr;; put_reg i v
         else v <- get_reg i;; mem_write bus_write32 addr v) >>
        ldm_stm_loop L rlist l (u32 (addr + 4))
      else ldm_stm_loop L rlist l addr
  end.

(** Format 15: LDM and STM. *)
Definition exec_ldm_stm (instr : Z) : exec unit :=
  let L := bit instr 11 in
  let rb := (instr .>> 8) .& 0x7 in
  let rlist := instr .& 0xFF in
  addr <- get_reg rb;;
  addr <- ldm_stm_loop L rlist [0; 1; 2; 3; 4; 5; 6; 7] addr;;
  if negb (in_rlist rlist rb) || L then put_reg rb addr else ret tt.

(** Format 16: conditional branch. *)
Definition exec_branch_cond (instr : Z) : exec unit :=
  let cond := (instr .>> 8) .& 0xF in
  let soff8 := s8 (instr .& 0xFF) in
  p <- pc;;
  let target := u32 (p + 2 + u32 (soff8 .<< 1)) in
  f <- gets apsr_;;
  if condition_passes f cond then set_pc target else ret tt.

(** Format 18: unconditional branch. *)
Definition exec_branch (instr : Z) : exec unit :=
  let off11 := s32 ((instr .& 0x7FF) .<< BL_SIGN_SHIFT) .>> 20 in
  p <- pc;;
  set_pc (u32 (p + 2 + u32 off11)).

(** Format 19: the two halves of BL. *)
Definition exec_bl_upper (instr : Z) : exec unit :=
  let off := s32 ((instr .& 0x7FF) .<< BL_SIGN_SHIFT) .>> 9 in
  p <- pc;;
  modify (with_bl_offset (u32 (s32 p + 2 + off))).

Definition exec_bl_lower (instr : Z) : exec unit :=
  let off_lo := (instr .& 0x7FF) .<< 1 in
  p <- pc;;
  put_reg LR (p .| 1) >>
  off <- gets bl_offset_;;
  set_pc (u32 (off + off_lo)).

(** * Decode, step, run *)

Definition execute (instr : Z) : exec unit :=
  let top5 := (instr .>> 11) .& 0x1F in
  let top4 := (instr .>> 12) .& 0x0F in
  let top6 := (instr .>> 10) .& 0x3F in
  if top5 <=? 0x02 then exec_shift_imm instr
  else if top5 =? 0x03 then exec_add_sub instr
  else if (0x04 <=? top5) && (top5 <=? 0x07) then exec_imm8 instr
  else if top6 =? 0x10 then exec_alu instr
  else if top6 =? 0x11 then exec_hi_reg_bx instr
  else if top5 =? 0x09 then exec_ldr_pc instr
  else if (top4 =? 0x5) && negb (bit instr 9) then exec_ldr_str_reg instr
  else if (top4 =? 0x6) || (top4 =? 0x7) then exec_ldr_str_imm instr
  else if top4 =? 0x8 then exec_ldrh_strh_imm instr
  else if top4 =? 0x9 then exec_ldr_str_sp instr
  else if top4 =? 0xA then exec_add_sp_pc instr
  else if top4 =? 0xB then
    let top8 := u8 (instr .>> 8) in
    if top8 =? 0xB0 then exec_sp_ops instr
    else if top8 =? 0xBF then ret tt
    else if top8 =? 0xBE then ret tt
    else exec_push_pop instr
  else if top4 =? 0xC then exec_ldm_stm instr
  else if (top4 =? 0xD) && negb ((instr .>> 8) .& 0xF =? 0xF) then exec_branch_cond instr
  else if top5 =? 0x1C then exec_branch instr
  else if top5 =? 0x1E then exec_bl_upper instr
  else if top5 =? 0x1F then exec_bl_lower instr
  else throw (UndefinedInstructionException instr).

Definition fetch : exec Z :=
  addr <- pc;;
  instr <- mem_read bus_read16 addr;;
  advance_pc >> ret instr.

(** The callback is called with the address and the opcode (its third argument
    is always the empty string). *)
Definition trace (cur_pc instr : Z) : exec unit :=
  fun s => if trace_cb_ (cpu s)
           then (Ok tt, mkMachine (cpu s) (mem_ s) (trace_log s ++ [(cur_pc, instr)]))
           else (Ok tt, s).

Definition step : exec bool :=
  h <- gets halted_;;
  if (h : bool) then ret false
  else
    cur_pc <- pc;;
    instr <- fetch;;
    trace cur_pc instr >>
    execute instr >>
    modify (with_cycles (fun n => u64 (n + 1))) >>
    h' <- gets halted_;;
    ret (negb h').

(** The loop of [run] with [n] iterations left of the bound. *)
Fixpoint run_loop (n : nat) (steps : Z) : exec Z :=
  match n with
  | O => ret steps
  | S n => b <- step;; if (b : bool) then run_loop n (steps + 1) else ret steps
  end.

Definition run (max_steps : Z) : exec Z := run_loop (Z.to_nat max_steps) 0.

End Core.
