(* ===== verification/CpuFacts.v ===== *)
(** The machine invariant and the lemmas about the core that its properties
    share: a program logic for [exec], which exceptions each group throws, and
    instruction fields as divisions. *)
From Stdlib Require Import ZifyBool.
From S2P Require Export Cpu.

(** * Invariant *)

Definition cpu_wf (c : CortexM0) : Prop :=
  length (regs_ c) = 16%nat /\ Forall in_u32 (regs_ c) /\
  0 <= cycles_ c < 2 ^ 64 /\ in_u32 (bl_offset_ c).

Definition machine_wf {M} `{IMemoryBusLaws M} (s : machine M) : Prop :=
  cpu_wf (cpu s) /\ bus_ok (mem_ s).

Definition is_bus_fault (e : sim_exn) : Prop :=
  match e with BusFault _ => True | UndefinedInstructionException _ => False end.

Lemma reset_wf c : cpu_wf (reset c).
Proof.
  split; [done|]. split; [|unfold in_u32; simpl; lia].
  change (regs_ (reset c)) with [0; 0; 0; 0; 0; 0; 0; 0; 0; 0; 0; 0; 0; 0x2000; 0; 0].
  repeat constructor; lia.
Qed.

Lemma reg_range c r : cpu_wf c -> in_u32 (reg c r).
Proof.
  intros (_ & Hr & _). unfold reg. rewrite list_lookup_total_alt.
  destruct (regs_ c !! Z.to_nat r) as [v|] eqn:E; simpl; [|done].
  by eapply Forall_lookup_1.
Qed.

Lemma set_reg_wf r v c : in_u32 v -> cpu_wf c -> cpu_wf (set_reg r v c).
Proof.
  intros Hv (Hl & Hr & Hc). split; [by simpl; rewrite length_insert|].
  split; [by apply Forall_insert|done].
Qed.

Lemma reg_set_same c r v :
  length (regs_ c) = 16%nat -> 0 <= r < 16 -> reg (set_reg r v c) r = v.
Proof.
  intros Hl Hr. unfold reg, set_reg, with_regs; simpl.
  rewrite list_lookup_total_insert_eq; [done|lia].
Qed.

Lemma reg_set_other c r r' v :
  0 <= r -> 0 <= r' -> r <> r' -> reg (set_reg r v c) r' = reg c r'.
Proof.
  intros. unfold reg, set_reg, with_regs; simpl.
  by rewrite list_lookup_total_insert_ne by lia.
Qed.

Lemma length_set_reg r v c : length (regs_ (set_reg r v c)) = length (regs_ c).
Proof. apply length_insert. Qed.

(** * Instruction fields *)

Lemma field_div x k n :
  0 <= k -> 0 <= n -> (x .>> k) .& Z.ones n = x / 2 ^ k mod 2 ^ n.
Proof. intros. by rewrite land_mask, Z.shiftr_div_pow2. Qed.

(** Rewrites the bit fields of the code as divisions and remainders. *)
Ltac fields :=
  change 0x3 with (Z.ones 2) in *; change 0x7 with (Z.ones 3) in *;
  change 0xF with (Z.ones 4) in *; change 0x1F with (Z.ones 5) in *;
  change 0x3F with (Z.ones 6) in *; change 0xFF with (Z.ones 8) in *;
  change 0x7F with (Z.ones 7) in *; change 0x7FF with (Z.ones 11) in *;
  rewrite ?field_div, ?land_mask in * by lia.

(** * A program logic *)

Section Triples.
Context {M : Type} `{IMemoryBusLaws M}.

(** [c] keeps the invariant whether it returns or throws; what it returns
    satisfies [Q] and what it throws satisfies [X]. *)
Definition keeps_exn {A} (X : sim_exn -> Prop) (c : exec M A) (Q : A -> Prop) : Prop :=
  forall s, machine_wf s ->
    machine_wf (snd (c s)) /\
    match fst (c s) with Ok a => Q a | Err e => X e end.

(** The usual case: only bus faults are thrown. *)
Definition keeps {A} : exec M A -> (A -> Prop) -> Prop := keeps_exn is_bus_fault.

Lemma keeps_ret {A} (a : A) (Q : A -> Prop) : Q a -> keeps (ret a) Q.
Proof. intros Ha s Hs. by split. Qed.

Lemma keeps_bind {A B} (c : exec M A) (k : A -> exec M B) Q R :
  keeps c Q -> (forall a, Q a -> keeps (k a) R) -> keeps (bind c k) R.
Proof.
  intros Hc Hk s Hs. specialize (Hc s Hs). unfold bind.
  destruct (c s) as [[a|e] s']; simpl in *; [|tauto].
  apply Hk; tauto.
Qed.

Lemma keeps_weaken {A} (c : exec M A) (Q R : A -> Prop) :
  keeps c Q -> (forall a, Q a -> R a) -> keeps c R.
Proof.
  intros Hc HQ s Hs. destruct (Hc s Hs) as [Hw Hr]. split; [done|].
  destruct (fst (c s)); auto.
Qed.

Lemma keeps_get_reg r : keeps (get_reg r) in_u32.
Proof. intros s Hs. split; [done|]. apply reg_range, Hs. Qed.

Lemma keeps_put_reg r v : in_u32 v -> keeps (put_reg r v) (fun _ => True).
Proof. intros Hv s [Hc Hm]. split; [split; [by apply set_reg_wf|done]|done]. Qed.

Lemma keeps_gets {A} (f : CortexM0 -> A) : keeps (gets f) (fun _ => True).
Proof. intros s Hs. by split. Qed.

Lemma keeps_modify f :
  (forall c, cpu_wf c -> cpu_wf (f c)) -> keeps (modify f) (fun _ => True).
Proof. intros Hf s [Hc Hm]. split; [split; [by apply Hf|done]|done]. Qed.

Lemma keeps_put_C b : keeps (put_C b) (fun _ => True).
Proof. by apply keeps_modify. Qed.
Lemma keeps_put_V b : keeps (put_V b) (fun _ => True).
Proof. by apply keeps_modify. Qed.
Lemma keeps_put_nz v : keeps (put_nz v) (fun _ => True).
Proof. by apply keeps_modify. Qed.
Lemma keeps_halt : keeps halt (fun _ => True).
Proof. by apply keeps_modify. Qed.

Lemma keeps_read32 a : in_u32 a -> keeps (mem_read bus_read32 a) in_u32.
Proof.
  intros Ha s [Hc Hm]. unfold mem_read. destruct (bus_read32 _ _) eqn:E; simpl.
  - split; [done|]. exact (bus_read32_range _ _ _ Hm Ha E).
  - by split.
Qed.
Lemma keeps_read16 a : in_u32 a -> keeps (mem_read bus_read16 a) in_u16.
Proof.
  intros Ha s [Hc Hm]. unfold mem_read. destruct (bus_read16 _ _) eqn:E; simpl.
  - split; [done|]. exact (bus_read16_range _ _ _ Hm Ha E).
  - by split.
Qed.
Lemma keeps_read8 a : in_u32 a -> keeps (mem_read bus_read8 a) in_u8.
Proof.
  intros Ha s [Hc Hm]. unfold mem_read. destruct (bus_read8 _ _) eqn:E; simpl.
  - split; [done|]. exact (bus_read8_range _ _ _ Hm Ha E).
  - by split.
Qed.

Lemma keeps_write32 a v :
  in_u32 a -> in_u32 v -> keeps (mem_write bus_write32 a v) (fun _ => True).
Proof.
  intros Ha Hv s [Hc Hm]. unfold mem_write. destruct (bus_write32 _ _ _) eqn:E; simpl.
  - split; [|done]. split; [done|]. exact (proj1 (bus_write32_ok _ _ _ _ Hm Ha Hv E)).
  - by split.
Qed.
Lemma keeps_write16 a v :
  in_u32 a -> in_u16 v -> keeps (mem_write bus_write16 a v) (fun _ => True).
Proof.
  intros Ha Hv s [Hc Hm]. unfold mem_write. destruct (bus_write16 _ _ _) eqn:E; simpl.
  - split; [|done]. split; [done|]. exact (proj1 (bus_write16_ok _ _ _ _ Hm Ha Hv E)).
  - by split.
Qed.
Lemma keeps_write8 a v :
  in_u32 a -> in_u8 v -> keeps (mem_write bus_write8 a v) (fun _ => True).
Proof.
  intros Ha Hv s [Hc Hm]. unfold mem_write. destruct (bus_write8 _ _ _) eqn:E; simpl.
  - split; [|done]. split; [done|]. exact (proj1 (bus_write8_ok _ _ _ _ Hm Ha Hv E)).
  - by split.
Qed.

Lemma keeps_set_pc v : in_u32 v -> keeps (set_pc v) (fun _ => True).
Proof. intros. apply keeps_put_reg. auto with word. Qed.

Lemma keeps_for_each l (f : Z -> exec M unit) :
  (forall i, In i l -> keeps (f i) (fun _ => True)) ->
  keeps (for_each l f) (fun _ => True).
Proof.
  induction l as [|i l IH]; intros Hf; simpl; [by apply keeps_ret|].
  eapply keeps_bind; [apply Hf; by left|]. intros _ _. apply IH.
  intros j Hj. apply Hf. by right.
Qed.

End Triples.

(** * Every instruction group keeps the invariant *)

Create HintDb keeps.
#[export] Hint Resolve keeps_get_reg keeps_put_reg keeps_put_C keeps_put_V
  keeps_put_nz keeps_halt keeps_set_pc keeps_gets
  keeps_read32 keeps_read16 keeps_read8
  keeps_write32 keeps_write16 keeps_write8 : keeps.

Lemma add32_range a b cin : in_u32 (fst (add32 a b cin)).
Proof. apply u32_range. Qed.
Lemma sub32_range a b : in_u32 (fst (sub32 a b)).
Proof. apply u32_range. Qed.
Lemma asr32_range x n : in_u32 (asr32 x n).
Proof. apply u32_range. Qed.
Lemma zero_u32 : in_u32 0.
Proof. split; lia. Qed.
Lemma land_small_u32 x m : 0 <= m < 0x100000000 -> in_u32 (x .& m).
Proof. intros Hm. pose proof (land_range x m). unfold in_u32. lia. Qed.
Lemma land_u8 x : in_u8 (x .& 0xFF).
Proof. pose proof (land_range x 0xFF). unfold in_u8. lia. Qed.
Lemma land_u16 x : in_u16 (x .& 0xFFFF).
Proof. pose proof (land_range x 0xFFFF). unfold in_u16. lia. Qed.
Lemma lor1_u32 p : in_u32 p -> in_u32 (p .| 1).
Proof. intros. apply lor_u32; [done|split; lia]. Qed.
#[export] Hint Resolve add32_range sub32_range asr32_range zero_u32 land_u8
  land_u16 lor1_u32 : word.

(** One step of the structural proof of [keeps]; [is_word] closes the ranges. *)
Ltac is_word :=
  lazymatch goal with
  | |- in_u32 (if ?b then _ else _) => destruct b; is_word
  | |- in_u32 (_ .>> (?x .& ?m)) =>
      apply shiftr_u32; [apply (land_range x m); lia|is_word]
  | |- in_u32 (_ .| _) => apply lor_u32; is_word
  | |- in_u32 (_ .& _) =>
      first [apply land_small_u32; lia | apply land_u32; is_word]
  | |- _ => first [solve [auto with word] | unfold_words; lia]
  end.

Ltac keeps_step :=
  match goal with
  | |- keeps (bind _ _) _ => eapply keeps_bind; [|intros ? ?]
  | |- keeps (if ?b then _ else _) _ => let E := fresh "E" in destruct b eqn:E
  | |- keeps (let '(_, _) := sub32 ?a ?b in _) _ =>
      let Hr := fresh in pose proof (sub32_range a b) as Hr;
      destruct (sub32 a b); simpl fst in Hr
  | |- keeps (let '(_, _) := add32 ?a ?b ?c in _) _ =>
      let Hr := fresh in pose proof (add32_range a b c) as Hr;
      destruct (add32 a b c); simpl fst in Hr
  | |- keeps (ret ?x) _ =>
      first [ apply (keeps_ret x (fun _ => True)); exact I
            | apply (keeps_ret x in_u32); is_word | apply keeps_ret; solve [auto] ]
  | |- keeps pc _ => apply keeps_get_reg
  | |- keeps (get_reg _) _ => apply keeps_get_reg
  | |- keeps (put_reg _ _) _ => apply keeps_put_reg; is_word
  | |- keeps (set_pc _) _ => apply keeps_set_pc; is_word
  | |- keeps (mem_read _ _) _ => first [apply keeps_read32 | apply keeps_read16 | apply keeps_read8]; is_word
  | |- keeps (mem_write _ _ _) _ =>
      first [apply keeps_write32 | apply keeps_write16 | apply keeps_write8]; is_word
  | |- keeps _ _ => solve [eauto with keeps]
  end.

Section GroupsKeep.
Context {M : Type} `{IMemoryBusLaws M}.
Abbreviation ok c := (keeps (M := M) c (fun _ : unit => True)).

Lemma keeps_add_sub instr : ok (exec_add_sub instr).
Proof.
  unfold exec_add_sub. keeps_step; [keeps_step|].
  eapply (keeps_bind _ _ in_u32); [repeat keeps_step|intros b Hb].
  destruct (bit instr 9).
  - repeat keeps_step.
  - repeat keeps_step.
Qed.

Lemma keeps_imm8 instr : ok (exec_imm8 instr).
Proof. unfold exec_imm8. repeat keeps_step. Qed.

Lemma keeps_alu_arith op rd a b : ok (exec_alu_arith op rd a b).
Proof. unfold exec_alu_arith. repeat keeps_step. Qed.

(** The immediate shifts throw only for the encoding of format 2. *)
Lemma keeps_shift_imm instr :
  (instr .>> 11) .& 0x3 <> 3 -> ok (exec_shift_imm instr).
Proof.
  intros Hop. unfold exec_shift_imm. keeps_step; [keeps_step|].
  pose proof (land_range (instr .>> 11) 3) as Hr.
  eapply (keeps_bind _ _ in_u32); [|intros; repeat keeps_step].
  repeat keeps_step. reflect_bools. lia.
Qed.

Lemma keeps_alu_shift op rd a b : in_u32 a -> ok (exec_alu_shift op rd a b).
Proof.
  intros Ha. unfold exec_alu_shift.
  eapply (keeps_bind _ _ in_u32); [|intros; repeat keeps_step].
  repeat keeps_step.
Qed.

Lemma keeps_alu instr : ok (exec_alu instr).
Proof.
  unfold exec_alu. keeps_step; [keeps_step|]. keeps_step; [keeps_step|].
  keeps_step; [by apply keeps_alu_shift|]. keeps_step; [apply keeps_alu_arith|].
  repeat keeps_step.
Qed.

Lemma keeps_hi_reg_bx instr : ok (exec_hi_reg_bx instr).
Proof. unfold exec_hi_reg_bx. repeat keeps_step. Qed.

Lemma keeps_ldr_pc instr : ok (exec_ldr_pc instr).
Proof. unfold exec_ldr_pc. repeat keeps_step. Qed.

Lemma keeps_load_store L B rd addr : in_u32 addr -> ok (load_store L B rd addr).
Proof.
  intros Ha. unfold load_store. destruct L.
  - eapply (keeps_bind _ _ in_u32); [|intros; repeat keeps_step].
    destruct B; [|keeps_step]. eapply keeps_weaken; [by apply keeps_read8|].
    auto with word.
  - repeat keeps_step.
Qed.

Lemma keeps_ldr_str_reg instr : ok (exec_ldr_str_reg instr).
Proof. unfold exec_ldr_str_reg. repeat keeps_step. apply keeps_load_store. is_word. Qed.

Lemma keeps_ldr_str_imm instr : ok (exec_ldr_str_imm instr).
Proof. unfold exec_ldr_str_imm. repeat keeps_step. apply keeps_load_store. is_word. Qed.

Lemma keeps_ldrh_strh_imm instr : ok (exec_ldrh_strh_imm instr).
Proof. unfold exec_ldrh_strh_imm. repeat keeps_step. Qed.

Lemma keeps_ldr_str_sp instr : ok (exec_ldr_str_sp instr).
Proof. unfold exec_ldr_str_sp. repeat keeps_step. Qed.

Lemma keeps_add_sp_pc instr : ok (exec_add_sp_pc instr).
Proof. unfold exec_add_sp_pc. repeat keeps_step. Qed.

Lemma keeps_sp_ops instr : ok (exec_sp_ops instr).
Proof. unfold exec_sp_ops. repeat keeps_step. Qed.

Lemma keeps_push_reg r : ok (push_reg r).
Proof. unfold push_reg. repeat keeps_step. Qed.

Lemma keeps_pop_reg r : ok (pop_reg r).
Proof. unfold pop_reg. repeat keeps_step. Qed.

Lemma keeps_push_pop instr : ok (exec_push_pop instr).
Proof.
  unfold exec_push_pop.
  destruct (negb (bit instr 11)); (eapply keeps_bind; [|intros _ _]).
  - destruct (bit instr 8); [apply keeps_push_reg|by apply keeps_ret].
  - apply keeps_for_each. intros i _.
    destruct (in_rlist _ i); [apply keeps_push_reg|by apply keeps_ret].
  - apply keeps_for_each. intros i _.
    destruct (in_rlist _ i); [apply keeps_pop_reg|by apply keeps_ret].
  - repeat keeps_step.
Qed.

Lemma keeps_ldm_stm_loop L rlist l addr :
  in_u32 addr -> keeps (M := M) (ldm_stm_loop L rlist l addr) in_u32.
Proof.
  revert addr. induction l as [|i l IH]; intros addr Ha; simpl; [by apply keeps_ret|].
  destruct (in_rlist rlist i); [|by apply IH].
  eapply (keeps_bind _ _ (fun _ => True)); [repeat keeps_step|].
  intros _ _. apply IH. auto with word.
Qed.

Lemma keeps_ldm_stm instr : ok (exec_ldm_stm instr).
Proof.
  unfold exec_ldm_stm. keeps_step; [keeps_step|].
  eapply (keeps_bind _ _ in_u32); [by apply keeps_ldm_stm_loop|].
  intros a' Ha. repeat keeps_step.
Qed.

Lemma keeps_branch_cond instr : ok (exec_branch_cond instr).
Proof. unfold exec_branch_cond. repeat keeps_step. Qed.

Lemma keeps_branch instr : ok (exec_branch instr).
Proof. unfold exec_branch. repeat keeps_step. Qed.

Lemma keeps_bl_upper instr : ok (exec_bl_upper instr).
Proof.
  unfold exec_bl_upper. keeps_step; [keeps_step|]. apply keeps_modify.
  intros c (Hl & Hr & Hc & _). repeat split; try done; try apply Hc; apply u32_range.
Qed.

Lemma keeps_bl_lower instr : ok (exec_bl_lower instr).
Proof. unfold exec_bl_lower. repeat keeps_step. Qed.

End GroupsKeep.

(** * Decoding *)

(** The 16-bit encodings that no group claims: format 7 with bit 9 set,
    1101_1111 and 11101. *)
Definition undefined_encoding (instr : Z) : bool :=
  ((0x5000 <=? instr) && (instr <? 0x6000) && bit instr 9) ||
  ((0xDF00 <=? instr) && (instr <? 0xE000)) ||
  ((0xE800 <=? instr) && (instr <? 0xF000)).

(** The three dispatch fields of a 16-bit instruction are quotients. *)
Lemma top_fields instr :
  in_u16 instr ->
  (instr .>> 11) .& 0x1F = instr / 0x800 /\ (instr .>> 12) .& 0x0F = instr / 0x1000 /\
  (instr .>> 10) .& 0x3F = instr / 0x400 /\ u8 (instr .>> 8) = instr / 0x100 /\
  (instr .>> 8) .& 0xF = (instr / 0x100) mod 0x10 /\
  (instr .>> 11) .& 0x3 = (instr / 0x800) mod 4.
Proof.
  intros Hi. unfold in_u16 in Hi. rewrite (Z.shiftr_div_pow2 instr 8) by lia. fields.
  change (2 ^ 11) with 0x800; change (2 ^ 12) with 0x1000; change (2 ^ 10) with 0x400;
    change (2 ^ 8) with 0x100; change (2 ^ 5) with 0x20; change (2 ^ 4) with 0x10;
    change (2 ^ 6) with 0x40; change (2 ^ 2) with 4.
  split_and!; try done; word_lia.
Qed.

Section Decode.
Context {M : Type} `{IMemoryBusLaws M}.

Lemma execute_undefined instr (s : machine M) :
  in_u16 instr -> undefined_encoding instr = true ->
  execute instr s = (Err (UndefinedInstructionException instr), s).
Proof.
  intros Hi Hu. unfold undefined_encoding in Hu. unfold execute. cbv zeta.
  destruct (top_fields _ Hi) as (-> & -> & -> & -> & -> & _).
  unfold in_u16 in Hi.
  repeat match goal with
  | |- (if ?b then _ else _) _ = _ =>
      replace b with false
        by (symmetry; apply not_true_iff_false; intros Hb;
            Z.div_mod_to_equations; lia)
  end. done.
Qed.

Lemma keeps_execute instr :
  in_u16 instr -> undefined_encoding instr = false ->
  keeps (M := M) (execute instr) (fun _ => True).
Proof.
  intros Hi Hu. unfold undefined_encoding in Hu.
  pose proof (keeps_shift_imm (M := M) instr) as Hshift. unfold execute. cbv zeta.
  destruct (top_fields _ Hi) as (-> & -> & -> & -> & -> & Hop). rewrite Hop in Hshift.
  unfold in_u16 in Hi.
  repeat match goal with
  | |- keeps (if ?b then _ else _) _ => destruct b eqn:?
  end; auto using keeps_add_sub, keeps_imm8, keeps_alu, keeps_hi_reg_bx, keeps_ldr_pc,
    keeps_ldr_str_reg, keeps_ldr_str_imm, keeps_ldrh_strh_imm, keeps_ldr_str_sp,
    keeps_add_sp_pc, keeps_sp_ops, keeps_push_pop, keeps_ldm_stm, keeps_branch_cond,
    keeps_branch, keeps_bl_upper, keeps_bl_lower.
  - apply Hshift. Z.div_mod_to_equations; lia.
  - by apply keeps_ret.
  - by apply keeps_ret.
  - exfalso. Z.div_mod_to_equations; lia.
Qed.
End Decode.

(** * Computing with the monad *)

Lemma bind_get_reg {M B} r (k : Z -> exec M B) s :
  bind (get_reg r) k s = k (reg (cpu s) r) s.
Proof. done. Qed.

Lemma bind_gets {M A B} (f : CortexM0 -> A) (k : A -> exec M B) s :
  bind (gets f) k s = k (f (cpu s)) s.
Proof. done. Qed.

Lemma bind_ret {M A B} (a : A) (k : A -> exec M B) s : bind (ret a) k s = k a s.
Proof. done. Qed.

Lemma bind_modify {M B} f (k : unit -> exec M B) s :
  bind (modify f) k s = k tt (mkMachine (f (cpu s)) (mem_ s) (trace_log s)).
Proof. done. Qed.

Lemma bind_bind {M A B C} (c : exec M A) (f : A -> exec M B) (g : B -> exec M C) s :
  bind (bind c f) g s = bind c (fun a => bind (f a) g) s.
Proof. unfold bind. by destruct (c s) as [[|] ?]. Qed.

(** * Steps and runs *)

Section Steps.
Context {M : Type} `{IMemoryBusLaws M}.

(** What a step may throw: a bus fault, or the undefined instruction fetched. *)
Definition step_exn (e : sim_exn) : Prop :=
  match e with
  | BusFault _ => True
  | UndefinedInstructionException op => in_u16 op /\ undefined_encoding op = true
  end.

Lemma keeps_exn_weaken {A} (X Y : sim_exn -> Prop) (c : exec M A) Q :
  keeps_exn X c Q -> (forall e, X e -> Y e) -> keeps_exn Y c Q.
Proof.
  intros Hc HX s Hs. destruct (Hc s Hs) as [Hw Hr]. split; [done|].
  destruct (fst (c s)); auto.
Qed.

Lemma keeps_exn_bind {A B} X (c : exec M A) (k : A -> exec M B) Q R :
  keeps_exn X c Q -> (forall a, Q a -> keeps_exn X (k a) R) -> keeps_exn X (bind c k) R.
Proof.
  intros Hc Hk s Hs. specialize (Hc s Hs). unfold bind.
  destruct (c s) as [[a|e] s']; simpl in *; [|tauto]. apply Hk; tauto.
Qed.

Lemma keeps_lift {A} (c : exec M A) Q : keeps c Q -> keeps_exn step_exn c Q.
Proof. intros Hc. eapply keeps_exn_weaken; [exact Hc|]. by intros []. Qed.

Lemma keeps_fetch : keeps (M := M) fetch in_u16.
Proof.
  unfold fetch. keeps_step; [keeps_step|]. keeps_step; [by apply keeps_read16|].
  keeps_step; [unfold advance_pc; repeat keeps_step|]. by apply keeps_ret.
Qed.

Lemma keeps_trace p i : keeps (M := M) (trace p i) (fun _ => True).
Proof. intros s Hs. unfold trace. destruct (trace_cb_ (cpu s)); by split. Qed.

Lemma keeps_any_execute instr :
  in_u16 instr -> keeps_exn (M := M) step_exn (execute instr) (fun _ => True).
Proof.
  intros Hi. destruct (undefined_encoding instr) eqn:Hu.
  - intros s Hs. by rewrite execute_undefined.
  - by apply keeps_lift, keeps_execute.
Qed.

Lemma keeps_count : keeps (M := M) (modify (with_cycles (fun n => u64 (n + 1)))) (fun _ => True).
Proof.
  apply keeps_modify. intros c (Hl & Hr & _ & Hb). split; [done|]. split; [done|].
  split; [|done]. apply Z.mod_pos_bound. lia.
Qed.

Lemma keeps_any_step : keeps_exn (M := M) step_exn step (fun _ => True).
Proof.
  unfold step. eapply keeps_exn_bind; [apply keeps_lift, keeps_gets|intros h _].
  destruct h; [by apply keeps_lift, keeps_ret|].
  eapply keeps_exn_bind; [apply keeps_lift, keeps_get_reg|intros p Hp].
  eapply keeps_exn_bind; [apply keeps_lift, keeps_fetch|intros i Hi].
  eapply keeps_exn_bind; [apply keeps_lift, keeps_trace|intros _ _].
  eapply keeps_exn_bind; [by apply keeps_any_execute|intros _ _].
  eapply keeps_exn_bind; [apply keeps_lift, keeps_count|intros _ _].
  eapply keeps_exn_bind; [apply keeps_lift, keeps_gets|intros h _].
  by apply keeps_lift, keeps_ret.
Qed.

Lemma keeps_run_loop n k :
  keeps_exn (M := M) step_exn (run_loop n k) (fun r => k <= r <= k + Z.of_nat n).
Proof.
  revert k. induction n as [|n IH]; intros k; simpl run_loop.
  - apply keeps_lift, keeps_ret. lia.
  - eapply keeps_exn_bind; [apply keeps_any_step|]. intros [|] _.
    + intros s Hs. destruct (IH (k + 1) s Hs) as [Hw Hr]. split; [done|].
      destruct (fst _); [lia|done].
    + apply keeps_lift, keeps_ret. lia.
Qed.

(** A halted core does nothing. *)
Lemma step_halted (s : machine M) : halted_ (cpu s) = true -> step s = (Ok false, s).
Proof. intros Hh. unfold step, bind, gets. by rewrite Hh. Qed.

(** A step that returns says whether the core is still running. *)
Lemma step_returns (s s' : machine M) b :
  halted_ (cpu s) = false -> step s = (Ok b, s') -> b = negb (halted_ (cpu s')).
Proof.
  intros Hh. unfold step, bind, gets. rewrite Hh. unfold pc, get_reg, gets, ret.
  destruct (fetch s) as [[i|] s1]; [|done].
  destruct (trace _ _ s1) as [[[]|] s2]; [|done].
  destruct (execute i s2) as [[[]|] s3]; [|done].
  simpl. by intros [= <- <-].
Qed.

(** The step count a run starts from only shifts its result. *)
Definition add_steps (k : Z) (r : result sim_exn Z * machine M) :
    result sim_exn Z * machine M :=
  match r with
  | (Ok n, s) => (Ok (k + n), s)
  | (Err e, s) => (Err e, s)
  end.

Lemma run_loop_shift n k (s : machine M) :
  run_loop n k s = add_steps k (run_loop n 0 s).
Proof.
  revert k s. induction n as [|n IH]; intros k s; simpl run_loop.
  - unfold ret. simpl. by rewrite Z.add_0_r.
  - unfold bind. destruct (step s) as [[[|]|e] s']; simpl; try done.
    + rewrite (IH (k + 1)), (IH 1). destruct (run_loop n 0 s') as [[r|e] s'']; simpl; [|done].
      do 2 f_equal. lia.
    + unfold ret. by rewrite Z.add_0_r.
Qed.

Lemma run_loop_app a b (s : machine M) :
  run_loop (a + b) 0 s =
  match run_loop a 0 s with
  | (Ok n, s') => if n =? Z.of_nat a then add_steps n (run_loop b 0 s') else (Ok n, s')
  | (Err e, s') => (Err e, s')
  end.
Proof.
  revert s. induction a as [|a IH]; intros s.
  - simpl. by destruct (run_loop b 0 s) as [[?|?] ?].
  - cbn [Nat.add run_loop]. unfold bind. destruct (step s) as [[[|]|e] s']; try done.
    + rewrite !(run_loop_shift _ (0 + 1)), IH.
      destruct (run_loop a 0 s') as [[n|e] s'']; simpl; [|done].
      replace (0 + 1 + n =? Z.of_nat (S a)) with (n =? Z.of_nat a) by lia.
      destruct (n =? Z.of_nat a); [|done].
      destruct (run_loop b 0 s'') as [[?|?] ?]; simpl; [|done]. do 2 f_equal. lia.
Qed.

(** A run that stops early has halted; one that does not, has not, unless it
    started halted. *)
Lemma run_loop_halted n (s s' : machine M) r :
  run_loop n 0 s = (Ok r, s') ->
  (r < Z.of_nat n -> halted_ (cpu s') = true) /\
  (halted_ (cpu s) = false -> r = Z.of_nat n -> halted_ (cpu s') = false).
Proof.
  revert s s' r. induction n as [|n IH]; intros s s' r.
  - simpl. unfold ret. intros [= <- <-]. split; [lia|done].
  - cbn [run_loop]. unfold bind. destruct (step s) as [[b|e] s1] eqn:Hs; [|done].
    destruct (halted_ (cpu s)) eqn:Hh.
    { rewrite step_halted in Hs by done. injection Hs as <- <-. unfold ret.
      intros [= <- <-]. done. }
    pose proof (step_returns _ _ _ Hh Hs) as Hb. destruct b.
    + rewrite run_loop_shift. destruct (run_loop n 0 s1) as [[r1|e] s2] eqn:Hr; simpl; [|done].
      intros [= <- <-]. apply IH in Hr as [H1 H2].
      split; intros; [apply H1; lia|apply H2; [by apply negb_true_iff|lia]].
    + unfold ret. intros [= <- <-]. split; [intros _; by apply negb_false_iff|lia].
Qed.

End Steps.
