(* ===== verification/CpuArith.v ===== *)
(** The data-processing instructions against the pseudocode of the ARMv6-M
    architecture: AddWithCarry for the arithmetic groups and the comparison
    conditions, Shift_C for the shift groups. *)
From Stdlib Require Import ZifyBool.
From S2P Require Export CpuFacts.

(** * Reference definitions *)

(** AddWithCarry(x, y, carry_in): the result, the carry and the overflow. *)
Definition AddWithCarry (x y : Z) (carry_in : bool) : Z * bool * bool :=
  let unsigned_sum := x + y + b2z carry_in in
  let signed_sum := s32 x + s32 y + b2z carry_in in
  let result := unsigned_sum mod 2 ^ 32 in
  (result, negb (result =? unsigned_sum), negb (s32 result =? signed_sum)).

(** The machine after an arithmetic instruction: the four flags from
    AddWithCarry, and the result in [rd] when there is a destination. *)
Definition arith {M} (rd : option Z) (x y : Z) (carry_in : bool) (s : machine M) :
    result sim_exn unit * machine M :=
  let '(res, carry, overflow) := AddWithCarry x y carry_in in
  let f := {| flag_N := 0x80000000 <=? res; flag_Z := res =? 0;
              flag_C := carry; flag_V := overflow |} in
  let c := with_apsr (fun _ => f) (cpu s) in
  (Ok tt, mkMachine (match rd with Some r => set_reg r res c | None => c end)
                    (mem_ s) (trace_log s)).

Inductive shift_type : Type := SRType_LSL | SRType_LSR | SRType_ASR | SRType_ROR.

(** Shift_C(value, type, amount, carry_in): the result and the carry. *)
Definition Shift_C (value : Z) (ty : shift_type) (amount : Z) (carry_in : bool) : Z * bool :=
  if amount =? 0 then (value, carry_in)
  else match ty with
  | SRType_LSL => ((value * 2 ^ amount) mod 2 ^ 32, Z.testbit (value * 2 ^ amount) 32)
  | SRType_LSR => (value / 2 ^ amount, Z.testbit value (amount - 1))
  | SRType_ASR => ((s32 value / 2 ^ amount) mod 2 ^ 32, Z.testbit (s32 value) (amount - 1))
  | SRType_ROR =>
      let m := amount mod 32 in
      let res := (value / 2 ^ m + value * 2 ^ (32 - m)) mod 2 ^ 32 in
      (res, Z.testbit res 31)
  end.

(** The machine after a shift instruction. *)
Definition shifted {M} (rd value : Z) (ty : shift_type) (amount : Z) (s : machine M) :
    result sim_exn unit * machine M :=
  let '(res, carry) := Shift_C value ty amount (flag_C (apsr_ (cpu s))) in
  let f := {| flag_N := 0x80000000 <=? res; flag_Z := res =? 0;
              flag_C := carry; flag_V := flag_V (apsr_ (cpu s)) |} in
  (Ok tt, mkMachine (set_reg rd res (with_apsr (fun _ => f) (cpu s)))
                    (mem_ s) (trace_log s)).

(** * Addition *)

Definition msb (x : Z) : bool := 0x80000000 <=? x.

Lemma s32_msb x : in_u32 x -> s32 x = if msb x then x - 0x100000000 else x.
Proof. intros Hx. rewrite s32_eq by done. unfold msb. repeat case_if; lia. Qed.

Lemma msb_not32 x : in_u32 x -> msb (not32 x) = negb (msb x).
Proof. intros Hx. rewrite not32_eq by done. unfold msb, in_u32 in *. lia. Qed.

Lemma overflow_bits x y c :
  in_u32 x -> in_u32 y ->
  let r := (x + y + b2z c) mod 2 ^ 32 in
  xorb (msb x) (msb r) && xorb (msb y) (msb r) = negb (s32 r =? s32 x + s32 y + b2z c).
Proof.
  intros Hx Hy r. assert (in_u32 r) as Hr by apply u32_range.
  rewrite !s32_msb by done. unfold msb, in_u32 in *.
  assert (r = x + y + b2z c \/ r = x + y + b2z c - 0x100000000) as Hrr.
  { unfold r. change (2 ^ 32) with 0x100000000. destruct c; simpl b2z; word_lia. }
  clearbody r. destruct c; simpl b2z in *; repeat case_if; lia.
Qed.

Lemma add32_awc x y c :
  in_u32 x -> in_u32 y ->
  add32 x y c = let '(r, carry, _) := AddWithCarry x y c in (r, carry).
Proof.
  intros Hx Hy. unfold add32, AddWithCarry, WORD_BITS. f_equal.
  - unfold u64, u32. change (2 ^ 32) with 0x100000000. destruct c; simpl b2z; word_lia.
  - rewrite Z.shiftr_div_pow2 by lia. change (2 ^ 32) with 0x100000000.
    destruct c; simpl b2z; word_lia.
Qed.

Lemma awc_overflow x y c r carry ov :
  in_u32 x -> in_u32 y -> AddWithCarry x y c = (r, carry, ov) ->
  in_u32 r /\ ov = xorb (msb x) (msb r) && xorb (msb y) (msb r).
Proof.
  intros Hx Hy E. pose proof (overflow_bits x y c Hx Hy) as Ho. cbv zeta in Ho.
  unfold AddWithCarry in E. injection E as <- _ <-. split; [apply u32_range|by rewrite Ho].
Qed.

(** The three forms in which the source computes the overflow flag. *)
Lemma overflow_add x y c r carry ov :
  in_u32 x -> in_u32 y -> AddWithCarry x y c = (r, carry, ov) ->
  bit ((x .^ r) .& (y .^ r)) MSB_POS = ov.
Proof.
  intros Hx Hy E. apply awc_overflow in E as [Hr ->]; [|done..]. unfold MSB_POS.
  rewrite bit_testbit, Z.land_spec, !Z.lxor_spec by lia. by rewrite !testbit_msb.
Qed.

Lemma overflow_sub x y r carry ov :
  in_u32 x -> in_u32 y -> AddWithCarry x (not32 y) true = (r, carry, ov) ->
  bit ((x .^ y) .& (x .^ r)) MSB_POS = ov.
Proof.
  intros Hx Hy E. apply awc_overflow in E as [Hr ->]; [|auto with word..]. unfold MSB_POS.
  rewrite bit_testbit, Z.land_spec, !Z.lxor_spec by lia. rewrite !testbit_msb by done.
  rewrite msb_not32 by done. unfold msb. by repeat destruct (_ <=? _).
Qed.

Lemma overflow_neg y r carry ov :
  in_u32 y -> AddWithCarry 0 (not32 y) true = (r, carry, ov) ->
  bit (y .& r) MSB_POS = ov.
Proof.
  intros Hy E. apply awc_overflow in E as [Hr ->]; [|auto with word..]. unfold MSB_POS.
  rewrite bit_testbit, Z.land_spec by lia. rewrite !testbit_msb by done.
  rewrite msb_not32 by done. unfold msb at 1. simpl. unfold msb.
  by repeat destruct (_ <=? _).
Qed.

(** * The arithmetic groups *)

Section Groups.
Context {M : Type} `{IMemoryBusLaws M}.
Implicit Types s : machine M.

(** The body of every arithmetic instruction, with and without a destination. *)
Definition finish (rd : option Z) (res : Z) (c v : bool) : exec M unit :=
  put_C c >> put_V v >>
  match rd with Some r => put_nz res >> put_reg r res | None => put_nz res end.

Lemma finish_arith rd x y cin c v r ov s :
  in_u32 x -> in_u32 y ->
  AddWithCarry x y cin = (r, c, ov) -> v = ov ->
  finish rd r c v s = arith rd x y cin s.
Proof.
  intros Hx Hy E ->. unfold arith. rewrite E.
  apply awc_overflow in E as [Hr _]; [|done..].
  unfold finish, bind, put_C, put_V, put_nz, put_reg, modify.
  destruct rd; simpl; unfold with_apsr, set_reg, with_regs, update_nz; simpl;
    by rewrite bit_msb.
Qed.

Lemma add_arith rd x y cin s :
  in_u32 x -> in_u32 y ->
  (let '(res, c) := add32 x y cin in
   finish rd res c (bit ((x .^ res) .& (y .^ res)) MSB_POS)) s = arith rd x y cin s.
Proof.
  intros Hx Hy. rewrite add32_awc by done.
  destruct (AddWithCarry x y cin) as [[r c] ov] eqn:E.
  apply (finish_arith _ _ _ _ _ _ _ ov); try done. by eapply overflow_add.
Qed.

Lemma sub_arith rd x y s :
  in_u32 x -> in_u32 y ->
  (let '(res, c) := sub32 x y in
   finish rd res c (bit ((x .^ y) .& (x .^ res)) MSB_POS)) s =
  arith rd x (not32 y) true s.
Proof.
  intros Hx Hy. unfold sub32. rewrite add32_awc by auto with word.
  destruct (AddWithCarry x (not32 y) true) as [[r c] ov] eqn:E.
  apply (finish_arith _ _ _ _ _ _ _ ov); auto with word. by eapply overflow_sub.
Qed.

Lemma neg_arith rd y s :
  in_u32 y ->
  (let '(res, c) := sub32 0 y in finish rd res c (bit (y .& res) MSB_POS)) s =
  arith rd 0 (not32 y) true s.
Proof.
  intros Hy. unfold sub32. rewrite add32_awc by auto with word.
  destruct (AddWithCarry 0 (not32 y) true) as [[r c] ov] eqn:E.
  apply (finish_arith _ _ _ _ _ _ _ ov); auto with word. by eapply overflow_neg.
Qed.

Lemma exec_add_sub_arith instr s :
  machine_wf s ->
  let rn := (instr .>> 6) .& 0x7 in
  let x := reg (cpu s) ((instr .>> 3) .& 0x7) in
  let y := if bit instr 10 then rn else reg (cpu s) rn in
  exec_add_sub instr s =
  (if bit instr 9 then arith (Some (instr .& 0x7)) x (not32 y) true s
   else arith (Some (instr .& 0x7)) x y false s).
Proof.
  intros [Hc _] rn x y.
  assert (in_u32 x) as Hx by by apply reg_range.
  assert (in_u32 y) as Hy.
  { unfold y. destruct (bit instr 10); [|by apply reg_range]. apply land_small_u32. lia. }
  unfold exec_add_sub. rewrite bind_get_reg.
  unfold y, rn. destruct (bit instr 10); cbv beta iota zeta; rewrite ?bind_ret, ?bind_get_reg;
    (destruct (bit instr 9); [by apply (sub_arith (Some _))|by apply (add_arith (Some _))]).
Qed.

Lemma exec_imm8_arith instr s :
  machine_wf s ->
  let op := (instr .>> 11) .& 0x3 in
  let rd := (instr .>> 8) .& 0x7 in
  let imm8 := instr .& 0xFF in
  let x := reg (cpu s) rd in
  exec_imm8 instr s =
  (if op =? 0 then (put_nz imm8 >> put_reg rd imm8) s
   else if op =? 1 then arith None x (not32 imm8) true s
   else if op =? 2 then arith (Some rd) x imm8 false s
   else arith (Some rd) x (not32 imm8) true s).
Proof.
  intros [Hc _] op rd imm8 x.
  assert (in_u32 x) as Hx by by apply reg_range.
  assert (in_u32 imm8) as Hy by (apply land_small_u32; lia).
  unfold exec_imm8. fold op rd imm8.
  destruct (op =? 0); [done|].
  destruct (op =? 1); [rewrite bind_get_reg; by apply (sub_arith None)|].
  destruct (op =? 2); rewrite bind_get_reg;
    [by apply (add_arith (Some rd))|by apply (sub_arith (Some rd))].
Qed.

Lemma exec_alu_arith_arith op rd a b s :
  in_u32 a -> in_u32 b ->
  exec_alu_arith op rd a b s =
  (if op =? 0x5 then arith (Some rd) a b (flag_C (apsr_ (cpu s))) s
   else if op =? 0x6 then arith (Some rd) a (not32 b) (flag_C (apsr_ (cpu s))) s
   else if op =? 0x9 then arith (Some rd) 0 (not32 b) true s
   else if op =? 0xA then arith None a (not32 b) true s
   else if op =? 0xB then arith None a b false s
   else (Ok tt, s)).
Proof.
  intros Ha Hb. unfold exec_alu_arith.
  destruct (op =? 5); [rewrite bind_gets; by apply (add_arith (Some rd))|].
  destruct (op =? 6); [rewrite bind_gets; apply (add_arith (Some rd)); auto with word|].
  destruct (op =? 9); [by apply (neg_arith (Some rd))|].
  destruct (op =? 0xA); [by apply (sub_arith None)|].
  destruct (op =? 0xB); [by apply (add_arith None)|done].
Qed.

Lemma exec_hi_cmp_arith instr s :
  machine_wf s -> (instr .>> 8) .& 0x3 = 1 ->
  exec_hi_reg_bx instr s =
  arith None (reg (cpu s) ((((instr .>> 7) .& 0x1) .<< 3) .| (instr .& 0x7)))
    (not32 (reg (cpu s) ((instr .>> 3) .& 0xF))) true s.
Proof.
  intros [Hc _] Hop. unfold exec_hi_reg_bx. rewrite Hop, !bind_get_reg.
  apply (sub_arith None); by apply reg_range.
Qed.

End Groups.

(** * The shift groups *)

(** The branches of the source for each shift type, as one function of the
    amount: the result and the carry that is stored. *)
Definition code_shift (a : Z) (ty : shift_type) (n : Z) (cin : bool) : Z * bool :=
  if n =? 0 then (a, cin)
  else match ty with
  | SRType_LSL =>
      (if 32 <=? n then 0 else u32 (a .<< n),
       if n <? 32 then bit a (32 - n) else if n =? 32 then negb (a .& 1 =? 0) else false)
  | SRType_LSR =>
      (if 32 <=? n then 0 else a .>> n,
       if n <? 32 then bit a (n - 1) else if n =? 32 then bit a 31 else false)
  | SRType_ASR =>
      (if 32 <=? n then asr32 a 31 else asr32 a n,
       if n <? 32 then bit a (n - 1) else bit a 31)
  | SRType_ROR =>
      if n .& 0x1F =? 0 then (a, bit a 31)
      else ((a .>> (n .& 0x1F)) .| u32 (a .<< (32 - n .& 0x1F)), bit a (n .& 0x1F - 1))
  end.

Lemma bit0_land a : negb (a .& 1 =? 0) = Z.testbit a 0.
Proof. rewrite <-bit_testbit by lia. unfold bit. by rewrite Z.shiftr_0_r. Qed.

Lemma code_lsl a n cin :
  in_u32 a -> 0 <= n -> code_shift a SRType_LSL n cin = Shift_C a SRType_LSL n cin.
Proof.
  intros Ha Hn. unfold code_shift, Shift_C. destruct (Z.eqb_spec n 0); [done|].
  assert (Z.testbit (a * 2 ^ n) 32 = Z.testbit a (32 - n)) as ->.
  { rewrite <-Z.shiftl_mul_pow2, Z.shiftl_spec by lia. done. }
  rewrite Z.shiftl_mul_pow2 by lia. f_equal.
  - destruct (Z.leb_spec 32 n); [|done].
    replace n with ((n - 32) + 32) by lia. rewrite Z.pow_add_r by lia.
    rewrite Z.mul_assoc, Z.mod_mul; [done|lia].
  - destruct (Z.ltb_spec n 32); [by rewrite bit_testbit by lia|].
    destruct (Z.eqb_spec n 32) as [->|]; [apply bit0_land|].
    symmetry. apply Z.testbit_neg_r. lia.
Qed.

Lemma code_lsr a n cin :
  in_u32 a -> 0 <= n -> code_shift a SRType_LSR n cin = Shift_C a SRType_LSR n cin.
Proof.
  intros Ha Hn. unfold code_shift, Shift_C. destruct (Z.eqb_spec n 0); [done|].
  rewrite Z.shiftr_div_pow2 by lia. f_equal.
  - destruct (Z.leb_spec 32 n); [|done]. symmetry. apply Z.div_small.
    unfold in_u32 in Ha. pose proof (Z.pow_le_mono_r 2 32 n). lia.
  - destruct (Z.ltb_spec n 32); [by rewrite bit_testbit by lia|].
    destruct (Z.eqb_spec n 32) as [->|]; [by rewrite bit_testbit by lia|].
    symmetry. apply (testbit_high a 32); [exact Ha|lia].
Qed.

Lemma testbit_s32_low a k : 0 <= k < 32 -> Z.testbit (s32 a) k = Z.testbit (u32 a) k.
Proof.
  intros Hk. rewrite <-u32_s32. unfold u32 at 1. change 0x100000000 with (2 ^ 32).
  by rewrite Z.mod_pow2_bits_low by lia.
Qed.

Lemma s32_div_high a n : 31 <= n -> s32 a / 2 ^ n = s32 a / 2 ^ 31.
Proof.
  intros Hn. pose proof (s32_range a) as Hr. pose proof (Z.pow_le_mono_r 2 31 n).
  change (2 ^ 31) with 0x80000000 in *. destruct (Z.leb_spec 0 (s32 a)).
  - rewrite !Z.div_small; lia.
  - rewrite <-(Z.div_unique (s32 a) (2 ^ n) (-1) (s32 a + 2 ^ n)) by lia.
    by rewrite <-(Z.div_unique (s32 a) 0x80000000 (-1) (s32 a + 0x80000000)) by lia.
Qed.

Lemma testbit_s32_high a k : in_u32 a -> 31 <= k -> Z.testbit (s32 a) k = Z.testbit a 31.
Proof.
  intros Ha Hk. rewrite <-(u32_small a) at 2 by done. rewrite <-testbit_s32_low by lia.
  rewrite !(Z.testbit_odd (s32 a)), !Z.shiftr_div_pow2 by lia.
  by rewrite s32_div_high.
Qed.

Lemma code_asr a n cin :
  in_u32 a -> 0 <= n -> code_shift a SRType_ASR n cin = Shift_C a SRType_ASR n cin.
Proof.
  intros Ha Hn. unfold code_shift, Shift_C. destruct (Z.eqb_spec n 0); [done|].
  unfold asr32. rewrite !Z.shiftr_div_pow2 by lia. f_equal.
  - destruct (Z.leb_spec 32 n); [|done]. by rewrite (s32_div_high a n) by lia.
  - destruct (Z.ltb_spec n 32); rewrite bit_testbit by lia.
    + by rewrite testbit_s32_low, u32_small by (done || lia).
    + by rewrite testbit_s32_high by (done || lia).
Qed.

(** A rotation keeps its two parts on disjoint bits. *)
Lemma rotate_lor a m :
  in_u32 a -> 0 < m < 32 ->
  (a .>> m) .| u32 (a .<< (32 - m)) = (a / 2 ^ m + a * 2 ^ (32 - m)) mod 2 ^ 32.
Proof.
  intros Ha Hm. rewrite Z.shiftr_div_pow2, Z.shiftl_mul_pow2 by lia.
  unfold u32. change 0x100000000 with (2 ^ 32).
  assert (2 ^ 32 = 2 ^ m * 2 ^ (32 - m)) as Hp by (rewrite <-Z.pow_add_r by lia; f_equal; lia).
  assert (0 < 2 ^ m) by (apply Z.pow_pos_nonneg; lia).
  assert (0 < 2 ^ (32 - m)) by (apply Z.pow_pos_nonneg; lia).
  assert (0 <= a / 2 ^ m < 2 ^ (32 - m)) as Hlo.
  { split; [apply Z.div_pos; [apply Ha|lia]|]. apply Z.div_lt_upper_bound; [lia|].
    rewrite <-Hp. apply Ha. }
  assert ((a * 2 ^ (32 - m)) mod 2 ^ 32 = (a mod 2 ^ m) * 2 ^ (32 - m)) as Hhi.
  { rewrite Hp. by rewrite Z.mul_mod_distr_r by lia. }
  rewrite <-(Zplus_mod_idemp_r (a * 2 ^ (32 - m))), Hhi.
  rewrite (Z.mod_small (_ + _)).
  - pose proof (Z.add_lor_land (a / 2 ^ m) (a mod 2 ^ m * 2 ^ (32 - m))) as Hadd.
    enough ((a / 2 ^ m) .& (a mod 2 ^ m * 2 ^ (32 - m)) = 0) by lia.
    apply Z.bits_inj'. intros k Hk. rewrite Z.land_spec, Z.bits_0.
    destruct (Z.ltb_spec k (32 - m)).
    + by rewrite Z.mul_pow2_bits_low, andb_false_r by lia.
    + by rewrite (testbit_high (a / 2 ^ m) (32 - m)) by lia.
  - pose proof (Z.mod_pos_bound a (2 ^ m)). nia.
Qed.

Lemma code_ror a n cin :
  in_u32 a -> 0 <= n -> code_shift a SRType_ROR n cin = Shift_C a SRType_ROR n cin.
Proof.
  intros Ha Hn. unfold code_shift, Shift_C. destruct (Z.eqb_spec n 0); [done|].
  change (n .& 0x1F) with (n .& Z.ones 5). rewrite land_mask by lia. change (2 ^ 5) with 32.
  pose proof (Z.mod_pos_bound n 32). set (m := n mod 32) in *. cbv zeta.
  destruct (Z.eqb_spec m 0) as [->|].
  - rewrite Z.sub_0_r, Z.pow_0_r, Z.div_1_r, Z.mod_add by lia.
    assert (a mod 2 ^ 32 = a) as -> by by apply Z.mod_small.
    by rewrite bit_testbit by lia.
  - rewrite rotate_lor by (done || lia). f_equal.
    rewrite <-rotate_lor by (done || lia). rewrite bit_testbit by lia.
    rewrite Z.lor_spec, Z.shiftr_spec by lia.
    rewrite (testbit_high a 32 (31 + m)) by (try exact Ha; lia).
    unfold u32. change 0x100000000 with (2 ^ 32).
    rewrite Z.mod_pow2_bits_low, Z.shiftl_spec by lia. simpl. f_equal. lia.
Qed.

Lemma code_shift_ok a ty n cin :
  in_u32 a -> 0 <= n -> code_shift a ty n cin = Shift_C a ty n cin.
Proof. destruct ty; [apply code_lsl|apply code_lsr|apply code_asr|apply code_ror]. Qed.

Lemma code_shift_range a ty n cin : in_u32 a -> 0 <= n -> in_u32 (fst (code_shift a ty n cin)).
Proof.
  intros Ha Hn. unfold code_shift. destruct (n =? 0); [done|]. destruct ty; simpl fst.
  - destruct (32 <=? n); auto with word.
  - destruct (32 <=? n); [auto with word|]. by apply shiftr_u32.
  - destruct (32 <=? n); auto with word.
  - destruct (_ =? 0); simpl fst; [done|]. is_word.
Qed.

Lemma asr32_0 a : in_u32 a -> asr32 a 0 = a.
Proof. intros. unfold asr32. by rewrite Z.shiftr_0_r, u32_s32, u32_small. Qed.

Section ShiftGroups.
Context {M : Type} `{IMemoryBusLaws M}.
Implicit Types s : machine M.

(** What both shift groups end with, given the result and the carry. *)
Definition store_shift (rd : Z) (rc : Z * bool) (s : machine M) :
    result sim_exn unit * machine M :=
  let f := {| flag_N := bit (fst rc) 31; flag_Z := fst rc =? 0;
              flag_C := snd rc; flag_V := flag_V (apsr_ (cpu s)) |} in
  (Ok tt, mkMachine (set_reg rd (fst rc) (with_apsr (fun _ => f) (cpu s)))
                    (mem_ s) (trace_log s)).

Lemma store_shifted rd a ty n s :
  in_u32 a -> 0 <= n ->
  store_shift rd (code_shift a ty n (flag_C (apsr_ (cpu s)))) s = shifted rd a ty n s.
Proof.
  intros Ha Hn. pose proof (code_shift_range a ty n (flag_C (apsr_ (cpu s))) Ha Hn) as Hr.
  unfold store_shift, shifted. rewrite bit_msb by done.
  rewrite code_shift_ok by done. by destruct (Shift_C _ _ _ _).
Qed.

Ltac run_shift :=
  unfold bind, put_C, put_nz, put_reg, modify, ret; simpl fst; simpl snd;
  repeat match goal with |- context [if ?b then _ else _] => destruct b eqn:? end;
  reflect_bools; try lia; reflexivity.

Lemma exec_alu_shift_shifted op rd a b s :
  in_u32 a ->
  let sh := b .& 0xFF in
  exec_alu_shift op rd a b s =
  (if op =? 0x2 then shifted rd a SRType_LSL sh s
   else if op =? 0x3 then shifted rd a SRType_LSR sh s
   else if op =? 0x4 then shifted rd a SRType_ASR sh s
   else shifted rd a SRType_ROR sh s).
Proof.
  intros Ha sh. pose proof (land_range b 0xFF) as Hsh. fold sh in Hsh.
  rewrite <-!store_shifted by lia || done. unfold exec_alu_shift, store_shift, code_shift.
  fold sh. unfold WORD_BITS, MSB_POS. clearbody sh.
  destruct (Z.eqb_spec sh 0) as [->|Hne].
  { rewrite Z.shiftl_0_r, Z.shiftr_0_r, asr32_0, u32_small by done.
    by destruct (op =? 2), (op =? 3), (op =? 4). }
  destruct (op =? 2); [run_shift|]. destruct (op =? 3); [run_shift|].
  destruct (op =? 4); run_shift.
Qed.

Lemma exec_shift_imm_shifted instr s :
  machine_wf s -> (instr .>> 11) .& 0x3 <> 3 ->
  let op := (instr .>> 11) .& 0x3 in
  let imm5 := (instr .>> 6) .& 0x1F in
  let rd := instr .& 0x7 in
  let val := reg (cpu s) ((instr .>> 3) .& 0x7) in
  let amount := if imm5 =? 0 then 32 else imm5 in
  exec_shift_imm instr s =
  (if op =? 0 then shifted rd val SRType_LSL imm5 s
   else if op =? 1 then shifted rd val SRType_LSR amount s
   else shifted rd val SRType_ASR amount s).
Proof.
  intros [Hc _] Hop op imm5 rd val amount.
  pose proof (land_range (instr .>> 6) 0x1F) as Hi. fold imm5 in Hi.
  pose proof (land_range (instr .>> 11) 3) as Ho. fold op in Hop, Ho.
  assert (in_u32 val) as Hv by by apply reg_range.
  assert (0 <= amount) by (unfold amount; destruct (imm5 =? 0); lia).
  rewrite <-!store_shifted by lia || done. unfold exec_shift_imm, store_shift, code_shift.
  rewrite bind_get_reg. unfold amount, WORD_BITS, MSB_POS. fold op imm5 rd val.
  clearbody op imm5 rd val.
  destruct (Z.eqb_spec op 0); [run_shift|]. destruct (Z.eqb_spec op 1); [run_shift|].
  destruct (Z.eqb_spec op 2); [run_shift|lia].
Qed.

End ShiftGroups.
