(* ===== verification/CpuProps.v ===== *)
(** Properties of the core: the invariant, decoding, arithmetic, shifts and
    conditions against the architecture, running and halting. *)
From Stdlib Require Import ZifyBool.
From S2P Require Export CpuArith MemoryProps.

(** * Concrete machines, for the witnesses *)

(** A new core on a flat memory whose flash starts with the given bytes. *)
Definition boot (prog : list Z) : machine FlatMemoryBus.t :=
  mkMachine new_cpu
    (FlatMemoryBus.mk (prog ++ replicate (Z.to_nat FlatMemoryBus.SIZE - length prog) 0)) [].

Lemma boot_wf prog :
  forallb (fun b => (0 <=? b) && (b <? 256)) prog = true ->
  Z.of_nat (length prog) <= FlatMemoryBus.SIZE -> machine_wf (boot prog).
Proof.
  intros Hb Hl. split; [apply reset_wf|]. split; simpl.
  - rewrite length_app, length_replicate. lia.
  - apply Forall_app. split; [|apply is_bytes_replicate; split; lia].
    apply Forall_forall. intros b Hin.
    rewrite forallb_forall in Hb. apply list_elem_of_In, Hb in Hin. word_lia.
Qed.

(** The bytes of src/programs/factorial.bin. *)
Definition factorial_bin : list Z :=
  [0x05; 0x20; 0x01; 0x21; 0x41; 0x43; 0x01; 0x38; 0x01; 0x28; 0xFB; 0xDC; 0x70; 0x47].

(** * Properties *)

(** C13: Running any number of steps from a well-formed machine gives a
    well-formed machine (sixteen 32-bit registers, a 64-bit cycle count, a well
    formed bus), whether the run returns or throws.  It returns a count between
    0 and the bound, or throws a bus fault or the undefined-instruction error
    for one of the encodings no group claims. *)
Theorem run_invariant {M} `{IMemoryBusLaws M} max_steps (s : machine M) :
  0 <= max_steps -> machine_wf s ->
  machine_wf (snd (run max_steps s)) /\
  match fst (run max_steps s) with
  | Ok n => 0 <= n <= max_steps
  | Err (BusFault _) => True
  | Err (UndefinedInstructionException op) => in_u16 op /\ undefined_encoding op = true
  end.
Proof.
  intros Hmax Hs. destruct (keeps_run_loop (Z.to_nat max_steps) 0 s Hs) as [Hw Hr].
  unfold run. split; [done|]. destruct (fst _) as [n|[e|op]]; [lia|done|exact Hr].
Qed.

(** The decoder is total on 16-bit values: exactly the encodings
    0101_xx1x..., 1101_1111... and 11101... throw
    [UndefinedInstructionException] with the instruction, and they leave the
    machine as it was; every other instruction returns or throws a bus fault. *)
Theorem execute_undefined_iff {M} `{IMemoryBusLaws M} instr (s : machine M) :
  in_u16 instr -> machine_wf s ->
  match fst (execute instr s) with
  | Err (UndefinedInstructionException op) =>
      undefined_encoding instr = true /\ op = instr /\ snd (execute instr s) = s
  | _ => undefined_encoding instr = false
  end.
Proof.
  intros Hi Hs. destruct (undefined_encoding instr) eqn:Hu.
  - by rewrite execute_undefined.
  - destruct (keeps_execute instr Hi Hu s Hs) as [_ Hr].
    by destruct (fst _) as [[]|[]].
Qed.

(** ADD and SUB with a register or a 3-bit immediate, ADD, SUB and CMP with
    an 8-bit immediate, ADC, SBC, NEG, CMP and CMN, and CMP on high registers
    all compute the result and the flags N, Z, C, V of the architecture's
    AddWithCarry on the operands of the encoding, and write the destination
    exactly when the instruction has one. *)
Theorem arithmetic_instructions {M} `{IMemoryBusLaws M} instr (s : machine M) :
  machine_wf s ->
  let r i := reg (cpu s) i in
  let C := flag_C (apsr_ (cpu s)) in
  (let rn := (instr .>> 6) .& 0x7 in
   let x := r ((instr .>> 3) .& 0x7) in
   let y := if bit instr 10 then rn else r rn in
   exec_add_sub instr s =
   if bit instr 9 then arith (Some (instr .& 0x7)) x (not32 y) true s
   else arith (Some (instr .& 0x7)) x y false s) /\
  (let op := (instr .>> 11) .& 0x3 in
   let rd := (instr .>> 8) .& 0x7 in
   let imm8 := instr .& 0xFF in
   (op = 1 -> exec_imm8 instr s = arith None (r rd) (not32 imm8) true s) /\
   (op = 2 -> exec_imm8 instr s = arith (Some rd) (r rd) imm8 false s) /\
   (op = 3 -> exec_imm8 instr s = arith (Some rd) (r rd) (not32 imm8) true s)) /\
  (let op := (instr .>> 6) .& 0xF in
   let rd := instr .& 0x7 in
   let a := r rd in
   let b := r ((instr .>> 3) .& 0x7) in
   (op = 0x5 -> exec_alu instr s = arith (Some rd) a b C s) /\
   (op = 0x6 -> exec_alu instr s = arith (Some rd) a (not32 b) C s) /\
   (op = 0x9 -> exec_alu instr s = arith (Some rd) 0 (not32 b) true s) /\
   (op = 0xA -> exec_alu instr s = arith None a (not32 b) true s) /\
   (op = 0xB -> exec_alu instr s = arith None a b false s)) /\
  ((instr .>> 8) .& 0x3 = 1 ->
   exec_hi_reg_bx instr s =
   arith None (r ((((instr .>> 7) .& 0x1) .<< 3) .| (instr .& 0x7)))
     (not32 (r ((instr .>> 3) .& 0xF))) true s).
Proof.
  intros Hs r C. split; [|split; [|split]].
  - by apply exec_add_sub_arith.
  - pose proof (exec_imm8_arith instr s Hs) as E. cbv zeta in *. fold r in E.
    by split_and!; intros Hop; rewrite Hop in E.
  - unfold exec_alu. rewrite !bind_get_reg. cbv zeta. fold r.
    assert (in_u32 (r (instr .& 0x7))) as Ha by apply reg_range, Hs.
    assert (in_u32 (r ((instr .>> 3) .& 0x7))) as Hb by apply reg_range, Hs.
    pose proof (fun op => exec_alu_arith_arith op (instr .& 7) _ _ s Ha Hb) as E.
    split_and!; intros ->; apply E.
  - by apply exec_hi_cmp_arith.
Qed.

(** LSL, LSR, ASR and ROR, by an immediate (where 0 means 32 for LSR and
    ASR) and by the low byte of a register, compute the result and the carry of
    the architecture's Shift_C for every amount from 0 to 255, set N and Z from
    the result and leave V unchanged. *)
Theorem shift_instructions {M} `{IMemoryBusLaws M} instr (s : machine M) :
  machine_wf s ->
  let r i := reg (cpu s) i in
  let rd := instr .& 0x7 in
  let rs := r ((instr .>> 3) .& 0x7) in
  (let op := (instr .>> 11) .& 0x3 in
   let imm5 := (instr .>> 6) .& 0x1F in
   let amount := if imm5 =? 0 then 32 else imm5 in
   (op = 0 -> exec_shift_imm instr s = shifted rd rs SRType_LSL imm5 s) /\
   (op = 1 -> exec_shift_imm instr s = shifted rd rs SRType_LSR amount s) /\
   (op = 2 -> exec_shift_imm instr s = shifted rd rs SRType_ASR amount s)) /\
  (let op := (instr .>> 6) .& 0xF in
   let amount := rs .& 0xFF in
   (op = 0x2 -> exec_alu instr s = shifted rd (r rd) SRType_LSL amount s) /\
   (op = 0x3 -> exec_alu instr s = shifted rd (r rd) SRType_LSR amount s) /\
   (op = 0x4 -> exec_alu instr s = shifted rd (r rd) SRType_ASR amount s) /\
   (op = 0x7 -> exec_alu instr s = shifted rd (r rd) SRType_ROR amount s)).
Proof.
  intros Hs r rd rs. split.
  - pose proof (exec_shift_imm_shifted instr s Hs) as E. cbv zeta in *.
    split_and!; intros Hop; rewrite Hop in E; by apply E.
  - unfold exec_alu. rewrite !bind_get_reg. cbv zeta. fold r rd. fold rs.
    assert (in_u32 (r rd)) as Ha by apply reg_range, Hs.
    pose proof (fun op => exec_alu_shift_shifted op rd _ rs s Ha) as E.
    split_and!; intros ->; apply E.
Qed.

(** After CMP, the flags. *)
Lemma cmp_flags a b r c v :
  in_u32 a -> in_u32 b -> AddWithCarry a (not32 b) true = (r, c, v) ->
  in_u32 r /\ (r =? 0) = (a =? b) /\ c = (b <=? a) /\ eqb (msb r) v = (s32 b <=? s32 a).
Proof.
  intros Ha Hb E. pose proof (awc_overflow _ _ _ _ _ _ Ha (not32_range b) E) as [Hr Hv].
  rewrite msb_not32 in Hv by done. rewrite !s32_msb by done.
  assert (r = if b <=? a then a - b else a - b + 0x100000000) as Hrr.
  { unfold AddWithCarry in E. injection E as <- _ _. rewrite not32_eq by done.
    unfold b2z. change (2 ^ 32) with 0x100000000. unfold in_u32 in *.
    destruct (Z.leb_spec b a); word_lia. }
  assert (c = (b <=? a)) as Hc.
  { unfold AddWithCarry in E. injection E as Er Hc _. rewrite Er in Hc.
    rewrite not32_eq in Hc by done. unfold b2z, in_u32 in *.
    clear Er. destruct (Z.leb_spec b a); lia. }
  split; [done|]. split_and!; [destruct (Z.leb_spec b a); word_lia|done|].
  unfold msb, in_u32 in *. subst v c. clear E.
  destruct (Z.leb_spec b a), (Z.leb_spec 0x80000000 a), (Z.leb_spec 0x80000000 b),
    (Z.leb_spec 0x80000000 r); simpl; lia.
Qed.

(** After CMP of register values [a] and [b], each condition of a
    conditional branch decides the comparison it is named for: EQ/NE equality,
    CS/CC/HI/LS the unsigned order, GE/LT/GT/LE the signed order of the 32-bit
    two's complement values, MI/PL the sign of [a - b], and AL always holds. *)
Theorem compare_conditions {M} `{IMemoryBusLaws M} rd a b (s : machine M) :
  in_u32 a -> in_u32 b ->
  let f := apsr_ (cpu (snd (exec_alu_arith 0xA rd a b s))) in
  condition_passes f 0x0 = (a =? b) /\ condition_passes f 0x1 = negb (a =? b) /\
  condition_passes f 0x2 = (b <=? a) /\ condition_passes f 0x3 = (a <? b) /\
  condition_passes f 0x4 = (0x80000000 <=? u32 (a - b)) /\
  condition_passes f 0x5 = (u32 (a - b) <? 0x80000000) /\
  condition_passes f 0x8 = (b <? a) /\ condition_passes f 0x9 = (a <=? b) /\
  condition_passes f 0xA = (s32 b <=? s32 a) /\ condition_passes f 0xB = (s32 a <? s32 b) /\
  condition_passes f 0xC = (s32 b <? s32 a) /\ condition_passes f 0xD = (s32 a <=? s32 b) /\
  condition_passes f 0xE = true.
Proof.
  intros Ha Hb f. assert (f = apsr_ (cpu (snd (arith None a (not32 b) true s)))) as ->.
  { unfold f. by rewrite exec_alu_arith_arith. }
  unfold arith. destruct (AddWithCarry a (not32 b) true) as [[r c] v] eqn:E. simpl snd.
  assert (r = u32 (a - b)) as Hr.
  { unfold AddWithCarry in E. injection E as <- _ _. rewrite not32_eq by done.
    unfold b2z. change (2 ^ 32) with 0x100000000. word_lia. }
  apply cmp_flags in E as (_ & Hz & Hc & Hs); [|done..].
  assert (s32 a = s32 b <-> a = b) as Heq.
  { split; [|by intros ->]. intros E. rewrite <-(u32_small a), <-(u32_small b) by done.
    by rewrite <-(u32_s32 a), <-(u32_s32 b), E. }
  cbn [cpu apsr_ with_apsr]. unfold condition_passes. cbn [flag_N flag_Z flag_C flag_V].
  unfold msb in Hs. rewrite <-Hr, Hz, Hc. simpl Z.eqb. cbv iota. rewrite Hs.
  split_and!; lia.
Qed.

(** * Witnesses *)

(** The size bound of [boot_wf] on a closed program. *)
Local Ltac boot_ok := apply boot_wf; [reflexivity|vm_compute; discriminate].

Lemma run_invariant_witness : machine_wf (snd (run 100 (boot factorial_bin))).
Proof.
  refine (proj1 (run_invariant 100 (boot factorial_bin) _ _)); [lia|boot_ok].
Defined.

Lemma execute_undefined_iff_witness : snd (execute 0xE800 (boot [])) = boot [].
Proof.
  refine (proj2 (proj2 (execute_undefined_iff 0xE800 (boot []) _ _))).
  - split; reflexivity || lia.
  - boot_ok.
Defined.

(** ADDS r2, r0, r1. *)
Lemma arithmetic_instructions_witness :
  exec_add_sub 0x1842 (boot []) = arith (Some 2) 0 0 false (boot []).
Proof. refine (proj1 (arithmetic_instructions 0x1842 (boot []) _)); boot_ok. Defined.

(** LSRS r1, r0, #32. *)
Lemma shift_instructions_witness :
  exec_shift_imm 0x0801 (boot []) = shifted 1 0 SRType_LSR 32 (boot []).
Proof.
  refine (proj1 (proj2 (proj1 (shift_instructions 0x0801 (boot []) _))) _).
  - boot_ok.
  - reflexivity.
Defined.

(** -1 is below 1 as a signed number, not as an unsigned one. *)
Lemma compare_conditions_witness :
  let f := apsr_ (cpu (snd (exec_alu_arith 0xA 0 0xFFFFFFFF 1 (boot [])))) in
  condition_passes f 0x3 = false /\ condition_passes f 0xB = true.
Proof.
  assert (in_u32 0xFFFFFFFF) as Ha by (split; reflexivity || lia).
  assert (in_u32 1) as Hb by (split; reflexivity || lia).
  pose proof (compare_conditions 0 0xFFFFFFFF 1 (boot []) Ha Hb) as E.
  split; [exact (proj1 (proj2 (proj2 (proj2 E))))|].
  refine (proj1 (proj2 (proj2 (proj2 (proj2 (proj2 (proj2 (proj2 (proj2 (proj2 E)))))))))).
Defined.
