(* ===== verification/CpuRun.v ===== *)
(** Running the core: what a step does to the counters and the trace, how runs
    compose, when they stop, and the control transfers of B, B<cond>, BL and BX. *)
From Stdlib Require Import ZifyBool.
From S2P Require Export CpuProps.

(** * What instructions leave alone *)

Section Quiet.
Context {M : Type} `{IMemoryBus M}.

(** [c] touches neither the cycle count nor the trace. *)
Definition quiet {A} (c : exec M A) : Prop :=
  forall s, cycles_ (cpu (snd (c s))) = cycles_ (cpu s) /\
            trace_cb_ (cpu (snd (c s))) = trace_cb_ (cpu s) /\
            trace_log (snd (c s)) = trace_log s.

Lemma quiet_bind {A B} (c : exec M A) (k : A -> exec M B) :
  quiet c -> (forall a, quiet (k a)) -> quiet (bind c k).
Proof.
  intros Hc Hk s. specialize (Hc s). unfold bind.
  destruct (c s) as [[a|e] s']; simpl in *; [|done].
  destruct (Hk a s') as (-> & -> & ->). done.
Qed.

Lemma quiet_ret {A} (a : A) : quiet (ret a).
Proof. done. Qed.
Lemma quiet_throw {A} e : quiet (A := A) (throw e).
Proof. done. Qed.
Lemma quiet_gets {A} (f : CortexM0 -> A) : quiet (gets f).
Proof. done. Qed.
Lemma quiet_put_reg r v : quiet (put_reg r v).
Proof. done. Qed.
Lemma quiet_put_C b : quiet (put_C b).
Proof. done. Qed.
Lemma quiet_put_V b : quiet (put_V b).
Proof. done. Qed.
Lemma quiet_put_nz b : quiet (put_nz b).
Proof. done. Qed.
Lemma quiet_halt : quiet halt.
Proof. done. Qed.
Lemma quiet_bl_offset v : quiet (modify (with_bl_offset v)).
Proof. done. Qed.
Lemma quiet_read rd a : quiet (mem_read rd a).
Proof. intros s. unfold mem_read. by destruct (rd _ _). Qed.
Lemma quiet_write wr a v : quiet (mem_write wr a v).
Proof. intros s. unfold mem_write. by destruct (wr _ _ _). Qed.

Lemma quiet_for_each l (f : Z -> exec M unit) :
  (forall i, quiet (f i)) -> quiet (for_each l f).
Proof.
  intros Hf. induction l; simpl; [apply quiet_ret|]. by apply quiet_bind.
Qed.
End Quiet.

Create HintDb quiet.
#[export] Hint Resolve quiet_ret quiet_throw quiet_gets quiet_put_reg quiet_put_C
  quiet_put_V quiet_put_nz quiet_halt quiet_bl_offset quiet_read quiet_write : quiet.

Ltac quiet_step :=
  match goal with
  | |- quiet (bind _ _) => apply quiet_bind; [|intros ?]
  | |- quiet (if ?b then _ else _) => destruct b
  | |- quiet (let '(_, _) := ?p in _) => destruct p
  | |- quiet (for_each _ _) => apply quiet_for_each; intros ?
  | |- quiet (set_pc _) => apply quiet_put_reg
  | |- quiet (get_reg _) => apply quiet_gets
  | |- quiet pc => apply quiet_gets
  | |- quiet _ => solve [eauto with quiet]
  end.

Section QuietGroups.
Context {M : Type} `{IMemoryBus M}.

Lemma quiet_ldm_stm_loop L rlist l addr : quiet (M := M) (ldm_stm_loop L rlist l addr).
Proof.
  revert addr. induction l as [|i l IH]; intros addr; simpl; [apply quiet_ret|].
  destruct (in_rlist _ i); [|apply IH]. apply quiet_bind; [repeat quiet_step|done].
Qed.

Lemma quiet_execute instr : quiet (M := M) (execute instr).
Proof.
  unfold execute. cbv zeta.
  repeat match goal with |- quiet (if ?b then _ else _) => destruct b end;
    unfold exec_shift_imm, exec_add_sub, exec_imm8, exec_alu, exec_alu_shift,
      exec_alu_arith, exec_hi_reg_bx, exec_ldr_pc, exec_ldr_str_reg, exec_ldr_str_imm,
      exec_ldrh_strh_imm, exec_ldr_str_sp, exec_add_sp_pc, exec_sp_ops, exec_push_pop,
      exec_ldm_stm, exec_branch_cond, exec_branch, exec_bl_upper, exec_bl_lower,
      load_store, push_reg, pop_reg; cbv zeta.
  all: repeat first [quiet_step | apply quiet_ldm_stm_loop].
Qed.

Lemma quiet_fetch : quiet (M := M) fetch.
Proof. unfold fetch, advance_pc. repeat quiet_step. Qed.
End QuietGroups.

(** * One step *)

(** The machine an instruction is executed in: the PC is past it, and the
    callback has been called when one is set. *)
Definition fetched {M} (s : machine M) (instr : Z) : machine M :=
  mkMachine (set_reg PC (u32 (reg (cpu s) PC + 2)) (cpu s)) (mem_ s)
    (if trace_cb_ (cpu s) then trace_log s ++ [(reg (cpu s) PC, instr)] else trace_log s).

Definition count_cycle {M} (s : machine M) : machine M :=
  mkMachine (with_cycles (fun n => u64 (n + 1)) (cpu s)) (mem_ s) (trace_log s).

Section Step.
Context {M : Type} `{IMemoryBus M}.

Lemma step_fetched (s : machine M) instr :
  halted_ (cpu s) = false -> bus_read16 (mem_ s) (reg (cpu s) PC) = Ok instr ->
  step s =
  match execute instr (fetched s instr) with
  | (Ok _, s') => (Ok (negb (halted_ (cpu s'))), count_cycle s')
  | (Err e, s') => (Err e, s')
  end.
Proof.
  intros Hh Hr. unfold step. rewrite bind_gets, Hh. unfold pc.
  rewrite bind_get_reg. unfold fetch, pc. rewrite bind_bind, bind_get_reg, bind_bind.
  unfold bind at 1. unfold mem_read. rewrite Hr. unfold advance_pc.
  rewrite !bind_bind, bind_get_reg. unfold put_reg. rewrite bind_modify, bind_ret.
  unfold bind at 1. unfold trace. cbn [cpu].
  change (trace_cb_ (set_reg PC (u32 (reg (cpu s) PC + 2)) (cpu s))) with (trace_cb_ (cpu s)).
  assert (forall s1, s1 = fetched s instr ->
    (execute instr >> modify (with_cycles (fun n => u64 (n + 1))) >>
      (h' <- gets halted_;; ret (negb h'))) s1 =
    match execute instr (fetched s instr) with
    | (Ok _, s') => (Ok (negb (halted_ (cpu s'))), count_cycle s')
    | (Err e, s') => (Err e, s')
    end) as Hk.
  { intros s1 ->. unfold bind at 1. by destruct (execute _ _) as [[[]|] s']. }
  destruct (trace_cb_ (cpu s)) eqn:Ht; apply Hk; unfold fetched; by rewrite Ht.
Qed.

Lemma step_read_fault (s : machine M) e :
  halted_ (cpu s) = false -> bus_read16 (mem_ s) (reg (cpu s) PC) = Err e ->
  step s = (Err (BusFault e), s).
Proof.
  intros Hh Hr. unfold step. rewrite bind_gets, Hh. unfold pc.
  rewrite bind_get_reg. unfold fetch, pc. rewrite bind_bind, bind_get_reg, bind_bind.
  unfold bind at 1. unfold mem_read. by rewrite Hr.
Qed.

(** The counters after a step of a running core that returns. *)
Lemma step_counts (s s' : machine M) b :
  halted_ (cpu s) = false -> step s = (Ok b, s') ->
  cycles_ (cpu s') = u64 (cycles_ (cpu s) + 1) /\
  trace_cb_ (cpu s') = trace_cb_ (cpu s) /\
  length (trace_log s') = (length (trace_log s) + if trace_cb_ (cpu s) then 1 else 0)%nat.
Proof.
  intros Hh. destruct (bus_read16 (mem_ s) (reg (cpu s) PC)) as [i|e] eqn:Hr.
  - rewrite (step_fetched s i) by done. pose proof (quiet_execute i (fetched s i)) as Hq.
    destruct (execute i (fetched s i)) as [[[]|e] s1]; [|done].
    intros [= <- <-]. simpl in Hq |- *. destruct Hq as (-> & -> & ->).
    split_and!; [done|done|]. destruct (trace_cb_ (cpu s)); [rewrite length_app|]; simpl; lia.
  - by rewrite (step_read_fault s e).
Qed.

Lemma run_loop_counts n (s s' : machine M) r :
  halted_ (cpu s) = false -> run_loop n 0 s = (Ok r, s') ->
  let executed := r + b2z (halted_ (cpu s')) in
  0 <= r <= Z.of_nat n /\
  u64 (cycles_ (cpu s')) = u64 (cycles_ (cpu s) + executed) /\
  (trace_cb_ (cpu s) = true ->
   Z.of_nat (length (trace_log s')) = Z.of_nat (length (trace_log s)) + executed).
Proof.
  revert s s' r. induction n as [|n IH]; intros s s' r Hh.
  - simpl. unfold ret. intros [= <- <-]. rewrite Hh. unfold b2z.
    split_and!; [lia|lia|by rewrite Z.add_0_r|lia].
  - cbn [run_loop]. unfold bind. destruct (step s) as [[b|e] s1] eqn:Hs; [|done].
    pose proof (step_returns _ _ _ Hh Hs) as Hb.
    destruct (step_counts _ _ _ Hh Hs) as (Hc & Ht & Hl). destruct b.
    + rewrite run_loop_shift. destruct (run_loop n 0 s1) as [[r1|e] s2] eqn:Hr; simpl; [|done].
      intros [= <- <-]. apply IH in Hr as (H1 & H2 & H3); [|by apply negb_true_iff].
      split; [lia|]. split.
      * rewrite H2, Hc, u64_add_l. f_equal. lia.
      * intros Hcb. rewrite H3 by congruence. rewrite Hl, Hcb. lia.
    + unfold ret. intros [= <- <-].
      replace (halted_ (cpu s1)) with true by (destruct (halted_ (cpu s1)); done).
      unfold b2z. split_and!; [lia|lia| |].
      * by rewrite Hc, u64_u64.
      * intros Hcb. rewrite Hl, Hcb. lia.
Qed.
End Step.

(** * Control transfers *)

(** The signed value of an 11-bit branch offset field. *)
Definition soff11 (instr : Z) : Z :=
  let f := instr .& 0x7FF in if f <? 0x400 then f else f - 0x800.


Section Transfers.
Context {M : Type} `{IMemoryBusLaws M}.

(** Clearing bit 0 of an even address changes nothing. *)
Lemma clear_bit0 x : in_u32 x -> x .& not32 1 = 2 * (x / 2).
Proof.
  intros Hx. change (not32 1) with (0xFFFFFFFF - 1).
  apply Z.bits_inj'. intros k Hk. rewrite Z.land_spec.
  replace (2 * (x / 2)) with (Z.shiftl (Z.shiftr x 1) 1)
    by (rewrite Z.shiftl_mul_pow2, Z.shiftr_div_pow2 by lia; change (2 ^ 1) with 2; lia).
  rewrite Z.shiftl_spec by lia.
  destruct (Z.eqb_spec k 0) as [->|]; [by rewrite andb_false_r|].
  rewrite Z.shiftr_spec by lia. replace (k - 1 + 1) with k by lia.
  destruct (Z.ltb_spec k 32).
  - replace (Z.testbit (0xFFFFFFFF - 1) k) with true; [by rewrite andb_true_r|].
    symmetry. change (0xFFFFFFFF - 1) with (Z.shiftl (Z.ones 31) 1).
    rewrite Z.shiftl_spec by lia. apply Z.ones_spec_low. lia.
  - by rewrite (testbit_high x 32) by (try exact Hx; lia).
Qed.

Lemma clear_bit0_even x : in_u32 x -> Z.even x = true -> x .& not32 1 = x.
Proof.
  intros Hx He. rewrite clear_bit0 by done. apply Z.even_spec in He as [k ->].
  rewrite (Z.mul_comm 2 k), Z.div_mul by lia. lia.
Qed.

Lemma lor_1_even x : Z.even x = true -> x .| 1 = x + 1.
Proof.
  intros He. pose proof (Z.add_lor_land x 1) as E. enough (x .& 1 = 0) by lia.
  change 1 with (Z.ones 1). rewrite land_mask by lia.
  rewrite Z.pow_1_r, Zmod_even, He. done.
Qed.

(** [static_cast<int32_t>((x & 0x7FF) << 21)] is the 11-bit field as a signed
    number, at the top of the word. *)
Lemma sign_extend_11 x :
  s32 ((x .& 0x7FF) .<< BL_SIGN_SHIFT) =
  soff11 x * 2 ^ 21.
Proof.
  unfold soff11, BL_SIGN_SHIFT. pose proof (land_range x 0x7FF) as Hf.
  set (f := x .& 0x7FF) in *. clearbody f. rewrite Z.shiftl_mul_pow2 by lia.
  change (2 ^ 21) with 0x200000. unfold s32. rewrite u32_small by word_lia.
  destruct (Z.ltb_spec f 0x400), (Z.ltb_spec (f * 0x200000) 0x80000000); lia.
Qed.

Lemma reg_fetched_pc (s : machine M) i :
  cpu_wf (cpu s) -> reg (cpu (fetched s i)) PC = u32 (reg (cpu s) PC + 2).
Proof. intros [Hl _]. apply reg_set_same; [done|unfold PC; lia]. Qed.

End Transfers.

Lemma even_u32 x : Z.even x = true -> Z.even (u32 x) = true.
Proof.
  intros He. rewrite <-Z.negb_odd. rewrite <-Z.negb_odd in He.
  rewrite <-Z.bit0_odd in *. unfold u32. change 0x100000000 with (2 ^ 32).
  by rewrite Z.mod_pow2_bits_low by lia.
Qed.

Section BlDecode.
Context {M : Type} `{IMemoryBusLaws M}.

Lemma execute_bl_upper hi (s : machine M) :
  0xF000 <= hi < 0xF800 -> execute hi s = exec_bl_upper hi s.
Proof.
  intros Hi. unfold execute. cbv zeta.
  destruct (top_fields hi) as (-> & -> & -> & -> & -> & _); [word_lia|].
  replace (hi / 0x800) with 0x1E by word_lia. replace (hi / 0x1000) with 0xF by word_lia.
  replace (hi / 0x400 =? 0x10) with false by word_lia.
  by replace (hi / 0x400 =? 0x11) with false by word_lia.
Qed.

Lemma execute_bl_lower lo (s : machine M) :
  0xF800 <= lo < 0x10000 -> execute lo s = exec_bl_lower lo s.
Proof.
  intros Hi. unfold execute. cbv zeta.
  destruct (top_fields lo) as (-> & -> & -> & -> & -> & _); [word_lia|].
  replace (lo / 0x800) with 0x1F by word_lia. replace (lo / 0x1000) with 0xF by word_lia.
  replace (lo / 0x400 =? 0x10) with false by word_lia.
  by replace (lo / 0x400 =? 0x11) with false by word_lia.
Qed.

(** The offset that the upper half stores, for an instruction at [p]. *)
Lemma bl_offset_eq p hi :
  u32 (s32 (u32 (p + 2)) + 2 + s32 ((hi .& 0x7FF) .<< BL_SIGN_SHIFT) .>> 9) =
  u32 (p + 4 + 4096 * soff11 hi).
Proof.
  rewrite sign_extend_11. fold (soff11 hi). rewrite Z.shiftr_div_pow2 by lia.
  replace (soff11 hi * 2 ^ 21) with (soff11 hi * 4096 * 2 ^ 9) by lia.
  rewrite Z.div_mul by lia. rewrite <-Z.add_assoc, <-u32_add_l, u32_s32, u32_u32, u32_add_l.
  f_equal. lia.
Qed.

(** One executed instruction of a run. *)
Lemma run_loop_step n k (s : machine M) i s1 :
  halted_ (cpu s) = false -> bus_read16 (mem_ s) (reg (cpu s) PC) = Ok i ->
  execute i (fetched s i) = (Ok tt, s1) -> halted_ (cpu s1) = false ->
  run_loop (S n) k s = run_loop n (k + 1) (count_cycle s1).
Proof.
  intros Hh Hr He H1. cbn [run_loop]. unfold bind.
  rewrite (step_fetched s i), He by done. by rewrite H1.
Qed.

(** The instruction that halts a run. *)
Lemma run_loop_halt n k (s : machine M) i s1 :
  halted_ (cpu s) = false -> bus_read16 (mem_ s) (reg (cpu s) PC) = Ok i ->
  execute i (fetched s i) = (Ok tt, s1) -> halted_ (cpu s1) = true ->
  run_loop (S n) k s = (Ok k, count_cycle s1).
Proof.
  intros Hh Hr He H1. cbn [run_loop]. unfold bind.
  rewrite (step_fetched s i), He by done. by rewrite H1.
Qed.

(** The upper half of BL at [p] only stores its offset. *)
Lemma bl_upper_effect hi (s : machine M) p :
  cpu_wf (cpu s) -> reg (cpu s) PC = p -> 0xF000 <= hi < 0xF800 ->
  execute hi (fetched s hi) =
  (Ok tt, mkMachine (with_bl_offset (u32 (p + 4 + 4096 * soff11 hi)) (cpu (fetched s hi)))
            (mem_ s) (trace_log (fetched s hi))).
Proof.
  intros Hc Hp Hi. rewrite execute_bl_upper by done. unfold exec_bl_upper, pc.
  rewrite bind_get_reg, reg_fetched_pc, Hp by done. unfold modify. by rewrite bl_offset_eq.
Qed.

(** The lower half jumps, and leaves the address it is followed by in LR. *)
Lemma bl_lower_effect lo (s : machine M) :
  length (regs_ (cpu s)) = 16%nat -> 0xF800 <= lo < 0x10000 ->
  Z.even (reg (cpu s) PC) = true -> Z.even (bl_offset_ (cpu s)) = true ->
  exists s', execute lo s = (Ok tt, s') /\
    reg (cpu s') PC = u32 (bl_offset_ (cpu s) + 2 * (lo .& 0x7FF)) /\
    reg (cpu s') LR = reg (cpu s) PC + 1 /\
    mem_ s' = mem_ s /\ apsr_ (cpu s') = apsr_ (cpu s) /\ halted_ (cpu s') = halted_ (cpu s) /\
    (forall r, 0 <= r < 14 -> reg (cpu s') r = reg (cpu s) r).
Proof.
  intros Hl Hi He Ho. eexists. rewrite execute_bl_lower by done.
  unfold exec_bl_lower, pc. rewrite bind_get_reg, lor_1_even by done. split; [reflexivity|].
  unfold set_pc, put_reg, modify. simpl. change (with_regs ?f ?c) with (with_regs f c).
  set (target := u32 (bl_offset_ (cpu s) + (lo .& 0x7FF) .<< 1)).
  assert (target = u32 (bl_offset_ (cpu s) + 2 * (lo .& 0x7FF))) as Ht.
  { unfold target. rewrite Z.shiftl_mul_pow2 by lia. f_equal. lia. }
  rewrite clear_bit0_even; [|apply u32_range|
    rewrite Ht; apply even_u32; by rewrite Z.even_add, Ho, Z.even_mul].
  split_and!; try done.
  - rewrite reg_set_same; [done|by rewrite length_set_reg|unfold PC; lia].
  - rewrite reg_set_other by (unfold PC, LR; lia).
    rewrite reg_set_same; [done|done|unfold LR; lia].
  - intros r Hr. by rewrite !reg_set_other by (unfold PC, LR; lia).
Qed.
End BlDecode.

Section BranchDecode.
Context {M : Type} `{IMemoryBusLaws M}.

Lemma execute_branch_cond i (s : machine M) :
  0xD000 <= i < 0xDF00 -> execute i s = exec_branch_cond i s.
Proof.
  intros Hi. unfold execute. cbv zeta.
  destruct (top_fields i) as (-> & -> & -> & -> & -> & _); [word_lia|].
  replace (i / 0x1000) with 0xD by word_lia.
  replace (i / 0x800 <=? 2) with false by word_lia.
  replace (i / 0x800 =? 3) with false by word_lia.
  replace ((4 <=? i / 0x800) && (i / 0x800 <=? 7)) with false by word_lia.
  replace (i / 0x400 =? 0x10) with false by word_lia.
  replace (i / 0x400 =? 0x11) with false by word_lia.
  replace (i / 0x800 =? 9) with false by word_lia.
  by replace ((i / 0x100) mod 0x10 =? 0xF) with false by word_lia.
Qed.

Lemma execute_branch i (s : machine M) :
  0xE000 <= i < 0xE800 -> execute i s = exec_branch i s.
Proof.
  intros Hi. unfold execute. cbv zeta.
  destruct (top_fields i) as (-> & -> & -> & -> & -> & _); [word_lia|].
  replace (i / 0x800) with 0x1C by word_lia. replace (i / 0x1000) with 0xE by word_lia.
  replace (i / 0x400 =? 0x10) with false by word_lia.
  by replace (i / 0x400 =? 0x11) with false by word_lia.
Qed.

Lemma execute_bx i (s : machine M) :
  0x4700 <= i < 0x4800 -> execute i s = exec_hi_reg_bx i s.
Proof.
  intros Hi. unfold execute. cbv zeta.
  destruct (top_fields i) as (-> & -> & -> & -> & -> & _); [word_lia|].
  replace (i / 0x800) with 0x8 by word_lia. replace (i / 0x1000) with 0x4 by word_lia.
  by replace (i / 0x400) with 0x11 by word_lia.
Qed.

(** BX and BLX, executed. *)
Lemma bx_effect i (s : machine M) val :
  length (regs_ (cpu s)) = 16%nat -> 0x4700 <= i < 0x4800 ->
  reg (cpu s) ((i .>> 3) .& 0xF) = val -> in_u32 val ->
  exists s', execute i s = (Ok tt, s') /\
    halted_ (cpu s') = halted_ (cpu s) || negb (bit val 0) /\
    reg (cpu s') PC = 2 * (val / 2) /\
    reg (cpu s') LR = (if bit i 7 then reg (cpu s) PC .| 1 else reg (cpu s) LR) /\
    (forall r, 0 <= r < 14 -> reg (cpu s') r = reg (cpu s) r) /\
    apsr_ (cpu s') = apsr_ (cpu s) /\ mem_ s' = mem_ s.
Proof.
  intros Hl Hi Hval Hv.
  assert ((i .>> 8) .& 0x3 = 3) as Hop.
  { change ((i .>> 8) .& 0x3) with ((i .>> 8) .& Z.ones 2).
    rewrite field_div by lia. change (2 ^ 8) with 0x100. change (2 ^ 2) with 4. word_lia. }
  set (c1 := if bit i 7 then set_reg LR (reg (cpu s) PC .| 1) (cpu s) else cpu s).
  set (c2 := set_reg PC (2 * (val / 2)) c1).
  exists (mkMachine (if bit val 0 then c2 else with_halted true c2) (mem_ s) (trace_log s)).
  assert (length (regs_ c1) = 16%nat) as Hl1 by (unfold c1; by destruct (bit i 7); rewrite ?length_set_reg).
  assert (forall r, 0 <= r < 15 -> reg c2 r =
    if bit i 7 && (r =? LR) then reg (cpu s) PC .| 1 else reg (cpu s) r) as Hr.
  { intros r Hr. unfold c2. rewrite reg_set_other by (unfold PC; lia). unfold c1.
    destruct (bit i 7); [|done]. simpl. destruct (Z.eqb_spec r LR) as [->|];
      [apply reg_set_same|apply reg_set_other]; unfold LR in *; done || lia. }
  assert (forall r, reg (if bit val 0 then c2 else with_halted true c2) r = reg c2 r) as Hc2
    by (intros; by destruct (bit val 0)).
  simpl cpu. split; [|split; [|split; [|split; [|split; [|split]]]]]; rewrite ?Hc2.
  - rewrite execute_bx by done. unfold exec_hi_reg_bx, set_pc.
    rewrite Hop, !bind_get_reg, Hval. simpl Z.eqb. cbv iota. rewrite andb_true_l.
    rewrite (clear_bit0 val), clear_bit0_even by (done || word_lia || by rewrite Z.even_mul).
    unfold c2, c1, pc. by destruct (bit i 7), (bit val 0).
  - unfold c2, c1. by destruct (bit i 7), (bit val 0); simpl; rewrite ?orb_true_r, ?orb_false_r.
  - unfold c2. apply reg_set_same; [done|unfold PC; lia].
  - rewrite Hr by (unfold LR; lia). by rewrite Z.eqb_refl, andb_true_r.
  - intros r Hr'. rewrite Hc2, Hr by lia.
    replace (r =? LR) with false by (unfold LR; lia). by rewrite andb_false_r.
  - unfold c2, c1. by destruct (bit i 7), (bit val 0).
  - done.
Qed.

Lemma mem_fetched (s : machine M) i : mem_ (fetched s i) = mem_ s.
Proof. done. Qed.
End BranchDecode.

(** The machine that a branch to [target] leaves: only the PC, the cycle count
    and the trace differ from [s]. *)
Definition jumps {M} (s : machine M) (target : Z) (s' : machine M) : Prop :=
  reg (cpu s') PC = target /\
  (forall r, 0 <= r < 15 -> reg (cpu s') r = reg (cpu s) r) /\
  apsr_ (cpu s') = apsr_ (cpu s) /\ halted_ (cpu s') = halted_ (cpu s) /\
  mem_ s' = mem_ s.

Lemma jumps_set_pc {M} (s : machine M) i v :
  cpu_wf (cpu s) -> in_u32 v -> Z.even v = true ->
  jumps s v (count_cycle (snd (set_pc v (fetched s i)))).
Proof.
  intros [Hl _] Hv He. unfold jumps, set_pc, put_reg, modify. simpl snd.
  rewrite clear_bit0_even by done. split_and!; try done.
  - apply reg_set_same; [by rewrite length_set_reg|unfold PC; lia].
  - intros r Hr.
    change (reg (set_reg PC v (set_reg PC (u32 (reg (cpu s) PC + 2)) (cpu s))) r = reg (cpu s) r).
    by rewrite !reg_set_other by (unfold PC; lia).
Qed.

Lemma jumps_next {M} (s : machine M) i :
  cpu_wf (cpu s) -> jumps s (u32 (reg (cpu s) PC + 2)) (count_cycle (fetched s i)).
Proof.
  intros Hc. split_and!; try done.
  - by apply (reg_fetched_pc s i).
  - intros r Hr. change (reg (set_reg PC (u32 (reg (cpu s) PC + 2)) (cpu s)) r = reg (cpu s) r).
    by rewrite reg_set_other by (unfold PC; lia).
Qed.

(** * Properties *)

(** C33: The result of a run of a core that is not halted.  A run that stops
    below the bound has halted, one that reaches the bound has not.  The cycle
    count (modulo 2^64) and the trace, when the callback is set, grow by the
    number of instructions executed, which is the returned count plus one when
    the core halted: the halting instruction is executed but not counted. *)
Theorem run_result {M} `{IMemoryBus M} max_steps (s s' : machine M) n :
  0 <= max_steps -> halted_ (cpu s) = false -> run max_steps s = (Ok n, s') ->
  let executed := n + b2z (halted_ (cpu s')) in
  0 <= n <= max_steps /\
  (n < max_steps <-> halted_ (cpu s') = true) /\
  u64 (cycles_ (cpu s')) = u64 (cycles_ (cpu s) + executed) /\
  (trace_cb_ (cpu s) = true ->
   Z.of_nat (length (trace_log s')) = Z.of_nat (length (trace_log s)) + executed).
Proof.
  intros Hmax Hh Hrun executed.
  pose proof (run_loop_halted _ _ _ _ Hrun) as [H1 H2].
  destruct (run_loop_counts _ _ _ _ Hh Hrun) as (Hn & Hc & Ht).
  split; [lia|]. split; [|by split]. split; [intros; apply H1; lia|].
  intros Hhalt. destruct (Z.ltb_spec n max_steps); [done|].
  rewrite H2 in Hhalt; [done|done|lia].
Qed.

(** Running [a + b] steps is running [a] steps and then, only if all [a]
    were counted, [b] more: the same final machine, the counts added, and an
    exception of either part raised in the state it left. *)
Theorem run_compose {M} `{IMemoryBus M} a b (s : machine M) :
  0 <= a -> 0 <= b ->
  run (a + b) s =
  match run a s with
  | (Ok n, s') => if n =? a then add_steps n (run b s') else (Ok n, s')
  | (Err e, s') => (Err e, s')
  end.
Proof.
  intros Ha Hb. unfold run. rewrite Z2Nat.inj_add, run_loop_app by done.
  by rewrite !Z2Nat.id by done.
Qed.

(** The two halves of BL, executed one after the other from an even
    address [p] below 2^32 - 4, jump to [p + 4] plus the signed 23-bit offset
    4096 * (upper 11 bits, signed) + 2 * (lower 11 bits), modulo 2^32, and leave
    in LR the address after the pair with the Thumb bit set.  Memory, the
    other registers and the flags are unchanged. *)
Theorem bl_call {M} `{IMemoryBusLaws M} (s : machine M) p hi lo :
  machine_wf s -> halted_ (cpu s) = false ->
  reg (cpu s) PC = p -> Z.even p = true -> p + 4 < 0x100000000 ->
  bus_read16 (mem_ s) p = Ok hi -> 0xF000 <= hi < 0xF800 ->
  bus_read16 (mem_ s) (p + 2) = Ok lo -> 0xF800 <= lo < 0x10000 ->
  exists s', run 2 s = (Ok 2, s') /\
    reg (cpu s') PC = u32 (p + 4 + 4096 * soff11 hi + 2 * (lo .& 0x7FF)) /\
    reg (cpu s') LR = p + 5 /\
    mem_ s' = mem_ s /\ apsr_ (cpu s') = apsr_ (cpu s) /\
    (forall r, 0 <= r < 14 -> reg (cpu s') r = reg (cpu s) r).
Proof.
  intros [Hc _] Hh Hp He Hlt Hhi Rhi Hlo Rlo.
  assert (in_u32 p) as Hpr by (rewrite <-Hp; by apply reg_range).
  pose proof (bl_upper_effect hi s p Hc Hp Rhi) as E1.
  set (s1 := mkMachine _ (mem_ s) _) in E1.
  assert (reg (cpu (count_cycle s1)) PC = p + 2) as Hp1.
  { change (reg (cpu (fetched s hi)) PC = p + 2). rewrite reg_fetched_pc, Hp by done.
    apply u32_small. unfold in_u32 in *; lia. }
  assert (length (regs_ (cpu (count_cycle s1))) = 16%nat) as Hl1
    by (simpl; rewrite length_insert; apply Hc).
  set (s2 := fetched (count_cycle s1) lo).
  assert (reg (cpu s2) PC = p + 4) as Hp2.
  { transitivity (u32 (p + 2 + 2)); [|rewrite u32_small; unfold in_u32 in *; lia].
    unfold s2, fetched. rewrite Hp1. apply reg_set_same; [done|unfold PC; lia]. }
  destruct (bl_lower_effect lo s2) as (s3 & E2 & H1 & H2 & H3 & H4 & H5 & H6);
    [by unfold s2, fetched; simpl cpu; rewrite length_set_reg|done|
     by rewrite Hp2, Z.even_add, He|apply even_u32; by rewrite !Z.even_add, He, Z.even_mul|].
  exists (count_cycle s3). unfold run. change (Z.to_nat 2) with 2%nat.
  rewrite (run_loop_step 1 0 s hi s1) by (done || by rewrite Hp).
  rewrite (run_loop_step 0 _ (count_cycle s1) lo s3); [|done|by rewrite Hp1|done|by rewrite H5].
  split_and!; [done| | |done|done|].
  - etransitivity; [exact H1|]. simpl bl_offset_. by rewrite u32_add_l.
  - etransitivity; [exact H2|]. rewrite Hp2. lia.
  - intros r Hr. etransitivity; [by apply H6|].
    change (reg (set_reg PC (u32 (reg (cpu (count_cycle s1)) PC + 2))
      (set_reg PC (u32 (reg (cpu s) PC + 2)) (cpu s))) r = reg (cpu s) r).
    by rewrite !reg_set_other by (unfold PC; lia).
Qed.

(** A branch at an even address [p] goes to [p + 4] plus twice its signed
    offset (8 bits for B<cond>, 11 bits for B) modulo 2^32; a conditional branch
    whose condition fails goes on to [p + 2].  Nothing else changes but the
    cycle count and the trace. *)
Theorem branch_targets {M} `{IMemoryBusLaws M} (s : machine M) i :
  machine_wf s -> halted_ (cpu s) = false ->
  let p := reg (cpu s) PC in
  Z.even p = true -> bus_read16 (mem_ s) p = Ok i ->
  (0xD000 <= i < 0xDF00 ->
   exists s', step s = (Ok true, s') /\
     jumps s (if condition_passes (apsr_ (cpu s)) ((i .>> 8) .& 0xF)
              then u32 (p + 4 + 2 * s8 (i .& 0xFF)) else u32 (p + 2)) s') /\
  (0xE000 <= i < 0xE800 ->
   exists s', step s = (Ok true, s') /\ jumps s (u32 (p + 4 + 2 * soff11 i)) s').
Proof.
  intros [Hc Hm] Hh p He Hr. rewrite (step_fetched s i) by done.
  assert (halted_ (cpu (fetched s i)) = false) as Hhf by done.
  split; intros Hi.
  - rewrite execute_branch_cond by done. unfold exec_branch_cond, pc.
    rewrite bind_get_reg, bind_gets, reg_fetched_pc by done. fold p. simpl apsr_.
    destruct (condition_passes _ _).
    + eexists. split; [by simpl; rewrite Hh|].
      assert (u32 (u32 (p + 2) + 2 + u32 ((s8 (i .& 255)) .<< 1)) =
              u32 (p + 4 + 2 * s8 (i .& 255))) as ->.
      { rewrite u32_add_r, <-Z.add_assoc, u32_add_l, Z.shiftl_mul_pow2 by lia. f_equal. lia. }
      apply jumps_set_pc; [done|apply u32_range|]. apply even_u32.
      by rewrite !Z.even_add, He, Z.even_mul.
    + eexists. split; [by simpl; rewrite Hh|]. by apply jumps_next.
  - rewrite execute_branch by done. unfold exec_branch, pc.
    rewrite bind_get_reg, reg_fetched_pc by done. fold p.
    eexists. split; [by simpl; rewrite Hh|].
    assert (u32 (u32 (p + 2) + 2 + u32 (s32 ((i .& 2047) .<< BL_SIGN_SHIFT) .>> 20)) =
            u32 (p + 4 + 2 * soff11 i)) as ->.
    { rewrite u32_add_r, <-Z.add_assoc, u32_add_l, sign_extend_11.
      rewrite Z.shiftr_div_pow2 by lia.
      replace (soff11 i * 2 ^ 21) with (soff11 i * 2 * 2 ^ 20) by lia.
      rewrite Z.div_mul by lia. f_equal. lia. }
    apply jumps_set_pc; [done|apply u32_range|]. apply even_u32.
    by rewrite !Z.even_add, He, Z.even_mul.
Qed.

(** BX and BLX jump to the register's value with bit 0 cleared; BLX also
    leaves the address of the next instruction with the Thumb bit in LR.  The
    core halts exactly when bit 0 of the target is clear, and the step then
    reports that it ended. *)
Theorem bx_halts {M} `{IMemoryBusLaws M} (s : machine M) i :
  machine_wf s -> halted_ (cpu s) = false ->
  bus_read16 (mem_ s) (reg (cpu s) PC) = Ok i -> 0x4700 <= i < 0x4800 ->
  let rs := (i .>> 3) .& 0xF in
  let next := u32 (reg (cpu s) PC + 2) in
  let val := if rs =? PC then next else reg (cpu s) rs in
  exists s', step s = (Ok (bit val 0), s') /\
    halted_ (cpu s') = negb (bit val 0) /\
    reg (cpu s') PC = 2 * (val / 2) /\
    reg (cpu s') LR = (if bit i 7 then next .| 1 else reg (cpu s) LR) /\
    (forall r, 0 <= r < 14 -> reg (cpu s') r = reg (cpu s) r) /\
    apsr_ (cpu s') = apsr_ (cpu s) /\ mem_ s' = mem_ s.
Proof.
  intros [Hc Hm] Hh Hr Hi rs next val. rewrite (step_fetched s i) by done.
  pose proof (land_range (i .>> 3) 0xF) as Hrs. fold rs in Hrs.
  assert (reg (cpu (fetched s i)) rs = val) as Hval.
  { unfold val. destruct (Z.eqb_spec rs PC) as [E|E].
    - rewrite E. by apply reg_fetched_pc.
    - change (reg (set_reg PC next (cpu s)) rs = reg (cpu s) rs).
      apply reg_set_other; unfold PC in *; lia. }
  assert (in_u32 val) as Hv.
  { unfold val. destruct (rs =? PC); [apply u32_range|by apply reg_range]. }
  destruct (bx_effect i (fetched s i) val) as (s' & E & H1 & H2 & H3 & H4 & H5 & H6);
    [by simpl; rewrite length_insert; apply Hc|done|done|done|].
  exists (count_cycle s'). rewrite E. simpl in H1. rewrite Hh in H1.
  split_and!; [by rewrite H1, orb_false_l, negb_involutive|done|done| | |done|done].
  - etransitivity; [exact H3|]. rewrite reg_fetched_pc by done.
    destruct (bit i 7); [done|]. apply (reg_set_other (cpu s) PC LR); unfold PC, LR; lia.
  - intros r Hr'. etransitivity; [by apply H4|]. apply (reg_set_other (cpu s) PC r); unfold PC; lia.
Qed.

(** * Witnesses *)

Local Ltac boot_ok := apply boot_wf; [reflexivity|vm_compute; discriminate].

(** The shipped factorial program executes nineteen instructions; the run
    returns eighteen. *)
Lemma run_result_witness :
  exists s', run 100 (boot factorial_bin) = (Ok 18, s') /\ halted_ (cpu s') = true.
Proof.
  assert (fst (run 100 (boot factorial_bin)) = Ok 18) as E1 by (vm_compute; reflexivity).
  destruct (run 100 (boot factorial_bin)) as [r s'] eqn:E. simpl in E1. subst r.
  exists s'. split; [reflexivity|].
  assert (0 <= 100) as H0 by discriminate.
  destruct (run_result 100 (boot factorial_bin) s' 18 H0 eq_refl E) as (_ & [Hh _] & _).
  exact (Hh eq_refl).
Defined.

Lemma run_compose_witness :
  run (7 + 93) (boot factorial_bin) =
  add_steps 7 (run 93 (snd (run 7 (boot factorial_bin)))).
Proof.
  assert (fst (run 7 (boot factorial_bin)) = Ok 7) as E1 by (vm_compute; reflexivity).
  rewrite (run_compose 7 93) by lia.
  destruct (run 7 (boot factorial_bin)) as [r s']. simpl in E1. subst r. reflexivity.
Defined.

(** BL back by four bytes, placed at address 4. *)
Lemma bl_call_witness :
  let s := mkMachine (set_reg PC 4 new_cpu)
             (mem_ (boot [0; 0; 0; 0; 0xFF; 0xF7; 0xFC; 0xFF])) [] in
  exists s', run 2 s = (Ok 2, s') /\ reg (cpu s') PC = 0 /\ reg (cpu s') LR = 9.
Proof.
  intros s.
  assert (machine_wf s) as Hs.
  { split; [apply set_reg_wf; [split; reflexivity || lia|apply reset_wf]|].
    eapply proj2. apply (boot_wf [0; 0; 0; 0; 0xFF; 0xF7; 0xFC; 0xFF]);
      [reflexivity|vm_compute; discriminate]. }
  destruct (bl_call s 4 0xF7FF 0xFFFC) as (s' & H1 & H2 & H3 & _);
    [exact Hs|reflexivity|reflexivity|reflexivity|lia|vm_compute; reflexivity|lia|
     vm_compute; reflexivity|lia|].
  exists s'. split; [exact H1|]. split; [rewrite H2; reflexivity|exact H3].
Defined.

(** BNE taken by two instructions back: branch to itself minus zero. *)
Lemma branch_targets_witness :
  exists s', step (boot [0xFE; 0xD1]) = (Ok true, s') /\ jumps (boot [0xFE; 0xD1]) 0 s'.
Proof.
  refine (proj1 (branch_targets (boot [0xFE; 0xD1]) 0xD1FE _ _ _ _) _);
    [boot_ok|reflexivity|reflexivity|vm_compute; reflexivity|lia].
Defined.

(** BX LR of a new core, whose LR is 0, halts it at address 0. *)
Lemma bx_halts_witness :
  exists s', step (boot [0x70; 0x47]) = (Ok false, s') /\ halted_ (cpu s') = true.
Proof.
  destruct (bx_halts (boot [0x70; 0x47]) 0x4770) as (s' & H1 & H2 & _);
    [boot_ok|reflexivity|vm_compute; reflexivity|lia|].
  exists s'. split; [exact H1|exact H2].
Defined.
