(* ===== verification/CpuMem.v ===== *)
(** Instructions that access memory (src/src/cpu.cpp): the single loads and
    stores against the operand tables of the architecture, and PUSH and POP, and STM
    and LDM, as pairs over the flat memory. *)
From Stdlib Require Import ZifyBool.
From S2P Require Export CpuRun MemoryProps.

(** * Single loads and stores, as the architecture lists them *)

(** A load into or a store of [acc_rt], of [acc_width] bytes at [acc_addr]. *)
Record access : Type := mkAccess {
  acc_load : bool; acc_width : width; acc_rt : Z; acc_addr : Z
}.

(** Whether a load/store with a register offset loads, and its width; the other
    four encodings (STRH, LDRSB, LDRH, LDRSH) are not implemented. *)
Definition register_offset_op (op : Z) : option (bool * width) :=
  match op with
  | 0 => Some (false, W32) | 2 => Some (false, W8)
  | 4 => Some (true, W32) | 6 => Some (true, W8)
  | _ => None
  end.

(** The access that encoding [i] makes when the registers hold [r] and the PC is
    at the next instruction: the bits are those of the encoding tables, as
    quotients and remainders. *)
Definition decode_access (i : Z) (r : Z -> Z) : option access :=
  let low_rt := i mod 8 in
  let high_rt := i / 0x100 mod 8 in
  let base := r (i / 8 mod 8) in
  let imm5 := i / 0x40 mod 0x20 in
  let imm8 := i mod 0x100 in
  let at_imm5 load w n := Some (mkAccess load w low_rt (u32 (base + n * imm5))) in
  match i / 0x800 with
  | 9 => Some (mkAccess true W32 high_rt (u32 (4 * (u32 (r PC + 2) / 4) + 4 * imm8)))
  | 10 | 11 =>
      '(load, w) ← register_offset_op (i / 0x200 mod 8);
      Some (mkAccess load w low_rt (u32 (base + r (i / 0x40 mod 8))))
  | 12 => at_imm5 false W32 4 | 13 => at_imm5 true W32 4
  | 14 => at_imm5 false W8 1 | 15 => at_imm5 true W8 1
  | 16 => at_imm5 false W16 2 | 17 => at_imm5 true W16 2
  | 18 => Some (mkAccess false W32 high_rt (u32 (r SP + 4 * imm8)))
  | 19 => Some (mkAccess true W32 high_rt (u32 (r SP + 4 * imm8)))
  | _ => None
  end.

(** The decoder on an encoding whose range is known. *)
Ltac decide_tests :=
  repeat match goal with
  | |- context [if ?b then _ else _] =>
      lazymatch b with context [if _ then _ else _] => fail | _ => idtac end;
      first [ replace b with false by (Z.div_mod_to_equations; lia)
            | replace b with true by (Z.div_mod_to_equations; lia) ]; cbv iota
  | |- context [?x =? 0] =>
      first [ replace (x =? 0) with false by (Z.div_mod_to_equations; lia)
            | replace (x =? 0) with true by (Z.div_mod_to_equations; lia) ]
  end.

(** The operand fields of these groups. *)
Lemma operand_fields i :
  (i .>> 3) .& 0x7 = i / 8 mod 8 /\ (i .>> 6) .& 0x7 = i / 0x40 mod 8 /\
  (i .>> 6) .& 0x1F = i / 0x40 mod 0x20 /\ (i .>> 8) .& 0x7 = i / 0x100 mod 8 /\
  i .& 0x7 = i mod 8 /\ i .& 0xFF = i mod 0x100 /\ i .& 0xFFFF = u16 i.
Proof.
  split_and!;
    [apply (field_div i 3 3)|apply (field_div i 6 3)|apply (field_div i 6 5)|
     apply (field_div i 8 3)|apply (land_mask i 3)|apply (land_mask i 8)|
     apply (land_mask i 16)]; lia.
Qed.

(** Rewrites them. *)
Ltac operands :=
  match goal with i : Z |- _ =>
    let E1 := fresh in let E2 := fresh in let E3 := fresh in
    let E4 := fresh in let E5 := fresh in let E6 := fresh in
    destruct (operand_fields i) as (E1 & E2 & E3 & E4 & E5 & E6 & _);
    rewrite ?E1, ?E2, ?E3, ?E4, ?E5, ?E6; clear E1 E2 E3 E4 E5 E6
  end.

Section Access.
Context {M : Type} `{IMemoryBusLaws M}.

(** A load zero-extends what it read; a store writes the low bytes; a fault
    changes nothing. *)
Definition do_access (a : access) (s : machine M) : result sim_exn unit * machine M :=
  let addr := acc_addr a in
  let rt := reg (cpu s) (acc_rt a) in
  if acc_load a then
    match (match acc_width a with
           | W8 => bus_read8 | W16 => bus_read16 | W32 => bus_read32 end) (mem_ s) addr with
    | Ok v => (Ok tt, mkMachine (set_reg (acc_rt a) v (cpu s)) (mem_ s) (trace_log s))
    | Err e => (Err (BusFault e), s)
    end
  else
    match (match acc_width a with
           | W8 => bus_write8 (mem_ s) addr (u8 rt)
           | W16 => bus_write16 (mem_ s) addr (u16 rt)
           | W32 => bus_write32 (mem_ s) addr rt end) with
    | Ok m => (Ok tt, mkMachine (cpu s) m (trace_log s))
    | Err e => (Err (BusFault e), s)
    end.

Lemma load_store_access L B rd addr (s : machine M) :
  load_store L B rd addr s =
  do_access (mkAccess L (if B then W8 else W32) rd addr) s.
Proof.
  unfold load_store, do_access. simpl.
  destruct L, B; unfold bind, mem_read, mem_write, get_reg, gets; simpl.
  - by destruct (bus_read8 _ _).
  - by destruct (bus_read32 _ _).
  - change 0xFF with (Z.ones 8). rewrite land_mask by lia. done.
  - done.
Qed.

(** Clearing two bits of a word aligns it. *)
Lemma align4 x : in_u32 x -> x .& not32 3 = 4 * (x / 4).
Proof.
  intros Hx. change (not32 3) with (Z.shiftl (Z.ones 30) 2).
  replace (4 * (x / 4)) with (Z.shiftl (x / 2 ^ 2) 2)
    by (rewrite Z.shiftl_mul_pow2 by lia; change (2 ^ 2) with 4; lia).
  rewrite <-Z.shiftr_div_pow2 by lia. apply Z.bits_inj'. intros k Hk.
  rewrite Z.land_spec, !Z.shiftl_spec by lia.
  destruct (Z.ltb_spec k 2); [by rewrite !(Z.testbit_neg_r _ (k - 2)), andb_false_r by lia|].
  rewrite Z.shiftr_spec by lia. replace (k - 2 + 2) with k by lia.
  rewrite (Z.testbit_ones_nonneg 30 (k - 2)) by lia.
  destruct (Z.ltb_spec (k - 2) 30); [by rewrite andb_true_r|].
  by rewrite (testbit_high x 32) by (try exact Hx; lia).
Qed.

Lemma exec_ldr_pc_access i (s : machine M) :
  exec_ldr_pc i s =
  do_access (mkAccess true W32 (i / 0x100 mod 8)
    (u32 (4 * (u32 (reg (cpu s) PC + 2) / 4) + 4 * (i mod 0x100)))) s.
Proof.
  unfold exec_ldr_pc, pc. rewrite bind_get_reg, align4 by apply u32_range.
  operands. rewrite Z.shiftl_mul_pow2, (Z.mul_comm (_ mod _)) by lia.
  unfold do_access, bind, mem_read. simpl. by destruct (bus_read32 _ _).
Qed.

Lemma exec_ldr_str_reg_access i (s : machine M) :
  exec_ldr_str_reg i s =
  do_access (mkAccess (bit i 11) (if bit i 10 then W8 else W32) (i mod 8)
    (u32 (reg (cpu s) (i / 8 mod 8) + reg (cpu s) (i / 0x40 mod 8)))) s.
Proof.
  unfold exec_ldr_str_reg. operands. rewrite !bind_get_reg. apply load_store_access.
Qed.

Lemma exec_ldr_str_imm_access i (s : machine M) :
  exec_ldr_str_imm i s =
  do_access (mkAccess (bit i 11) (if bit i 12 then W8 else W32) (i mod 8)
    (u32 (reg (cpu s) (i / 8 mod 8) + (if bit i 12 then 1 else 4) * (i / 0x40 mod 0x20)))) s.
Proof.
  unfold exec_ldr_str_imm. operands. rewrite bind_get_reg, load_store_access.
  rewrite Z.shiftl_mul_pow2, (Z.mul_comm (_ mod _)) by lia.
  by destruct (bit i 12); rewrite ?Z.mul_1_l.
Qed.

Lemma exec_ldrh_strh_imm_access i (s : machine M) :
  exec_ldrh_strh_imm i s =
  do_access (mkAccess (bit i 11) W16 (i mod 8)
    (u32 (reg (cpu s) (i / 8 mod 8) + 2 * (i / 0x40 mod 0x20)))) s.
Proof.
  unfold exec_ldrh_strh_imm. operands.
  rewrite bind_get_reg, Z.shiftl_mul_pow2, (Z.mul_comm (_ mod _)) by lia.
  unfold do_access, bind, mem_read, mem_write, get_reg, gets. simpl acc_load.
  destruct (bit i 11); simpl; [by destruct (bus_read16 _ _)|].
  by destruct (operand_fields (reg (cpu s) (i mod 8))) as (_ & _ & _ & _ & _ & _ & ->).
Qed.

Lemma exec_ldr_str_sp_access i (s : machine M) :
  exec_ldr_str_sp i s =
  do_access (mkAccess (bit i 11) W32 (i / 0x100 mod 8)
    (u32 (reg (cpu s) SP + 4 * (i mod 0x100)))) s.
Proof.
  unfold exec_ldr_str_sp. operands.
  rewrite bind_get_reg, Z.shiftl_mul_pow2, (Z.mul_comm (_ mod _)) by lia.
  unfold do_access, bind, mem_read, mem_write, get_reg, gets. simpl acc_load.
  destruct (bit i 11); simpl; [by destruct (bus_read32 _ _)|done].
Qed.

Lemma execute_memory i (s : machine M) :
  0x4800 <= i < 0xA000 ->
  execute i s =
  (if i <? 0x5000 then exec_ldr_pc i
   else if i <? 0x6000 then
     if bit i 9 then throw (UndefinedInstructionException i) else exec_ldr_str_reg i
   else if i <? 0x8000 then exec_ldr_str_imm i
   else if i <? 0x9000 then exec_ldrh_strh_imm i
   else exec_ldr_str_sp i) s.
Proof.
  intros Hi. unfold execute. cbv zeta.
  destruct (top_fields i) as (-> & -> & -> & -> & -> & _); [unfold in_u16; lia|].
  destruct (bit i 9); repeat case_if; try done; exfalso; word_lia.
Qed.

(** The two encodings of a register-offset access with bit 9 clear are the four
    that [register_offset_op] knows. *)
Lemma register_offset_bits i :
  0x5000 <= i < 0x6000 ->
  register_offset_op (i / 0x200 mod 8) =
  if bit i 9 then None else Some (bit i 11, if bit i 10 then W8 else W32).
Proof.
  intros Hi. rewrite !bit_div by lia.
  change (2 ^ 9) with 0x200; change (2 ^ 10) with 0x400; change (2 ^ 11) with 0x800.
  assert (0 <= i / 0x200 mod 8 < 8) as Hr by word_lia.
  assert (exists q, q = i / 0x200 mod 8) as [q Hq] by eauto. rewrite <-Hq in *.
  assert (q = 0 \/ q = 1 \/ q = 2 \/ q = 3 \/ q = 4 \/ q = 5 \/ q = 6 \/ q = 7)
    as Hcase by lia.
  repeat destruct Hcase as [->|Hcase]; [..|rewrite Hcase in *]; simpl register_offset_op;
    decide_tests; done.
Qed.

End Access.

(** * PUSH and POP *)

(** Every encoding from 0x4800 to 0x9FFF is the load or store that the
    architecture's tables say, or undefined: which register, which width and
    which address, relative to the aligned PC, to SP or to a base register with
    a scaled 5-bit or a register offset; a load zero-extends, a store writes the
    low bytes, and an access that faults changes neither registers nor memory. *)
Lemma execute_access {M} `{IMemoryBusLaws M} i (s : machine M) :
  0x4800 <= i < 0xA000 ->
  execute i s =
  match decode_access i (reg (cpu s)) with
  | Some a => do_access a s
  | None => (Err (UndefinedInstructionException i), s)
  end.
Proof.
  intros Hi. rewrite execute_memory by done. unfold decode_access.
  assert (exists q, q = i / 0x800) as [q Hq] by eauto. rewrite <-Hq.
  assert (q = 9 \/ q = 10 \/ q = 11 \/ q = 12 \/ q = 13 \/ q = 14 \/ q = 15 \/ q = 16 \/
          q = 17 \/ q = 18 \/ q = 19) as Hcase by word_lia.
  repeat destruct Hcase as [->|Hcase]; [..|rewrite Hcase in *]; decide_tests.
  1: apply exec_ldr_pc_access.
  1-2: rewrite register_offset_bits by word_lia; destruct (bit i 9); [done|];
    apply exec_ldr_str_reg_access.
  1-4: rewrite exec_ldr_str_imm_access.
  5-6: rewrite exec_ldrh_strh_imm_access.
  7-8: rewrite exec_ldr_str_sp_access.
  all: rewrite !bit_div by lia; change (2 ^ 11) with 0x800; change (2 ^ 12) with 0x1000;
    decide_tests; done.
Qed.

(** The registers PUSH stores for the list [l], lowest address first: bits 0 to 7
    are R0 to R7, bit 8 is LR. *)
Definition low_list (l : Z) : list Z :=
  filter (fun i => bit l i = true) [0; 1; 2; 3; 4; 5; 6; 7].
Definition push_list (l : Z) : list Z :=
  low_list l ++ if bit l 8 then [LR] else [].

(** The words [vs] lie in [m] from address [a] up. *)
Fixpoint words_at (m : FlatMemoryBus.t) (a : Z) (vs : list Z) : Prop :=
  match vs with
  | [] => True
  | v :: vs => FlatMemoryBus.read32 m a = Ok v /\ words_at m (a + 4) vs
  end.

(** Memory below 64 KB is the same outside the addresses from [lo] to [hi]. *)
Definition same_outside (lo hi : Z) (m m' : FlatMemoryBus.t) : Prop :=
  forall w b, 0 <= b -> b + Z.of_nat (width_bytes w) <= lo \/ hi <= b < 0x10000 ->
    read w m' b = read w m b.

Lemma same_outside_trans lo mid hi m m1 m2 :
  lo <= mid <= hi -> same_outside mid hi m m1 -> same_outside lo mid m1 m2 ->
  same_outside lo hi m m2.
Proof. intros Hm H1 H2 w b Hb Hout. rewrite H2, H1 by lia. done. Qed.

Lemma words_at_outside lo hi m m' a vs :
  same_outside lo hi m m' -> 0 <= a -> hi <= a -> a + 4 * Z.of_nat (length vs) <= 0x10000 ->
  words_at m a vs -> words_at m' a vs.
Proof.
  intros Hs. revert a. induction vs as [|v vs IH]; intros a Ha Hhi Hle; [done|].
  simpl in *. intros [Hv Hvs]. split; [|by apply IH; lia || exact Hvs].
  rewrite <-Hv. apply (Hs W32); lia.
Qed.

Lemma write32_low m a v :
  mem_wf m -> 0 <= a -> a + 4 <= 0x10000 -> in_u32 v ->
  exists m', FlatMemoryBus.write32 m a v = Ok m' /\ mem_wf m' /\
    FlatMemoryBus.read32 m' a = Ok v /\ same_outside a (a + 4) m m'.
Proof.
  intros Hm Ha Hle Hv.
  assert (forall b, 0 <= b < 0x10000 -> FlatMemoryBus.translate b = Ok b) as Ht.
  { intros b Hb. unfold FlatMemoryBus.translate. unfold_map. case_if; [done|lia]. }
  assert (in_u32 a) as Ha32 by (unfold in_u32; lia).
  assert (exists m', write W32 m a v = Ok m') as [m' Hw].
  { rewrite write_width by done. unfold write_n. rewrite Ht by lia. unfold_map.
    simpl width_bytes. case_if; [lia|]. eauto. }
  exists m'. destruct (read_write_same W32 _ _ _ _ Hm Ha32 Hv Hw) as [Hm' Hr].
  split_and!; [done|done|done|]. intros w b Hb Hout.
  assert (b < 0x10000) by (destruct w; simpl in Hout; lia).
  rewrite !read_width by (done || unfold in_u32; lia).
  rewrite write_width in Hw by done.
  apply (read_write_n_other 4 _ m a v m' b a b); try done; try (apply Ht; lia);
    unfold in_u32; lia.
Qed.

(** * PUSH and POP *)

(** Writes every register of [rs] with its value. *)
Fixpoint set_regs (rs vs : list Z) (c : CortexM0) : CortexM0 :=
  match rs, vs with
  | r :: rs, v :: vs => set_regs rs vs (set_reg r v c)
  | _, _ => c
  end.

Section Lists.
Context {M : Type} `{IMemoryBus M}.

Lemma bind_ext {A B} (c c' : exec M A) (k k' : A -> exec M B) s :
  c s = c' s -> (forall a s', k a s' = k' a s') -> bind c k s = bind c' k' s.
Proof. intros Hc Hk. unfold bind. rewrite Hc. by destruct (c' s) as [[|] ?]. Qed.

Lemma for_each_filter (l : list Z) (f : Z -> exec M unit) (p q : Z -> bool) s :
  (forall i, i ∈ l -> p i = q i) ->
  for_each l (fun i => if p i then f i else ret tt) s =
  for_each (filter (fun i => q i = true) l) f s.
Proof.
  revert s. induction l as [|i l IH]; intros s Hp; [done|]. rewrite filter_cons.
  simpl for_each. rewrite Hp by apply list_elem_of_here.
  assert (forall j, j ∈ l -> p j = q j) as Hl by (intros; apply Hp; by apply list_elem_of_further).
  destruct (decide (q i = true)) as [E|E].
  - rewrite E. simpl. unfold bind. destruct (f i s) as [[|] ?]; [by apply IH|done].
  - apply not_true_is_false in E. rewrite E. unfold bind, ret. by apply IH.
Qed.

Lemma for_each_app (l k : list Z) (f : Z -> exec M unit) s :
  for_each (l ++ k) f s = (for_each l f >> for_each k f) s.
Proof.
  revert s. induction l as [|i l IH]; intros s; [done|].
  simpl. rewrite bind_bind. unfold bind. destruct (f i s) as [[|] ?]; [apply IH|done].
Qed.
End Lists.

Lemma set_reg_set_reg r v w c : set_reg r v (set_reg r w c) = set_reg r v c.
Proof. unfold set_reg, with_regs. simpl. by rewrite list_insert_insert_eq. Qed.

Lemma set_reg_comm r r' v w c :
  0 <= r -> 0 <= r' -> r <> r' ->
  set_reg r v (set_reg r' w c) = set_reg r' w (set_reg r v c).
Proof.
  intros. unfold set_reg, with_regs. simpl. by rewrite list_insert_insert_ne by lia.
Qed.

Lemma set_reg_id r c :
  length (regs_ c) = 16%nat -> 0 <= r < 16 -> set_reg r (reg c r) c = c.
Proof.
  intros Hl Hr. destruct c. unfold set_reg, with_regs, reg. simpl in *. f_equal.
  apply list_insert_id. apply list_lookup_lookup_total_lt. lia.
Qed.

(** Registers a block transfer may name: any but SP and PC. *)
Definition transferable (r : Z) : Prop := 0 <= r < 16 /\ r <> SP /\ r <> PC.

Lemma push_list_transferable l : Forall transferable (push_list l).
Proof.
  apply Forall_app. split; [|destruct (bit l 8); repeat constructor; unfold LR, SP, PC; lia].
  assert (Forall transferable [0; 1; 2; 3; 4; 5; 6; 7]) as Hall
    by (repeat constructor; unfold SP, PC; lia).
  rewrite Forall_forall in Hall |- *. intros i Hi. apply Hall.
  by apply list_elem_of_filter in Hi as [_ Hi].
Qed.

Lemma length_set_regs rs vs c : length (regs_ (set_regs rs vs c)) = length (regs_ c).
Proof.
  revert vs c. induction rs as [|r rs IH]; intros [|v vs] c; simpl; try done.
  by rewrite IH, length_set_reg.
Qed.

Lemma set_regs_comm rs vs x v c :
  Forall transferable rs -> x = SP \/ x = PC ->
  set_regs rs vs (set_reg x v c) = set_reg x v (set_regs rs vs c).
Proof.
  intros Hrs Hx. revert vs c. induction Hrs as [|r rs Hr _ IH]; intros [|w vs] c; simpl; try done.
  rewrite <-IH. f_equal. apply set_reg_comm; unfold transferable, SP, PC in *; lia.
Qed.

Lemma reg_set_regs rs (f : Z -> Z) c i :
  length (regs_ c) = 16%nat -> Forall transferable rs -> 0 <= i < 16 ->
  reg (set_regs rs (map f rs) c) i = if decide (i ∈ rs) then f i else reg c i.
Proof.
  intros Hl Hrs Hi. revert c Hl. induction Hrs as [|r rs Hr _ IH]; intros c Hl; simpl; [done|].
  rewrite IH by (by rewrite length_set_reg). unfold transferable in Hr.
  destruct (decide (i ∈ rs)) as [E|E].
  - by rewrite decide_True by (by apply list_elem_of_further).
  - destruct (decide (i = r)) as [->|Hne].
    + rewrite decide_True by apply list_elem_of_here. apply reg_set_same; [done|lia].
    + rewrite decide_False by (rewrite elem_of_cons; tauto). apply reg_set_other; lia.
Qed.

(** * The instructions as loops over their lists *)

Section Loops.
Context {M : Type} `{IMemoryBusLaws M}.

(** The instructions as these loops. *)
Lemma execute_push_pop i (s : machine M) :
  0xB400 <= i < 0xB600 \/ 0xBC00 <= i < 0xBE00 -> execute i s = exec_push_pop i s.
Proof.
  intros Hi. unfold execute. cbv zeta.
  destruct (top_fields i) as (-> & -> & -> & -> & -> & _); [unfold in_u16; lia|].
  repeat case_if; try done; exfalso; word_lia.
Qed.

(** The bits of the list in an instruction that adds it to [op]. *)
Lemma list_bits op l i :
  0 <= l < 0x200 -> op mod 0x200 = 0 -> 0 <= i < 9 -> bit (op + l) i = bit l i.
Proof.
  intros Hl Hop Hi. rewrite !bit_testbit by lia.
  rewrite <-(Z.mod_pow2_bits_low (op + l) 9) by lia.
  change (2 ^ 9) with 0x200. replace ((op + l) mod 0x200) with l by word_lia. done.
Qed.

Lemma in_rlist_bit instr l i :
  instr mod 0x100 = l mod 0x100 -> i ∈ [0; 1; 2; 3; 4; 5; 6; 7] ->
  in_rlist (instr .& 0xFF) i = bit l i.
Proof.
  intros Hl Hi. assert (0 <= i < 8) as Hr by (rewrite !elem_of_cons, elem_of_nil in Hi; lia).
  unfold in_rlist. rewrite bit_mask_test by lia. change 0xFF with (Z.ones 8).
  rewrite land_mask, !bit_testbit by lia. change (2 ^ 8) with 0x100. rewrite Hl.
  change 0x100 with (2 ^ 8). by rewrite Z.mod_pow2_bits_low by lia.
Qed.

Lemma exec_push_eq l (s : machine M) :
  0 <= l < 0x200 -> exec_push_pop (0xB400 + l) s = for_each (reverse (push_list l)) push_reg s.
Proof.
  intros Hl. unfold exec_push_pop, push_list. cbv zeta.
  rewrite (bit_div _ 11) by lia. change (2 ^ 11) with 0x800.
  replace ((0xB400 + l) / 0x800 mod 2 =? 0) with true by word_lia.
  simpl negb. cbv iota.
  rewrite list_bits, reverse_app, for_each_app by done. apply bind_ext.
  - destruct (bit l 8); [|done]. simpl. unfold bind, ret.
    by destruct (push_reg LR s) as [[[]|] ?].
  - intros _ s'. rewrite (for_each_filter _ _ _ (bit l)).
    + unfold low_list. by rewrite <-filter_reverse.
    + intros i Hi. apply in_rlist_bit; [word_lia|].
      by rewrite <-(reverse_involutive [0; 1; 2; 3; 4; 5; 6; 7]), elem_of_reverse.
Qed.

(** The end of POP with bit 8: the PC, and whether the core halts. *)
Definition pop_pc : exec M unit :=
  sp <- get_reg SP;;
  new_pc <- mem_read bus_read32 sp;;
  sp' <- get_reg SP;;
  put_reg SP (u32 (sp' + 4)) >>
  set_pc (new_pc .& not32 1) >>
  (if negb (bit new_pc 0) then halt else ret tt).

Lemma exec_pop_eq l (s : machine M) :
  0 <= l < 0x200 ->
  exec_push_pop (0xBC00 + l) s =
  (for_each (low_list l) pop_reg >> if bit l 8 then pop_pc else ret tt) s.
Proof.
  intros Hl. unfold exec_push_pop. cbv zeta.
  rewrite (bit_div _ 11) by lia. change (2 ^ 11) with 0x800.
  replace ((0xBC00 + l) / 0x800 mod 2 =? 0) with false by word_lia.
  simpl negb. cbv iota. rewrite list_bits by done. apply bind_ext; [|done].
  rewrite (for_each_filter _ _ _ (bit l)); [done|]. intros i Hi. apply in_rlist_bit; [word_lia|done].
Qed.

Lemma execute_ldm_stm i (s : machine M) :
  0xC000 <= i < 0xD000 -> execute i s = exec_ldm_stm i s.
Proof.
  intros Hi. unfold execute. cbv zeta.
  destruct (top_fields i) as (-> & -> & -> & -> & -> & _); [unfold in_u16; lia|].
  repeat case_if; try done; exfalso; word_lia.
Qed.

Lemma elem_of_low i : 0 <= i < 8 -> i ∈ [0; 1; 2; 3; 4; 5; 6; 7].
Proof. intros Hi. rewrite !elem_of_cons, elem_of_nil. lia. Qed.

(** The fields of an LDM or STM. *)
Lemma block_fields (L : bool) rb l :
  0 <= rb < 8 -> 0 <= l < 0x100 ->
  let i := (if L then 0xC800 else 0xC000) + 0x100 * rb + l in
  0xC000 <= i < 0xD000 /\ bit i 11 = L /\ (i .>> 8) .& 0x7 = rb /\
  (forall j, j ∈ [0; 1; 2; 3; 4; 5; 6; 7] -> in_rlist (i .& 0xFF) j = bit l j).
Proof.
  intros Hrb Hl i.
  assert (i = (if L then 0xC800 else 0xC000) + 0x100 * rb + l) as Hi by done. clearbody i.
  destruct (operand_fields i) as (_ & _ & _ & -> & _).
  rewrite bit_div by lia. change (2 ^ 11) with 0x800. split; [|split; [|split]].
  - destruct L; lia.
  - destruct L; word_lia.
  - destruct L; word_lia.
  - intros j Hj. apply in_rlist_bit; [destruct L; word_lia|done].
Qed.

End Loops.

Section Stack.
Local Abbreviation machine := (machine FlatMemoryBus.t).

Lemma push_reg_eq r (s : machine) :
  machine_wf s -> transferable r -> 4 <= reg (cpu s) SP <= 0x10000 ->
  exists m, push_reg r s =
      (Ok tt, mkMachine (set_reg SP (reg (cpu s) SP - 4) (cpu s)) m (trace_log s)) /\
    mem_wf m /\ FlatMemoryBus.read32 m (reg (cpu s) SP - 4) = Ok (reg (cpu s) r) /\
    same_outside (reg (cpu s) SP - 4) (reg (cpu s) SP) (mem_ s) m.
Proof.
  intros [Hc Hm] Hr Hsp. set (sp := reg (cpu s) SP) in *.
  destruct (write32_low (mem_ s) (sp - 4) (reg (cpu s) r)) as (m & Hw & Hm' & Hv & Ho);
    [done|lia|lia|by apply reg_range|].
  exists m. rewrite Z.sub_add in Ho. split_and!; [|done..].
  unfold push_reg. rewrite bind_get_reg. unfold put_reg. rewrite bind_modify, !bind_get_reg.
  fold sp. rewrite (u32_small (sp - 4)) by (unfold in_u32; lia). simpl cpu.
  rewrite reg_set_same by (apply Hc || unfold SP; lia).
  unfold transferable in Hr. rewrite reg_set_other by (unfold SP in *; lia).
  unfold mem_write. simpl. by rewrite Hw.
Qed.

Lemma push_all rs (s : machine) :
  machine_wf s -> Forall transferable rs ->
  let sp := reg (cpu s) SP in
  let n := 4 * Z.of_nat (length rs) in
  n <= sp <= 0x10000 ->
  exists m, for_each (reverse rs) push_reg s =
      (Ok tt, mkMachine (set_reg SP (sp - n) (cpu s)) m (trace_log s)) /\
    mem_wf m /\ words_at m (sp - n) (map (reg (cpu s)) rs) /\
    same_outside (sp - n) sp (mem_ s) m.
Proof.
  intros Hs Hrs. cbv zeta. set (sp := reg (cpu s) SP).
  induction Hrs as [|r rs Hr _ IH]; intros Hsp.
  - exists (mem_ s). simpl. rewrite Z.sub_0_r. unfold sp.
    rewrite set_reg_id by (apply Hs || unfold SP; lia). destruct s. by split_and!; try apply Hs.
  - simpl length in Hsp. destruct IH as (m & Hpush & Hm & Hw & Ho); [lia|].
    set (n := 4 * Z.of_nat (length rs)) in *. rewrite reverse_cons, for_each_app.
    unfold bind at 1. rewrite Hpush. set (s1 := mkMachine _ m _).
    assert (machine_wf s1) as Hs1.
    { split; [|done]. apply set_reg_wf; [unfold in_u32; lia|apply Hs]. }
    assert (reg (cpu s1) SP = sp - n) as Hsp1
      by (apply reg_set_same; [apply Hs|unfold SP; lia]).
    destruct (push_reg_eq r s1 Hs1 Hr) as (m2 & E & Hm2 & Hr2 & Ho2); [lia|].
    rewrite Hsp1 in *. exists m2. simpl for_each. unfold bind. rewrite E. unfold ret.
    replace (sp - 4 * Z.of_nat (length (r :: rs))) with (sp - n - 4) by (simpl length; lia).
    split_and!; [simpl; by rewrite set_reg_set_reg|done| |].
    + split; [|rewrite Z.sub_add; eapply words_at_outside;
                [exact Ho2|lia|lia|rewrite length_map; lia|exact Hw]].
      rewrite Hr2. f_equal. unfold transferable in Hr. apply reg_set_other; unfold SP in *; lia.
    + apply (same_outside_trans _ (sp - n) _ _ m); [lia|done|done].
Qed.

Lemma pop_reg_eq r v (s : machine) :
  length (regs_ (cpu s)) = 16%nat -> transferable r -> 0 <= reg (cpu s) SP < 0xFFFFFFFC ->
  FlatMemoryBus.read32 (mem_ s) (reg (cpu s) SP) = Ok v ->
  pop_reg r s =
  (Ok tt, mkMachine (set_reg SP (reg (cpu s) SP + 4) (set_reg r v (cpu s))) (mem_ s) (trace_log s)).
Proof.
  intros Hl Hr Hsp Hv. unfold pop_reg. rewrite bind_get_reg. unfold bind at 1, mem_read. simpl.
  rewrite Hv. unfold put_reg. rewrite bind_modify, bind_get_reg. simpl cpu.
  unfold transferable in Hr. rewrite reg_set_other by (unfold SP in *; lia).
  by rewrite u32_small by (unfold in_u32; lia).
Qed.

Lemma pop_all rs vs (s : machine) :
  length (regs_ (cpu s)) = 16%nat -> Forall transferable rs -> length vs = length rs ->
  let sp := reg (cpu s) SP in
  let n := 4 * Z.of_nat (length rs) in
  0 <= sp -> sp + n <= 0x10000 -> words_at (mem_ s) sp vs ->
  for_each rs pop_reg s =
  (Ok tt, mkMachine (set_reg SP (sp + n) (set_regs rs vs (cpu s))) (mem_ s) (trace_log s)).
Proof.
  intros Hl Hrs. cbv zeta. revert vs s Hl. induction Hrs as [|r rs Hr Hrs IH]; intros [|v vs] s Hl;
    simpl length; try done.
  - intros _ _ _ _. rewrite Z.add_0_r. simpl. rewrite set_reg_id by (done || unfold SP; lia).
    by destruct s.
  - intros Hlen H0 Hle [Hv Hvs]. simpl for_each. unfold bind.
    rewrite (pop_reg_eq r v) by (done || lia).
    assert (length (regs_ (set_reg r v (cpu s))) = 16%nat) as Hl1 by (by rewrite length_set_reg).
    rewrite (IH vs); simpl cpu; rewrite ?reg_set_same by (done || unfold SP; lia);
      try done; try lia; [|by rewrite length_set_reg].
    rewrite set_regs_comm, set_reg_set_reg by auto. do 3 f_equal. lia.
Qed.

Lemma pop_pc_eq v (s : machine) :
  length (regs_ (cpu s)) = 16%nat -> 0 <= reg (cpu s) SP < 0xFFFFFFFC -> in_u32 v ->
  FlatMemoryBus.read32 (mem_ s) (reg (cpu s) SP) = Ok v ->
  let c := set_reg PC (2 * (v / 2)) (set_reg SP (reg (cpu s) SP + 4) (cpu s)) in
  pop_pc s = (Ok tt, mkMachine (if bit v 0 then c else with_halted true c) (mem_ s) (trace_log s)).
Proof.
  intros Hl Hsp Hv Hr c. unfold pop_pc. rewrite bind_get_reg. unfold bind at 1, mem_read. simpl.
  rewrite Hr, bind_get_reg. unfold set_pc, put_reg. rewrite !bind_modify. simpl cpu.
  rewrite u32_small, (clear_bit0 v) by (done || unfold in_u32; lia).
  rewrite clear_bit0_even by (word_lia || by rewrite Z.even_mul).
  by destruct (bit v 0).
Qed.

Lemma elem_of_low_list l i : 0 <= i -> i ∈ low_list l <-> (i <? 8) && bit l i = true.
Proof.
  intros Hi. unfold low_list.
  rewrite list_elem_of_filter, !elem_of_cons, elem_of_nil, andb_true_iff, Z.ltb_lt. lia.
Qed.

Lemma words_at_app m a vs ws :
  words_at m a (vs ++ ws) <->
  words_at m a vs /\ words_at m (a + 4 * Z.of_nat (length vs)) ws.
Proof.
  revert a. induction vs as [|v vs IH]; intros a; simpl.
  - rewrite Z.add_0_r. tauto.
  - rewrite IH. replace (a + 4 + 4 * Z.of_nat (length vs))
      with (a + 4 * Z.of_nat (S (length vs))) by lia. tauto.
Qed.

Lemma set_regs_rest rs vs c :
  apsr_ (set_regs rs vs c) = apsr_ c /\ halted_ (set_regs rs vs c) = halted_ c.
Proof.
  revert vs c. induction rs as [|r rs IH]; intros [|v vs] c; simpl; try done.
  by destruct (IH vs (set_reg r v c)) as [-> ->].
Qed.

(** POP of a list whose words lie at SP. *)
Lemma pop_effect l (f : Z -> Z) (s : machine) :
  machine_wf s -> 0 <= l < 0x200 -> in_u32 (f LR) ->
  let sp := reg (cpu s) SP in
  let n := 4 * Z.of_nat (length (push_list l)) in
  0 <= sp -> sp + n <= 0x10000 -> words_at (mem_ s) sp (map f (push_list l)) ->
  let c := set_reg SP (sp + n) (set_regs (low_list l) (map f (low_list l)) (cpu s)) in
  let c' := set_reg PC (2 * (f LR / 2)) c in
  exec_push_pop (0xBC00 + l) s =
  (Ok tt, mkMachine (if bit l 8 then if bit (f LR) 0 then c' else with_halted true c' else c)
            (mem_ s) (trace_log s)).
Proof.
  intros [[Hlen _] _] Hl Hf sp n H0 Hle Hw c c'. rewrite exec_pop_eq by done.
  assert (n = 4 * Z.of_nat (length (low_list l)) + if bit l 8 then 4 else 0) as Hn.
  { unfold n, push_list. rewrite length_app. destruct (bit l 8); simpl length; lia. }
  clearbody n. pose proof (push_list_transferable l) as Ht. unfold push_list in *.
  rewrite map_app in Hw. apply words_at_app in Hw as [Hw1 Hw2].
  rewrite length_map in Hw2. apply Forall_app in Ht as [Ht _].
  unfold bind at 1. rewrite (pop_all _ (map f (low_list l))); try done;
    [|by rewrite length_map|destruct (bit l 8); lia]. fold sp.
  set (s1 := mkMachine _ (mem_ s) _).
  assert (length (regs_ (cpu s1)) = 16%nat) as Hl1
    by (unfold s1; simpl; by rewrite length_insert, length_set_regs).
  destruct (bit l 8).
  - assert (reg (cpu s1) SP = sp + 4 * Z.of_nat (length (low_list l))) as Hsp1.
    { apply reg_set_same; [by rewrite length_set_regs|unfold SP; lia]. }
    rewrite (pop_pc_eq (f LR)); try done; rewrite Hsp1; [|lia|apply Hw2].
    unfold s1. simpl cpu. by rewrite set_reg_set_reg, <-Z.add_assoc, <-Hn.
  - unfold ret, s1, c. by rewrite Hn, Z.add_0_r.
Qed.

Lemma reg_low_list l (f : Z -> Z) c i :
  length (regs_ c) = 16%nat -> 0 <= i < 16 ->
  reg (set_regs (low_list l) (map f (low_list l)) c) i =
  if (i <? 8) && bit l i then f i else reg c i.
Proof.
  intros Hl Hi. pose proof (push_list_transferable l) as Ht. apply Forall_app in Ht as [Ht _].
  rewrite reg_set_regs by done. pose proof (elem_of_low_list l i).
  destruct (decide (i ∈ low_list l)), ((i <? 8) && bit l i); naive_solver lia.
Qed.

(** The core that [pop_effect] leaves. *)
Lemma popped_registers l (f : Z -> Z) c sp :
  length (regs_ c) = 16%nat ->
  let c0 := set_reg SP sp (set_regs (low_list l) (map f (low_list l)) c) in
  let c' := set_reg PC (2 * (f LR / 2)) c0 in
  let c3 := if bit l 8 then if bit (f LR) 0 then c' else with_halted true c' else c0 in
  reg c3 SP = sp /\ apsr_ c3 = apsr_ c /\
  (forall i, 0 <= i < 15 -> i <> SP ->
     reg c3 i = if (i <? 8) && bit l i then f i else reg c i) /\
  if bit l 8
  then reg c3 PC = 2 * (f LR / 2) /\ halted_ c3 = halted_ c || negb (bit (f LR) 0)
  else reg c3 PC = reg c PC /\ halted_ c3 = halted_ c.
Proof.
  intros Hl c0 c' c3.
  assert (length (regs_ c0) = 16%nat) as Hl0 by (unfold c0; by rewrite length_set_reg, length_set_regs).
  assert (apsr_ c0 = apsr_ c /\ halted_ c0 = halted_ c) as [Ha Hh] by apply set_regs_rest.
  assert (forall i, 0 <= i < 16 -> i <> SP ->
    reg c0 i = if (i <? 8) && bit l i then f i else reg c i) as H0.
  { intros i Hi Hne. unfold c0. rewrite reg_set_other by (unfold SP in *; lia).
    by apply reg_low_list. }
  assert (reg c0 SP = sp) as Hsp by (apply reg_set_same; [by rewrite length_set_regs|unfold SP; lia]).
  assert (forall i, reg c3 i = if bit l 8 then reg c' i else reg c0 i) as H3.
  { intros i. unfold c3. by destruct (bit l 8), (bit (f LR) 0). }
  assert (forall i, 0 <= i < 15 -> reg c3 i = reg c0 i) as Hother.
  { intros i Hi. rewrite H3. destruct (bit l 8); [|done]. apply reg_set_other; unfold PC; lia. }
  split_and!; [by rewrite Hother by (unfold SP; lia)| | |].
  - unfold c3, c'. by destruct (bit l 8), (bit (f LR) 0).
  - intros i Hi Hne. rewrite Hother by done. apply H0; lia.
  - rewrite H3. unfold c3, c'. destruct (bit l 8).
    + rewrite reg_set_same by (done || unfold PC; lia). split; [done|].
      destruct (bit (f LR) 0); simpl; by rewrite ?Hh, ?orb_false_r, ?orb_true_r.
    + split; [by apply (H0 PC); unfold PC, SP; lia|done].
Qed.

End Stack.

(** * LDM and STM *)

Section Block.
Local Abbreviation machine := (machine FlatMemoryBus.t).

Lemma stm_loop_eq (p : Z -> bool) rlist l a (s : machine) :
  machine_wf s -> (forall i, i ∈ l -> in_rlist rlist i = p i) ->
  let rs := filter (fun i => p i = true) l in
  let n := 4 * Z.of_nat (length rs) in
  0 <= a -> a + n <= 0x10000 ->
  exists m, ldm_stm_loop false rlist l a s =
      (Ok (a + n), mkMachine (cpu s) m (trace_log s)) /\
    mem_wf m /\ words_at m a (map (reg (cpu s)) rs) /\ same_outside a (a + n) (mem_ s) m.
Proof.
  revert a s. induction l as [|i l IH]; intros a s Hs Hp; cbv zeta.
  - intros _ _. exists (mem_ s). destruct s. rewrite Z.add_0_r. by split_and!; try apply Hs.
  - assert (forall j, j ∈ l -> in_rlist rlist j = p j) as Hl
      by (intros; apply Hp; by apply list_elem_of_further).
    simpl ldm_stm_loop. rewrite Hp by apply list_elem_of_here. rewrite filter_cons.
    destruct (decide (p i = true)) as [E|E].
    + rewrite E. simpl length. intros Ha Hle.
      destruct (write32_low (mem_ s) a (reg (cpu s) i)) as (m1 & Hw & Hm1 & Hv & Ho);
        [apply Hs|done|lia|apply reg_range, Hs|].
      rewrite bind_bind, bind_get_reg. unfold bind, mem_write. simpl. rewrite Hw.
      rewrite u32_small by (unfold in_u32; lia).
      destruct (IH (a + 4) (mkMachine (cpu s) m1 (trace_log s))) as (m2 & E2 & Hm2 & Hws & Ho2);
        [split; [apply Hs|done]|done|lia|lia|].
      exists m2. rewrite E2. simpl in *. split_and!.
      * do 2 f_equal. lia.
      * done.
      * rewrite <-Hv. apply (Ho2 W32); simpl; lia.
      * done.
      * intros w b Hb Hout. rewrite (Ho2 w b), (Ho w b) by lia. done.
    + apply not_true_is_false in E. rewrite E. by apply IH.
Qed.

Lemma ldm_loop_eq (p : Z -> bool) rlist l a vs (s : machine) :
  (forall i, i ∈ l -> in_rlist rlist i = p i) ->
  let rs := filter (fun i => p i = true) l in
  let n := 4 * Z.of_nat (length rs) in
  length vs = length rs -> 0 <= a -> a + n <= 0x10000 -> words_at (mem_ s) a vs ->
  ldm_stm_loop true rlist l a s =
  (Ok (a + n), mkMachine (set_regs rs vs (cpu s)) (mem_ s) (trace_log s)).
Proof.
  revert a vs s. induction l as [|i l IH]; intros a vs s Hp; cbv zeta.
  - intros _ _ _ _. rewrite Z.add_0_r. by destruct s.
  - assert (forall j, j ∈ l -> in_rlist rlist j = p j) as Hl
      by (intros; apply Hp; by apply list_elem_of_further).
    simpl ldm_stm_loop. rewrite Hp by apply list_elem_of_here. rewrite filter_cons.
    destruct (decide (p i = true)) as [E|E].
    + rewrite E. destruct vs as [|v vs]; [done|]. simpl length. intros Hlen Ha Hle [Hv Hvs].
      unfold bind, mem_read. simpl. rewrite Hv. rewrite u32_small by (unfold in_u32; lia).
      unfold put_reg, modify. rewrite (IH (a + 4) vs) by (done || (simpl; lia)). simpl.
      do 2 f_equal. lia.
    + apply not_true_is_false in E. rewrite E. by apply IH.
Qed.

Lemma stm_effect rb l (s : machine) :
  machine_wf s -> 0 <= rb < 8 -> 0 <= l < 0x100 ->
  let a := reg (cpu s) rb in
  let n := 4 * Z.of_nat (length (low_list l)) in
  a + n <= 0x10000 ->
  exists m, execute (0xC000 + 0x100 * rb + l) s =
      (Ok tt, mkMachine (if bit l rb then cpu s else set_reg rb (a + n) (cpu s)) m
                (trace_log s)) /\
    mem_wf m /\ words_at m a (map (reg (cpu s)) (low_list l)) /\
    same_outside a (a + n) (mem_ s) m.
Proof.
  intros Hs Hrb Hl a n Hle.
  destruct (block_fields false rb l Hrb Hl) as (Hi & Hb & Hr & Hp).
  rewrite execute_ldm_stm by done. unfold exec_ldm_stm. cbv zeta. rewrite Hb, Hr, bind_get_reg.
  fold a. assert (0 <= a) as Ha by apply (reg_range (cpu s) rb (proj1 Hs)).
  destruct (stm_loop_eq (bit l) _ _ a s Hs Hp Ha Hle) as (m & E & Hm & Hw & Ho).
  exists m. split_and!; [|done..]. unfold bind. rewrite E, Hp, orb_false_r by (by apply elem_of_low).
  by destruct (bit l rb).
Qed.

Lemma ldm_effect rb l vs (s : machine) :
  0 <= rb < 8 -> 0 <= l < 0x100 -> length vs = length (low_list l) ->
  let a := reg (cpu s) rb in
  let n := 4 * Z.of_nat (length (low_list l)) in
  0 <= a -> a + n <= 0x10000 -> words_at (mem_ s) a vs ->
  execute (0xC800 + 0x100 * rb + l) s =
  (Ok tt, mkMachine (set_reg rb (a + n) (set_regs (low_list l) vs (cpu s))) (mem_ s)
            (trace_log s)).
Proof.
  intros Hrb Hl Hlen a n Ha Hle Hw.
  destruct (block_fields true rb l Hrb Hl) as (Hi & Hb & Hr & Hp).
  rewrite execute_ldm_stm by done. unfold exec_ldm_stm. cbv zeta. rewrite Hb, Hr, bind_get_reg.
  fold a. unfold bind. rewrite (ldm_loop_eq (bit l) _ _ a vs s Hp Hlen Ha Hle Hw).
  by rewrite orb_true_r.
Qed.

End Block.

(** * Properties *)

(** C14: PUSH and POP of the same list are inverse, over any code in between that
    leaves SP and the pushed words as it found them.  PUSH of any of R0-R7 and LR,
    with room for its words below SP in the 64 KB, moves SP down by them, stores
    them lowest register first, and changes no other register and no memory
    outside them.  POP then restores the listed registers and SP, leaves all other
    registers and the memory alone, and, when the list had LR, goes to its
    value with bit 0 cleared, halting exactly when that bit was clear. *)
Theorem push_pop_roundtrip l (s : machine FlatMemoryBus.t) :
  machine_wf s -> 0 <= l < 0x200 ->
  let sp := reg (cpu s) SP in
  let n := 4 * Z.of_nat (length (push_list l)) in
  let saved := map (reg (cpu s)) (push_list l) in
  n <= sp <= 0x10000 ->
  exists m1,
    execute (0xB400 + l) s =
      (Ok tt, mkMachine (set_reg SP (sp - n) (cpu s)) m1 (trace_log s)) /\
    mem_wf m1 /\ words_at m1 (sp - n) saved /\ same_outside (sp - n) sp (mem_ s) m1 /\
    forall s2, machine_wf s2 -> reg (cpu s2) SP = sp - n ->
      words_at (mem_ s2) (sp - n) saved ->
      exists c3,
        execute (0xBC00 + l) s2 = (Ok tt, mkMachine c3 (mem_ s2) (trace_log s2)) /\
        reg c3 SP = sp /\ apsr_ c3 = apsr_ (cpu s2) /\
        (forall i, 0 <= i < 15 -> i <> SP ->
           reg c3 i = if (i <? 8) && bit l i then reg (cpu s) i else reg (cpu s2) i) /\
        let lr := reg (cpu s) LR in
        if bit l 8
        then reg c3 PC = 2 * (lr / 2) /\ halted_ c3 = halted_ (cpu s2) || negb (bit lr 0)
        else reg c3 PC = reg (cpu s2) PC /\ halted_ c3 = halted_ (cpu s2).
Proof.
  intros Hs Hl sp n saved Hsp.
  destruct (push_all (push_list l) s Hs (push_list_transferable l)) as (m1 & E & Hm1 & Hw & Ho);
    [done|].
  exists m1. rewrite execute_push_pop, exec_push_eq by (done || lia).
  split_and!; [exact E|exact Hm1|exact Hw|exact Ho|]. clear E Hm1 Hw Ho. intros s2 Hs2 Hsp2 Hw2.
  rewrite execute_push_pop by lia.
  rewrite (pop_effect l (reg (cpu s))); rewrite ?Hsp2; try done; try lia;
    [|apply reg_range, Hs].
  eexists. split; [reflexivity|]. rewrite Z.sub_add.
  apply (popped_registers l (reg (cpu s))). apply Hs2.
Qed.

(** C32: STM and LDM of the same list from the same base are inverse on the listed
    registers other than the base, over any code in between that leaves the
    stored words as they were.  STM stores them lowest register first and writes
    back the address after them, unless the base is in the list; LDM always
    leaves that address in the base, also when the base is in the list and its
    word has just been loaded.  Neither touches anything else. *)
Theorem block_transfer_roundtrip rb l (s : machine FlatMemoryBus.t) :
  machine_wf s -> 0 <= rb < 8 -> 0 <= l < 0x100 ->
  let a := reg (cpu s) rb in
  let n := 4 * Z.of_nat (length (low_list l)) in
  let saved := map (reg (cpu s)) (low_list l) in
  a + n <= 0x10000 ->
  exists m1,
    execute (0xC000 + 0x100 * rb + l) s =
      (Ok tt, mkMachine (if bit l rb then cpu s else set_reg rb (a + n) (cpu s)) m1
                (trace_log s)) /\
    mem_wf m1 /\ words_at m1 a saved /\ same_outside a (a + n) (mem_ s) m1 /\
    forall s2, machine_wf s2 -> reg (cpu s2) rb = a -> words_at (mem_ s2) a saved ->
      exists c3,
        execute (0xC800 + 0x100 * rb + l) s2 =
          (Ok tt, mkMachine c3 (mem_ s2) (trace_log s2)) /\
        apsr_ c3 = apsr_ (cpu s2) /\ halted_ c3 = halted_ (cpu s2) /\
        (forall i, 0 <= i < 16 ->
           reg c3 i = if i =? rb then a + n
                      else if (i <? 8) && bit l i then reg (cpu s) i else reg (cpu s2) i).
Proof.
  intros Hs Hrb Hl a n saved Hle.
  destruct (stm_effect rb l s) as (m & E & Hm & Hw & Ho); [done..|].
  exists m. split_and!; [done..|]. intros s2 [[Hl2 _] _] Ha2 Hw2.
  assert (0 <= a) as Ha by apply (reg_range (cpu s) rb (proj1 Hs)).
  rewrite (ldm_effect rb l saved); rewrite ?Ha2; [|done..|apply length_map|done|done|done].
  eexists. split; [reflexivity|].
  pose proof (set_regs_rest (low_list l) saved (cpu s2)) as [H1 H2].
  split_and!; [exact H1|exact H2|]. intros i Hi. destruct (Z.eqb_spec i rb) as [->|Hne].
  - apply reg_set_same; [by rewrite length_set_regs|lia].
  - rewrite reg_set_other by lia. by apply reg_low_list.
Qed.

(** * Witnesses *)

(** PUSH {R0, R4, LR} on a new core; then R4 is overwritten and the list popped. *)
Lemma push_pop_roundtrip_witness :
  let s := boot [] in
  exists m1, fst (execute 0xB511 s) = Ok tt /\
    words_at m1 0x1FF4 [0; 0; 0] /\
    exists c3, execute 0xBD11 (mkMachine (set_reg 4 7 (set_reg SP 0x1FF4 (cpu s))) m1 []) =
      (Ok tt, mkMachine c3 m1 []) /\ reg c3 4 = 0 /\ reg c3 SP = 0x2000 /\ halted_ c3 = true.
Proof.
  intros s.
  assert (machine_wf s) as Hs by (apply boot_wf; [reflexivity|vm_compute; discriminate]).
  destruct (push_pop_roundtrip 0x111 s) as (m1 & E & Hm & Hw & _ & Hpop);
    [exact Hs|lia|split; vm_compute; discriminate|].
  assert (reg (cpu s) SP - 4 * Z.of_nat (length (push_list 0x111)) = 0x1FF4) as Esp
    by reflexivity.
  rewrite Esp in *.
  assert (map (reg (cpu s)) (push_list 0x111) = [0; 0; 0]) as Esaved by reflexivity.
  rewrite Esaved in *.
  exists m1. split; [exact (f_equal fst E)|]. split; [exact Hw|].
  destruct (Hpop (mkMachine (set_reg 4 7 (set_reg SP 0x1FF4 (cpu s))) m1 []))
    as (c3 & E3 & H1 & _ & H2 & H3); [|reflexivity|exact Hw|].
  { split; [|exact Hm]. apply set_reg_wf; [split; lia|]. apply set_reg_wf; [split; lia|apply Hs]. }
  exists c3. split; [exact E3|].
  split; [rewrite H2 by (unfold SP; lia); reflexivity|].
  split; [rewrite H1; reflexivity|]. rewrite (proj2 H3). reflexivity.
Defined.

(** STM R0!, {R0, R2} and LDM R0!, {R0, R2} on a new core whose R0 is 0: the LDM
    leaves the address 8 in R0, not the word 0 it loaded. *)
Lemma block_transfer_roundtrip_witness :
  let s := boot [] in
  exists m1, fst (execute 0xC005 s) = Ok tt /\
    exists c3, execute 0xC805 (mkMachine (set_reg 2 7 (cpu s)) m1 []) =
      (Ok tt, mkMachine c3 m1 []) /\ reg c3 0 = 8 /\ reg c3 2 = 0.
Proof.
  intros s.
  assert (machine_wf s) as Hs by (apply boot_wf; [reflexivity|vm_compute; discriminate]).
  destruct (block_transfer_roundtrip 0 5 s) as (m1 & E & Hm & Hw & _ & Hldm);
    [exact Hs|lia|lia|vm_compute; discriminate|].
  exists m1. split; [exact (f_equal fst E)|].
  destruct (Hldm (mkMachine (set_reg 2 7 (cpu s)) m1 [])) as (c3 & E3 & _ & _ & Hr);
    [|reflexivity|exact Hw|].
  { split; [|exact Hm]. apply set_reg_wf; [split; lia|apply Hs]. }
  exists c3. split; [exact E3|]. split; rewrite Hr by lia; reflexivity.
Defined.
