(* ===== verification/Thumb.v ===== *)
(** The 16-bit Thumb instructions of the ARMv6-M architecture: a data type, the
    encoding tables in both directions, and what each instruction does.  This is the
    reference that the decoder of src/src/cpu.cpp and the disassembler of
    src/src/trace.h are compared with; the tables follow the architecture manual
    for every halfword, whether the simulator implements it or not.

    Three things are not from the manual.  The 32-bit encoding of BL is taken as two
    instructions, its halves, as architectures before ARMv6T2 define them; the other
    32-bit encodings are no halfwords and are left out.  Memory is the bus of the
    program, so alignment is what the bus makes of it, and the registers that a PUSH,
    POP, LDM or STM had transferred before a fault keep their values.  And a branch to
    an address whose bit 0 is clear, a fault in the architecture, halts the core. *)
From S2P Require Export CpuMem.

Module Thumb.

(** * Instructions *)

(** The sixteen data-processing operations on two low registers. *)
Inductive dp : Type :=
  | AND | EOR | LSL | LSR | ASR | ADC | SBC | ROR
  | TST | NEG | CMP | CMN | ORR | MUL | BIC | MVN.

Definition dp_ops : list dp :=
  [AND; EOR; LSL; LSR; ASR; ADC; SBC; ROR; TST; NEG; CMP; CMN; ORR; MUL; BIC; MVN].

Inductive imm8_op : Type := MovImm | CmpImm | AddImm | SubImm.
Inductive hi_op : Type := HiAdd | HiCmp | HiMov.
Inductive rev_op : Type := REV | REV16 | REVSH.

(** Fields are named as in the encodings: registers by number, immediates before
    scaling, offsets of branches before sign extension; the list of PUSH and POP
    has nine bits, the last for LR or PC. *)
Inductive instr : Type :=
  | ShiftImm (ty : shift_type) (rd rm imm5 : Z)
  | AddSubReg (sub : bool) (rd rn rm : Z)
  | AddSubImm3 (sub : bool) (rd rn imm3 : Z)
  | Imm8 (op : imm8_op) (rd imm8 : Z)
  | DataProc (op : dp) (rdn rm : Z)
  | HiReg (op : hi_op) (rd rm : Z)
  | Bx (link : bool) (rm : Z)
  | LdrLit (rt imm8 : Z)
  | LoadStoreReg (load : bool) (w : width) (rt rn rm : Z)
  | LoadSigned (w : width) (rt rn rm : Z)
  | LoadStoreImm (load : bool) (w : width) (rt rn imm5 : Z)
  | LoadStoreSp (load : bool) (rt imm8 : Z)
  | Adr (rd imm8 : Z)
  | AddSp (rd imm8 : Z)
  | AdjustSp (sub : bool) (imm7 : Z)
  | Extend (signed : bool) (w : width) (rd rm : Z)
  | Reverse (op : rev_op) (rd rm : Z)
  | Cps (disable : bool)
  | Push (list : Z)
  | Pop (list : Z)
  | Hint (op : Z)
  | Stm (rn list : Z)
  | Ldm (rn list : Z)
  | BCond (cond off8 : Z)
  | B (off11 : Z)
  | BlHigh (off11 : Z)
  | BlLow (off11 : Z).

(** * Encodings *)

Definition flag (b : bool) (n : Z) : Z := if b then n else 0.

Definition shift_code (ty : shift_type) : Z :=
  match ty with SRType_LSL => 0 | SRType_LSR => 1 | SRType_ASR => 2 | SRType_ROR => 3 end.

Definition dp_code (op : dp) : Z :=
  match op with
  | AND => 0 | EOR => 1 | LSL => 2 | LSR => 3 | ASR => 4 | ADC => 5 | SBC => 6 | ROR => 7
  | TST => 8 | NEG => 9 | CMP => 10 | CMN => 11 | ORR => 12 | MUL => 13 | BIC => 14 | MVN => 15
  end.

Definition imm8_code (op : imm8_op) : Z :=
  match op with MovImm => 0 | CmpImm => 1 | AddImm => 2 | SubImm => 3 end.

Definition hi_code (op : hi_op) : Z :=
  match op with HiAdd => 0 | HiCmp => 1 | HiMov => 2 end.

Definition rev_code (op : rev_op) : Z := match op with REV => 0 | REV16 => 1 | REVSH => 3 end.

(** opB of the loads and stores with a register offset. *)
Definition offset_code (load : bool) (w : width) : Z :=
  flag load 4 + match w with W32 => 0 | W16 => 1 | W8 => 2 end.

(** The high register numbers are split: bit 3 of [rd] is bit 7 of the encoding. *)
Definition encode (ins : instr) : Z :=
  match ins with
  | ShiftImm ty rd rm imm5 => 0x800 * shift_code ty + 0x40 * imm5 + 8 * rm + rd
  | AddSubReg sub rd rn rm => 0x1800 + flag sub 0x200 + 0x40 * rm + 8 * rn + rd
  | AddSubImm3 sub rd rn imm3 => 0x1C00 + flag sub 0x200 + 0x40 * imm3 + 8 * rn + rd
  | Imm8 op rd imm8 => 0x2000 + 0x800 * imm8_code op + 0x100 * rd + imm8
  | DataProc op rdn rm => 0x4000 + 0x40 * dp_code op + 8 * rm + rdn
  | HiReg op rd rm => 0x4400 + 0x100 * hi_code op + 0x80 * (rd / 8) + 8 * rm + rd mod 8
  | Bx link rm => 0x4700 + flag link 0x80 + 8 * rm
  | LdrLit rt imm8 => 0x4800 + 0x100 * rt + imm8
  | LoadStoreReg load w rt rn rm => 0x5000 + 0x200 * offset_code load w + 0x40 * rm + 8 * rn + rt
  | LoadSigned w rt rn rm => 0x5600 + match w with W8 => 0 | _ => 0x800 end + 0x40 * rm + 8 * rn + rt
  | LoadStoreImm load w rt rn imm5 =>
      match w with W32 => 0x6000 | W8 => 0x7000 | W16 => 0x8000 end +
      flag load 0x800 + 0x40 * imm5 + 8 * rn + rt
  | LoadStoreSp load rt imm8 => 0x9000 + flag load 0x800 + 0x100 * rt + imm8
  | Adr rd imm8 => 0xA000 + 0x100 * rd + imm8
  | AddSp rd imm8 => 0xA800 + 0x100 * rd + imm8
  | AdjustSp sub imm7 => 0xB000 + flag sub 0x80 + imm7
  | Extend signed w rd rm =>
      0xB200 + (if signed then 0 else 0x80) + match w with W8 => 0x40 | _ => 0 end + 8 * rm + rd
  | Reverse op rd rm => 0xBA00 + 0x40 * rev_code op + 8 * rm + rd
  | Cps disable => 0xB662 + flag disable 0x10
  | Push l => 0xB400 + l
  | Pop l => 0xBC00 + l
  | Hint op => 0xBF00 + 0x10 * op
  | Stm rn l => 0xC000 + 0x100 * rn + l
  | Ldm rn l => 0xC800 + 0x100 * rn + l
  | BCond cond off8 => 0xD000 + 0x100 * cond + off8
  | B off11 => 0xE000 + off11
  | BlHigh off11 => 0xF000 + off11
  | BlLow off11 => 0xF800 + off11
  end.

Definition low (r : Z) : Prop := 0 <= r < 8.

(** The fields fit their places; signed loads and extensions are of 8 or 16 bits,
    lists are not empty, and conditions 14 and 15 are other encodings. *)
Definition valid (ins : instr) : Prop :=
  match ins with
  | ShiftImm ty rd rm imm5 => ty <> SRType_ROR /\ low rd /\ low rm /\ 0 <= imm5 < 0x20
  | AddSubReg _ rd rn rm => low rd /\ low rn /\ low rm
  | AddSubImm3 _ rd rn imm3 => low rd /\ low rn /\ 0 <= imm3 < 8
  | Imm8 _ rd imm8 | LdrLit rd imm8 | LoadStoreSp _ rd imm8 | Adr rd imm8 | AddSp rd imm8 =>
      low rd /\ 0 <= imm8 < 0x100
  | DataProc _ rdn rm => low rdn /\ low rm
  | HiReg _ rd rm => 0 <= rd < 16 /\ 0 <= rm < 16
  | Bx _ rm => 0 <= rm < 16
  | LoadStoreReg _ _ rt rn rm => low rt /\ low rn /\ low rm
  | LoadSigned w rt rn rm => w <> W32 /\ low rt /\ low rn /\ low rm
  | Extend _ w rd rm => w <> W32 /\ low rd /\ low rm
  | Reverse _ rd rm => low rd /\ low rm
  | Cps _ => True
  | LoadStoreImm _ _ rt rn imm5 => low rt /\ low rn /\ 0 <= imm5 < 0x20
  | AdjustSp _ imm7 => 0 <= imm7 < 0x80
  | Push l | Pop l => 0 < l < 0x200
  | Hint op => 0 <= op < 16
  | Stm rn l | Ldm rn l => low rn /\ 0 < l < 0x100
  | BCond cond off8 => 0 <= cond < 14 /\ 0 <= off8 < 0x100
  | B off11 | BlHigh off11 | BlLow off11 => 0 <= off11 < 0x800
  end.

Definition table {A} (l : list A) (n : Z) : option A := l !! Z.to_nat n.

(** What the architecture says of a halfword: an instruction; one of the two that only
    take an exception; that it is undefined, so executing it takes one; or nothing. *)
Inductive meaning : Type :=
  | Defined (ins : instr)
  | SupervisorCall (imm8 : Z)
  | Breakpoint (imm8 : Z)
  | UNDEFINED
  | UNPREDICTABLE.

(** The special data instructions and branch and exchange, by the two bits [op]; [hd]
    and [hm] are register numbers of four bits. *)
Definition decode_special (op : Z) (h : bool) (hd hm rd : Z) : meaning :=
  match op with
  | 0 => if (hd =? PC) && (hm =? PC) then UNPREDICTABLE else Defined (HiReg HiAdd hd hm)
  | 1 =>
      if ((hd <? 8) && (hm <? 8)) || (hd =? PC) || (hm =? PC) then UNPREDICTABLE
      else Defined (HiReg HiCmp hd hm)
  | 2 => Defined (HiReg HiMov hd hm)
  | _ =>
      if negb (rd =? 0) || (h && (hm =? PC)) then UNPREDICTABLE else Defined (Bx h hm)
  end.

(** Loads and stores with a register offset, by opB. *)
Definition decode_offset (op rt rn rm : Z) : meaning :=
  match op with
  | 0 => Defined (LoadStoreReg false W32 rt rn rm)
  | 1 => Defined (LoadStoreReg false W16 rt rn rm)
  | 2 => Defined (LoadStoreReg false W8 rt rn rm)
  | 3 => Defined (LoadSigned W8 rt rn rm)
  | 4 => Defined (LoadStoreReg true W32 rt rn rm)
  | 5 => Defined (LoadStoreReg true W16 rt rn rm)
  | 6 => Defined (LoadStoreReg true W8 rt rn rm)
  | _ => Defined (LoadSigned W16 rt rn rm)
  end.

(** The miscellaneous instructions, by the second hexadecimal digit; [third] is the
    next two bits. *)
Definition decode_misc (i digit third rd rm : Z) : meaning :=
  match digit with
  | 0 => Defined (AdjustSp (i / 0x80 mod 2 =? 1) (i mod 0x80))
  | 2 => Defined (Extend (third <? 2) (if third mod 2 =? 1 then W8 else W16) rd rm)
  | 4 | 5 => if i mod 0x200 =? 0 then UNPREDICTABLE else Defined (Push (i mod 0x200))
  | 6 =>
      if negb (i / 0x20 mod 8 =? 3) then UNDEFINED
      else if i mod 16 =? 2 then Defined (Cps (i / 0x10 mod 2 =? 1)) else UNPREDICTABLE
  | 10 =>
      match third with
      | 0 => Defined (Reverse REV rd rm)
      | 1 => Defined (Reverse REV16 rd rm)
      | 3 => Defined (Reverse REVSH rd rm)
      | _ => UNDEFINED
      end
  | 12 | 13 => if i mod 0x200 =? 0 then UNPREDICTABLE else Defined (Pop (i mod 0x200))
  | 14 => Breakpoint (i mod 0x100)
  | 15 => if i mod 16 =? 0 then Defined (Hint (i / 0x10 mod 16)) else UNDEFINED
  | _ => UNDEFINED
  end.

(** The encoding tables, for any halfword. *)
Definition decode (i : Z) : meaning :=
  let rd := i mod 8 in
  let rm := i / 8 mod 8 in
  let third := i / 0x40 mod 8 in
  let imm5 := i / 0x40 mod 0x20 in
  let high := i / 0x100 mod 8 in
  let imm8 := i mod 0x100 in
  let off11 := i mod 0x800 in
  match i / 0x800 with
  | 0 => Defined (ShiftImm SRType_LSL rd rm imm5)
  | 1 => Defined (ShiftImm SRType_LSR rd rm imm5)
  | 2 => Defined (ShiftImm SRType_ASR rd rm imm5)
  | 3 =>
      let sub := i / 0x200 mod 2 =? 1 in
      if i / 0x400 mod 2 =? 1 then Defined (AddSubImm3 sub rd rm third)
      else Defined (AddSubReg sub rd rm third)
  | 4 => Defined (Imm8 MovImm high imm8)
  | 5 => Defined (Imm8 CmpImm high imm8)
  | 6 => Defined (Imm8 AddImm high imm8)
  | 7 => Defined (Imm8 SubImm high imm8)
  | 8 =>
      if i / 0x400 mod 2 =? 0 then
        match table dp_ops (i / 0x40 mod 16) with
        | Some op => Defined (DataProc op rd rm)
        | None => UNDEFINED
        end
      else
        decode_special (i / 0x100 mod 4) (i / 0x80 mod 2 =? 1) (8 * (i / 0x80 mod 2) + rd) (i / 8 mod 16) rd
  | 9 => Defined (LdrLit high imm8)
  | 10 | 11 => decode_offset (i / 0x200 mod 8) rd rm third
  | 12 => Defined (LoadStoreImm false W32 rd rm imm5)
  | 13 => Defined (LoadStoreImm true W32 rd rm imm5)
  | 14 => Defined (LoadStoreImm false W8 rd rm imm5)
  | 15 => Defined (LoadStoreImm true W8 rd rm imm5)
  | 16 => Defined (LoadStoreImm false W16 rd rm imm5)
  | 17 => Defined (LoadStoreImm true W16 rd rm imm5)
  | 18 => Defined (LoadStoreSp false high imm8)
  | 19 => Defined (LoadStoreSp true high imm8)
  | 20 => Defined (Adr high imm8)
  | 21 => Defined (AddSp high imm8)
  | 22 | 23 => decode_misc i (i / 0x100 mod 16) (i / 0x40 mod 4) rd rm
  | 24 => if imm8 =? 0 then UNPREDICTABLE else Defined (Stm high imm8)
  | 25 => if imm8 =? 0 then UNPREDICTABLE else Defined (Ldm high imm8)
  | 26 | 27 =>
      let cond := i / 0x100 mod 16 in
      if cond =? 14 then UNDEFINED
      else if cond =? 15 then SupervisorCall imm8
      else Defined (BCond cond imm8)
  | 28 => Defined (B off11)
  | 30 => Defined (BlHigh off11)
  | 31 => Defined (BlLow off11)
  | _ => UNDEFINED
  end.

(** * What an instruction does

    [s] is the machine in which it is executed: the PC has moved to the next
    instruction.  The architecture lets an instruction read the PC as its own
    address plus 4, which is the PC of [s] plus 2. *)

Section Semantics.
Context {M : Type} `{IMemoryBus M}.
Local Abbreviation machine := (machine M).

Definition effect : Type := machine -> result sim_exn unit * machine.

Definition done (c : CortexM0) (s : machine) : result sim_exn unit * machine :=
  (Ok tt, mkMachine c (mem_ s) (trace_log s)).

(** A register as an operand, the PC included. *)
Definition operand (c : CortexM0) (r : Z) : Z :=
  if r =? PC then u32 (reg c PC + 2) else reg c r.

(** BranchTo: bit 0 of an address is not part of the PC. *)
Definition BranchTo (address : Z) (c : CortexM0) : CortexM0 := set_reg PC (2 * (address / 2)) c.

(** BXWritePC: bit 0 selects the instruction set; there is only Thumb, and the core
    halts when the other one is asked for. *)
Definition BXWritePC (address : Z) (c : CortexM0) : CortexM0 :=
  with_halted (halted_ c || Z.even address) (BranchTo address c).

(** Only N and Z depend on the result. *)
Definition logical (rd : option Z) (v : Z) : effect := fun s =>
  let f := apsr_ (cpu s) in
  let c := with_apsr (fun _ => mkAPSR (0x80000000 <=? v) (v =? 0) (flag_C f) (flag_V f)) (cpu s) in
  done (match rd with Some r => set_reg r v c | None => c end) s.

Definition complement (x : Z) : Z := 0xFFFFFFFF - x.

Definition data_processing (op : dp) (rdn rm : Z) : effect := fun s =>
  let a := reg (cpu s) rdn in
  let b := reg (cpu s) rm in
  let carry := flag_C (apsr_ (cpu s)) in
  match op with
  | AND => logical (Some rdn) (Z.land a b) s
  | EOR => logical (Some rdn) (Z.lxor a b) s
  | ORR => logical (Some rdn) (Z.lor a b) s
  | BIC => logical (Some rdn) (Z.land a (complement b)) s
  | MVN => logical (Some rdn) (complement b) s
  | TST => logical None (Z.land a b) s
  | MUL => logical (Some rdn) (a * b mod 2 ^ 32) s
  | LSL => shifted rdn a SRType_LSL (b mod 0x100) s
  | LSR => shifted rdn a SRType_LSR (b mod 0x100) s
  | ASR => shifted rdn a SRType_ASR (b mod 0x100) s
  | ROR => shifted rdn a SRType_ROR (b mod 0x100) s
  | ADC => arith (Some rdn) a b carry s
  | SBC => arith (Some rdn) a (complement b) carry s
  | NEG => arith (Some rdn) 0 (complement b) true s
  | CMP => arith None a (complement b) true s
  | CMN => arith None a b false s
  end.

(** DecodeImmShift: 0 stands for 32 in the two right shifts. *)
Definition imm_shift (ty : shift_type) (imm5 : Z) : Z :=
  match ty with SRType_LSL => imm5 | _ => if imm5 =? 0 then 32 else imm5 end.

Definition add_sub (sub : bool) (rd : option Z) (x y : Z) : effect :=
  if sub then arith rd x (complement y) true else arith rd x y false.

Definition imm8_effect (op : imm8_op) (rd imm8 : Z) : effect := fun s =>
  let x := reg (cpu s) rd in
  match op with
  | MovImm => logical (Some rd) imm8 s
  | CmpImm => add_sub true None x imm8 s
  | AddImm => add_sub false (Some rd) x imm8 s
  | SubImm => add_sub true (Some rd) x imm8 s
  end.

(** The low two bits of SP are always zero. *)
Definition hi_effect (op : hi_op) (rd rm : Z) : effect := fun s =>
  let x := operand (cpu s) rd in
  let y := operand (cpu s) rm in
  let write v :=
    done (if rd =? PC then BranchTo v (cpu s)
          else set_reg rd (if rd =? SP then 4 * (v / 4) else v) (cpu s)) s in
  match op with
  | HiAdd => write (u32 (x + y))
  | HiCmp => arith None x (complement y) true s
  | HiMov => write y
  end.

(** ConditionPassed: the upper bits of the condition choose a test, the lowest
    inverts it. *)
Definition ConditionPassed (cond : Z) (f : APSR) : bool :=
  let test :=
    match cond / 2 with
    | 0 => flag_Z f
    | 1 => flag_C f
    | 2 => flag_N f
    | 3 => flag_V f
    | 4 => flag_C f && negb (flag_Z f)
    | 5 => Bool.eqb (flag_N f) (flag_V f)
    | 6 => Bool.eqb (flag_N f) (flag_V f) && negb (flag_Z f)
    | _ => true
    end in
  if cond mod 2 =? 1 then negb test else test.

(** A two's complement field of [n] bits. *)
Definition signed (n x : Z) : Z := if x <? 2 ^ (n - 1) then x else x - 2 ^ n.

(** The address that loads and stores relative to the PC start from. *)
Definition aligned_pc (c : CortexM0) : Z := 4 * (operand c PC / 4).

(** PUSH: one register after the other, the highest first, each below the last.
    When an access faults, SP has already moved down to it. *)
Fixpoint push_down (rs : list Z) : effect := fun s =>
  match rs with
  | [] => (Ok tt, s)
  | r :: rs =>
      let a := u32 (reg (cpu s) SP - 4) in
      let c := set_reg SP a (cpu s) in
      match bus_write32 (mem_ s) a (reg (cpu s) r) with
      | Ok m => push_down rs (mkMachine c m (trace_log s))
      | Err e => (Err (BusFault e), mkMachine c (mem_ s) (trace_log s))
      end
  end.

(** POP: upwards from SP; the word after the low registers goes to the PC. *)
Fixpoint pop_up (rs : list Z) (to_pc : bool) : effect := fun s =>
  let a := reg (cpu s) SP in
  match bus_read32 (mem_ s) a, rs with
  | Ok v, r :: rs =>
      pop_up rs to_pc (mkMachine (set_reg SP (u32 (a + 4)) (set_reg r v (cpu s))) (mem_ s) (trace_log s))
  | Ok v, [] =>
      if to_pc then done (BXWritePC v (set_reg SP (u32 (a + 4)) (cpu s))) s else (Ok tt, s)
  | Err e, [] => if to_pc then (Err (BusFault e), s) else (Ok tt, s)
  | Err e, _ :: _ => (Err (BusFault e), s)
  end.

(** LDM and STM: upwards from [a]; the register to write back, if any, becomes the
    address after the last word. *)
Fixpoint transfer (load : bool) (wback : option Z) (rs : list Z) (a : Z) : effect := fun s =>
  match rs with
  | [] => done (match wback with Some rn => set_reg rn a (cpu s) | None => cpu s end) s
  | r :: rs =>
      if load then
        match bus_read32 (mem_ s) a with
        | Ok v => transfer load wback rs (u32 (a + 4))
                    (mkMachine (set_reg r v (cpu s)) (mem_ s) (trace_log s))
        | Err e => (Err (BusFault e), s)
        end
      else
        match bus_write32 (mem_ s) a (reg (cpu s) r) with
        | Ok m => transfer load wback rs (u32 (a + 4)) (mkMachine (cpu s) m (trace_log s))
        | Err e => (Err (BusFault e), s)
        end
  end.

Definition scale (w : width) : Z := Z.of_nat (width_bytes w).

(** A signed load: the low half or byte that is read, extended to a word. *)
Definition load_signed (w : width) (rt a : Z) : effect := fun s =>
  match (match w with W8 => bus_read8 | W16 => bus_read16 | W32 => bus_read32 end) (mem_ s) a with
  | Ok v => done (set_reg rt (u32 (signed (8 * scale w) v)) (cpu s)) s
  | Err e => (Err (BusFault e), s)
  end.

(** The low half or byte of a word, extended with its sign or with zeros. *)
Definition extend (sign : bool) (w : width) (v : Z) : Z :=
  let x := v mod 2 ^ (8 * scale w) in if sign then u32 (signed (8 * scale w) x) else x.

(** Byte [n] of a word. *)
Definition byte_of (n v : Z) : Z := v / 2 ^ (8 * n) mod 0x100.

Definition reverse_bytes (op : rev_op) (v : Z) : Z :=
  match op with
  | REV => 0x1000000 * byte_of 0 v + 0x10000 * byte_of 1 v + 0x100 * byte_of 2 v + byte_of 3 v
  | REV16 => 0x1000000 * byte_of 2 v + 0x10000 * byte_of 3 v + 0x100 * byte_of 0 v + byte_of 1 v
  | REVSH => u32 (signed 16 (0x100 * byte_of 0 v + byte_of 1 v))
  end.

(** CPS sets PRIMASK, which a machine that takes no exceptions does not have. *)
Definition sem (ins : instr) : effect := fun s =>
  let c := cpu s in
  let r := reg c in
  match ins with
  | ShiftImm ty rd rm imm5 => shifted rd (r rm) ty (imm_shift ty imm5) s
  | AddSubReg sub rd rn rm => add_sub sub (Some rd) (r rn) (r rm) s
  | AddSubImm3 sub rd rn imm3 => add_sub sub (Some rd) (r rn) imm3 s
  | Imm8 op rd imm8 => imm8_effect op rd imm8 s
  | DataProc op rdn rm => data_processing op rdn rm s
  | HiReg op rd rm => hi_effect op rd rm s
  | Bx link rm =>
      let target := operand c rm in
      done (BXWritePC target (if link then set_reg LR (2 * (r PC / 2) + 1) c else c)) s
  | LdrLit rt imm8 => do_access (mkAccess true W32 rt (u32 (aligned_pc c + 4 * imm8))) s
  | LoadStoreReg load w rt rn rm => do_access (mkAccess load w rt (u32 (r rn + r rm))) s
  | LoadSigned w rt rn rm => load_signed w rt (u32 (r rn + r rm)) s
  | LoadStoreImm load w rt rn imm5 =>
      do_access (mkAccess load w rt (u32 (r rn + scale w * imm5))) s
  | LoadStoreSp load rt imm8 => do_access (mkAccess load W32 rt (u32 (r SP + 4 * imm8))) s
  | Adr rd imm8 => done (set_reg rd (u32 (aligned_pc c + 4 * imm8)) c) s
  | AddSp rd imm8 => done (set_reg rd (u32 (r SP + 4 * imm8)) c) s
  | AdjustSp sub imm7 => done (set_reg SP (u32 (r SP + (if sub then -4 else 4) * imm7)) c) s
  | Extend sign w rd rm => done (set_reg rd (extend sign w (r rm)) c) s
  | Reverse op rd rm => done (set_reg rd (reverse_bytes op (r rm)) c) s
  | Cps _ => (Ok tt, s)
  | Push l => push_down (reverse (push_list l)) s
  | Pop l => pop_up (low_list l) (bit l 8) s
  | Hint _ => (Ok tt, s)
  | Stm rn l => transfer false (Some rn) (low_list l) (r rn) s
  | Ldm rn l => transfer true (if bit l rn then None else Some rn) (low_list l) (r rn) s
  | BCond cond off8 =>
      if ConditionPassed cond (apsr_ c)
      then done (BranchTo (u32 (operand c PC + 2 * signed 8 off8)) c) s else (Ok tt, s)
  | B off11 => done (BranchTo (u32 (operand c PC + 2 * signed 11 off11)) c) s
  | BlHigh off11 => done (with_bl_offset (u32 (operand c PC + 0x1000 * signed 11 off11)) c) s
  | BlLow off11 =>
      done (BranchTo (u32 (bl_offset_ c + 2 * off11)) (set_reg LR (2 * (r PC / 2) + 1) c)) s
  end.
End Semantics.

End Thumb.
