(* ===== verification/ThumbDecode.v ===== *)
(** The encoding tables of Thumb.v are inverse to each other, and the decoder of
    src/src/cpu.cpp as ranges of encodings. *)
From Stdlib Require Import ZifyBool.
From S2P Require Export Thumb.
Import Thumb.

(** * The encoding tables *)

(** Cases on a bounded quotient or remainder [q]. *)
Ltac cases_upto H q n :=
  lazymatch n with
  | O => try lia
  | S ?m =>
      let v := eval cbv in (Z.of_nat m) in
      destruct (Z.eq_dec q v) as [H|?]; [rewrite ?H in *|cases_upto H q m]
  end.

Lemma table_dp_ops n op : 0 <= n -> table dp_ops n = Some op -> dp_code op = n.
Proof.
  intros Hn Ht. unfold table in Ht.
  cases_upto Hq n 16%nat; try (cbn in Ht; by injection Ht as <-).
  exfalso. rewrite lookup_ge_None_2 in Ht; [done|simpl; lia].
Qed.

(** Cases on a number that is matched with constants of at most [n] bits. *)
Tactic Notation "literal_cases" integer(n) constr(q) ident(Hq) :=
  destruct q as [|p|p] eqn:Hq; try discriminate;
  do n (try (destruct p as [p|p|]; try discriminate)); try discriminate.

(** The cases of [decode], down to the instructions. *)
Ltac decode_cases i Hd :=
  unfold decode in Hd;
  let Hq := fresh "Hq" in literal_cases 5 (i / 0x800) Hq;
  unfold decode_special, decode_offset, decode_misc in Hd;
  repeat match type of Hd with
  | (if ?b then _ else _) = _ => destruct b eqn:?; try discriminate
  | match table dp_ops ?n with _ => _ end = _ => destruct (table dp_ops n) eqn:?; try discriminate
  | match i / 0x100 mod 4 with _ => _ end = _ =>
      let Hm := fresh "Hm" in literal_cases 2 (i / 0x100 mod 4) Hm
  | match i / 0x200 mod 8 with _ => _ end = _ =>
      let Hm := fresh "Hm" in literal_cases 3 (i / 0x200 mod 8) Hm
  | match i / 0x100 mod 16 with _ => _ end = _ =>
      let Hm := fresh "Hm" in literal_cases 4 (i / 0x100 mod 16) Hm
  | match i / 0x40 mod 4 with _ => _ end = _ =>
      let Hn := fresh "Hn" in literal_cases 2 (i / 0x40 mod 4) Hn
  end;
  try (injection Hd as <-);
  try match goal with
  | H : i / 0x100 mod 16 = _ |- _ => exfalso; clear -H Hq; Z.div_mod_to_equations; lia
  | H : i / 0x200 mod 8 = _ |- _ => exfalso; clear -H Hq; Z.div_mod_to_equations; lia
  | H : i / 0x100 mod 4 = _ |- _ => exfalso; clear -H; Z.div_mod_to_equations; lia
  | H : i / 0x40 mod 4 = _ |- _ => exfalso; clear -H; Z.div_mod_to_equations; lia
  end.

Lemma decode_encodes i ins : in_u16 i -> decode i = Defined ins -> valid ins /\ encode ins = i.
Proof.
  intros Hi Hd. unfold in_u16 in Hi. decode_cases i Hd.
  all: try match goal with H : table dp_ops _ = Some _ |- _ =>
    apply table_dp_ops in H; [|Z.div_mod_to_equations; lia] end.
  all: cbn [valid encode]; unfold low, flag, offset_code;
    cbn [shift_code imm8_code hi_code rev_code flag].
  all: repeat match goal with |- context [if ?b then _ else _] => destruct b eqn:? end.
  all: split; [repeat (split; [done|])|]; Z.div_mod_to_equations; lia.
Qed.

(** * Fields *)

Lemma bit_flag i n : 0 <= n -> bit i n = (i / 2 ^ n mod 2 =? 1).
Proof. intros Hn. rewrite bit_div by done. Z.div_mod_to_equations; lia. Qed.

Lemma signed_8 x : s8 (x .& 0xFF) = signed 8 (x mod 0x100).
Proof.
  destruct (operand_fields x) as (_ & _ & _ & _ & _ & -> & _).
  unfold s8, signed. change (2 ^ (8 - 1)) with 0x80; change (2 ^ 8) with 0x100.
  rewrite u8_small by (unfold in_u8; Z.div_mod_to_equations; lia). done.
Qed.

Lemma signed_11 x : soff11 x = signed 11 (x mod 0x800).
Proof.
  unfold soff11, signed. change (x .& 0x7FF) with (x .& Z.ones 11).
  by rewrite land_mask by lia.
Qed.

(** * The decoder of the source *)

Section Decoder.
Context {M : Type} `{IMemoryBusLaws M}.
Implicit Types s : machine M.

(** [execute] by ranges of encodings. *)
Lemma execute_ranges i s :
  in_u16 i ->
  execute i s =
  (if i <? 0x1800 then exec_shift_imm i
   else if i <? 0x2000 then exec_add_sub i
   else if i <? 0x4000 then exec_imm8 i
   else if i <? 0x4400 then exec_alu i
   else if i <? 0x4800 then exec_hi_reg_bx i
   else if i <? 0xA000 then execute i
   else if i <? 0xB000 then exec_add_sp_pc i
   else if i <? 0xB100 then exec_sp_ops i
   else if i <? 0xBE00 then exec_push_pop i
   else if i <? 0xC000 then ret tt
   else if i <? 0xD000 then exec_ldm_stm i
   else if i <? 0xDF00 then exec_branch_cond i
   else if i <? 0xE000 then execute i
   else if i <? 0xE800 then exec_branch i
   else if i <? 0xF000 then execute i
   else if i <? 0xF800 then exec_bl_upper i
   else exec_bl_lower i) s.
Proof.
  intros Hi.
  repeat match goal with |- _ = (if ?b then _ else _) _ => destruct b eqn:?; reflect_bools end;
    try reflexivity; unfold execute; cbv zeta;
    destruct (top_fields i Hi) as (-> & -> & -> & -> & -> & _); unfold in_u16 in Hi;
    repeat match goal with |- (if ?b then _ else _) _ = _ =>
      first [ replace b with false by (Z.div_mod_to_equations; lia)
            | replace b with true by (Z.div_mod_to_equations; lia) ]; cbv iota
    end; first [reflexivity | repeat case_if; try reflexivity; exfalso; Z.div_mod_to_equations; lia].
Qed.
End Decoder.
