(* ===== verification/ThumbProps.v ===== *)
(** The decoder of src/src/cpu.cpp and the disassembler of src/src/trace.h against
    the reference of Thumb.v. *)
From Stdlib Require Import ZifyBool.
From S2P Require Export ThumbDecode.
Import Thumb.

Section Groups.
Context {M : Type} `{IMemoryBusLaws M}.
Implicit Types s : machine M.

(** * The groups *)

Lemma complement_eq x : in_u32 x -> not32 x = complement x.
Proof. apply not32_eq. Qed.

Lemma put_logical rd v s :
  in_u32 v ->
  (match rd with Some r => put_nz v >> put_reg r v | None => put_nz v end) s = logical rd v s.
Proof.
  intros Hv. unfold logical, done, put_nz, put_reg, bind, modify, with_apsr, update_nz.
  destruct rd; simpl; by rewrite bit_msb.
Qed.

Lemma logical_some r v s : in_u32 v -> (put_nz v >> put_reg r v) s = logical (Some r) v s.
Proof. apply (put_logical (Some r)). Qed.

Lemma logical_none v s : in_u32 v -> put_nz v s = logical None v s.
Proof. apply (put_logical None). Qed.

Lemma add_sub_eq (sub : bool) rd x y s :
  in_u32 y ->
  add_sub sub rd x y s =
  (if sub then arith rd x (not32 y) true s else arith rd x y false s).
Proof. intros Hy. unfold add_sub. rewrite <-complement_eq by done. by destruct sub. Qed.

Lemma sem_shift_imm i s :
  machine_wf s -> 0 <= i < 0x1800 ->
  exec_shift_imm i s =
  let ty := match i / 0x800 with 0 => SRType_LSL | 1 => SRType_LSR | _ => SRType_ASR end in
  shifted (i mod 8) (reg (cpu s) (i / 8 mod 8)) ty (imm_shift ty (i / 0x40 mod 0x20)) s.
Proof.
  intros Hs Hi. destruct (top_fields i) as (_ & _ & _ & _ & _ & Hop); [unfold in_u16; lia|].
  pose proof (exec_shift_imm_shifted i s Hs) as E. cbv zeta in *. rewrite Hop in E.
  rewrite E by (Z.div_mod_to_equations; lia). clear E Hop. operands.
  assert (0 <= i / 0x800 < 3) as Hq by (Z.div_mod_to_equations; lia).
  replace (i / 0x800 mod 4) with (i / 0x800) by (Z.div_mod_to_equations; lia).
  cases_upto E (i / 0x800) 3%nat; done.
Qed.

Lemma sem_add_sub i s :
  machine_wf s ->
  exec_add_sub i s =
  (let rd := i mod 8 in let rn := reg (cpu s) (i / 8 mod 8) in
   let third := i / 0x40 mod 8 in let sub := i / 0x200 mod 2 =? 1 in
   add_sub sub (Some rd) rn (if i / 0x400 mod 2 =? 1 then third else reg (cpu s) third) s).
Proof.
  intros Hs. rewrite exec_add_sub_arith by done. cbv zeta. operands.
  rewrite !bit_flag by lia. change (2 ^ 9) with 0x200; change (2 ^ 10) with 0x400.
  rewrite add_sub_eq; [done|]. destruct (_ =? 1); [|by apply reg_range, Hs].
  unfold in_u32. Z.div_mod_to_equations; lia.
Qed.

Lemma sem_imm8 i s :
  machine_wf s -> 0x2000 <= i < 0x4000 ->
  exec_imm8 i s =
  imm8_effect match i / 0x800 with 4 => MovImm | 5 => CmpImm | 6 => AddImm | _ => SubImm end
    (i / 0x100 mod 8) (i mod 0x100) s.
Proof.
  intros Hs Hi. destruct (top_fields i) as (_ & _ & _ & _ & _ & Hop); [unfold in_u16; lia|].
  rewrite exec_imm8_arith by done. cbv zeta. rewrite Hop. operands.
  assert (in_u32 (i mod 0x100)) as Himm by (unfold in_u32; Z.div_mod_to_equations; lia).
  assert (exists q, q = i / 0x800) as [q Hq] by eauto. rewrite <-Hq.
  assert (q = 4 \/ q = 5 \/ q = 6 \/ q = 7) as Hcase by (Z.div_mod_to_equations; lia).
  unfold imm8_effect. rewrite !add_sub_eq by done.
  destruct Hcase as [->|[->|[->| ->]]]; try done. by apply logical_some.
Qed.

Lemma u32_land x y : in_u32 x -> in_u32 y -> in_u32 (x .& y).
Proof. intros _. apply land_u32. Qed.

Lemma sem_alu i op s :
  machine_wf s -> 0x4000 <= i < 0x4400 -> table dp_ops (i / 0x40 mod 16) = Some op ->
  exec_alu i s = data_processing op (i mod 8) (i / 8 mod 8) s.
Proof.
  intros Hs Hi Hop. unfold exec_alu. rewrite !bind_get_reg. cbv zeta. operands.
  change ((i .>> 6) .& 0xF) with ((i .>> 6) .& Z.ones 4). rewrite field_div by lia.
  change (2 ^ 6) with 0x40; change (2 ^ 4) with 16.
  set (a := reg (cpu s) (i mod 8)). set (b := reg (cpu s) (i / 8 mod 8)).
  assert (in_u32 a) as Ha by apply reg_range, Hs.
  assert (in_u32 b) as Hb by apply reg_range, Hs.
  assert (b .& 0xFF = b mod 0x100) as Hsh by apply (land_mask b 8 ltac:(lia)).
  apply table_dp_ops in Hop; [|Z.div_mod_to_equations; lia]. rewrite <-Hop.
  pose proof (exec_alu_shift_shifted (dp_code op) (i mod 8) a b s Ha) as Eshift.
  cbv zeta in Eshift. rewrite Hsh in Eshift.
  pose proof (exec_alu_arith_arith (dp_code op) (i mod 8) a b s Ha Hb) as Earith.
  unfold data_processing. fold a b. rewrite <-!complement_eq by done.
  destruct op; cbn [dp_code] in *; cbv beta iota zeta;
    first [exact Eshift | exact Earith | rewrite <-logical_some | rewrite <-logical_none];
    auto with word; try done.
  all: unfold in_u32, u32; apply Z.mod_pos_bound; lia.
Qed.

Lemma sem_hi_reg i op s :
  machine_wf s -> (i .>> 8) .& 0x3 = hi_code op ->
  let rd := 8 * (i / 0x80 mod 2) + i mod 8 in
  let rm := i / 8 mod 16 in
  rd <> PC -> rm <> PC -> (op = HiCmp \/ rd <> SP) ->
  exec_hi_reg_bx i s = hi_effect op rd rm s.
Proof.
  intros Hs Hop rd rm Hrd Hrm Hsp.
  assert ((((i .>> 7) .& 1) .<< 3) .| (i .& 7) = rd) as Erd.
  { rewrite (proj1 (proj2 (proj2 (proj2 (proj2 (operand_fields i)))))).
    change 1 with (Z.ones 1) at 1. rewrite field_div by lia.
    rewrite lor_shiftl by (change (2 ^ 3) with 8; Z.div_mod_to_equations; lia).
    unfold rd. change (2 ^ 7) with 0x80; change (2 ^ 1) with 2; change (2 ^ 3) with 8. lia. }
  assert ((i .>> 3) .& 0xF = rm) as Erm by apply (field_div i 3 4 ltac:(lia) ltac:(lia)).
  unfold hi_effect, operand. rewrite (proj2 (Z.eqb_neq rd PC)), (proj2 (Z.eqb_neq rm PC)) by done.
  destruct op.
  2: { rewrite exec_hi_cmp_arith by done. rewrite Erd, Erm, complement_eq; [done|].
       apply reg_range, Hs. }
  all: destruct Hsp as [|Hsp]; [done|]; rewrite (proj2 (Z.eqb_neq rd SP)) by done.
  all: unfold exec_hi_reg_bx; rewrite Hop, Erd, Erm, !bind_get_reg; done.
Qed.

Lemma hi_field i : (i .>> 8) .& 0x3 = i / 0x100 mod 4.
Proof. apply (field_div i 8 2 ltac:(lia) ltac:(lia)). Qed.

Lemma branch_to v c : in_u32 v -> set_reg PC (v .& not32 1) c = BranchTo v c.
Proof. intros Hv. unfold BranchTo. by rewrite clear_bit0. Qed.

Lemma lor_1 x : x .| 1 = 2 * (x / 2) + 1.
Proof.
  destruct (Z.even x) eqn:E.
  - rewrite lor_1_even by done. rewrite Z.even_spec in E. destruct E as [k ->].
    replace (2 * k / 2) with k by (Z.div_mod_to_equations; lia). lia.
  - assert (x = 2 * (x / 2) + 1) as Hx.
    { rewrite <-Z.negb_odd in E. apply negb_false_iff in E. rewrite Z.odd_spec in E.
      destruct E as [k ->]. Z.div_mod_to_equations; lia. }
    rewrite <-Hx. apply Z.bits_inj'. intros n Hn. rewrite Z.lor_spec.
    destruct (Z.eq_dec n 0) as [->|Hne].
    + rewrite Z.bit0_odd, <-Z.negb_even, E. done.
    + rewrite (Z.bits_above_log2 1 n) by (simpl; lia). by rewrite orb_false_r.
Qed.

Lemma bit0_even x : bit x 0 = negb (Z.even x).
Proof. rewrite bit_testbit by lia. by rewrite Z.bit0_odd, Z.negb_even. Qed.

Lemma halts_on v c (s : machine M) :
  (Ok tt, mkMachine (if bit v 0 then BranchTo v c else with_halted true (BranchTo v c))
            (mem_ s) (trace_log s)) = done (BXWritePC v c) s :> result sim_exn unit * machine M.
Proof.
  unfold done, BXWritePC. rewrite bit0_even. destruct c. unfold with_halted. simpl.
  destruct (Z.even v); simpl; by rewrite ?orb_true_r, ?orb_false_r.
Qed.

Lemma sem_bx i s :
  machine_wf s -> (i .>> 8) .& 0x3 = 3 -> i / 8 mod 16 <> PC ->
  exec_hi_reg_bx i s = sem (Bx (i / 0x80 mod 2 =? 1) (i / 8 mod 16)) s.
Proof.
  intros Hs Hop Hrm. cbn [sem]. unfold operand. rewrite (proj2 (Z.eqb_neq _ PC)) by done.
  assert ((i .>> 3) .& 0xF = i / 8 mod 16) as Erm by apply (field_div i 3 4 ltac:(lia) ltac:(lia)).
  unfold exec_hi_reg_bx, set_pc, pc. rewrite Hop, Erm, !bind_get_reg. simpl Z.eqb. cbv iota.
  rewrite (bit_flag i 7) by lia. change (2 ^ 7) with 0x80. rewrite andb_true_l.
  set (v := reg (cpu s) (i / 8 mod 16)). assert (in_u32 v) as Hv by apply reg_range, Hs.
  rewrite (clear_bit0 v), clear_bit0_even by (done || word_lia || by rewrite Z.even_mul).
  rewrite <-lor_1, <-halts_on. unfold BranchTo.
  by destruct (i / 0x80 mod 2 =? 1), (bit v 0).
Qed.

Lemma sem_add_sp_pc i s :
  machine_wf s -> 0xA000 <= i < 0xB000 ->
  exec_add_sp_pc i s =
  sem (if i / 0x800 =? 20 then Adr (i / 0x100 mod 8) (i mod 0x100)
       else AddSp (i / 0x100 mod 8) (i mod 0x100)) s.
Proof.
  intros Hs Hi. unfold exec_add_sp_pc. cbv zeta. operands.
  rewrite (bit_flag i 11), Z.shiftl_mul_pow2, (Z.mul_comm (_ mod _)) by lia.
  change (2 ^ 11) with 0x800; change (2 ^ 2) with 4.
  destruct (Z.eqb_spec (i / 0x800) 20) as [E|E]; cbn [sem].
  - rewrite E. simpl Z.eqb. cbv iota. unfold pc. rewrite bind_bind, bind_get_reg, bind_ret.
    by rewrite align4 by apply u32_range.
  - replace (i / 0x800 mod 2 =? 1) with true by (Z.div_mod_to_equations; lia). done.
Qed.

Lemma sem_sp_ops i s :
  exec_sp_ops i s = sem (AdjustSp (i / 0x80 mod 2 =? 1) (i mod 0x80)) s.
Proof.
  unfold exec_sp_ops. cbv zeta. change (i .& 0x7F) with (i .& Z.ones 7).
  rewrite (bit_flag i 7), land_mask, Z.shiftl_mul_pow2 by lia.
  change (2 ^ 7) with 0x80; change (2 ^ 2) with 4. rewrite bind_get_reg. cbn [sem].
  unfold put_reg, modify, done.
  destruct (_ =? 1); do 4 f_equal; lia.
Qed.

(** * Block transfers *)

Lemma push_down_eq rs s :
  length (regs_ (cpu s)) = 16%nat -> Forall transferable rs ->
  for_each rs push_reg s = push_down rs s.
Proof.
  intros Hl Hrs. revert s Hl. induction Hrs as [|r rs Hr _ IH]; intros s Hl; [done|].
  simpl. unfold bind at 1. unfold push_reg. rewrite bind_get_reg. unfold put_reg.
  rewrite bind_modify, !bind_get_reg. simpl cpu. unfold transferable in Hr.
  rewrite reg_set_same by (done || unfold SP; lia).
  rewrite reg_set_other by (unfold SP in *; lia).
  unfold mem_write. simpl. destruct (bus_write32 _ _ _) as [m|e]; [|done].
  apply IH. simpl. by rewrite length_insert.
Qed.

Lemma pop_up_eq rs (b : bool) s :
  machine_wf s -> Forall transferable rs ->
  (for_each rs pop_reg >> if b then pop_pc else ret tt) s = pop_up rs b s.
Proof.
  intros Hs Hrs. revert s Hs. induction Hrs as [|r rs Hr _ IH]; intros s Hs.
  - unfold bind at 1. simpl. destruct b; [|by destruct (bus_read32 _ _)].
    unfold pop_pc. rewrite bind_get_reg. unfold bind at 1, mem_read.
    destruct (bus_read32 _ _) as [v|e] eqn:Hv; [|done].
    assert (in_u32 v) as Hv32.
    { eapply bus_read32_range; [apply Hs| |exact Hv]. apply reg_range, Hs. }
    rewrite bind_get_reg. unfold set_pc, put_reg. rewrite !bind_modify. simpl cpu.
    rewrite (clear_bit0 v), clear_bit0_even by (done || word_lia || by rewrite Z.even_mul).
    rewrite <-halts_on. unfold BranchTo. by destruct (bit v 0).
  - simpl for_each. rewrite bind_bind. unfold bind at 1. unfold pop_reg.
    rewrite bind_get_reg. unfold bind at 1, mem_read. cbn [pop_up].
    destruct (bus_read32 _ _) as [v|e] eqn:Hv; [|done].
    assert (in_u32 v) as Hv32.
    { eapply bus_read32_range; [apply Hs| |exact Hv]. apply reg_range, Hs. }
    unfold put_reg. rewrite bind_modify, bind_get_reg. simpl cpu. unfold transferable in Hr.
    rewrite reg_set_other by (unfold SP in *; lia). apply IH.
    split; [|apply Hs]. apply set_reg_wf; [apply u32_range|]. by apply set_reg_wf; [|apply Hs].
Qed.

Lemma sem_push l s :
  machine_wf s -> 0 <= l < 0x200 -> execute (0xB400 + l) s = sem (Push l) s.
Proof.
  intros Hs Hl. rewrite execute_push_pop, exec_push_eq by lia. cbn [sem].
  apply push_down_eq; [apply Hs|]. apply Forall_reverse, push_list_transferable.
Qed.

Lemma sem_pop l s :
  machine_wf s -> 0 <= l < 0x200 -> execute (0xBC00 + l) s = sem (Pop l) s.
Proof.
  intros Hs Hl. rewrite execute_push_pop, exec_pop_eq by lia. cbn [sem].
  apply pop_up_eq; [done|]. pose proof (push_list_transferable l) as Ht.
  by apply Forall_app in Ht as [Ht _].
Qed.

Lemma transfer_eq (p : Z -> bool) (load : bool) rn rlist l a s :
  (forall i, i ∈ l -> in_rlist rlist i = p i) ->
  (x <- ldm_stm_loop load rlist l a;; put_reg rn x) s =
  transfer load (Some rn) (filter (fun i => p i = true) l) a s.
Proof.
  revert a s. induction l as [|i l IH]; intros a s Hp; [done|].
  assert (forall j, j ∈ l -> in_rlist rlist j = p j) as Hl
    by (intros; apply Hp; by apply list_elem_of_further).
  simpl ldm_stm_loop. rewrite Hp by apply list_elem_of_here. rewrite filter_cons.
  destruct (decide (p i = true)) as [E|E].
  - rewrite E, bind_bind. destruct load; cbn [transfer].
    + rewrite bind_bind. unfold bind at 1, mem_read.
      destruct (bus_read32 _ _) as [v|e]; [|done]. unfold put_reg at 1. rewrite bind_modify. by apply IH.
    + rewrite bind_bind, bind_get_reg. unfold bind at 1, mem_write.
      destruct (bus_write32 _ _ _) as [m|e]; [|done]. by apply IH.
  - apply not_true_is_false in E. rewrite E. by apply IH.
Qed.

Lemma sem_block (load : bool) rn l s :
  0 <= rn < 8 -> 0 <= l < 0x100 -> bit l rn = false ->
  execute ((if load then 0xC800 else 0xC000) + 0x100 * rn + l) s =
  sem (if load then Ldm rn l else Stm rn l) s.
Proof.
  intros Hrn Hl Hb. destruct (block_fields load rn l Hrn Hl) as (Hi & HL & Hr & Hp).
  rewrite execute_ldm_stm by done. unfold exec_ldm_stm. cbv zeta. rewrite HL, Hr, bind_get_reg.
  rewrite Hp, Hb by (by apply elem_of_low). simpl orb. cbv iota.
  rewrite (transfer_eq (bit l)) by done. destruct load; cbn [sem]; [by rewrite Hb|done].
Qed.

(** * Branches *)

Lemma condition_eq cond f : 0 <= cond < 14 -> condition_passes f cond = ConditionPassed cond f.
Proof.
  intros Hc. destruct f as [n z c v].
  assert (cond = 0 \/ cond = 1 \/ cond = 2 \/ cond = 3 \/ cond = 4 \/ cond = 5 \/ cond = 6 \/
    cond = 7 \/ cond = 8 \/ cond = 9 \/ cond = 10 \/ cond = 11 \/ cond = 12 \/ cond = 13)
    as Hcase by lia.
  repeat destruct Hcase as [->|Hcase]; [..|subst cond]; destruct n, z, c, v; reflexivity.
Qed.

Lemma set_pc_done v s : in_u32 v -> set_pc v s = done (BranchTo v (cpu s)) s.
Proof. intros Hv. unfold set_pc, put_reg, modify. by rewrite branch_to. Qed.

Lemma sem_branch_cond i s :
  0 <= i / 0x100 mod 16 < 14 ->
  exec_branch_cond i s = sem (BCond (i / 0x100 mod 16) (i mod 0x100)) s.
Proof.
  intros Hc. unfold exec_branch_cond, pc. cbv zeta. rewrite bind_get_reg, bind_gets.
  assert ((i .>> 8) .& 0xF = i / 0x100 mod 16) as -> by apply (field_div i 8 4 ltac:(lia) ltac:(lia)).
  rewrite condition_eq, signed_8 by done. cbn [sem]. unfold operand. rewrite Z.eqb_refl.
  rewrite Z.shiftl_mul_pow2, u32_add_r, u32_add_l by lia.
  destruct (ConditionPassed _ _); [|done]. rewrite set_pc_done by apply u32_range.
  do 3 f_equal. lia.
Qed.

Lemma sem_branch i s : exec_branch i s = sem (B (i mod 0x800)) s.
Proof.
  unfold exec_branch, pc. cbv zeta. rewrite bind_get_reg, set_pc_done by apply u32_range.
  cbn [sem]. unfold operand. rewrite Z.eqb_refl, sign_extend_11, signed_11.
  rewrite u32_add_r, u32_add_l, Z.shiftr_div_pow2 by lia.
  replace (signed 11 (i mod 2048) * 2 ^ 21) with (2 * signed 11 (i mod 2048) * 2 ^ 20) by lia.
  by rewrite Z.div_mul by lia.
Qed.

Lemma sem_bl_high i s : exec_bl_upper i s = sem (BlHigh (i mod 0x800)) s.
Proof.
  unfold exec_bl_upper, pc. cbv zeta. rewrite bind_get_reg. unfold modify. cbn [sem].
  unfold done, operand. rewrite Z.eqb_refl, sign_extend_11, signed_11.
  rewrite u32_add_l, Z.shiftr_div_pow2 by lia.
  replace (signed 11 (i mod 2048) * 2 ^ 21) with (0x1000 * signed 11 (i mod 2048) * 2 ^ 9) by lia.
  rewrite Z.div_mul by lia. do 3 f_equal.
  by rewrite <-Z.add_assoc, <-u32_add_l, u32_s32, u32_add_l, Z.add_assoc.
Qed.

Lemma sem_bl_low i s :
  length (regs_ (cpu s)) = 16%nat -> exec_bl_lower i s = sem (BlLow (i mod 0x800)) s.
Proof.
  intros Hl. unfold exec_bl_lower, pc. cbv zeta. rewrite bind_get_reg. unfold put_reg.
  rewrite bind_modify, bind_gets, set_pc_done by apply u32_range. cbn [sem].
  change (i .& 0x7FF) with (i .& Z.ones 11). rewrite land_mask, Z.shiftl_mul_pow2 by lia.
  rewrite lor_1. unfold done. simpl cpu. do 4 f_equal. change (2 ^ 11) with 0x800. simpl. lia.
Qed.

(** * Loads and stores *)

Lemma sem_load_store i a s :
  0x4800 <= i < 0xA000 -> decode_access i (reg (cpu s)) = Some a ->
  execute i s = do_access a s.
Proof. intros Hi Ha. rewrite execute_access by done. by rewrite Ha. Qed.

Lemma decode_register_offset i (r : Z -> Z) :
  0x5000 <= i < 0x6000 -> i / 0x200 mod 2 = 0 ->
  decode_access i r =
  Some (mkAccess (i / 0x800 =? 11) (if i / 0x400 mod 2 =? 1 then W8 else W32) (i mod 8)
          (u32 (r (i / 8 mod 8) + r (i / 0x40 mod 8)))).
Proof.
  intros Hi H9. assert (i / 0x800 = 10 \/ i / 0x800 = 11) as Hq by (Z.div_mod_to_equations; lia).
  unfold decode_access. rewrite register_offset_bits by done. rewrite !bit_flag by lia.
  change (2 ^ 9) with 0x200; change (2 ^ 10) with 0x400; change (2 ^ 11) with 0x800. rewrite H9.
  by destruct Hq as [-> | ->].
Qed.
End Groups.

(** Decides by arithmetic the range an encoding lies in. *)
Ltac in_range :=
  repeat match goal with |- (if ?b then _ else _) _ = _ =>
    first [ replace b with false by (Z.div_mod_to_equations; lia)
          | replace b with true by (Z.div_mod_to_equations; lia) ]; cbv iota
  end.

(** * Instructions *)

(** The instructions that the source executes as the architecture says: not those
    that read or write the PC as a general register or write SP as one, block transfers whose base
    register is in the list, the halfword and signed loads and stores with a register
    offset, extensions, reversals and CPS. *)
Definition conforms (ins : instr) : bool :=
  match ins with
  | HiReg op rd rm =>
      negb (rd =? PC) && negb (rm =? PC) && match op with HiCmp => true | _ => negb (rd =? SP) end
  | Bx _ rm => negb (rm =? PC)
  | Stm rn l | Ldm rn l => negb (bit l rn)
  | LoadStoreReg _ w _ _ _ => match w with W16 => false | _ => true end
  | LoadSigned _ _ _ _ | Extend _ _ _ _ | Reverse _ _ _ | Cps _ => false
  | _ => true
  end.

(** Uses the tests that [decode] has made. *)
Ltac simplify_tests :=
  repeat match goal with
  | H : (?x =? ?y) = _ |- context [?x =? ?y] => rewrite H
  end.

(** One case of [decode] against the group that executes it. *)
Ltac group_case Hs Hq Henc Hc :=
  let side := (Z.div_mod_to_equations; lia) in
  lazymatch goal with
  | |- _ = sem (ShiftImm _ _ _ _) _ => rewrite sem_shift_imm, Hq by (done || side); reflexivity
  | |- _ = sem (AddSubReg _ _ _ _) _ => rewrite sem_add_sub by done; cbv zeta; simplify_tests; reflexivity
  | |- _ = sem (AddSubImm3 _ _ _ _) _ => rewrite sem_add_sub by done; cbv zeta; simplify_tests; reflexivity
  | |- _ = sem (Imm8 _ _ _) _ => rewrite sem_imm8, Hq by (done || side); reflexivity
  | |- _ = sem (DataProc _ _ _) _ => apply sem_alu; [done|side|done]
  | |- _ = sem (Adr _ _) _ => rewrite sem_add_sp_pc, Hq by (done || side); reflexivity
  | |- _ = sem (AddSp _ _) _ => rewrite sem_add_sp_pc, Hq by (done || side); reflexivity
  | |- _ = sem (AdjustSp _ _) _ => apply sem_sp_ops
  | |- _ = sem (Hint _) _ => reflexivity
  | |- _ = sem (BCond _ _) _ => apply sem_branch_cond; side
  | |- _ = sem (B _) _ => apply sem_branch
  | |- _ = sem (BlHigh _) _ => apply sem_bl_high
  | |- _ = sem (BlLow _) _ => apply sem_bl_low, Hs
  | |- _ = sem (HiReg _ _ _) _ =>
      apply andb_true_iff in Hc as [[?%negb_true_iff%Z.eqb_neq ?%negb_true_iff%Z.eqb_neq]%andb_true_iff Hsp];
      apply sem_hi_reg; [done|by rewrite hi_field|done|done|];
      first [by left | by right; apply Z.eqb_neq, negb_true_iff]
  | |- _ = sem (Bx _ _) _ =>
      apply negb_true_iff, Z.eqb_neq in Hc; apply sem_bx; [done|by rewrite hi_field|done]
  | |- _ = sem (Ldm ?rn ?l) _ =>
      rewrite <-Henc at 1; apply (sem_block true rn l); [side|side|by apply negb_true_iff]
  | |- _ = sem (Stm ?rn ?l) _ =>
      rewrite <-Henc at 1; apply (sem_block false rn l); [side|side|by apply negb_true_iff]
  | |- _ => apply sem_load_store; [side|unfold decode_access; rewrite Hq; reflexivity]
  end.

Lemma execute_defined {M} `{IMemoryBusLaws M} i ins (s : machine M) :
  machine_wf s -> in_u16 i -> decode i = Defined ins -> conforms ins = true ->
  execute i s = sem ins s.
Proof.
  intros Hs Hi Hd Hc. pose proof (decode_encodes i ins Hi Hd) as [_ Henc].
  pose proof Hi as Hi'. unfold in_u16 in Hi. decode_cases i Hd; try discriminate Hc.
  all: lazymatch goal with
  | |- _ = sem (Push _) _ => rewrite <-Henc at 1; apply sem_push; [done|Z.div_mod_to_equations; lia]
  | |- _ = sem (Pop _) _ => rewrite <-Henc at 1; apply sem_pop; [done|Z.div_mod_to_equations; lia]
  | |- _ = sem (Stm _ _) _ => idtac
  | |- _ = sem (Ldm _ _) _ => idtac
  | |- _ = sem (LoadStoreReg _ _ _ _ _) _ =>
      apply sem_load_store; [Z.div_mod_to_equations; lia|];
      rewrite decode_register_offset by (Z.div_mod_to_equations; lia);
      destruct (i / 0x800 =? 11) eqn:?, (i / 0x400 mod 2 =? 1) eqn:?; try reflexivity;
      exfalso; Z.div_mod_to_equations; lia
  | |- _ = sem (LdrLit _ _) _ => idtac
  | |- _ = sem (LoadStoreImm _ _ _ _ _) _ => idtac
  | |- _ = sem (LoadStoreSp _ _ _) _ => idtac
  | _ => rewrite execute_ranges by done; in_range
  end.
  all: group_case Hs Hq Henc Hc.
Qed.

(** * Other encodings *)

Lemma decode_misc_undefined i digit third rd rm :
  decode_misc i digit third rd rm = UNDEFINED -> digit <> 0 /\ digit <> 14.
Proof. intros Hd. by split; intros ->. Qed.

Lemma decode_special_undefined op h hd hm rd : decode_special op h hd hm rd <> UNDEFINED.
Proof. unfold decode_special. by repeat case_match. Qed.

Lemma decode_offset_undefined op rt rn rm : decode_offset op rt rn rm <> UNDEFINED.
Proof. unfold decode_offset. by repeat case_match. Qed.

(** Where the encodings that are no instructions lie. *)
Lemma decode_others i :
  in_u16 i ->
  match decode i with
  | Defined _ | UNPREDICTABLE => True
  | SupervisorCall _ => i / 0x100 = 0xDF
  | Breakpoint _ => i / 0x100 = 0xBE
  | UNDEFINED => i / 0x800 = 29 \/ i / 0x100 = 0xDE \/ (0xB100 <= i < 0xC000 /\ i / 0x100 <> 0xBE)
  end.
Proof.
  intros Hi. unfold in_u16 in Hi. destruct (decode i) eqn:Hd; try done.
  - decode_cases i Hd; Z.div_mod_to_equations; lia.
  - decode_cases i Hd; Z.div_mod_to_equations; lia.
  - unfold decode in Hd. literal_cases 5 (i / 0x800) Hq;
      repeat match type of Hd with
      | (if ?b then _ else _) = _ => destruct b eqn:?; try discriminate
      | decode_special _ _ _ _ _ = _ => by apply decode_special_undefined in Hd
      | decode_offset _ _ _ _ = _ => by apply decode_offset_undefined in Hd
      | decode_misc _ _ _ _ _ = _ => apply decode_misc_undefined in Hd as [??]
      | match table dp_ops ?n with _ => _ end = _ => destruct (table dp_ops n) eqn:Ht; [discriminate|]
      end.
    all: try (apply lookup_ge_None_1 in Ht; cbn in Ht).
    all: Z.div_mod_to_equations; lia.
Qed.

(** * Property *)

(** C11: The decoder and all instruction groups against the architecture, for every
    16-bit encoding.  Executing an encoding of an instruction does exactly what the
    architecture says of it: result, flags, destination, PC, memory accesses in order,
    and the fault when one of them fails, for the instructions that [conforms] names.
    These are all but: the uses of the PC as a general register and writes of SP as
    one; block transfers whose base is in the list; STRH, LDRH, LDRSB and LDRSH with a
    register offset; SXTH, SXTB, UXTH, UXTB, REV, REV16, REVSH and CPS (ThumbDiff.v shows
    that each of them is wrong).  SVC throws the undefined-instruction error, BKPT does
    nothing.  Of the undefined encodings those from 0xE800 to 0xEFFF throw the error,
    0xDExx and those between 0xB100 and 0xBFFF do not. *)
Theorem execute_architecture {M} `{IMemoryBusLaws M} i (s : machine M) :
  machine_wf s -> in_u16 i ->
  match decode i with
  | Defined ins => conforms ins = true -> execute i s = sem ins s
  | SupervisorCall _ => execute i s = (Err (UndefinedInstructionException i), s)
  | Breakpoint _ => execute i s = (Ok tt, s)
  | UNDEFINED =>
      if (0xE800 <=? i) && (i <? 0xF000) then execute i s = (Err (UndefinedInstructionException i), s)
      else fst (execute i s) <> Err (UndefinedInstructionException i)
  | UNPREDICTABLE => True
  end.
Proof.
  intros Hs Hi. pose proof (decode_others i Hi) as Ho. destruct (decode i) as [ins|n|n| |] eqn:Hd; [| | | |done].
  - by apply execute_defined.
  - apply execute_undefined; [done|]. unfold undefined_encoding. Z.div_mod_to_equations; lia.
  - rewrite execute_ranges by done. in_range. done.
  - pose proof (keeps_execute (M := M) i Hi) as Hk. destruct (_ && _) eqn:Hr.
    + apply execute_undefined; [done|]. unfold undefined_encoding. lia.
    + assert (undefined_encoding i = false) as Hu.
      { unfold undefined_encoding. Z.div_mod_to_equations; lia. }
      specialize (Hk Hu s Hs). destruct (execute i s) as [[u|[e|op]] s']; cbn [fst] in *; try done.
      by destruct Hk.
Qed.

(** * Witnesses *)

(** SUB R0, #1 on a new core: -1 with N set and no borrow flag. *)
Lemma execute_architecture_witness :
  execute 0x3801 (boot []) = sem (Imm8 SubImm 0 1) (boot []).
Proof.
  refine (execute_architecture 0x3801 (boot []) _ _ eq_refl);
    [apply boot_wf; [reflexivity|vm_compute; discriminate]|split; lia].
Defined.
