(* ===== verification/ThumbDiff.v ===== *)
(** Every instruction that [conforms] leaves out is executed wrongly: there is a machine
    on which the core of src/src/cpu.cpp does something else than the reference. *)
From Stdlib Require Import ZifyBool.
From S2P Require Export ThumbProps.
Import Thumb.

(** * Test machines *)

(** All registers but SP and PC have the value [v]; the memory is zero. *)
Definition probe (v : Z) : machine FlatMemoryBus.t :=
  mkMachine (set_reg PC 0x22 (set_reg SP 0x61 (with_regs (fun _ => replicate 16 v) new_cpu)))
    FlatMemoryBus.clear [].

Lemma probe_wf v : in_u32 v -> machine_wf (probe v).
Proof.
  intros Hv. split; [|apply (boot_wf []); [reflexivity|vm_compute; discriminate]].
  split; [done|]. split; [|by split]. by do 2 (apply Forall_insert; [|split; lia]); apply Forall_replicate.
Qed.

Definition differs (i : Z) (ins : instr) (s : machine FlatMemoryBus.t) : bool :=
  negb (bool_decide (regs_ (cpu (snd (execute i s))) = regs_ (cpu (snd (sem ins s))))).

(** The [n] encodings from [i] on: each one that does not conform differs on the machine. *)
Fixpoint all_differ (s : machine FlatMemoryBus.t) (n : nat) (i : Z) : bool :=
  match n with
  | O => true
  | S n =>
      match decode i with
      | Defined ins => conforms ins || differs i ins s
      | _ => true
      end && all_differ s n (i + 1)
  end.

Lemma all_differ_at v n j i ins :
  in_u32 v -> all_differ (probe v) n j = true -> j <= i < j + Z.of_nat n ->
  decode i = Defined ins -> conforms ins = false ->
  exists s : machine FlatMemoryBus.t, machine_wf s /\ execute i s <> sem ins s.
Proof.
  intros Hv. revert j. induction n as [|n IH]; intros j Ha Hi Hd Hc; [lia|].
  cbn [all_differ] in Ha. apply andb_true_iff in Ha as [Hj Ha].
  destruct (Z.eq_dec j i) as [->|Hne]; [|apply (IH (j + 1)); try done; lia].
  rewrite Hd, Hc in Hj. exists (probe v). split; [by apply probe_wf|].
  apply negb_true_iff, bool_decide_eq_false in Hj. congruence.
Qed.

Lemma special_differ : all_differ (probe 0x11) (Z.to_nat 0x400) 0x4400 = true.
Proof. vm_compute. reflexivity. Qed.
Lemma extend_differ : all_differ (probe 0x8011) (Z.to_nat 0xF00) 0xB000 = true.
Proof. vm_compute. reflexivity. Qed.
Lemma block_differ : all_differ (probe 0x11) (Z.to_nat 0x1000) 0xC000 = true.
Proof. vm_compute. reflexivity. Qed.

(** The halfword and signed accesses with a register offset are refused. *)
Lemma offset_refused i ins :
  in_u16 i -> 0x5000 <= i < 0x6000 -> bit i 9 = true ->
  (exists load w rt rn rm, ins = LoadStoreReg load w rt rn rm) \/ (exists w rt rn rm, ins = LoadSigned w rt rn rm) ->
  exists s : machine FlatMemoryBus.t, machine_wf s /\ execute i s <> sem ins s.
Proof.
  intros Hi Hr Hb Hins. exists (probe 0). split; [by apply probe_wf|].
  rewrite execute_undefined; [|done|unfold undefined_encoding; rewrite Hb; lia].
  intros E. apply (f_equal fst) in E. cbn [fst] in E.
  destruct Hins as [(load & w & rt & rn & rm & ->)|(w & rt & rn & rm & ->)]; revert E; cbn [sem].
  - unfold do_access. cbn [acc_load acc_width]. destruct load, w; case_match; done.
  - unfold load_signed, done. destruct w; case_match; done.
Qed.

(** * Property *)

(** C12: The exceptions of [execute_architecture] are exactly the wrong ones.  For every
    16-bit encoding of an instruction that [conforms] leaves out there is a well-formed
    machine with a flat memory on which executing it does not do what the
    architecture says. *)
Theorem exceptions_needed i ins :
  in_u16 i -> decode i = Defined ins -> conforms ins = false ->
  exists s : machine FlatMemoryBus.t, machine_wf s /\ execute i s <> sem ins s.
Proof.
  intros Hi Hd Hc. destruct (decode_encodes i ins Hi Hd) as [Hv He].
  assert ((0x4400 <= i < 0x4800 \/ 0xB000 <= i < 0xBF00 \/ 0xC000 <= i < 0xD000) \/
    (0x5000 <= i < 0x6000 /\ bit i 9 = true /\
     ((exists load w rt rn rm, ins = LoadStoreReg load w rt rn rm) \/ (exists w rt rn rm, ins = LoadSigned w rt rn rm))))
    as [[Hr|[Hr|Hr]]|(Hr & Hb & Hins)].
  - rewrite bit_flag by lia. change (2 ^ 9) with 0x200.
    destruct ins; try discriminate Hc; try destruct op;
      cbn [valid encode] in *; unfold low, offset_code, flag in *;
      cbn [hi_code rev_code] in *.
    all: try (left; repeat case_match; try done; cbn [hi_code rev_code] in *; Z.div_mod_to_equations; lia).
    all: right; destruct w; try done; cbn in He; repeat case_match; (split; [|split; [|eauto 8]]).
    all: Z.div_mod_to_equations; lia.
  - by apply (all_differ_at 0x11 _ _ _ _ ltac:(split; lia) special_differ); [lia|..].
  - by apply (all_differ_at 0x8011 _ _ _ _ ltac:(split; lia) extend_differ); [lia|..].
  - by apply (all_differ_at 0x11 _ _ _ _ ltac:(split; lia) block_differ); [lia|..].
  - by apply (offset_refused i ins).
Qed.

(** SXTH R0, R0 is executed as a PUSH of nothing. *)
Lemma exceptions_needed_witness :
  exists s : machine FlatMemoryBus.t, machine_wf s /\ execute 0xB200 s <> sem (Extend true W16 0 0) s.
Proof. refine (exceptions_needed 0xB200 (Extend true W16 0 0) _ _ _); [split; lia|reflexivity|reflexivity]. Defined.
