(* ===== verification/Factorial.v ===== *)
(** src/programs/factorial.s, for any start value, on the core: it halts, after a
    number of steps given in closed form, with the factorial in r1. *)
From Stdlib Require Import ZifyBool Arith.Factorial.
From S2P Require Export CpuRun.

(** The assembled program, with [n] in the place of 5. *)
Definition factorial_prog (n : Z) : list Z :=
  [0x2000 + n; 0x2101; 0x4341; 0x3801; 0x2801; 0xDCFB; 0x4770].

(** The core in the program, its other registers as [reset] left them. *)
Definition in_program (pc r0 r1 : Z) (f : APSR) (cycles : Z) (halted cb : bool) : CortexM0 :=
  mkCpu [r0; r1; 0; 0; 0; 0; 0; 0; 0; 0; 0; 0; 0; RESET_SP; 0; pc] f cycles halted 0 cb.

Section Program.
Context {M : Type} `{IMemoryBus M}.
Variables (n : Z) (m : M).
Hypothesis (Hn : 1 <= n <= 255).

(** The program is in memory from address 0 on. *)
Definition program_in : Prop :=
  forall i op, factorial_prog n !! i = Some op -> bus_read16 m (2 * Z.of_nat i) = Ok op.

Hypothesis Hm : program_in.

Lemma step_at (i : nat) op c log s1 :
  factorial_prog n !! i = Some op -> halted_ c = false -> reg c PC = 2 * Z.of_nat i ->
  execute op (fetched (mkMachine c m log) op) = (Ok tt, s1) ->
  step (mkMachine c m log) = (Ok (negb (halted_ (cpu s1))), count_cycle s1).
Proof.
  intros Hi Hh Hpc He. rewrite (step_fetched _ op); [by rewrite He|done|].
  cbn [mem_ cpu]. rewrite Hpc. by apply Hm.
Qed.

Definition logged (cb : bool) (log : list (Z * Z)) (pc op : Z) : list (Z * Z) :=
  if cb then log ++ [(pc, op)] else log.

(** What CMP r0, #1 leaves in the flags. *)
Definition cmp_one (f : APSR) (k : Z) : APSR :=
  let '(res, carry) := sub32 k 1 in
  update_nz (set_V (bit ((k .^ 1) .& (k .^ res)) MSB_POS) (set_C carry f)) res.

Lemma step_mov_r0 f log cb :
  step (mkMachine (in_program 0 0 0 f 0 false cb) m log) =
  (Ok true, mkMachine (in_program 2 n 0 (update_nz f n) 1 false cb) m (logged cb log 0 (0x2000 + n))).
Proof.
  rewrite (step_at 0 (0x2000 + n) _ _ (mkMachine (in_program 2 n 0 (update_nz f n) 0 false cb) m
              (logged cb log 0 (0x2000 + n)))); [done|done|done|done|].
  destruct (top_fields (0x2000 + n)) as (E5 & E4 & E6 & E8 & Ec & Eo); [split; lia|].
  assert ((0x2000 + n) .& 0xFF = n /\ ((0x2000 + n) .>> 8) .& 0x7 = 0) as [El Er].
  { change ((0x2000 + n) .& 0xFF) with ((0x2000 + n) .& Z.ones 8).
    change (((0x2000 + n) .>> 8) .& 0x7) with (((0x2000 + n) .>> 8) .& Z.ones 3).
    rewrite field_div, land_mask by lia. change (2 ^ 8) with 256. change (2 ^ 3) with 8. split; word_lia. }
  assert ((0x2000 + n) / 0x800 = 4) as Eq by word_lia.
  unfold execute, exec_imm8. cbv zeta. rewrite E5, E6, Eo, Er, El, Eq. reflexivity.
Qed.

Lemma step_mov_r1 f cyc log cb :
  step (mkMachine (in_program 2 n 0 f cyc false cb) m log) =
  (Ok true, mkMachine (in_program 4 n 1 (update_nz f 1) (u64 (cyc + 1)) false cb) m (logged cb log 2 0x2101)).
Proof.
  rewrite (step_at 1 0x2101 _ _ (mkMachine (in_program 4 n 1 (update_nz f 1) cyc false cb) m
              (logged cb log 2 0x2101))); [done|done|done|done|].
  reflexivity.
Qed.

Lemma step_mul k a f cyc cb log :
  step (mkMachine (in_program 4 k a f cyc false cb) m log) =
  (Ok true, mkMachine (in_program 6 k (u32 (a * k)) (update_nz f (u32 (a * k))) (u64 (cyc + 1)) false cb) m
              (logged cb log 4 0x4341)).
Proof.
  rewrite (step_at 2 0x4341 _ _ (mkMachine (in_program 6 k (u32 (a * k)) (update_nz f (u32 (a * k))) cyc false cb) m
              (logged cb log 4 0x4341))); [done|done|done|done|].
  reflexivity.
Qed.

Lemma step_sub k a f cyc cb log :
  step (mkMachine (in_program 6 k a f cyc false cb) m log) =
  (Ok true, mkMachine (in_program 8 (fst (sub32 k 1)) a (cmp_one f k) (u64 (cyc + 1)) false cb) m
     (logged cb log 6 0x3801)).
Proof.
  rewrite (step_at 3 0x3801 _ _ (mkMachine (in_program 8 (fst (sub32 k 1)) a (cmp_one f k) cyc false cb) m
              (logged cb log 6 0x3801))); [done|done|done|done|].
  reflexivity.
Qed.

Lemma step_cmp k a f cyc cb log :
  step (mkMachine (in_program 8 k a f cyc false cb) m log) =
  (Ok true, mkMachine (in_program 10 k a (cmp_one f k) (u64 (cyc + 1)) false cb) m (logged cb log 8 0x2801)).
Proof.
  rewrite (step_at 4 0x2801 _ _ (mkMachine (in_program 10 k a (cmp_one f k) cyc false cb) m
              (logged cb log 8 0x2801))); [done|done|done|done|].
  reflexivity.
Qed.

Lemma step_bgt k a f cyc cb log :
  step (mkMachine (in_program 10 k a f cyc false cb) m log) =
  (Ok true, mkMachine (in_program (if condition_passes f 0xC then 4 else 12) k a f (u64 (cyc + 1)) false cb) m
     (logged cb log 10 0xDCFB)).
Proof.
  rewrite (step_at 5 0xDCFB _ _ (mkMachine (in_program (if condition_passes f 0xC then 4 else 12) k a f cyc false cb) m
              (logged cb log 10 0xDCFB))); [done|done|done|done|].
  destruct f as [N Z C V]. destruct Z, N, V; reflexivity.
Qed.

Lemma step_bx k a f cyc cb log :
  step (mkMachine (in_program 12 k a f cyc false cb) m log) =
  (Ok false, mkMachine (in_program 0 k a f (u64 (cyc + 1)) true cb) m (logged cb log 12 0x4770)).
Proof.
  rewrite (step_at 6 0x4770 _ _ (mkMachine (in_program 0 k a f cyc true cb) m
              (logged cb log 12 0x4770))); [done|done|done|done|].
  reflexivity.
Qed.

(** * The loop *)

Lemma sub_one k : 1 <= k <= 255 -> fst (sub32 k 1) = k - 1.
Proof. intros Hk. unfold sub32, add32. cbn [fst]. rewrite not32_eq by word_lia. cbn [b2z]. word_lia. Qed.

Lemma bgt_taken f k : 0 <= k <= 254 -> condition_passes (cmp_one f k) 0xC = (1 <? k).
Proof.
  intros Hk. change (cmp_one f k) with (cmp_one (mkAPSR false false false false) k).
  assert (forallb (fun j => eqb (condition_passes (cmp_one (mkAPSR false false false false) (Z.of_nat j)) 0xC)
                              (1 <? Z.of_nat j)) (seq 0 255) = true) as Hall by (vm_compute; reflexivity).
  rewrite forallb_forall in Hall. specialize (Hall (Z.to_nat k)). rewrite Z2Nat.id in Hall by lia.
  apply eqb_prop, Hall, in_seq. lia.
Qed.

Lemma one_round k a f cyc cb log :
  1 <= k <= 255 ->
  exists f' log', run_loop 4 0 (mkMachine (in_program 4 k a f cyc false cb) m log) =
    (Ok 4, mkMachine (in_program (if 2 <? k then 4 else 12) (k - 1) (u32 (a * k)) f' (u64 (cyc + 4)) false cb)
             m log').
Proof.
  intros Hk. eexists _, _. cbn [run_loop]. unfold bind. rewrite step_mul, step_sub, step_cmp, step_bgt.
  rewrite sub_one, bgt_taken by lia. unfold ret.
  replace (1 <? k - 1) with (2 <? k) by lia. do 3 f_equal. unfold u64. Z.div_mod_to_equations. lia.
Qed.

(** How often the loop body runs: once even when nothing is to be multiplied. *)
Definition rounds (k : Z) : Z := Z.max 1 (k - 1).

Lemma factorial_loop j : forall a f cyc cb log,
  let k := Z.of_nat (S j) in
  k <= 255 ->
  exists r0 f' log', run_loop (Z.to_nat (4 * rounds k)) 0 (mkMachine (in_program 4 k a f cyc false cb) m log) =
    (Ok (4 * rounds k),
     mkMachine (in_program 12 r0 (u32 (a * Z.of_nat (fact (S j)))) f' (u64 (cyc + 4 * rounds k)) false cb) m log').
Proof.
  induction j as [|j IH]; intros a f cyc cb log k Hk.
  - destruct (one_round k a f cyc cb log ltac:(lia)) as (f' & log' & E). exists 0, f', log'. exact E.
  - destruct (one_round k a f cyc cb log ltac:(lia)) as (f' & log' & E). destruct j as [|j].
    { exists 1, f', log'. exact E. }
    rewrite (proj2 (Z.ltb_lt 2 k)) in E by lia.
    destruct (IH (u32 (a * k)) f' (u64 (cyc + 4)) cb log') as (r0 & f2 & log2 & E2); [lia|].
    replace (Z.of_nat (S (S j))) with (k - 1) in E2 by lia.
    exists r0, f2, log2.
    assert (rounds k = 1 + rounds (k - 1)) as -> by (unfold rounds; lia).
    replace (4 * (1 + rounds (k - 1))) with (4 + 4 * rounds (k - 1)) by lia.
    rewrite Z2Nat.inj_add by (unfold rounds; lia). rewrite run_loop_app. change (Z.to_nat 4) with 4%nat.
    rewrite E. cbn [Z.eqb Pos.eqb Z.of_nat Pos.of_succ_nat Pos.succ]. rewrite E2. cbn [add_steps].
    assert (u32 (u32 (a * k) * Z.of_nat (fact (S (S j)))) = u32 (a * Z.of_nat (fact (S (S (S j)))))) as ->.
    { unfold u32. rewrite Z.mul_mod_idemp_l by lia. f_equal.
      change (fact (S (S (S j)))) with (S (S (S j)) * fact (S (S j)))%nat.
      rewrite Nat2Z.inj_mul. fold k. lia. }
    by rewrite u64_add_l, Z.add_assoc.
Qed.

Lemma run_loop_stop b (s s' : machine M) : step s = (Ok false, s') -> run_loop (S b) 0 s = (Ok 0, s').
Proof. intros Hs. cbn [run_loop]. unfold bind. by rewrite Hs. Qed.

(** The whole program, traced or not. *)
Lemma run_program cb f log max :
  4 * rounds n + 3 <= max ->
  exists r0 f' log',
    run max (mkMachine (in_program 0 0 0 f 0 false cb) m log) =
    (Ok (4 * rounds n + 2),
     mkMachine (in_program 0 r0 (u32 (Z.of_nat (fact (Z.to_nat n)))) f' (4 * rounds n + 3) true cb) m log').
Proof.
  intros Hmax. assert (0 < rounds n <= 254) as Hr by (unfold rounds; lia).
  destruct (factorial_loop (Z.to_nat (n - 1)) 1 (update_nz (update_nz f n) 1) 2 cb
              (logged cb (logged cb log 0 (0x2000 + n)) 2 0x2101)) as (r0 & f' & log' & E); [lia|].
  replace (S (Z.to_nat (n - 1))) with (Z.to_nat n) in E by lia.
  rewrite Z2Nat.id in E by lia. rewrite Z.mul_1_l in E.
  exists r0, f', (logged cb log' 12 0x4770). unfold run.
  replace (Z.to_nat max) with (2 + (Z.to_nat (4 * rounds n) + S (Z.to_nat (max - 4 * rounds n - 3))))%nat by lia.
  rewrite run_loop_app.
  assert (run_loop 2 0 (mkMachine (in_program 0 0 0 f 0 false cb) m log) =
    (Ok 2, mkMachine (in_program 4 n 1 (update_nz (update_nz f n) 1) 2 false cb) m
             (logged cb (logged cb log 0 (0x2000 + n)) 2 0x2101))) as ->.
  { cbn [run_loop]. unfold bind. by rewrite step_mov_r0, step_mov_r1. }
  cbn [Z.eqb Pos.eqb Z.of_nat Pos.of_succ_nat Pos.succ]. rewrite run_loop_app, E.
  rewrite Z2Nat.id, Z.eqb_refl by lia.
  erewrite run_loop_stop by apply step_bx. cbn [add_steps]. 
  assert (u64 (u64 (2 + 4 * rounds n) + 1) = 4 * rounds n + 3) as ->.
  { rewrite u64_add_l. unfold u64. rewrite Z.mod_small; lia. }
  do 2 f_equal. lia.
Qed.
End Program.

(** * The program in memory *)

(** The bytes of programs/factorial.bin, with [n] in the place of 5. *)
Definition program_bytes (n : Z) : list Z :=
  [n; 0x20; 0x01; 0x21; 0x41; 0x43; 0x01; 0x38; 0x01; 0x28; 0xFB; 0xDC; 0x70; 0x47].

Lemma program_loaded n rest : program_in n (FlatMemoryBus.mk (program_bytes n ++ rest)).
Proof.
  intros i op Hi.
  destruct i as [|i].
  - injection Hi as <-. transitivity (Ok (E := bus_fault) (le_value [n; 0x20])); [reflexivity|].
    f_equal. cbn [le_value]. lia.
  - do 6 (destruct i as [|i]; [injection Hi as <-; reflexivity|]). by destruct i.
Qed.

(** * Properties *)

(** C24: Termination and result of the sample program.  For every start value from
    1 to 255 the program halts within every bound on the steps from
    [4 * max 1 (n - 1) + 3] on, after exactly that many instructions, with the
    factorial modulo 2^32 in r1 and the memory as it was. *)
Theorem factorial_terminates {M} `{IMemoryBus M} n (m : M) max_steps :
  1 <= n <= 255 -> program_in n m -> 4 * rounds n + 3 <= max_steps ->
  exists s', run max_steps (mkMachine new_cpu m []) = (Ok (4 * rounds n + 2), s') /\
    halted_ (cpu s') = true /\ cycles_ (cpu s') = 4 * rounds n + 3 /\
    reg (cpu s') 1 = u32 (Z.of_nat (fact (Z.to_nat n))) /\ mem_ s' = m.
Proof.
  intros Hn Hp Hmax.
  destruct (run_program n m Hn Hp false (mkAPSR false false false false) [] max_steps Hmax) as (r0 & f & log & E).
  eexists. split; [exact E|]. done.
Qed.

(** * Witnesses *)

(** Five factorial. *)
Lemma factorial_terminates_witness :
  exists s', run 100 (mkMachine new_cpu (FlatMemoryBus.mk (program_bytes 5 ++ replicate 86 0)) []) = (Ok 18, s') /\
    reg (cpu s') 1 = 120.
Proof.
  destruct (factorial_terminates 5 (FlatMemoryBus.mk (program_bytes 5 ++ replicate 86 0)) 100)
    as (s' & H1 & _ & _ & H4 & _); [split; discriminate|apply program_loaded|discriminate|].
  exists s'. split; [exact H1|exact H4].
Defined.
