(* ===== verification/Trace.v ===== *)
(** src/src/trace.h: the disassembler and the tracer that prints what the core
    hands to the trace callback.  An [ostream] is the text written to it. *)
From S2P Require Export Text Cpu.

#[local] Open Scope string_scope.
#[local] Open Scope Z_scope.

Definition pick (l : list string) (i : Z) : string := default "?" (l !! Z.to_nat i).

Module ThumbDisassembler.

Definition reg_names : list string :=
  ["r0"; "r1"; "r2"; "r3"; "r4"; "r5"; "r6"; "r7";
   "r8"; "r9"; "r10"; "r11"; "r12"; "sp"; "lr"; "pc"].

Definition fmt_reg (r : Z) : string := if r <? 16 then pick reg_names r else "?".

(** The loop over the bits [l] of the list, after [s]. *)
Fixpoint reglist_loop (rlist : Z) (l : list Z) (first : bool) (s : string) : string :=
  match l with
  | [] => s
  | i :: l =>
      if in_rlist rlist i
      then reglist_loop rlist l false ((if first then s else s ++ ",") ++ fmt_reg i)
      else reglist_loop rlist l first s
  end.

Definition fmt_reglist (rlist : Z) : string :=
  reglist_loop rlist [0; 1; 2; 3; 4; 5; 6; 7] true "{" ++ "}".

Definition conds : list string :=
  ["eq"; "ne"; "cs"; "cc"; "mi"; "pl"; "vs"; "vc"; "hi"; "ls"; "ge"; "lt"; "gt"; "le"; "al"; "nv"].

Definition cond_name (c : Z) : string := if c <? 16 then pick conds c else "??".

Definition fmt_memory_branch (pc instr top4 top5 : Z) : string :=
  let R := fmt_reg in
  if top4 =? 0xB then
    let L := bit instr 11 in
    let R_flag := bit instr 8 in
    let comma := if negb (instr .& 0xFF =? 0) then "," else "" in
    (if L then "pop" else "push") ++ " " ++ fmt_reglist (u8 (instr .& 0xFF)) ++
    (if negb L && R_flag then comma ++ "{lr}" else "") ++
    (if L && R_flag then comma ++ "{pc}" else "")
  else if (top4 =? 0xD) && negb ((instr .>> 8) .& 0xF =? 0xF) then
    let off := s8 (instr .& 0xFF) .<< 1 in
    "b" ++ cond_name ((instr .>> 8) .& 0xF) ++ " 0x" ++ HEX (u32 (s32 pc + 4 + off))
  else if top5 =? 0x1C then
    let off := s32 ((instr .& 0x7FF) .<< 21) .>> 20 in
    "b 0x" ++ HEX (u32 (s32 pc + 4 + off))
  else if top5 =? 0x1E then "bl_h 0x" ++ HEX (instr .& 0x7FF)
  else if top5 =? 0x1F then "bl_l 0x" ++ HEX (instr .& 0x7FF)
  else if (0x6 <=? top4) && (top4 <=? 0x8) then
    let B := top4 =? 0x7 in
    let L := bit instr 11 in
    (if L then "ldr" else "str") ++ (if B then "b" else "") ++ " " ++
    R (instr .& 7) ++ ", [" ++ R ((instr .>> 3) .& 7) ++ ", #" ++
    HEX (((instr .>> 6) .& 0x1F) .<< (if B then 0 else 2)) ++ "]"
  else if top4 =? 0x9 then
    let L := bit instr 11 in
    (if L then "ldr" else "str") ++ " " ++ R ((instr .>> 8) .& 7) ++ ", [sp, #" ++
    HEX ((instr .& 0xFF) .<< 2) ++ "]"
  else if top4 =? 0xC then
    let L := bit instr 11 in
    (if L then "ldm" else "stm") ++ " " ++ R ((instr .>> 8) .& 7) ++ "!, " ++
    fmt_reglist (u8 (instr .& 0xFF))
  else if (instr .>> 8) =? 0xB0 then
    (if bit instr 7 then "sub" else "add") ++ " sp, #" ++ HEX ((instr .& 0x7F) .<< 2)
  else "?? 0x" ++ zeros 4 (HEX instr).

Definition disassemble (pc instr : Z) : string :=
  let top5 := (instr .>> 11) .& 0x1F in
  let top4 := (instr .>> 12) .& 0x0F in
  let top6 := (instr .>> 10) .& 0x3F in
  let R := fmt_reg in
  if top5 <=? 0x02 then
    let op := (instr .>> 11) .& 0x3 in
    pick ["lsl"; "lsr"; "asr"] (if op <? 3 then op else 0) ++ " " ++
    R (instr .& 7) ++ ", " ++ R ((instr .>> 3) .& 7) ++ ", #" ++ HEX ((instr .>> 6) .& 0x1F)
  else if top5 =? 0x03 then
    let sub := bit instr 9 in
    let imm := bit instr 10 in
    (if sub then "sub" else "add") ++ " " ++ R (instr .& 7) ++ ", " ++ R ((instr .>> 3) .& 7) ++ ", " ++
    (if imm then "#" ++ HEX ((instr .>> 6) .& 7) else R ((instr .>> 6) .& 7))
  else if (0x04 <=? top5) && (top5 <=? 0x07) then
    pick ["mov"; "cmp"; "add"; "sub"] ((instr .>> 11) .& 3) ++ " " ++
    R ((instr .>> 8) .& 7) ++ ", #" ++ HEX (instr .& 0xFF)
  else if top6 =? 0x10 then
    pick ["and"; "eor"; "lsl"; "lsr"; "asr"; "adc"; "sbc"; "ror";
          "tst"; "neg"; "cmp"; "cmn"; "orr"; "mul"; "bic"; "mvn"] ((instr .>> 6) .& 0xF) ++ " " ++
    R (instr .& 7) ++ ", " ++ R ((instr .>> 3) .& 7)
  else if top6 =? 0x11 then
    let op := (instr .>> 8) .& 3 in
    if op =? 3 then "bx " ++ R ((instr .>> 3) .& 0xF)
    else pick ["add"; "cmp"; "mov"; "bx"] op ++ " " ++
         R ((((instr .>> 7) .& 1) .<< 3) .| (instr .& 7)) ++ ", " ++ R ((instr .>> 3) .& 0xF)
  else fmt_memory_branch pc instr top4 top5.

End ThumbDisassembler.

Module Tracer.

(** A new line character. *)
Definition newline : string := String (char 10) "".

(** [print] on a stream whose flags are the default ones or what an earlier
    [print] left. *)
Definition print (out_ : string) (pc opcode : Z) (disasm : string) : string :=
  out_ ++ "  0x" ++ zeros 4 (hex pc) ++ "  " ++ zeros 4 (hex opcode) ++ "  " ++ disasm ++ newline.

(** [active_] is the stream of the last attached tracer, if there is one. *)
Definition trace_cb (active_ : option string) (pc opcode : Z) : option string :=
  match active_ with
  | Some out_ => Some (print out_ pc opcode (ThumbDisassembler.disassemble pc opcode))
  | None => None
  end.

(** The calls the core made, in their order. *)
Fixpoint trace_calls (active_ : option string) (log : list (Z * Z)) : option string :=
  match log with
  | [] => active_
  | (pc, opcode) :: log => trace_calls (trace_cb active_ pc opcode) log
  end.

Definition attach (c : CortexM0) : CortexM0 := set_trace true c.

End Tracer.
