(* ===== verification/TraceProps.v ===== *)
(** The trace: attaching the tracer changes nothing but what is printed, the lines
    are the instructions executed, and what the text of a branch and of an opcode
    the disassembler does not know says about the core. *)
From Stdlib Require Import ZifyBool.
From S2P Require Export CpuRun Trace.

#[local] Open Scope string_scope.
#[local] Open Scope Z_scope.

(** * Instructions do not see the tracer *)

(** The machine without callback and trace. *)
Definition untraced {M} (s : machine M) : machine M :=
  mkMachine (set_trace false (cpu s)) (mem_ s) [].

Section Blind.
Context {M : Type} `{IMemoryBus M}.

Definition blind {A} (c : exec M A) : Prop :=
  forall s, c (untraced s) = (fst (c s), untraced (snd (c s))).

Lemma blind_bind {A B} (c : exec M A) (k : A -> exec M B) :
  blind c -> (forall a, blind (k a)) -> blind (bind c k).
Proof.
  intros Hc Hk s. specialize (Hc s). unfold bind. rewrite Hc.
  destruct (c s) as [[a|e] s']; simpl; [apply Hk|done].
Qed.

Lemma blind_ret {A} (a : A) : blind (ret a).
Proof. done. Qed.
Lemma blind_throw {A} e : blind (A := A) (throw e).
Proof. done. Qed.
Lemma blind_get_reg r : blind (get_reg r).
Proof. done. Qed.
Lemma blind_halted : blind (gets halted_).
Proof. done. Qed.
Lemma blind_apsr : blind (gets apsr_).
Proof. done. Qed.
Lemma blind_flag_C : blind (gets (fun c => flag_C (apsr_ c))).
Proof. done. Qed.
Lemma blind_gets_bl : blind (gets bl_offset_).
Proof. done. Qed.
Lemma blind_put_reg r v : blind (put_reg r v).
Proof. done. Qed.
Lemma blind_put_C b : blind (put_C b).
Proof. done. Qed.
Lemma blind_put_V b : blind (put_V b).
Proof. done. Qed.
Lemma blind_put_nz b : blind (put_nz b).
Proof. done. Qed.
Lemma blind_halt : blind halt.
Proof. done. Qed.
Lemma blind_bl_offset v : blind (modify (with_bl_offset v)).
Proof. done. Qed.
Lemma blind_cycles f : blind (modify (with_cycles f)).
Proof. done. Qed.
Lemma blind_read rd a : blind (mem_read rd a).
Proof. intros s. unfold mem_read. cbn [mem_ untraced]. by destruct (rd _ _). Qed.
Lemma blind_write wr a v : blind (mem_write wr a v).
Proof. intros s. unfold mem_write. cbn [mem_ untraced]. by destruct (wr _ _ _). Qed.
Lemma blind_trace p i : blind (trace p i).
Proof. intros s. unfold trace. cbn. by destruct (trace_cb_ (cpu s)). Qed.

Lemma blind_for_each l (f : Z -> exec M unit) :
  (forall i, blind (f i)) -> blind (for_each l f).
Proof. intros Hf. induction l; simpl; [apply blind_ret|]. by apply blind_bind. Qed.
End Blind.

Create HintDb blind.
#[export] Hint Resolve blind_ret blind_throw blind_get_reg blind_halted blind_apsr blind_flag_C
  blind_gets_bl blind_put_reg blind_put_C blind_put_V blind_put_nz blind_halt blind_bl_offset
  blind_cycles blind_read blind_write blind_trace : blind.

Ltac blind_step :=
  match goal with
  | |- blind (bind _ _) => apply blind_bind; [|intros ?]
  | |- blind (if ?b then _ else _) => destruct b
  | |- blind (let '(_, _) := ?p in _) => destruct p
  | |- blind (for_each _ _) => apply blind_for_each; intros ?
  | |- blind (set_pc _) => apply blind_put_reg
  | |- blind pc => apply blind_get_reg
  | |- blind _ => solve [eauto with blind]
  end.

Section BlindCore.
Context {M : Type} `{IMemoryBus M}.

Lemma blind_ldm_stm_loop L rlist l addr : blind (M := M) (ldm_stm_loop L rlist l addr).
Proof.
  revert addr. induction l as [|i l IH]; intros addr; simpl; [apply blind_ret|].
  destruct (in_rlist _ i); [|apply IH]. apply blind_bind; [repeat blind_step|done].
Qed.

Lemma blind_execute instr : blind (M := M) (execute instr).
Proof.
  unfold execute. cbv zeta.
  repeat match goal with |- blind (if ?b then _ else _) => destruct b end;
    unfold exec_shift_imm, exec_add_sub, exec_imm8, exec_alu, exec_alu_shift,
      exec_alu_arith, exec_hi_reg_bx, exec_ldr_pc, exec_ldr_str_reg, exec_ldr_str_imm,
      exec_ldrh_strh_imm, exec_ldr_str_sp, exec_add_sp_pc, exec_sp_ops, exec_push_pop,
      exec_ldm_stm, exec_branch_cond, exec_branch, exec_bl_upper, exec_bl_lower,
      load_store, push_reg, pop_reg; cbv zeta.
  all: repeat first [blind_step | apply blind_ldm_stm_loop].
Qed.

Lemma blind_any_step : blind (M := M) step.
Proof.
  unfold step, fetch, advance_pc. apply blind_bind; [apply blind_halted|intros h].
  destruct h; [apply blind_ret|]. repeat first [apply blind_execute | blind_step].
Qed.

Lemma blind_run_loop n k : blind (M := M) (run_loop n k).
Proof.
  revert k. induction n as [|n IH]; intros k; cbn [run_loop]; [apply blind_ret|].
  apply blind_bind; [apply blind_any_step|]. intros b. destruct b; [apply IH|apply blind_ret].
Qed.
End BlindCore.

(** * The instructions of a run *)

#[local] Open Scope list_scope.

Section History.
Context {M : Type} `{IMemoryBus M}.

(** Address and opcode of the instructions that [n] steps execute, the one that
    throws included. *)
Fixpoint history (n : nat) (s : machine M) : list (Z * Z) :=
  match n with
  | O => []
  | S n =>
      if halted_ (cpu s) then []
      else match bus_read16 (mem_ s) (reg (cpu s) PC) with
           | Err _ => []
           | Ok i => (reg (cpu s) PC, i) ::
                     match step s with (Ok true, s') => history n s' | _ => [] end
           end
  end.

Lemma step_traces (s : machine M) :
  trace_cb_ (cpu s) = true ->
  trace_cb_ (cpu (snd (step s))) = true /\
  trace_log (snd (step s)) =
    trace_log s ++ (if halted_ (cpu s) then []
                    else match bus_read16 (mem_ s) (reg (cpu s) PC) with
                         | Err _ => [] | Ok i => [(reg (cpu s) PC, i)] end).
Proof.
  intros Ht. destruct (halted_ (cpu s)) eqn:Hh.
  - rewrite step_halted by done. by rewrite app_nil_r.
  - destruct (bus_read16 _ _) as [i|e] eqn:Hr.
    + rewrite (step_fetched s i) by done. pose proof (quiet_execute i (fetched s i)) as (_ & H2 & H3).
      destruct (execute i (fetched s i)) as [[[]|e] s1]; simpl in *; rewrite H2, H3, Ht; done.
    + rewrite (step_read_fault s e) by done. by rewrite app_nil_r.
Qed.

Lemma run_loop_traces n k (s : machine M) :
  trace_cb_ (cpu s) = true ->
  trace_log (snd (run_loop n k s)) = trace_log s ++ history n (untraced s).
Proof.
  revert k s. induction n as [|n IH]; intros k s Ht; [by rewrite app_nil_r|].
  destruct (step_traces s Ht) as [Hcb Hlog]. cbn [run_loop history]. unfold bind.
  change (halted_ (cpu (untraced s))) with (halted_ (cpu s)).
  change (reg (cpu (untraced s)) PC) with (reg (cpu s) PC).
  change (mem_ (untraced s)) with (mem_ s). rewrite (blind_any_step s).
  destruct (halted_ (cpu s)) eqn:Hh.
  { rewrite step_halted by done. by rewrite app_nil_r. }
  destruct (bus_read16 (mem_ s) (reg (cpu s) PC)) as [i|e] eqn:Hr.
  - destruct (step s) as [[[]|x] s1]; cbn [fst snd ret] in *; [|done|done].
    rewrite IH by done. by rewrite Hlog, <-app_assoc.
  - rewrite (step_read_fault s e) by done. by rewrite app_nil_r.
Qed.
End History.

#[local] Open Scope string_scope.

(** A line of the trace, and all of them. *)
Definition line (x : Z * Z) : string :=
  "  0x" ++ zeros 4 (hex (fst x)) ++ "  " ++ zeros 4 (hex (snd x)) ++ "  " ++
  ThumbDisassembler.disassemble (fst x) (snd x) ++ Tracer.newline.

Fixpoint lines (log : list (Z * Z)) : string :=
  match log with [] => "" | x :: log => line x ++ lines log end.

Lemma append_assoc (a b c : string) : (a ++ b) ++ c = a ++ (b ++ c).
Proof. induction a as [|x a IH]; [done|]. simpl. by rewrite IH. Qed.

Lemma append_nil_r (a : string) : a ++ "" = a.
Proof. induction a as [|x a IH]; [done|]. simpl. by rewrite IH. Qed.

Lemma trace_calls_lines out log :
  Tracer.trace_calls (Some out) log = Some (out ++ lines log).
Proof.
  revert out. induction log as [|[p i] log IH]; intros out; cbn [Tracer.trace_calls Tracer.trace_cb].
  - cbn [lines]. by rewrite append_nil_r.
  - rewrite IH. cbn [lines]. unfold Tracer.print, line. cbn [fst snd]. by rewrite !append_assoc.
Qed.

(** * The text of an opcode *)

Definition starts_with (p s : string) : bool := String.prefix p s.

(** The opcodes that have no text of their own: LDR relative to PC, loads and
    stores with a register offset, ADD of SP or PC, and the undefined ones. *)
Definition no_text (i : Z) : bool :=
  (((0x4800 <=? i) && (i <? 0x6000)) || ((0xA000 <=? i) && (i <? 0xB000)) ||
   ((0xDF00 <=? i) && (i <? 0xE000)) || ((0xE800 <=? i) && (i <? 0xF000)))%Z.

Definition known (s : string) : bool :=
  match s with String c _ => negb (Ascii.eqb c "?") | "" => false end.

Lemma known_starts s : known s = true -> starts_with "??" s = false.
Proof.
  destruct s as [|c s]; [done|]. cbn [known]. unfold starts_with.
  change (String.prefix "??" (String c s)) with (if ascii_dec "?" c then String.prefix "?" s else false).
  intros Hc. destruct (ascii_dec "?" c) as [<-|]; [by rewrite Ascii.eqb_refl in Hc|done].
Qed.

Lemma known_app a b : known a = true -> known (a ++ b) = true.
Proof. by destruct a. Qed.

Lemma known_pick l i : forallb known l = true -> 0 <= i < Z.of_nat (length l) -> known (pick l i) = true.
Proof.
  intros Hl Hi. rewrite forallb_forall in Hl. unfold pick.
  destruct (lookup_lt_is_Some_2 l (Z.to_nat i)) as [x Hx]; [lia|]. rewrite Hx. cbn [default].
  apply Hl, list_elem_of_In. by eapply list_elem_of_lookup_2.
Qed.

Lemma disassemble_head pc i :
  in_u16 i -> starts_with "??" (ThumbDisassembler.disassemble pc i) = no_text i /\
  (no_text i = true -> ThumbDisassembler.disassemble pc i = "?? 0x" ++ zeros 4 (HEX i)).
Proof.
  intros Hi. unfold ThumbDisassembler.disassemble, ThumbDisassembler.fmt_memory_branch. cbv zeta.
  assert (i .>> 8 = i / 0x100) as E8 by (by rewrite Z.shiftr_div_pow2).
  destruct (top_fields _ Hi) as (-> & -> & -> & _ & -> & ->). rewrite E8. unfold in_u16 in Hi.
  pose proof (land_range (i .>> 8) 3 ltac:(lia)) as H3. pose proof (land_range (i .>> 6) 0xF ltac:(lia)) as H4.
  rewrite E8 in H3.
  assert (forall s, known s = true -> no_text i = false ->
    starts_with "??" s = no_text i /\ (no_text i = true -> s = "?? 0x" ++ zeros 4 (HEX i))) as Hk.
  { intros s Hs ->. split; [by apply known_starts|done]. }
  repeat match goal with
  | |- starts_with _ (if ?b then _ else _) = _ /\ _ => destruct b eqn:?
  end; try (apply Hk; [|unfold no_text; Z.div_mod_to_equations; lia]).
  - apply known_app, known_pick; [done|]. cbn [length]. destruct (Z.ltb_spec ((i / 2048) mod 4) 3); word_lia.
  - by destruct (bit i 9).
  - apply known_app, known_pick; [done|]. cbn [length]. word_lia.
  - apply known_app, known_pick; [done|]. cbn [length]. lia.
  - done.
  - apply known_app, known_pick; [done|]. cbn [length]. lia.
  - by destruct (bit i 11).
  - done.
  - done.
  - done.
  - done.
  - by destruct (bit i 11).
  - by destruct (bit i 11).
  - by destruct (bit i 11).
  - by destruct (bit i 7).
  - split; [|done]. change (true = no_text i). unfold no_text. Z.div_mod_to_equations; lia.
Qed.

Lemma u32_s32_add p k : u32 (s32 p + k) = u32 (p + k).
Proof. by rewrite <-u32_add_l, u32_s32, u32_add_l. Qed.

Lemma disassemble_branch_cond p i :
  0xD000 <= i < 0xDF00 ->
  ThumbDisassembler.disassemble p i =
  "b" ++ ThumbDisassembler.cond_name ((i .>> 8) .& 0xF) ++ " 0x" ++ HEX (u32 (p + 4 + 2 * s8 (i .& 0xFF))).
Proof.
  intros Hi. unfold ThumbDisassembler.disassemble, ThumbDisassembler.fmt_memory_branch. cbv zeta.
  assert (u32 (s32 p + 4 + (s8 (i .& 0xFF)) .<< 1) = u32 (p + 4 + 2 * s8 (i .& 0xFF))) as ->.
  { rewrite Z.shiftl_mul_pow2, <-Z.add_assoc, u32_s32_add by lia. f_equal. lia. }
  destruct (top_fields i ltac:(word_lia)) as (-> & -> & -> & _ & -> & ->).
  repeat match goal with
  | |- (if ?b then _ else _) = _ =>
      destruct b eqn:?; [try (exfalso; Z.div_mod_to_equations; lia)|try (exfalso; Z.div_mod_to_equations; lia)]
  end. done.
Qed.

Lemma disassemble_branch p i :
  0xE000 <= i < 0xE800 ->
  ThumbDisassembler.disassemble p i = "b 0x" ++ HEX (u32 (p + 4 + 2 * soff11 i)).
Proof.
  intros Hi. unfold ThumbDisassembler.disassemble, ThumbDisassembler.fmt_memory_branch. cbv zeta.
  assert (u32 (s32 p + 4 + s32 ((i .& 0x7FF) .<< 21) .>> 20) = u32 (p + 4 + 2 * soff11 i)) as ->.
  { rewrite sign_extend_11, Z.shiftr_div_pow2 by lia.
    replace (soff11 i * 2 ^ 21) with (soff11 i * 2 * 2 ^ 20) by lia. rewrite Z.div_mul by lia.
    rewrite <-Z.add_assoc, u32_s32_add. f_equal. lia. }
  destruct (top_fields i ltac:(word_lia)) as (-> & -> & -> & _ & -> & ->).
  repeat match goal with
  | |- (if ?b then _ else _) = _ =>
      destruct b eqn:?; [try (exfalso; Z.div_mod_to_equations; lia)|try (exfalso; Z.div_mod_to_equations; lia)]
  end. done.
Qed.

Lemma lines_app a b : lines (a ++ b)%list = lines a ++ lines b.
Proof. induction a as [|x a IH]; [done|]. cbn [app lines]. by rewrite IH, append_assoc. Qed.

(** * Properties *)

(** The tracer is transparent.  A run with the tracer attached returns or
    throws the same as one without and leaves the same registers, flags, counters
    and memory; and what it prints is one line, with address, opcode and text, for
    each instruction the run without tracer executes, in their order. *)
Theorem trace_transparent {M} `{IMemoryBus M} max_steps (s : machine M) :
  trace_cb_ (cpu s) = true ->
  let '(r, s') := run max_steps s in
  run max_steps (untraced s) = (r, untraced s') /\
  Tracer.trace_calls (Some "") (trace_log s') =
    Some (lines (trace_log s) ++ lines (history (Z.to_nat max_steps) (untraced s))).
Proof.
  intros Ht. pose proof (blind_run_loop (Z.to_nat max_steps) 0 s) as Hb.
  pose proof (run_loop_traces (Z.to_nat max_steps) 0 s Ht) as Hl. unfold run.
  destruct (run_loop _ 0 s) as [r s']. cbn [fst snd] in *. split; [done|].
  by rewrite trace_calls_lines, Hl, lines_app.
Qed.

(** A branch goes where the trace says.  For B and B<cond> at an even address
    the text ends in the address, in hexadecimal, that the core goes to when the
    condition holds: [p + 4] plus twice the signed offset, modulo 2^32; a
    conditional branch whose condition fails goes on to [p + 2].  Nothing else
    changes but the cycle count and the trace. *)
Theorem branch_as_printed {M} `{IMemoryBusLaws M} (s : machine M) i :
  machine_wf s -> halted_ (cpu s) = false ->
  let p := reg (cpu s) PC in
  Z.even p = true -> bus_read16 (mem_ s) p = Ok i ->
  (0xD000 <= i < 0xDF00 ->
   let target := u32 (p + 4 + 2 * s8 (i .& 0xFF)) in
   ThumbDisassembler.disassemble p i =
     "b" ++ ThumbDisassembler.cond_name ((i .>> 8) .& 0xF) ++ " 0x" ++ HEX target /\
   exists s', step s = (Ok true, s') /\
     jumps s (if condition_passes (apsr_ (cpu s)) ((i .>> 8) .& 0xF) then target else u32 (p + 2)) s') /\
  (0xE000 <= i < 0xE800 ->
   let target := u32 (p + 4 + 2 * soff11 i) in
   ThumbDisassembler.disassemble p i = "b 0x" ++ HEX target /\
   exists s', step s = (Ok true, s') /\ jumps s target s').
Proof.
  intros Hs Hh p He Hr. destruct (branch_targets s i Hs Hh He Hr) as [H1 H2]. split; intros Hi.
  - split; [by apply disassemble_branch_cond|by apply H1].
  - split; [by apply disassemble_branch|by apply H2].
Qed.

(** What the disassembler does not know.  The text of an opcode starts with
    question marks exactly for the loads relative to PC, the loads and stores with
    a register offset, ADD of SP or PC, and the undefined opcodes, and is then the
    opcode itself; so an instruction the core throws on is always shown as such, but
    three formats it executes are too. *)
Theorem disassemble_unknown {M} `{IMemoryBusLaws M} p i (s : machine M) :
  in_u16 i -> machine_wf s ->
  starts_with "??" (ThumbDisassembler.disassemble p i) = no_text i /\
  (no_text i = true -> ThumbDisassembler.disassemble p i = "?? 0x" ++ zeros 4 (HEX i)) /\
  (forall x s', execute i s = (Err (UndefinedInstructionException x), s') -> x = i /\ no_text i = true) /\
  (0x4800 <= i < 0x5000 \/ 0xA000 <= i < 0xB000 ->
   no_text i = true /\ forall x s', execute i s <> (Err (UndefinedInstructionException x), s')).
Proof.
  intros Hi Hs. destruct (disassemble_head p i Hi) as [H1 H2].
  assert (forall x s', execute i s = (Err (UndefinedInstructionException x), s') ->
            undefined_encoding i = true /\ x = i) as Hu.
  { intros x s' E. destruct (undefined_encoding i) eqn:Hund.
    - rewrite execute_undefined in E by done. by injection E as <- <-.
    - pose proof (keeps_execute i Hi Hund s Hs) as Hk. rewrite E in Hk. by destruct Hk. }
  split; [done|]. split; [done|]. split.
  - intros x s' E. destruct (Hu x s' E) as [Hund ->]. split; [done|].
    unfold no_text. unfold undefined_encoding in Hund. lia.
  - intros Hr. split; [unfold no_text; lia|]. intros x s' E. destruct (Hu x s' E) as [Hund _].
    unfold undefined_encoding in Hund. lia.
Qed.

(** * Witnesses *)

Definition traced (s : machine FlatMemoryBus.t) : machine FlatMemoryBus.t :=
  mkMachine (Tracer.attach (cpu s)) (mem_ s) (trace_log s).

(** The first three instructions of the factorial program. *)
Lemma trace_transparent_witness :
  exists s', run 3 (traced (boot factorial_bin)) = (Ok 3, s') /\
    Tracer.trace_calls (Some "") (trace_log s') =
      Some ("  0x0000  2005  mov r0, #5" ++ Tracer.newline ++ "  0x0002  2101  mov r1, #1" ++ Tracer.newline ++
            "  0x0004  4341  mul r1, r0" ++ Tracer.newline).
Proof.
  assert (fst (run 3 (traced (boot factorial_bin))) = Ok 3) as E1 by (vm_compute; reflexivity).
  pose proof (trace_transparent 3 (traced (boot factorial_bin)) eq_refl) as H.
  destruct (run 3 (traced (boot factorial_bin))) as [r s']. cbn [fst] in E1. subst r.
  exists s'. split; [reflexivity|]. rewrite (proj2 H). vm_compute. reflexivity.
Defined.

(** A branch to itself at address 0. *)
Lemma branch_as_printed_witness :
  ThumbDisassembler.disassemble 0 0xE7FE = "b 0x0" /\
  exists s', step (boot [0xFE; 0xE7]) = (Ok true, s') /\ jumps (boot [0xFE; 0xE7]) 0 s'.
Proof.
  refine (proj2 (branch_as_printed (boot [0xFE; 0xE7]) 0xE7FE _ _ _ _) _);
    [apply boot_wf; [reflexivity|vm_compute; discriminate]|reflexivity|reflexivity|vm_compute; reflexivity|lia].
Defined.

Lemma disassemble_unknown_witness : ThumbDisassembler.disassemble 0 0x4801 = "?? 0x4801".
Proof.
  refine (proj1 (proj2 (disassemble_unknown 0 0x4801 (boot [0xFE; 0xE7]) _ _)) _);
    [split; lia|apply boot_wf; [reflexivity|vm_compute; discriminate]|reflexivity].
Defined.
