(* ===== verification/ThumbText.v ===== *)
(** The text of an instruction, and for which instructions src/src/trace.h prints it. *)
From Stdlib Require Import ZifyBool.
From S2P Require Export ThumbDecode TraceProps.
Import Thumb.

#[local] Open Scope string_scope.
#[local] Open Scope Z_scope.

(** * The text of an instruction *)

Fixpoint join (sep : string) (l : list string) : string :=
  match l with
  | [] => ""
  | [x] => x
  | x :: l => x ++ sep ++ join sep l
  end.

Definition register (r : Z) : string :=
  if r =? SP then "sp" else if r =? LR then "lr" else if r =? PC then "pc" else "r" ++ dec r.

(** The low registers of a list, and one more by name. *)
Definition register_list (l : Z) : string := "{" ++ join "," (register <$> low_list l) ++ "}".
Definition register_list_and (l : Z) (more : list string) : string :=
  "{" ++ join "," ((register <$> low_list l) ++ more) ++ "}".

Definition shift_name (ty : shift_type) : string :=
  match ty with
  | SRType_LSL => "lsl" | SRType_LSR => "lsr" | SRType_ASR => "asr" | SRType_ROR => "ror"
  end.

Definition dp_name (op : dp) : string :=
  match op with
  | AND => "and" | EOR => "eor" | LSL => "lsl" | LSR => "lsr" | ASR => "asr" | ADC => "adc"
  | SBC => "sbc" | ROR => "ror" | TST => "tst" | NEG => "neg" | CMP => "cmp" | CMN => "cmn"
  | ORR => "orr" | MUL => "mul" | BIC => "bic" | MVN => "mvn"
  end.

Definition imm8_name (op : imm8_op) : string :=
  match op with MovImm => "mov" | CmpImm => "cmp" | AddImm => "add" | SubImm => "sub" end.

Definition hi_name (op : hi_op) : string :=
  match op with HiAdd => "add" | HiCmp => "cmp" | HiMov => "mov" end.

Definition condition_name (cond : Z) : string :=
  match cond with
  | 0 => "eq" | 1 => "ne" | 2 => "cs" | 3 => "cc" | 4 => "mi" | 5 => "pl" | 6 => "vs" | 7 => "vc"
  | 8 => "hi" | 9 => "ls" | 10 => "ge" | 11 => "lt" | 12 => "gt" | _ => "le"
  end.

Definition add_sub_name (sub : bool) : string := if sub then "sub" else "add".
Definition load_name (load : bool) : string := if load then "ldr" else "str".
Definition suffix (w : width) : string := match w with W8 => "b" | W16 => "h" | W32 => "" end.
Definition extend_name (sign : bool) (w : width) : string := (if sign then "sxt" else "uxt") ++ suffix w.
Definition rev_name (op : rev_op) : string := match op with REV => "rev" | REV16 => "rev16" | REVSH => "revsh" end.
Definition hint_name (op : Z) : string :=
  match op with 0 => "nop" | 1 => "yield" | 2 => "wfe" | 3 => "wfi" | 4 => "sev" | _ => "hint #" ++ HEX op end.

Definition imm (n : Z) : string := "#" ++ HEX n.
Definition operands2 (name a b : string) : string := name ++ " " ++ a ++ ", " ++ b.
Definition operands3 (name a b c : string) : string := name ++ " " ++ a ++ ", " ++ b ++ ", " ++ c.

Definition address2 (base offset : string) : string := "[" ++ base ++ ", " ++ offset ++ "]".

(** The text of an instruction at address [pc], in the syntax of the architecture manual
    before the unified one, so without an S for the flags: registers by name, branches
    with their target.  From the tracer it takes that numbers are in hexadecimal, a
    target with the prefix 0x and an immediate without.  The halves of BL have no syntax
    of their own. *)
Definition text (pc : Z) (ins : instr) : option string :=
  let r := register in
  match ins with
  | ShiftImm ty rd rm imm5 => Some (operands3 (shift_name ty) (r rd) (r rm) (imm (imm_shift ty imm5)))
  | AddSubReg sub rd rn rm => Some (operands3 (add_sub_name sub) (r rd) (r rn) (r rm))
  | AddSubImm3 sub rd rn imm3 => Some (operands3 (add_sub_name sub) (r rd) (r rn) (imm imm3))
  | Imm8 op rd imm8 => Some (operands2 (imm8_name op) (r rd) (imm imm8))
  | DataProc op rdn rm => Some (operands2 (dp_name op) (r rdn) (r rm))
  | HiReg op rd rm => Some (operands2 (hi_name op) (r rd) (r rm))
  | Bx link rm => Some ((if link then "blx " else "bx ") ++ r rm)
  | LdrLit rt imm8 => Some (operands2 "ldr" (r rt) (address2 "pc" (imm (4 * imm8))))
  | LoadStoreReg load w rt rn rm => Some (operands2 (load_name load ++ suffix w) (r rt) (address2 (r rn) (r rm)))
  | LoadSigned w rt rn rm => Some (operands2 ("ldrs" ++ suffix w) (r rt) (address2 (r rn) (r rm)))
  | LoadStoreImm load w rt rn imm5 =>
      Some (operands2 (load_name load ++ suffix w) (r rt) (address2 (r rn) (imm (scale w * imm5))))
  | LoadStoreSp load rt imm8 => Some (operands2 (load_name load) (r rt) (address2 "sp" (imm (4 * imm8))))
  | Adr rd imm8 => Some (operands3 "add" (r rd) "pc" (imm (4 * imm8)))
  | AddSp rd imm8 => Some (operands3 "add" (r rd) "sp" (imm (4 * imm8)))
  | AdjustSp sub imm7 => Some (operands2 (add_sub_name sub) "sp" (imm (4 * imm7)))
  | Extend sign w rd rm => Some (operands2 (extend_name sign w) (r rd) (r rm))
  | Reverse op rd rm => Some (operands2 (rev_name op) (r rd) (r rm))
  | Cps disable => Some (if disable then "cpsid i" else "cpsie i")
  | Push l => Some ("push " ++ register_list_and l (if bit l 8 then ["lr"] else []))
  | Pop l => Some ("pop " ++ register_list_and l (if bit l 8 then ["pc"] else []))
  | Hint op => Some (hint_name op)
  | Stm rn l => Some (operands2 "stm" (r rn ++ "!") (register_list l))
  | Ldm rn l => Some (operands2 "ldm" (r rn ++ (if bit l rn then "" else "!")) (register_list l))
  | BCond cond off8 =>
      Some ("b" ++ condition_name cond ++ " 0x" ++ HEX (u32 (pc + 4 + 2 * signed 8 off8)))
  | B off11 => Some ("b 0x" ++ HEX (u32 (pc + 4 + 2 * signed 11 off11)))
  | BlHigh _ | BlLow _ => None
  end.

(** The instructions whose text the disassembler prints. *)
Definition printed (ins : instr) : bool :=
  match ins with
  | ShiftImm ty _ _ imm5 => match ty with SRType_LSL => true | _ => negb (imm5 =? 0) end
  | Bx link _ => negb link
  | LoadStoreImm _ w _ _ _ => match w with W16 => false | _ => true end
  | Push l | Pop l => negb (bit l 8)
  | Ldm rn l => negb (bit l rn)
  | LdrLit _ _ | LoadStoreReg _ _ _ _ _ | LoadSigned _ _ _ _ | Adr _ _ | AddSp _ _ | AdjustSp _ _
  | Extend _ _ _ _ | Reverse _ _ _ | Cps _ | Hint _ => false
  | _ => true
  end.

(** * The parts of the text in the source *)

(** The ninth register of PUSH and POP, as the disassembler writes it. *)
Definition extra_register (l : Z) (name : string) : string :=
  if bit l 8 then (if l mod 0x100 =? 0 then "" else ",") ++ "{" ++ name ++ "}" else "".

(** What the disassembler prints, where that depends on the operands. *)
Definition printout (pc : Z) (ins : instr) : option string :=
  let r := register in
  match ins with
  | ShiftImm ty rd rm imm5 => Some (operands3 (shift_name ty) (r rd) (r rm) (imm imm5))
  | Bx _ rm => Some ("bx " ++ r rm)
  | LoadStoreImm load w rt rn imm5 =>
      Some (operands2 (load_name load ++ match w with W8 => "b" | _ => "" end) (r rt)
              (address2 (r rn) (imm (match w with W8 => imm5 | _ => 4 * imm5 end))))
  | Push l => Some ("push " ++ register_list l ++ extra_register l "lr")
  | Pop l => Some ("pop " ++ register_list l ++ extra_register l "pc")
  | Ldm rn l => Some (operands2 "ldm" (r rn ++ "!") (register_list l))
  | _ => if printed ins then text pc ins else None
  end.

Import ThumbDisassembler.

Lemma fmt_reg_register r : 0 <= r < 16 -> fmt_reg r = register r.
Proof.
  intros Hr. assert (r = 0 \/ r = 1 \/ r = 2 \/ r = 3 \/ r = 4 \/ r = 5 \/ r = 6 \/ r = 7 \/ r = 8 \/
    r = 9 \/ r = 10 \/ r = 11 \/ r = 12 \/ r = 13 \/ r = 14 \/ r = 15) as Hcase by lia.
  repeat destruct Hcase as [->|Hcase]; [..|subst r]; reflexivity.
Qed.

Lemma reglist_loop_join (p : Z -> bool) rlist l s :
  (forall i, i ∈ l -> in_rlist rlist i = p i /\ 0 <= i < 16) ->
  reglist_loop rlist l false s =
  (s ++ fold_right (fun i t => "," ++ register i ++ t) "" (filter (fun i => p i = true) l))%string.
Proof.
  revert s. induction l as [|i l IH]; intros s Hp; [by rewrite append_nil_r|].
  destruct (Hp i) as [Hi Hr]; [apply list_elem_of_here|].
  assert (forall j, j ∈ l -> in_rlist rlist j = p j /\ 0 <= j < 16) as Hl
    by (intros; apply Hp; by apply list_elem_of_further).
  simpl reglist_loop. rewrite Hi, filter_cons. destruct (decide (p i = true)) as [E|E].
  - rewrite E, IH by done. simpl. rewrite fmt_reg_register by done. by rewrite !append_assoc.
  - apply not_true_is_false in E. rewrite E. by apply IH.
Qed.

Lemma join_cons x (l : list Z) :
  join "," (register <$> x :: l) =
  (register x ++ fold_right (fun i t => "," ++ register i ++ t) "" l)%string.
Proof.
  revert x. induction l as [|y l IH]; intros x; [by rewrite append_nil_r|].
  change (join "," (register <$> x :: y :: l)) with (register x ++ "," ++ join "," (register <$> y :: l)).
  by rewrite IH.
Qed.

Lemma reglist_loop_first (p : Z -> bool) rlist l s :
  (forall i, i ∈ l -> in_rlist rlist i = p i /\ 0 <= i < 16) ->
  reglist_loop rlist l true s = s ++ join "," (register <$> filter (fun i => p i = true) l).
Proof.
  revert s. induction l as [|i l IH]; intros s Hp; [by rewrite append_nil_r|].
  destruct (Hp i) as [Hi Hr]; [apply list_elem_of_here|].
  assert (forall j, j ∈ l -> in_rlist rlist j = p j /\ 0 <= j < 16) as Hl
    by (intros; apply Hp; by apply list_elem_of_further).
  simpl reglist_loop. rewrite Hi, filter_cons. destruct (decide (p i = true)) as [E|E].
  - rewrite E, (reglist_loop_join p), join_cons, fmt_reg_register by done. by rewrite append_assoc.
  - apply not_true_is_false in E. rewrite E. by apply IH.
Qed.

Lemma fmt_reglist_list i l : i mod 0x100 = l mod 0x100 -> fmt_reglist (u8 (i .& 0xFF)) = register_list l.
Proof.
  intros Hl. unfold fmt_reglist, register_list.
  assert (u8 (i .& 0xFF) = (i .& 0xFF)) as ->.
  { apply u8_small. pose proof (land_range i 0xFF). unfold in_u8. lia. }
  rewrite (reglist_loop_first (bit l)); [by rewrite append_assoc|].
  intros j Hj. split; [by apply in_rlist_bit|]. rewrite !elem_of_cons, elem_of_nil in Hj. lia.
Qed.

Lemma pick_dp n op : 0 <= n -> table dp_ops n = Some op ->
  pick ["and"; "eor"; "lsl"; "lsr"; "asr"; "adc"; "sbc"; "ror";
        "tst"; "neg"; "cmp"; "cmn"; "orr"; "mul"; "bic"; "mvn"] n = dp_name op.
Proof. intros Hn Hop. apply table_dp_ops in Hop as <-; [|done]. by destruct op. Qed.

Lemma cond_name_condition c : 0 <= c < 14 -> cond_name c = condition_name c.
Proof.
  intros Hc. assert (c = 0 \/ c = 1 \/ c = 2 \/ c = 3 \/ c = 4 \/ c = 5 \/ c = 6 \/ c = 7 \/ c = 8 \/
    c = 9 \/ c = 10 \/ c = 11 \/ c = 12 \/ c = 13) as Hcase by lia.
  repeat destruct Hcase as [->|Hcase]; [..|subst c]; reflexivity.
Qed.

(** The targets of the two branches. *)
Lemma branch_cond_target pc i :
  u32 (s32 pc + 4 + s8 (i .& 0xFF) .<< 1) = u32 (pc + 4 + 2 * signed 8 (i mod 0x100)).
Proof.
  rewrite signed_8, Z.shiftl_mul_pow2, <-Z.add_assoc, u32_s32_add by lia. f_equal. lia.
Qed.

Lemma branch_target pc i :
  u32 (s32 pc + 4 + s32 ((i .& 0x7FF) .<< 21) .>> 20) =
  u32 (pc + 4 + 2 * signed 11 (i mod 0x800)).
Proof.
  rewrite sign_extend_11, signed_11, Z.shiftr_div_pow2 by lia.
  replace (signed 11 (i mod 2048) * 2 ^ 21) with (signed 11 (i mod 2048) * 2 * 2 ^ 20) by lia.
  rewrite Z.div_mul, <-Z.add_assoc, u32_s32_add by lia. f_equal. lia.
Qed.

(** The remaining fields of the disassembler. *)
Lemma text_fields i :
  (i .>> 6) .& 0xF = i / 0x40 mod 16 /\ (i .>> 3) .& 0xF = i / 8 mod 16 /\
  (i .>> 8) .& 3 = i / 0x100 mod 4 /\ i .& 0x7FF = i mod 0x800 /\
  (((i .>> 7) .& 1) .<< 3) .| (i mod 8) = 8 * (i / 0x80 mod 2) + i mod 8.
Proof.
  split_and!; [apply (field_div i 6 4)|apply (field_div i 3 4)|apply (field_div i 8 2)|
               apply (land_mask i 11)|]; try lia.
  change 1 with (Z.ones 1) at 1. rewrite field_div by lia.
  rewrite lor_shiftl by (change (2 ^ 3) with 8; Z.div_mod_to_equations; lia).
  change (2 ^ 7) with 0x80; change (2 ^ 1) with 2; change (2 ^ 3) with 8. lia.
Qed.

Lemma scaled_offset x (b : bool) : x .<< (if b then 0 else 2) = (if b then 1 else 4) * x.
Proof. destruct b; rewrite Z.shiftl_mul_pow2 by lia; lia. Qed.

(** Decides by arithmetic the tests on the encoding, outermost first. *)
Ltac decide_text :=
  repeat match goal with
  | |- (if ?b then _ else _) = _ =>
      first [ replace b with false by (Z.div_mod_to_equations; lia)
            | replace b with true by (Z.div_mod_to_equations; lia) ]; cbv iota
  end;
  rewrite ?fmt_reg_register by (Z.div_mod_to_equations; lia);
  repeat match goal with
  | H : ?b = _ |- context [if ?b then _ else _] => rewrite H
  | |- context [if ?b then _ else _] =>
      lazymatch b with context [if _ then _ else _] => fail | _ => idtac end;
      first [ replace b with false by (Z.div_mod_to_equations; lia)
            | replace b with true by (Z.div_mod_to_equations; lia) ]; cbv iota
  end.

Lemma low_bit_mod l n i : 0 <= i < n -> bit (l mod 2 ^ n) i = bit l i.
Proof. intros Hi. rewrite !bit_testbit by lia. by rewrite Z.mod_pow2_bits_low by lia. Qed.

Lemma filter_same (p q : Z -> bool) (l : list Z) :
  (forall i, i ∈ l -> p i = q i) ->
  filter (fun i => p i = true) l = filter (fun i => q i = true) l.
Proof.
  induction l as [|i l IH]; intros Hp; [done|].
  rewrite !filter_cons, IH by (intros; apply Hp; by apply list_elem_of_further).
  rewrite (Hp i) by apply list_elem_of_here. by destruct (decide (q i = true)).
Qed.

Lemma register_list_mod l n : 8 <= n -> register_list (l mod 2 ^ n) = register_list l.
Proof.
  intros Hn. unfold register_list, low_list. do 4 f_equal.
  apply filter_same. intros i Hi. apply low_bit_mod.
  rewrite !elem_of_cons, elem_of_nil in Hi. lia.
Qed.

(** The list of PUSH and POP as the disassembler writes it. *)
Lemma list_text i name :
  register_list i ++
  (if i / 0x100 mod 2 =? 1 then (if negb (i mod 0x100 =? 0) then "," else "") ++ "{" ++ name ++ "}" else "") =
  register_list (i mod 0x200) ++ extra_register (i mod 0x200) name.
Proof.
  unfold extra_register. change 0x200 with (2 ^ 9). rewrite (register_list_mod i 9), (low_bit_mod i 9 8) by lia.
  rewrite bit_flag by lia. change (2 ^ 9) with 0x200; change (2 ^ 8) with 0x100.
  replace ((i mod 0x200) mod 0x100) with (i mod 0x100) by (Z.div_mod_to_equations; lia).
  by destruct (i / 0x100 mod 2 =? 1), (i mod 0x100 =? 0).
Qed.

Lemma imm_zero_32 : imm 0 <> imm 32.
Proof. done. Qed.

#[local] Opaque HEX register register_list extra_register.

Lemma disassemble_printout pc i ins t :
  in_u16 i -> decode i = Defined ins -> printout pc ins = Some t -> disassemble pc i = t.
Proof.
  intros Hi Hd Ht. unfold disassemble, fmt_memory_branch. cbv zeta.
  destruct (top_fields i Hi) as (-> & -> & -> & _ & -> & E3).
  destruct (operand_fields i) as (E4 & E5 & E6 & E7 & E8 & E9 & _).
  destruct (text_fields i) as (F1 & F2 & F3 & F4 & F5).
  rewrite (fmt_reglist_list i i), (branch_cond_target pc i), (branch_target pc i) by done.
  rewrite ?E3, ?E4, ?E5, ?E6, ?E7, ?E8, ?E9, ?F1, ?F2, ?F3, ?F4, ?F5. clear E3 E4 E5 E6 E7 E8 E9 F1 F2 F3 F4 F5.
  rewrite !bit_flag by lia. rewrite scaled_offset, !Z.shiftl_mul_pow2 by lia.
  rewrite (Z.shiftr_div_pow2 i 8), (Z.mul_comm (i mod 0x100)) by lia.
  change (2 ^ 2) with 4; change (2 ^ 7) with 0x80; change (2 ^ 8) with 0x100;
    change (2 ^ 9) with 0x200; change (2 ^ 10) with 0x400; change (2 ^ 11) with 0x800.
  unfold in_u16 in Hi. decode_cases i Hd.
  all: cbn [printout printed text] in Ht; try discriminate Ht;
    apply (inj Some) in Ht; subst t.
  all: decide_text.
  all: unfold operands2, operands3, address2, imm; rewrite ?append_assoc, ?append_nil_r.
  all: lazymatch goal with
  | |- context [extra_register] =>
      rewrite <-list_text; first [ replace (i / 0x100 mod 2 =? 1) with true by (Z.div_mod_to_equations; lia)
        | replace (i / 0x100 mod 2 =? 1) with false by (Z.div_mod_to_equations; lia) ]
  | |- context [cond_name] => rewrite cond_name_condition by (Z.div_mod_to_equations; lia)
  | |- context [register_list] => rewrite (register_list_mod i 8 ltac:(lia) : register_list (i mod 0x100) = _)
  | H : table _ _ = Some _ |- context [dp_name] =>
      rewrite (pick_dp _ _ (proj1 (Z.mod_pos_bound (i / 0x40) 16 ltac:(lia))) H)
  | |- _ => idtac
  end; rewrite ?append_nil_r, ?Z.mul_1_l; reflexivity.
Qed.

#[local] Transparent register_list extra_register.

(** ** Encodings whose operands are not printed *)

Lemma disassemble_not_known pc i :
  0x4800 <= i < 0x6000 \/ 0xA000 <= i < 0xB000 -> disassemble pc i = "?? 0x" ++ zeros 4 (HEX i).
Proof.
  intros Hi. unfold disassemble, fmt_memory_branch. cbv zeta.
  destruct (top_fields i) as (-> & -> & -> & _ & -> & _); [unfold in_u16; lia|].
  rewrite (Z.shiftr_div_pow2 i 8) by lia. change (2 ^ 8) with 0x100.
  by repeat match goal with |- (if ?b then _ else _) = _ =>
    replace b with false by (Z.div_mod_to_equations; lia); cbv iota end.
Qed.

(** Everything from 0xB000 to 0xBFFF is printed as PUSH or POP. *)
Lemma disassemble_stack pc i :
  0xB000 <= i < 0xC000 -> exists t, disassemble pc i = String "p" t.
Proof.
  intros Hi. unfold disassemble, fmt_memory_branch. cbv zeta.
  destruct (top_fields i) as (-> & -> & -> & _ & -> & _); [unfold in_u16; lia|].
  repeat match goal with |- context [if ?b then _ else _] =>
    first [ replace b with false by (Z.div_mod_to_equations; lia)
          | replace b with true by (Z.div_mod_to_equations; lia) ]; cbv iota end.
  destruct (bit i 11); eexists; reflexivity.
Qed.

(** * Text against print *)

Lemma append_inj (s a b : string) : (s ++ a)%string = (s ++ b)%string -> a = b.
Proof. induction s as [|x s IH]; [done|]. cbn. intros [= H]. by apply IH. Qed.

Lemma join_snoc l x :
  join "," ((register <$> l) ++ [x]) =
  (join "," (register <$> l) ++ (match l with [] => "" | _ => "," end) ++ x)%string.
Proof.
  induction l as [|y l IH]; [done|]. destruct l as [|z l]; [done|].
  change (join "," (register <$> y :: z :: l) ) with (register y ++ "," ++ join "," (register <$> z :: l)).
  change (join "," ((register <$> y :: z :: l) ++ [x])) with
    (register y ++ "," ++ join "," ((register <$> z :: l) ++ [x])).
  rewrite IH. by rewrite !append_assoc.
Qed.

(** A list with LR or PC is not printed in one pair of braces. *)
Lemma list_and_extra l name :
  bit l 8 = true -> name = "lr" \/ name = "pc" ->
  (register_list l ++ extra_register l name)%string <> register_list_and l [name].
Proof.
  intros Hb Hn E. unfold register_list, register_list_and, extra_register in E. rewrite Hb, join_snoc in E.
  rewrite !append_assoc in E. apply append_inj, append_inj in E.
  by destruct Hn as [-> | ->]; destruct (low_list l).
Qed.

Lemma printed_printout pc ins : printed ins = true -> printout pc ins = text pc ins.
Proof.
  destruct ins; intros Hp; try discriminate Hp; cbn [printout text printed] in *; try done.
  - unfold imm_shift. destruct ty; [done|by rewrite (proj1 (negb_true_iff _) Hp)..].
  - by destruct link.
  - destruct w; [rewrite (Z.mul_1_l imm5 : scale W8 * imm5 = _)|discriminate Hp|change (scale W32) with 4]; reflexivity.
  - rewrite (proj1 (negb_true_iff _) Hp). unfold extra_register, register_list_and, register_list.
    by rewrite (proj1 (negb_true_iff _) Hp), !app_nil_r, append_nil_r.
  - rewrite (proj1 (negb_true_iff _) Hp). unfold extra_register, register_list_and, register_list.
    by rewrite (proj1 (negb_true_iff _) Hp), !app_nil_r, append_nil_r.
  - by rewrite (proj1 (negb_true_iff _) Hp).
Qed.

(** What is printed otherwise is not the text. *)
Lemma printout_wrong pc ins t :
  valid ins -> printed ins = false -> printout pc ins = Some t -> text pc ins <> Some t.
Proof.
  intros Hv Hp Ht E. rewrite <-E in Ht. clear E.
  destruct ins; try discriminate Hp; cbn [printout text printed] in *; try discriminate Ht;
    try (rewrite Hp in Ht; discriminate Ht); apply (inj Some) in Ht.
  - assert (imm_shift ty imm5 = 32 /\ imm5 = 0) as [E1 E2].
    { unfold imm_shift. destruct ty; [done|..]; apply negb_false_iff in Hp as Hz; rewrite Hz; by apply Z.eqb_eq in Hz. }
    rewrite E1, E2 in Ht. unfold operands3 in Ht. do 6 apply append_inj in Ht. by apply imm_zero_32.
  - by destruct link.
  - destruct w; try discriminate Hp. by destruct load.
  - apply negb_false_iff in Hp. rewrite Hp in Ht. apply append_inj in Ht.
    apply list_and_extra in Ht; [done|done|by left].
  - apply negb_false_iff in Hp. rewrite Hp in Ht. apply append_inj in Ht.
    apply list_and_extra in Ht; [done|done|by right].
  - apply negb_false_iff in Hp. rewrite Hp in Ht. unfold operands2 in Ht. rewrite !append_assoc in Ht.
    by do 3 apply append_inj in Ht.
Qed.

(** The first letter of an instruction that is printed as PUSH, POP or unknown. *)
Lemma text_first pc ins t :
  printed ins = false -> printout pc ins = None -> text pc ins = Some t ->
  forall u, t <> String "p" u /\ t <> String "?" u.
Proof.
  intros Hp Hn Ht u. destruct ins; try discriminate Hn; try discriminate Hp; cbn [text] in Ht; injection Ht as <-.
  all: repeat match goal with b : bool |- _ => destruct b | op : rev_op |- _ => destruct op end.
  all: try (unfold hint_name; repeat case_match); by split.
Qed.

(** C16: The disassembler and the syntax of the architecture.  For every encoding of an
    instruction at any address, the disassembler prints the text of the instruction
    exactly when it is one of those that [printed] names: not LSR and ASR by 32, BLX,
    LDR from a literal, loads and stores with a register offset, LDRH and STRH, ADR,
    ADD and SUB with SP, extensions, reversals, CPS, hints, PUSH with LR, POP with the
    PC, and LDM whose base is in the list.  The halves of BL have no text. *)
Theorem disassemble_text pc i ins t :
  in_u16 i -> decode i = Defined ins -> text pc ins = Some t ->
  (disassemble pc i = t <-> printed ins = true).
Proof.
  intros Hi Hd Ht. destruct (decode_encodes i ins Hi Hd) as [Hv He].
  destruct (printed ins) eqn:Hp.
  - split; [done|]. intros _. apply (disassemble_printout pc i ins); [done|done|]. by rewrite printed_printout.
  - split; [|done]. intros E. exfalso. destruct (printout pc ins) as [t'|] eqn:Hpr.
    + rewrite (disassemble_printout pc i ins t' Hi Hd Hpr) in E. subst t'. by apply (printout_wrong pc ins t).
    + subst t.
      assert ((0x4800 <= i < 0x6000 \/ 0xA000 <= i < 0xB000) \/ 0xB000 <= i < 0xC000) as [Hr|Hr].
      { destruct ins; try discriminate Hp; try discriminate Hpr; cbn [valid encode] in *;
          unfold low, offset_code, flag in *; cbn [rev_code] in *; try destruct op; cbn [rev_code] in *;
          try destruct w; repeat case_match; try done; lia. }
      * rewrite disassemble_not_known in Ht by done. by destruct (text_first _ _ _ Hp Hpr Ht ("? 0x" ++ zeros 4 (HEX i))) as [_ []].
      * destruct (disassemble_stack pc i Hr) as [u Eu]. rewrite Eu in Ht.
        by destruct (text_first _ _ _ Hp Hpr Ht u) as [[] _].
Qed.

(** * Witnesses *)

(** A branch is printed with its target, LDRH R0, [R1, #2] is printed as a load of a word. *)
Lemma disassemble_text_witness :
  disassemble 0x100 0xD1FC = "bne 0xFC" /\ disassemble 0 0x8848 <> "ldrh r0, [r1, #2]".
Proof.
  split.
  - apply (disassemble_text 0x100 0xD1FC (BCond 1 0xFC)); [split; lia|reflexivity..].
  - intros E. apply (disassemble_text 0 0x8848 (LoadStoreImm true W16 0 1 1)) in E;
      [discriminate E|split; lia|reflexivity..].
Defined.
