(* ===== verification/What.v ===== *)
(** The texts of the exceptions of src/src/memory.h, cpu.h and loader.cpp, as
    [what()] returns them. *)
From S2P Require Export Text Cpu.

#[local] Open Scope string_scope.
#[local] Open Scope Z_scope.

(** A text read through a [const char*] ends at its first NUL. *)
Fixpoint c_str (s : string) : string :=
  match s with
  | EmptyString => ""
  | String c s => if code c =? 0 then "" else String c (c_str s)
  end.

(** Bytes as text. *)
Definition text_of (l : list Z) : string := string_of_list_ascii (char <$> l).

Definition fault_what (e : bus_fault) : string :=
  match e with BusFaultException a => "Bus fault at 0x" ++ zeros 8 (HEX a) end.
Definition undefined_what (opcode : Z) : string :=
  "Undefined instruction: 0x" ++ zeros 4 (HEX opcode).

(** What a step of the core throws. *)
Definition sim_what (e : sim_exn) : string :=
  match e with
  | BusFault e => fault_what e
  | UndefinedInstructionException opcode => undefined_what opcode
  end.

(** An empty message means that nothing was thrown. *)
Lemma sim_what_nonempty e : sim_what e <> "".
Proof. by destruct e as [[a]|op]. Qed.
