(* ===== verification/ParallelSim.v ===== *)
(** src/src/parallel_sim.h: simulations in threads of their own that share a trace
    log, a counter and a vector of results.

    A thread is cut at its accesses to what is shared: one [thread_step] is the code
    up to and including the next push on the log (which holds the lock), write of
    its slot of the results, or increment of the counter.  [pool_step] lets any
    thread that was started do one such step, main start the next thread, or the
    consumer of the log drain it. *)
From S2P Require Export What.

#[local] Open Scope string_scope.
#[local] Open Scope Z_scope.
#[local] Open Scope list_scope.

Record SimRecord : Type := mkRecord {
  rec_sim_id : Z;
  rec_label : string;
  rec_event : string;
  rec_cycles : Z;
  rec_pc : Z
}.

Record SimTask : Type := mkTask {
  id : Z;
  label : string;
  instructions : list Z;
  max_steps : Z;
  initial_sp : Z;
  checkpoint_every_10k : bool
}.

(** The wall-clock time is left out. *)
Record SimResult : Type := mkResult {
  sim_id : Z;
  res_label : string;
  cycles : Z;
  completed : bool;
  exception_msg : string;
  final_regs : list Z
}.

Definition empty_result : SimResult := mkResult 0 "" 0 false "" (replicate 16 0).
#[global] Instance SimResult_inhabited : Inhabited SimResult := populate empty_result.

Definition with_id (t : SimTask) (r : SimResult) : SimResult :=
  mkResult (id t) (label t) (cycles r) (completed r) (exception_msg r) (final_regs r).
Definition with_completed (b : bool) (r : SimResult) : SimResult :=
  mkResult (sim_id r) (res_label r) (cycles r) b (exception_msg r) (final_regs r).
Definition with_exception (e : sim_exn) (r : SimResult) : SimResult :=
  mkResult (sim_id r) (res_label r) (cycles r) (completed r) (sim_what e) (final_regs r).
Definition with_final (c : CortexM0) (r : SimResult) : SimResult :=
  mkResult (sim_id r) (res_label r) (cycles_ c) (completed r) (exception_msg r)
    ((fun i => reg c (Z.of_nat i)) <$> seq 0 16).

Definition sim_machine : Type := machine FlatMemoryBus.t.

(** * One simulation *)

(** The instructions as halfwords from address 0 on. *)
Fixpoint load_code (m : FlatMemoryBus.t) (addr : Z) (l : list Z) :
    result bus_fault unit * FlatMemoryBus.t :=
  match l with
  | [] => (Ok tt, m)
  | instr :: l =>
      match FlatMemoryBus.write16 m addr instr with
      | Ok m => load_code m (u32 (addr + 2)) l
      | Err e => (Err e, m)
      end
  end.

(** A core on its own memory with the code loaded, reset and its registers set. *)
Definition prepare (t : SimTask) : result sim_exn unit * sim_machine :=
  let '(r, m) := load_code FlatMemoryBus.clear 0 (instructions t) in
  match r with
  | Err e => (Err (BusFault e), mkMachine new_cpu m [])
  | Ok _ => (Ok tt, mkMachine (set_reg SP (initial_sp t) (set_reg LR 0 (set_reg PC 0 (reset new_cpu)))) m [])
  end.

Definition BATCH : Z := 10000.

(** Where a thread is in [run_one]; the simulated core is its own. *)
Inductive thread : Type :=
  | Begin
  | Prepare
  | Batches (s : sim_machine) (remaining : Z)
  | Checkpoint (s : sim_machine) (remaining : Z)
  | Collect (s : sim_machine)
  | Report
  | Count
  | Exited.

(** What a step does to the shared objects besides the thread's own result. *)
Inductive effect : Type :=
  | Local
  | Push (r : SimRecord)
  | Increment.

Definition thread_step (t : SimTask) (th : thread) (out : SimResult) :
    option (thread * SimResult * effect) :=
  match th with
  | Begin => Some (Prepare, out, Push (mkRecord (id t) (label t) "START" 0 0))
  | Prepare =>
      let '(r, s) := prepare t in
      match r with
      | Err e => Some (Collect s, with_exception e out, Local)
      | Ok _ =>
          if negb (checkpoint_every_10k t) then
            match run (max_steps t) s with
            | (Ok steps_done, s) => Some (Collect s, with_completed (steps_done <? max_steps t) out, Local)
            | (Err e, s) => Some (Collect s, with_exception e out, Local)
            end
          else Some (Batches s (max_steps t), out, Local)
      end
  | Batches s remaining =>
      if 0 <? remaining then
        let batch := Z.min BATCH remaining in
        match run batch s with
        | (Ok done, s) =>
            if done <? batch then Some (Collect s, with_completed true out, Local)
            else Some (Checkpoint s (remaining - done), out, Local)
        | (Err e, s) => Some (Collect s, with_exception e out, Local)
        end
      else Some (Collect s, with_completed false out, Local)
  | Checkpoint s remaining =>
      Some (Batches s remaining, out,
            Push (mkRecord (id t) (label t) "CHECKPOINT" (cycles_ (cpu s)) (reg (cpu s) PC)))
  | Collect s => Some (Report, with_final (cpu s) out, Local)
  | Report =>
      Some (Count, out,
            Push (mkRecord (id t) (label t)
                    (if (exception_msg out =? "")%string then "DONE" else "EXCEPTION")
                    (cycles out) (final_regs out !!! 15%nat)))
  | Count => Some (Exited, out, Increment)
  | Exited => None
  end.

(** * The runner *)

(** [spawned] is the loop variable of [run]; [m_log] and what was drained from it,
    oldest first. *)
Record pool : Type := mkPool {
  spawned : nat;
  threads : list thread;
  results : list SimResult;
  m_log : list SimRecord;
  drained : list SimRecord;
  m_total_run : Z
}.

Inductive move : Type :=
  | Spawn
  | Advance (i : nat)
  | Drain.

Definition apply_effect (e : effect) (p : pool) : pool :=
  match e with
  | Local => p
  | Push r => mkPool (spawned p) (threads p) (results p) (m_log p ++ [r]) (drained p) (m_total_run p)
  | Increment => mkPool (spawned p) (threads p) (results p) (m_log p) (drained p) (u64 (m_total_run p + 1))
  end.

Definition pool_step (tasks : list SimTask) (p : pool) (m : move) : option pool :=
  match m with
  | Spawn =>
      match tasks !! spawned p with
      | None => None
      | Some t =>
          Some (mkPool (S (spawned p)) (threads p ++ [Begin]) (alter (with_id t) (spawned p) (results p))
                  (m_log p) (drained p) (m_total_run p))
      end
  | Advance i =>
      match tasks !! i, threads p !! i, results p !! i with
      | Some t, Some th, Some out =>
          match thread_step t th out with
          | Some (th', out', e) =>
              Some (apply_effect e
                (mkPool (spawned p) (<[i := th']> (threads p)) (<[i := out']> (results p))
                   (m_log p) (drained p) (m_total_run p)))
          | None => None
          end
      | _, _, _ => None
      end
  | Drain =>
      Some (mkPool (spawned p) (threads p) (results p) [] (drained p ++ m_log p) (m_total_run p))
  end.

Fixpoint pool_run (tasks : list SimTask) (p : pool) (ms : list move) : option pool :=
  match ms with
  | [] => Some p
  | m :: ms => match pool_step tasks p m with
               | Some p' => pool_run tasks p' ms
               | None => None
               end
  end.

(** A [SimulationRunner] between calls of [run]: the records in its trace, which it
    may share with others, and its counter. *)
Record runner : Type := mkRunner {
  trace : list SimRecord;
  total_run : Z
}.

(** The constructor, given the log of a collector or making a new one. *)
Definition new_runner (given : option (list SimRecord)) : runner := mkRunner (default [] given) 0.

(** [run] was just called on the runner. *)
Definition start_pool (r : runner) (tasks : list SimTask) : pool :=
  mkPool 0 [] (replicate (length tasks) empty_result) (trace r) [] (total_run r).

(** The runner when [run] has returned. *)
Definition after (p : pool) : runner := mkRunner (m_log p) (m_total_run p).

Definition exited (th : thread) : bool := match th with Exited => true | _ => false end.

(** All threads were started and have ended: the destructors of the jthreads return
    and [run] returns the results. *)
Definition joined (tasks : list SimTask) (p : pool) : bool :=
  (spawned p =? length tasks)%nat && forallb exited (threads p).
