(* ===== verification/ParallelSimProps.v ===== *)
(** The parallel runner: what one simulation does on its own, and that every
    interleaving of the threads gives exactly that. *)
From Stdlib Require Import ZifyBool.
From Stdlib Require Import Strings.String.
From S2P Require Export CpuRun ParallelSim.

(** * One simulation *)

Definition records_of (e : effect) : list SimRecord := match e with Push r => [r] | _ => [] end.

Definition batches_of (n : Z) : nat := Z.to_nat ((n + (BATCH - 1)) / BATCH).

(** The steps a thread has left are fewer than this. *)
Definition left_steps (t : SimTask) (th : thread) : nat :=
  match th with
  | Begin => 2 * batches_of (max_steps t) + 6
  | Prepare => 2 * batches_of (max_steps t) + 5
  | Batches _ r => 2 * batches_of r + 4
  | Checkpoint _ r => 2 * batches_of r + 5
  | Collect _ => 3
  | Report => 2
  | Count => 1
  | Exited => 0
  end.

Lemma run_bound {M} `{IMemoryBus M} max (s s' : machine M) n :
  0 <= max -> run max s = (Ok n, s') -> 0 <= n <= max.
Proof.
  intros Hm Hr. unfold run in Hr. destruct (halted_ (cpu s)) eqn:Hh.
  - destruct (Z.to_nat max); cbn in Hr; [injection Hr as <- <-; lia|].
    unfold bind in Hr. rewrite step_halted in Hr by done. injection Hr as <- <-. lia.
  - apply run_loop_counts in Hr as [Hr _]; [lia|done].
Qed.

Lemma batches_of_next r : 0 < r -> batches_of r = S (batches_of (r - Z.min BATCH r)).
Proof.
  unfold batches_of, BATCH. intros Hr.
  assert ((r + (10000 - 1)) / 10000 = 1 + (r - Z.min 10000 r + (10000 - 1)) / 10000) as ->.
  { destruct (Z.min_spec 10000 r) as [[_ ->]|[Hle ->]].
    - replace (r + (10000 - 1)) with (r - 10000 + (10000 - 1) + 1 * 10000) by lia.
      rewrite Z.div_add by lia. lia.
    - rewrite Z.sub_diag. symmetry. change ((0 + (10000 - 1)) / 10000) with 0.
      apply (Z.div_unique _ _ _ (r - 1)); lia. }
  rewrite Z2Nat.inj_add; [lia|lia|]. apply Z.div_pos; lia.
Qed.

Lemma thread_step_left t th out th' out' e :
  thread_step t th out = Some (th', out', e) -> (left_steps t th' < left_steps t th)%nat.
Proof.
  destruct th as [| |s r|s r|s| | |]; cbn [thread_step]; intros Hs; simplify_eq/=; try lia.
  - destruct (prepare t) as [[[]|x] s]; simplify_eq/=; [|lia].
    destruct (checkpoint_every_10k t); cbn [negb] in Hs; simplify_eq/=; [lia|].
    destruct (run (max_steps t) s) as [[n|x] s']; simplify_eq/=; lia.
  - destruct (Z.ltb_spec 0 r) as [Hr|Hr]; [|simplify_eq/=; lia].
    destruct (run (Z.min BATCH r) s) as [[n|x] s'] eqn:E; simplify_eq/=; [|lia].
    apply run_bound in E; [|unfold BATCH in *; lia].
    destruct (Z.ltb_spec n (Z.min BATCH r)); simplify_eq/=; [lia|].
    replace n with (Z.min BATCH r) by lia. rewrite (batches_of_next r) by done. lia.
Qed.

Lemma thread_step_exited t th out : thread_step t th out = None <-> th = Exited.
Proof.
  split; [|by intros ->]. destruct th as [| |s r|s r|s| | |]; cbn [thread_step]; try done.
  - destruct (prepare t) as [[[]|x] s]; [|done]. destruct (negb _); [|done].
    by destruct (run (max_steps t) s) as [[n|x] s'].
  - destruct (0 <? r); [|done]. destruct (run _ s) as [[n|x] s']; [|done]. by destruct (n <? _).
Qed.

(** The records and the result that a thread still comes to. *)
Fixpoint finish (fuel : nat) (t : SimTask) (th : thread) (out : SimResult) : list SimRecord * SimResult :=
  match fuel with
  | O => ([], out)
  | S fuel =>
      match thread_step t th out with
      | None => ([], out)
      | Some (th', out', e) =>
          let '(l, o) := finish fuel t th' out' in (records_of e ++ l, o)
      end
  end.

Definition ending (t : SimTask) (th : thread) (out : SimResult) : list SimRecord * SimResult :=
  finish (left_steps t th) t th out.

(** [run_one] on its own. *)
Definition run_one (t : SimTask) : list SimRecord * SimResult :=
  ending t Begin (with_id t empty_result).

Lemma finish_fuel f1 f2 t th out :
  (left_steps t th <= f1)%nat -> (left_steps t th <= f2)%nat -> finish f1 t th out = finish f2 t th out.
Proof.
  revert f2 th out. induction f1 as [|f1 IH]; intros f2 th out H1 H2; destruct f2 as [|f2]; cbn [finish].
  - done.
  - destruct (thread_step t th out) as [[[th' out'] e]|] eqn:E; [|done]. apply thread_step_left in E. lia.
  - destruct (thread_step t th out) as [[[th' out'] e]|] eqn:E; [|done]. apply thread_step_left in E. lia.
  - destruct (thread_step t th out) as [[[th' out'] e]|] eqn:E; [|done]. apply thread_step_left in E.
    by rewrite (IH f2 th' out') by lia.
Qed.

Lemma ending_step t th out th' out' e :
  thread_step t th out = Some (th', out', e) ->
  ending t th out = (records_of e ++ fst (ending t th' out'), snd (ending t th' out')).
Proof.
  intros Hs. unfold ending at 1. pose proof (thread_step_left _ _ _ _ _ _ Hs) as Hl.
  destruct (left_steps t th) as [|n] eqn:En; [lia|]. cbn [finish]. rewrite Hs.
  rewrite (finish_fuel n (left_steps t th') t th' out') by lia. fold (ending t th' out').
  by destruct (ending t th' out').
Qed.

Lemma ending_exited t out : ending t Exited out = ([], out).
Proof. done. Qed.

(** * Interleavings *)

(** All records pushed so far, in order. *)
Definition pushed (p : pool) : list SimRecord := drained p ++ m_log p.

(** The records that thread [i] pushed, when [owners] says who pushed which. *)
Definition of_owner (i : nat) (owners : list nat) (l : list SimRecord) : list SimRecord :=
  (filter (fun x => x.1 = i) (zip owners l)).*2.

Lemma of_owner_snoc i owners l o r :
  length owners = length l ->
  of_owner i (owners ++ [o]) (l ++ [r]) = of_owner i owners l ++ (if decide (o = i) then [r] else []).
Proof.
  intros Hl. unfold of_owner. rewrite zip_with_app by done. rewrite filter_app, fmap_app. f_equal.
  cbn [zip_with]. rewrite filter_cons. cbn [fst]. by case_decide.
Qed.

Lemma of_owner_absent i owners l : i ∉ owners -> of_owner i owners l = [].
Proof.
  intros Hi. unfold of_owner. revert l. induction owners as [|o owners IH]; intros [|r l]; try done.
  cbn [zip_with]. rewrite filter_cons. cbn [fst].
  rewrite decide_False by (intros ->; apply Hi; by left). apply IH. intros Hin. apply Hi. by right.
Qed.

Definition count_exited (l : list thread) : nat := length (filter (fun th => exited th = true) l).

(** Thread [i] has pushed and will push, in all, what [run_one] pushes, and will
    leave the result of [run_one]. *)
Definition on_track (tasks : list SimTask) (p : pool) (owners : list nat) : Prop :=
  forall i t th out, tasks !! i = Some t -> threads p !! i = Some th -> results p !! i = Some out ->
    of_owner i owners (pushed p) ++ fst (ending t th out) = fst (run_one t) /\
    snd (ending t th out) = snd (run_one t).

Record pool_inv (tasks : list SimTask) (p : pool) (owners : list nat) : Prop := {
  inv_threads : length (threads p) = spawned p;
  inv_spawned : (spawned p <= length tasks)%nat;
  inv_results : length (results p) = length tasks;
  inv_idle : forall i, (spawned p <= i < length tasks)%nat -> results p !! i = Some empty_result;
  inv_total : m_total_run p = u64 (Z.of_nat (count_exited (threads p)));
  inv_owners : length owners = length (pushed p);
  inv_started : Forall (fun o => (o < spawned p)%nat) owners;
  inv_track : on_track tasks p owners
}.

Lemma start_pool_inv tasks : pool_inv tasks (start_pool (new_runner None) tasks) [].
Proof.
  split; cbn; try done; try lia.
  - by rewrite length_replicate.
  - intros i [_ Hi]. by apply lookup_replicate_2.
Qed.

Lemma started_absent (owners : list nat) n : Forall (fun o => (o < n)%nat) owners -> n ∉ owners.
Proof. intros Hf Hin. rewrite Forall_forall in Hf. specialize (Hf n Hin). lia. Qed.

Lemma spawn_inv tasks p owners t :
  pool_inv tasks p owners -> tasks !! spawned p = Some t ->
  pool_inv tasks
    (mkPool (S (spawned p)) (threads p ++ [Begin]) (alter (with_id t) (spawned p) (results p))
       (m_log p) (drained p) (m_total_run p)) owners.
Proof.
  intros [H1 H2 H3 H4 H5 H6 H7 H8] Ht. pose proof (lookup_lt_Some _ _ _ Ht) as Hlt.
  split; cbn [threads spawned results m_total_run]; try done.
  - rewrite length_app, H1. cbn. lia.
  - by rewrite length_alter.
  - intros i Hi. rewrite list_lookup_alter_ne by lia. apply H4. lia.
  - unfold count_exited in *. by rewrite filter_app, length_app, Nat.add_0_r.
  - eapply Forall_impl; [exact H7|]. cbn. lia.
  - intros i t' th out Ht' Hth Hout. cbn [threads results] in Hth, Hout.
    change (pushed _) with (pushed p). destruct (decide (i = spawned p)) as [->|Hne].
    + rewrite lookup_app_r in Hth by lia. rewrite H1, Nat.sub_diag in Hth. injection Hth as <-.
      rewrite list_lookup_alter_eq, (H4 (spawned p)) in Hout by lia. injection Hout as <-.
      rewrite Ht in Ht'. injection Ht' as <-.
      rewrite of_owner_absent by (by apply started_absent). done.
    + rewrite list_lookup_alter_ne in Hout by done.
      apply lookup_app_Some in Hth as [Hth|[Hle Hth]]; [by apply H8|].
      apply list_lookup_singleton_Some in Hth as [Hi _]. lia.
Qed.

Lemma count_exited_insert (l : list thread) i th th' :
  l !! i = Some th -> exited th = false ->
  count_exited (<[i := th']> l) = (count_exited l + if exited th' then 1 else 0)%nat.
Proof.
  unfold count_exited. revert i. induction l as [|x l IH]; intros [|i] Hi He; cbn in Hi; try done.
  - injection Hi as ->. cbn [list_insert insert]. rewrite !filter_cons, He.
    repeat case_decide; destruct (exited th'); try done; cbn [length]; lia.
  - change (<[S i := th']> (x :: l)) with (x :: <[i := th']> l). rewrite !filter_cons. specialize (IH i Hi He).
    case_decide; cbn [length]; lia.
Qed.

Lemma step_exits t th out th' out' e :
  thread_step t th out = Some (th', out', e) -> exited th' = match e with Increment => true | _ => false end.
Proof.
  destruct th as [| |s r|s r|s| | |]; cbn [thread_step]; intros Hs; simplify_eq/=; try done.
  - destruct (prepare t) as [[[]|x] s]; [|by simplify_eq/=].
    destruct (negb _); [|by simplify_eq/=]. by destruct (run (max_steps t) s) as [[n|x] s']; simplify_eq/=.
  - destruct (0 <? r); [|by simplify_eq/=]. destruct (run _ s) as [[n|x] s']; [|by simplify_eq/=].
    by destruct (n <? _); simplify_eq/=.
Qed.

(** Who owns the records after thread [i] has had the effect [e]. *)
Definition owners_after (i : nat) (e : effect) (owners : list nat) : list nat :=
  match e with Push _ => owners ++ [i] | _ => owners end.

Lemma advance_inv tasks p owners i t th out th' out' e :
  pool_inv tasks p owners -> tasks !! i = Some t -> threads p !! i = Some th -> results p !! i = Some out ->
  thread_step t th out = Some (th', out', e) ->
  pool_inv tasks
    (apply_effect e (mkPool (spawned p) (<[i := th']> (threads p)) (<[i := out']> (results p))
       (m_log p) (drained p) (m_total_run p))) (owners_after i e owners).
Proof.
  intros [H1 H2 H3 H4 H5 H6 H7 H8] Ht Hth Hout Hs.
  set (q := mkPool _ _ _ _ _ _). set (p' := apply_effect e q).
  pose proof (lookup_lt_Some _ _ _ Hth) as Hi.
  assert (spawned p' = spawned p /\ threads p' = <[i := th']> (threads p) /\
          results p' = <[i := out']> (results p) /\ pushed p' = pushed p ++ records_of e) as (E1 & E2 & E3 & E4).
  { unfold p'. destruct e; cbn; unfold pushed; cbn; rewrite ?app_nil_r, ?app_assoc; done. }
  split; rewrite ?E1, ?E2, ?E3, ?length_insert; try done.
  - intros j Hj. rewrite list_lookup_insert_ne by lia. by apply H4.
  - rewrite (count_exited_insert _ i th th' Hth).
    + rewrite (step_exits _ _ _ _ _ _ Hs). unfold p'. destruct e; cbn; rewrite H5, ?Nat.add_0_r; [done|done|].
      rewrite u64_add_l. f_equal. lia.
    + destruct (exited th) eqn:Ex; [|done]. by destruct th.
  - rewrite E4, length_app. unfold owners_after. destruct e; cbn; rewrite ?length_app; cbn; lia.
  - unfold owners_after. destruct e; [done| |done]. apply Forall_app. split; [done|].
    constructor; [lia|constructor].
  - intros j tj thj outj Htj Hthj Houtj. rewrite E2 in Hthj. rewrite E3 in Houtj. rewrite E4.
    assert (of_owner j (owners_after i e owners) (pushed p ++ records_of e) =
      of_owner j owners (pushed p) ++ (if decide (i = j) then records_of e else [])) as ->.
    { unfold owners_after. destruct e; cbn [records_of]; rewrite ?app_nil_r; try (by case_decide; rewrite app_nil_r).
      by apply of_owner_snoc. }
    destruct (decide (i = j)) as [<-|Hne].
    + pose proof (lookup_lt_Some _ _ _ Hout) as Hi'.
      rewrite list_lookup_insert_eq in Hthj by done. rewrite list_lookup_insert_eq in Houtj by done. simplify_eq.
      destruct (H8 _ _ _ _ Ht Hth Hout) as [G1 G2].
      rewrite (ending_step _ _ _ _ _ _ Hs) in G1, G2. cbn [fst snd] in G1, G2. by rewrite <-app_assoc.
    + rewrite list_lookup_insert_ne in Hthj by done. rewrite list_lookup_insert_ne in Houtj by done.
      rewrite app_nil_r. by apply H8.
Qed.

Lemma pool_step_inv tasks p m p' owners :
  pool_inv tasks p owners -> pool_step tasks p m = Some p' -> exists owners', pool_inv tasks p' owners'.
Proof.
  intros Hi Hs. destruct m as [|i|]; cbn [pool_step] in Hs.
  - destruct (tasks !! spawned p) as [t|] eqn:Ht; [|done]. injection Hs as <-.
    exists owners. by apply spawn_inv.
  - destruct (tasks !! i) as [t|] eqn:Ht; [|done]. destruct (threads p !! i) as [th|] eqn:Hth; [|done].
    destruct (results p !! i) as [out|] eqn:Hout; [|done].
    destruct (thread_step t th out) as [[[th' out'] e]|] eqn:He; [|done]. injection Hs as <-.
    eexists. by eapply advance_inv.
  - injection Hs as <-. exists owners. destruct Hi as [H1 H2 H3 H4 H5 H6 H7 H8].
    split; try done; unfold on_track, pushed in *; cbn [drained m_log]; by rewrite app_nil_r.
Qed.

Lemma pool_run_inv tasks p ms p' owners :
  pool_inv tasks p owners -> pool_run tasks p ms = Some p' -> exists owners', pool_inv tasks p' owners'.
Proof.
  revert p owners. induction ms as [|m ms IH]; intros p owners Hi Hr; cbn [pool_run] in Hr.
  - injection Hr as <-. eauto.
  - destruct (pool_step tasks p m) as [p1|] eqn:Hs; [|done].
    destruct (pool_step_inv _ _ _ _ _ Hi Hs) as [owners1 Hi1]. by apply (IH p1 owners1).
Qed.

(** ** A runner that was used before

    What is in the log and on the counter already makes no difference to a run: with
    it, the run goes on in step with one on a new runner. *)

Definition runner_wf (r : runner) : Prop := 0 <= total_run r < 2 ^ 64.

Record in_step (r : runner) (p q : pool) : Prop := {
  step_spawned : spawned q = spawned p;
  step_threads : threads q = threads p;
  step_results : results q = results p;
  step_pushed : pushed q = trace r ++ pushed p;
  step_total : m_total_run q = u64 (total_run r + m_total_run p)
}.

Lemma start_in_step r tasks :
  runner_wf r -> in_step r (start_pool (new_runner None) tasks) (start_pool r tasks).
Proof.
  intros Hr. split; try done; unfold pushed; cbn; [by rewrite app_nil_r|].
  unfold u64. rewrite Z.add_0_r, Z.mod_small; [done|exact Hr].
Qed.

Lemma effect_in_step r e p q : in_step r p q -> in_step r (apply_effect e p) (apply_effect e q).
Proof.
  intros [H1 H2 H3 H4 H5]. destruct e; split; try done; unfold pushed in *; cbn in *.
  - by rewrite !app_assoc, H4, app_assoc.
  - rewrite H5, u64_add_l. symmetry. rewrite Z.add_comm, u64_add_l. f_equal. lia.
Qed.

Lemma pool_step_in_step r tasks p q m :
  in_step r p q ->
  match pool_step tasks p m with
  | Some p' => exists q', pool_step tasks q m = Some q' /\ in_step r p' q'
  | None => pool_step tasks q m = None
  end.
Proof.
  intros Hi. pose proof Hi as [H1 H2 H3 H4 H5]. destruct m as [|i|]; cbn [pool_step].
  - rewrite H1. destruct (tasks !! spawned p) as [t|]; [|done]. eexists. split; [done|].
    split; unfold pushed in *; cbn in *; congruence.
  - rewrite H2, H3. destruct (tasks !! i) as [t|]; [|done]. destruct (threads p !! i) as [th|]; [|done].
    destruct (results p !! i) as [out|]; [|done]. destruct (thread_step t th out) as [[[th' out'] e]|]; [|done].
    eexists. split; [done|]. apply effect_in_step. split; unfold pushed in *; cbn in *; congruence.
  - eexists. split; [done|]. split; unfold pushed in *; cbn in *; rewrite ?app_nil_r; congruence.
Qed.

Lemma pool_run_in_step r tasks ms p q q' :
  in_step r p q -> pool_run tasks q ms = Some q' ->
  exists p', pool_run tasks p ms = Some p' /\ in_step r p' q'.
Proof.
  revert p q. induction ms as [|m ms IH]; intros p q Hi Hr; cbn [pool_run] in *.
  - injection Hr as <-. eauto.
  - pose proof (pool_step_in_step r tasks p q m Hi) as Hs. destruct (pool_step tasks p m) as [p1|].
    + destruct Hs as (q1 & E & Hi1). rewrite E in Hr. by apply (IH p1 q1).
    + by rewrite Hs in Hr.
Qed.

Lemma joined_in_step r tasks p q : in_step r p q -> joined tasks q = joined tasks p.
Proof. intros [H1 H2 _ _ _]. unfold joined. by rewrite H1, H2. Qed.

(** * Termination *)

(** The steps left to the threads, started or not, and to the loop that starts them. *)
Definition task_bound (t : SimTask) : nat := S (left_steps t Begin).
Definition pool_left (tasks : list SimTask) (p : pool) : nat :=
  sum_list (zip_with left_steps tasks (threads p)) + sum_list_with task_bound (drop (spawned p) tasks).

Definition productive (m : move) : bool := match m with Drain => false | _ => true end.

Lemma sum_left_insert tasks (l : list thread) i t th th' :
  tasks !! i = Some t -> l !! i = Some th -> (left_steps t th' < left_steps t th)%nat ->
  (sum_list (zip_with left_steps tasks (<[i := th']> l)) < sum_list (zip_with left_steps tasks l))%nat.
Proof.
  intros Ht Hth Hlt. rewrite <-(list_insert_id tasks i t Ht) at 1. rewrite <-insert_zip_with.
  set (z := zip_with left_steps tasks l).
  assert (z !! i = Some (left_steps t th)) as Hz by (apply lookup_zip_with_Some; eauto).
  rewrite <-(take_drop_middle z i _ Hz) at 2. rewrite insert_take_drop by (by eapply lookup_lt_Some).
  rewrite !sum_list_with_app. cbn. lia.
Qed.

Lemma pool_step_left tasks p m p' owners :
  pool_inv tasks p owners -> pool_step tasks p m = Some p' ->
  (pool_left tasks p' + (if productive m then 1 else 0) <= pool_left tasks p)%nat.
Proof.
  intros Hi Hs. unfold pool_left. destruct m as [|i|]; cbn [pool_step productive] in *.
  - destruct (tasks !! spawned p) as [t|] eqn:Ht; [|done]. injection Hs as <-. cbn [threads spawned].
    destruct Hi as [H1 _ _ _ _ _ _ _]. rewrite (drop_S _ _ _ Ht). cbn [sum_list_with].
    rewrite zip_with_app_r, zip_with_take_l, H1, (drop_S _ _ _ Ht), sum_list_with_app.
    cbn [zip_with]. replace (zip_with left_steps (drop (S (spawned p)) tasks) []) with (@nil nat)
      by (by destruct (drop _ tasks)).
    unfold task_bound. cbn [sum_list_with]. unfold Datatypes.id. lia.
  - destruct (tasks !! i) as [t|] eqn:Ht; [|done]. destruct (threads p !! i) as [th|] eqn:Hth; [|done].
    destruct (results p !! i) as [out|] eqn:Hout; [|done].
    destruct (thread_step t th out) as [[[th' out'] e]|] eqn:He; [|done]. injection Hs as <-.
    apply thread_step_left in He as Hlt.
    pose proof (sum_left_insert tasks (threads p) i t th th' Ht Hth Hlt).
    destruct e; cbn [apply_effect threads spawned]; lia.
  - injection Hs as <-. cbn [threads spawned]. lia.
Qed.

Lemma pool_run_left tasks p ms p' owners :
  pool_inv tasks p owners -> pool_run tasks p ms = Some p' ->
  (pool_left tasks p' + length (filter (fun m => productive m = true) ms) <= pool_left tasks p)%nat.
Proof.
  revert p owners. induction ms as [|m ms IH]; intros p owners Hi Hr; cbn [pool_run] in Hr.
  - injection Hr as <-. cbn. lia.
  - destruct (pool_step tasks p m) as [p1|] eqn:Hs; [|done].
    pose proof (pool_step_left _ _ _ _ _ Hi Hs). destruct (pool_step_inv _ _ _ _ _ Hi Hs) as [owners1 Hi1].
    specialize (IH p1 owners1 Hi1 Hr). rewrite filter_cons.
    destruct (productive m); repeat case_decide; try done; cbn [length]; lia.
Qed.

Lemma pool_progress tasks p owners :
  pool_inv tasks p owners -> joined tasks p = false ->
  exists m, productive m = true /\ is_Some (pool_step tasks p m).
Proof.
  intros [H1 H2 H3 _ _ _ _ _] Hj. unfold joined in Hj.
  destruct (Nat.eqb_spec (spawned p) (length tasks)) as [E|E]; cbn [andb] in Hj.
  - apply not_true_iff_false in Hj. rewrite forallb_forall in Hj.
    assert (exists i th, threads p !! i = Some th /\ exited th = false) as (i & th & Hth & He).
    { destruct (decide (Exists (fun th => exited th = false) (threads p))) as [Hex|Hex].
      - apply Exists_exists in Hex as (th & Hin & He). apply list_elem_of_lookup in Hin as [i Hi]. eauto.
      - exfalso. apply Hj. intros th Hin. apply list_elem_of_In in Hin.
        apply not_false_iff_true. intros He. apply Hex, Exists_exists. eauto. }
    pose proof (lookup_lt_Some _ _ _ Hth) as Hi.
    destruct (lookup_lt_is_Some_2 tasks i) as [t Ht]; [lia|].
    destruct (lookup_lt_is_Some_2 (results p) i) as [out Hout]; [lia|].
    exists (Advance i). split; [done|]. cbn [pool_step]. rewrite Ht, Hth, Hout.
    destruct (thread_step t th out) as [[[th' out'] e]|] eqn:Hs; [by eexists|].
    apply thread_step_exited in Hs as ->. done.
  - destruct (lookup_lt_is_Some_2 tasks (spawned p)) as [t Ht]; [lia|].
    exists Spawn. split; [done|]. cbn [pool_step]. rewrite Ht. by eexists.
Qed.

(** * Checkpoints *)

Definition set_checkpoints (b : bool) (t : SimTask) : SimTask :=
  mkTask (id t) (label t) (instructions t) (max_steps t) (initial_sp t) b.

(** What [run_one] writes when the run is over. *)
Definition after_run (max : Z) (r : result sim_exn Z) (out : SimResult) : SimResult :=
  match r with
  | Ok n => with_completed (n <? max) out
  | Err e => with_exception e out
  end.

Lemma run_split a b (s : sim_machine) :
  0 <= a -> 0 <= b ->
  run (a + b) s =
  match run a s with
  | (Ok n, s') => if n =? a then add_steps n (run b s') else (Ok n, s')
  | (Err e, s') => (Err e, s')
  end.
Proof.
  intros Ha Hb. unfold run. rewrite Z2Nat.inj_add, run_loop_app by done.
  by rewrite !Z2Nat.id by done.
Qed.

(** The checkpoints of a run that starts at cycle [c0] with [r] steps left. *)
Definition checkpoints_from (t : SimTask) (c0 r : Z) (l : list SimRecord) : Prop :=
  forall j x, l !! j = Some x ->
    rec_sim_id x = id t /\ rec_label x = label t /\ rec_event x = "CHECKPOINT"%string /\
    u64 (rec_cycles x) = u64 (c0 + Z.min (BATCH * (Z.of_nat j + 1)) r).

Lemma checkpoints_cons t c0 r b x l c1 :
  b = Z.min BATCH r ->
  rec_sim_id x = id t -> rec_label x = label t -> rec_event x = "CHECKPOINT"%string ->
  u64 (rec_cycles x) = u64 (c0 + b) -> u64 c1 = u64 (c0 + b) ->
  checkpoints_from t c1 (r - b) l -> checkpoints_from t c0 r (x :: l).
Proof.
  intros -> H1 H2 H3 H4 Hc Hl [|j] y Hy; cbn in Hy.
  - injection Hy as <-. split_and!; done.
  - destruct (Hl j y Hy) as (? & ? & ? & E). split_and!; try done. rewrite E.
    rewrite <-u64_add_l, Hc, u64_add_l. unfold u64. destruct (Z.le_gt_cases r BATCH).
    + rewrite (Z.min_r BATCH r) by done. f_equal. unfold BATCH in *. lia.
    + rewrite (Z.min_l BATCH r) by lia. f_equal. unfold BATCH in *. lia.
Qed.

(** A batch that ends the loop, and one that does not. *)
Lemma batch_stops t (s s1 : sim_machine) r out res :
  0 < r -> run (Z.min BATCH r) s = (res, s1) ->
  match res with Ok n => n < Z.min BATCH r | Err _ => True end ->
  ending t (Batches s r) out = ending t (Collect s1) (after_run r res out).
Proof.
  intros Hr E Hn.
  rewrite (ending_step t (Batches s r) out (Collect s1) (after_run r res out) Local); [by destruct (ending _ _ _)|].
  cbn [thread_step]. rewrite (proj2 (Z.ltb_lt _ _)) by done. rewrite E. destruct res as [n|e]; [|done].
  rewrite (proj2 (Z.ltb_lt _ _)) by done. cbn [after_run]. by rewrite (proj2 (Z.ltb_lt _ _)) by lia.
Qed.

Lemma batch_continues t (s s1 : sim_machine) r out :
  0 < r -> run (Z.min BATCH r) s = (Ok (Z.min BATCH r), s1) ->
  ending t (Batches s r) out =
  (mkRecord (id t) (label t) "CHECKPOINT" (cycles_ (cpu s1)) (reg (cpu s1) PC) ::
     fst (ending t (Batches s1 (r - Z.min BATCH r)) out),
   snd (ending t (Batches s1 (r - Z.min BATCH r)) out)).
Proof.
  intros Hr E.
  rewrite (ending_step t (Batches s r) out (Checkpoint s1 (r - Z.min BATCH r)) out Local).
  - by rewrite (ending_step t (Checkpoint s1 (r - Z.min BATCH r)) out _ _ _ eq_refl).
  - cbn [thread_step]. rewrite (proj2 (Z.ltb_lt _ _)) by done. rewrite E.
    by rewrite (proj2 (Z.ltb_ge _ _)) by lia.
Qed.

Lemma batches_ending t k : forall (s : sim_machine) r out,
  batches_of r = k -> 0 <= r -> halted_ (cpu s) = false ->
  let '(res, s') := run r s in
  snd (ending t (Batches s r) out) = snd (ending t (Collect s') (after_run r res out)) /\
  exists cps, fst (ending t (Batches s r) out) = cps ++ fst (ending t (Collect s') (after_run r res out)) /\
    checkpoints_from t (cycles_ (cpu s)) r cps.
Proof.
  assert (forall c r, checkpoints_from t c r []) as Hnil by (by intros c r j x).
  induction k as [|k IH]; intros s r out Hk Hr Hh.
  - assert (r = 0) as ->.
    { destruct (Z.le_gt_cases r 0) as [|Hp]; [lia|]. rewrite (batches_of_next r Hp) in Hk. lia. }
    unfold run. cbn [Z.to_nat run_loop]. unfold ret.
    rewrite (ending_step t (Batches s 0) out (Collect s) (with_completed false out) Local) by done.
    split; [done|]. exists []. split; [|apply Hnil]. done.
  - assert (0 < r) as Hp.
    { destruct (Z.le_gt_cases r 0) as [|]; [|done]. assert (r = 0) as -> by lia. by cbn in Hk. }
    pose proof (batches_of_next r Hp) as Hnext. rewrite Hk in Hnext. injection Hnext as Hnext.
    pose proof (batch_stops t s) as Hstop. pose proof (batch_continues t s) as Hgo.
    set (b := Z.min BATCH r) in *. assert (0 < b <= r) as Hb by (unfold b, BATCH; lia).
    pose proof (run_split b (r - b) s ltac:(lia) ltac:(lia)) as Hsp.
    replace (b + (r - b)) with r in Hsp by lia.
    destruct (run b s) as [[n|e] s1] eqn:E1; rewrite Hsp; [|rewrite (Hstop s1 r out (Err e)) by done; eauto].
    pose proof (run_bound b s s1 n ltac:(lia) E1) as Hn.
    destruct (Z.eqb_spec n b) as [->|Hne]; [|rewrite (Hstop s1 r out (Ok n)) by (try done; lia); eauto].
    pose proof (run_loop_halted _ _ _ _ E1) as [_ Hh1]. specialize (Hh1 Hh ltac:(lia)).
    pose proof (run_loop_counts _ _ _ _ Hh E1) as (_ & Hcyc & _).
    rewrite Hh1 in Hcyc. unfold b2z in Hcyc. rewrite Z.add_0_r in Hcyc.
    specialize (IH s1 (r - b) out (eq_sym Hnext) ltac:(lia) Hh1). rewrite (Hgo s1 r out Hp E1). fold b.
    destruct (run (r - b) s1) as [res s'] eqn:E2. destruct IH as (IH1 & cps & IH2 & IH3).
    assert (exists res2, add_steps b (res, s') = (res2, s') /\
              after_run (r - b) res out = after_run r res2 out) as (res2 & -> & Ha).
    { destruct res as [n|e]; cbn [add_steps]; eexists; split; [done| |done|done].
      cbn [after_run]. f_equal. lia. }
    cbn [fst snd]. rewrite <-Ha. split; [done|]. eexists (_ :: cps).
    split; [by rewrite IH2|]. by apply (checkpoints_cons t _ r b _ _ (cycles_ (cpu s1))).
Qed.

Lemma run_one_prepare t :
  run_one t = (mkRecord (id t) (label t) "START" 0 0 :: fst (ending t Prepare (with_id t empty_result)),
               snd (ending t Prepare (with_id t empty_result))).
Proof. unfold run_one. by rewrite (ending_step t Begin _ Prepare (with_id t empty_result) _ eq_refl). Qed.

Lemma filter_whole {A} (f : A -> bool) (l : list A) :
  (forall x, In x l -> f x = true) -> filter (fun x => f x = true) l = l.
Proof.
  induction l as [|x l IH]; intros Hl; [done|].
  rewrite filter_cons_True by (apply Hl; by left). f_equal. apply IH. intros y Hy. apply Hl. by right.
Qed.

(** * Properties *)

Lemma new_runner_results tasks ms p :
  pool_run tasks (start_pool (new_runner None) tasks) ms = Some p -> joined tasks p = true ->
  results p = (fun t => snd (run_one t)) <$> tasks /\
  m_total_run p = u64 (Z.of_nat (length tasks)) /\
  exists owners, length owners = length (pushed p) /\
    forall i t, tasks !! i = Some t -> of_owner i owners (pushed p) = fst (run_one t).
Proof.
  intros Hr Hj. destruct (pool_run_inv _ _ _ _ _ (start_pool_inv tasks) Hr) as [owners Hi].
  destruct Hi as [H1 H2 H3 H4 H5 H6 H7 H8]. apply andb_true_iff in Hj as [Hs%Nat.eqb_eq Hx].
  rewrite forallb_forall in Hx.
  assert (forall i t, tasks !! i = Some t -> exists out, results p !! i = Some out /\
            of_owner i owners (pushed p) = fst (run_one t) /\ out = snd (run_one t)) as Hall.
  { intros i t Ht. pose proof (lookup_lt_Some _ _ _ Ht) as Hi.
    destruct (lookup_lt_is_Some_2 (threads p) i) as [th Hth]; [lia|].
    destruct (lookup_lt_is_Some_2 (results p) i) as [out Hout]; [lia|].
    assert (exited th = true) as He by (eapply Hx, list_elem_of_In, list_elem_of_lookup_2, Hth).
    destruct (H8 i t th out Ht Hth Hout) as [G1 G2]. destruct th; try done.
    rewrite ending_exited, app_nil_r in G1. exists out. by rewrite ending_exited in G2. }
  split; [|split].
  - apply list_eq. intros i. rewrite list_lookup_fmap. destruct (tasks !! i) as [t|] eqn:Ht.
    + destruct (Hall i t Ht) as (out & -> & _ & ->). done.
    + apply lookup_ge_None in Ht. apply lookup_ge_None. lia.
  - rewrite H5, <-Hs, <-H1. do 2 f_equal. unfold count_exited.
    rewrite filter_whole by done. done.
  - exists owners. split; [done|]. intros i t Ht. by destruct (Hall i t Ht) as (_ & _ & ? & _).
Qed.

(** C3: Every interleaving of the threads of [run] gives what the simulations give on
    their own, on a new runner and on one that was used before: the results in the
    order of the tasks, the counter raised by their number, and the log extended by
    an interleaving of the records each simulation pushes.  The runner is then fit
    for the next call. *)
Theorem parallel_results r tasks ms p :
  runner_wf r -> pool_run tasks (start_pool r tasks) ms = Some p -> joined tasks p = true ->
  results p = (fun t => snd (run_one t)) <$> tasks /\
  total_run (after p) = u64 (total_run r + Z.of_nat (length tasks)) /\ runner_wf (after p) /\
  exists l owners, pushed p = trace r ++ l /\ length owners = length l /\
    forall i t, tasks !! i = Some t -> of_owner i owners l = fst (run_one t).
Proof.
  intros Hw Hr Hj. destruct (pool_run_in_step r tasks ms _ _ _ (start_in_step r tasks Hw) Hr) as (p0 & H0 & Hi).
  rewrite (joined_in_step r tasks p0 p Hi) in Hj. destruct (new_runner_results tasks ms p0 H0 Hj) as (R1 & R2 & owners & R3).
  destruct Hi as [_ _ E3 E4 E5]. split; [by rewrite E3|]. split; [|split; [|eauto]].
  - cbn [after total_run]. rewrite E5, R2. rewrite Z.add_comm, u64_add_l. f_equal. lia.
  - unfold runner_wf. cbn [after total_run]. rewrite E5. unfold u64. apply Z.mod_pos_bound. lia.
Qed.

(** C21: Termination of the parallel runner.  However the threads are interleaved,
    the number of steps of main and the threads together is bounded by a number that
    depends on the tasks alone, and as long as not all threads have ended one of
    them, or main, can go on: the runner neither deadlocks nor runs for ever. *)
Theorem parallel_terminates r tasks ms p :
  runner_wf r -> pool_run tasks (start_pool r tasks) ms = Some p ->
  (length (filter (fun m => productive m = true) ms) <= sum_list_with task_bound tasks)%nat /\
  (joined tasks p = false -> exists m, productive m = true /\ is_Some (pool_step tasks p m)).
Proof.
  intros Hw Hr. destruct (pool_run_in_step r tasks ms _ _ _ (start_in_step r tasks Hw) Hr) as (p0 & H0 & Hs).
  destruct (pool_run_inv _ _ _ _ _ (start_pool_inv tasks) H0) as [owners Hi].
  pose proof (pool_run_left _ _ _ _ _ (start_pool_inv tasks) H0) as Hl. split.
  - unfold pool_left at 2 in Hl. cbn [threads spawned start_pool] in Hl. rewrite drop_0 in Hl.
    replace (zip_with left_steps tasks []) with (@nil nat) in Hl by (by destruct tasks). cbn in Hl. lia.
  - rewrite (joined_in_step r tasks p0 p Hs). intros Hj.
    destruct (pool_progress _ _ owners Hi Hj) as (m & Hm & [p1 E]). exists m. split; [done|].
    pose proof (pool_step_in_step r tasks p0 p m Hs) as Hq. rewrite E in Hq. destruct Hq as (q1 & -> & _). by eexists.
Qed.

(** C22: Checkpoints change nothing.  With checkpoints a simulation comes to the same
    result (cycles, registers, completed, exception) as without, and pushes the same
    records with checkpoints inserted after the first: the j-th after
    10000 * (j + 1) steps, or after the last step allowed. *)
Theorem checkpoints_transparent t :
  0 <= max_steps t ->
  snd (run_one (set_checkpoints true t)) = snd (run_one (set_checkpoints false t)) /\
  exists first last cps,
    fst (run_one (set_checkpoints false t)) = [first; last] /\
    fst (run_one (set_checkpoints true t)) = first :: cps ++ [last] /\
    checkpoints_from t 0 (max_steps t) cps.
Proof.
  intros Hm. rewrite !run_one_prepare. cbn [fst snd].
  set (out := with_id t empty_result).
  change (with_id (set_checkpoints _ t) empty_result) with out.
  destruct (prepare t) as [[[]|e] s] eqn:Hp.
  - assert (halted_ (cpu s) = false /\ cycles_ (cpu s) = 0) as [Hh Hc].
    { unfold prepare in Hp. destruct (load_code _ _ _) as [[[]|] m]; [|done]. by injection Hp as <-. }
    pose proof (batches_ending (set_checkpoints true t) _ s (max_steps t) out eq_refl Hm Hh) as Hb.
    rewrite (ending_step (set_checkpoints true t) Prepare out (Batches s (max_steps t)) out Local)
      by (cbn [thread_step]; change (prepare (set_checkpoints true t)) with (prepare t); by rewrite Hp).
    destruct (run (max_steps t) s) as [res s'] eqn:Er.
    rewrite (ending_step (set_checkpoints false t) Prepare out (Collect s') (after_run (max_steps t) res out) Local)
      by (cbn [thread_step]; change (prepare (set_checkpoints false t)) with (prepare t); rewrite Hp; cbn;
          rewrite Er; by destruct res).
    destruct Hb as (H1 & cps & H2 & H3). rewrite H1, H2. cbn [fst snd records_of app].
    split; [done|]. eexists _, _, cps. split; [done|]. split; [done|]. by rewrite <-Hc.
  - assert (forall b, thread_step (set_checkpoints b t) Prepare out = Some (Collect s, with_exception e out, Local)) as He.
    { intros b. cbn [thread_step]. change (prepare (set_checkpoints b t)) with (prepare t). by rewrite Hp. }
    rewrite !(ending_step _ _ _ _ _ _ (He _)). split; [done|]. eexists _, _, []. split; [done|].
    split; [done|]. by intros j x.
Qed.

(** * Witnesses *)

(** Two threads of one BX LR each; the second is started and ends first. *)
Definition bx_task (n : Z) : SimTask := mkTask n "bx" [0x4770] 5 0x8000 false.
Definition bx_tasks : list SimTask := [bx_task 7; bx_task 8].
(** The runner has run three simulations before and one record was not drained. *)
Definition bx_runner : runner := mkRunner [mkRecord 6 "bx" "DONE" 1 0] 3.
Definition bx_moves : list move :=
  [Spawn; Spawn] ++ replicate 5 (Advance 1) ++ [Drain] ++ replicate 5 (Advance 0).

Lemma bx_runner_wf : runner_wf bx_runner.
Proof. split; [discriminate|reflexivity]. Qed.

Lemma parallel_results_witness :
  exists p, pool_run bx_tasks (start_pool bx_runner bx_tasks) bx_moves = Some p /\
    joined bx_tasks p = true /\ results p = (fun t => snd (run_one t)) <$> bx_tasks.
Proof.
  assert (match pool_run bx_tasks (start_pool bx_runner bx_tasks) bx_moves with
          | Some p => joined bx_tasks p = true | None => False end) as Hj by (vm_compute; reflexivity).
  destruct (pool_run bx_tasks (start_pool bx_runner bx_tasks) bx_moves) as [p|] eqn:E; [|destruct Hj].
  exists p. split; [reflexivity|]. split; [exact Hj|].
  exact (proj1 (parallel_results bx_runner bx_tasks bx_moves p bx_runner_wf E Hj)).
Defined.

Lemma parallel_terminates_witness :
  exists p, pool_run bx_tasks (start_pool bx_runner bx_tasks) [Spawn; Advance 0] = Some p /\
    exists m, productive m = true /\ is_Some (pool_step bx_tasks p m).
Proof.
  assert (match pool_run bx_tasks (start_pool bx_runner bx_tasks) [Spawn; Advance 0] with
          | Some p => joined bx_tasks p = false | None => False end) as Hj by (vm_compute; reflexivity).
  destruct (pool_run bx_tasks (start_pool bx_runner bx_tasks) [Spawn; Advance 0]) as [p|] eqn:E; [|destruct Hj].
  exists p. split; [reflexivity|].
  exact (proj2 (parallel_terminates bx_runner bx_tasks [Spawn; Advance 0] p bx_runner_wf E) Hj).
Defined.

Lemma checkpoints_transparent_witness :
  snd (run_one (set_checkpoints true (bx_task 7))) = snd (run_one (set_checkpoints false (bx_task 7))).
Proof. exact (proj1 (checkpoints_transparent (bx_task 7) ltac:(discriminate))). Defined.
