(* ===== verification/Loader.v ===== *)
(** src/src/loader.h, loader.cpp: raw binaries and Intel HEX files into memory.

    Text is a list of character codes.  A file that is opened is given by its
    contents, [None] for one that cannot be opened. *)
From S2P Require Export Memory.

(** What a call can throw: a [LoaderError] with its cause, a bus fault of
    [IMemoryBus::load]; and [OutOfBounds], no exception but a read past the
    terminator of a line, which the code does on some malformed lines and C++
    leaves undefined. *)
Inductive loader_exn : Type :=
  | CannotOpen
  | EmptyBinary
  | InvalidHexByte (c0 c1 : Z)
  | ChecksumError (line : list Z)
  | ShortRecord (line : list Z)
  | UnknownRecordType (rec_type : Z)
  | LoadFault (e : bus_fault)
  | OutOfBounds.

Module Loader.

(** [line.c_str()[i]]. *)
Definition char_at (line : list Z) (i : nat) : result loader_exn Z :=
  if (i <? length line)%nat then Ok (line !!! i)
  else if (i =? length line)%nat then Ok 0
  else Err OutOfBounds.

(** A digit of [std::from_chars] in base 16. *)
Definition hex_digit (c : Z) : option Z :=
  if (48 <=? c) && (c <=? 57) then Some (c - 48)
  else if (97 <=? c) && (c <=? 102) then Some (c - 87)
  else if (65 <=? c) && (c <=? 70) then Some (c - 55)
  else None.

(** [std::from_chars] over at most two characters: the longest run of digits,
    which must not be empty. *)
Definition parse_hex_byte (line : list Z) (i : nat) : result loader_exn Z :=
  (c0 <- char_at line i;;
   match hex_digit c0 with
   | None => c1 <- char_at line (i + 1);; Err (InvalidHexByte c0 c1)
   | Some d0 =>
       c1 <- char_at line (i + 1);;
       match hex_digit c1 with
       | None => Ok d0
       | Some d1 => Ok (d0 * 16 + d1)
       end
   end)%result.

(** The loop of [verify_checksum] from character [i], [n] times. *)
Fixpoint checksum_loop (line : list Z) (i n : nat) (sum : Z) : result loader_exn Z :=
  match n with
  | O => Ok sum
  | S n => (b <- parse_hex_byte line i;; checksum_loop line (i + 2) n (u8 (sum + b)))%result
  end.

Definition verify_checksum (line : list Z) : result loader_exn unit :=
  let count := ((length line - 1) / 2)%nat in
  (sum <- checksum_loop line 1 count 0;;
   if sum =? 0 then Ok tt else Err (ChecksumError line))%result.

(** [n] bytes from character [i] on. *)
Fixpoint parse_bytes (line : list Z) (i n : nat) : result loader_exn (list Z) :=
  match n with
  | O => Ok []
  | S n =>
      (b <- parse_hex_byte line i;;
       bs <- parse_bytes line (i + 2) n;; Ok (b :: bs))%result
  end.

Section Load.
Context {M : Type} `{IMemoryBus M}.

Definition load_binary (mem : M) (file : option (list Z)) (load_addr : Z) :
    result loader_exn Z * M :=
  match file with
  | None => (Err CannotOpen, mem)
  | Some buf =>
      if (length buf =? 0)%nat then (Err EmptyBinary, mem)
      else match bus_load mem load_addr buf with
           | Ok mem => (Ok load_addr, mem)
           | Err e => (Err (LoadFault e), mem)
           end
  end.

(** [std::getline] until it fails: the text between newlines; after the last
    newline only if there is some. *)
Fixpoint getlines (cur : list Z) (text : list Z) : list (list Z) :=
  match text with
  | [] => if (length cur =? 0)%nat then [] else [cur]
  | c :: text => if c =? 10 then cur :: getlines [] text else getlines (cur ++ [c]) text
  end.

(** Drops trailing CR and LF characters. *)
Fixpoint strip_rev (l : list Z) : list Z :=
  match l with
  | c :: l' => if (c =? 13) || (c =? 10) then strip_rev l' else l
  | [] => []
  end.
Definition strip (line : list Z) : list Z := rev (strip_rev (rev line)).

(** What one iteration of the loop does: go on with [base_addr], [entry_point]
    and the memory, return, or throw. *)
Inductive outcome : Type :=
  | Next (base_addr entry_point : Z) (mem : M)
  | Return (entry_point : Z)
  | Throw (e : loader_exn).

Definition or_throw {A} (r : result loader_exn A) (k : A -> outcome) : outcome :=
  match r with Ok a => k a | Err e => Throw e end.

Definition load_record (base_addr entry_point : Z) (mem : M) (line : list Z) : outcome :=
  or_throw (verify_checksum line) (fun _ =>
  or_throw (parse_hex_byte line 1) (fun byte_count =>
  or_throw (parse_hex_byte line 3) (fun addr_hi =>
  or_throw (parse_hex_byte line 5) (fun addr_lo =>
  let offset := u16 ((addr_hi .<< 8) .| addr_lo) in
  or_throw (parse_hex_byte line 7) (fun rec_type =>
  if rec_type =? 0x00 then
    or_throw (parse_bytes line 9 (Z.to_nat byte_count)) (fun data =>
    match bus_load mem (u32 (base_addr + offset)) data with
    | Ok mem => Next base_addr entry_point mem
    | Err e => Throw (LoadFault e)
    end)
  else if rec_type =? 0x01 then Return entry_point
  else if rec_type =? 0x02 then
    or_throw (parse_hex_byte line 9) (fun hi =>
    or_throw (parse_hex_byte line 11) (fun lo =>
    Next (u32 (u32 ((hi .<< 8) .| lo) .<< 4)) entry_point mem))
  else if rec_type =? 0x04 then
    or_throw (parse_hex_byte line 9) (fun hi =>
    or_throw (parse_hex_byte line 11) (fun lo =>
    Next (u32 (u32 ((hi .<< 8) .| lo) .<< 16)) entry_point mem))
  else if rec_type =? 0x05 then
    or_throw (parse_bytes line 9 4) (fun bs =>
    Next base_addr (foldl (fun e b => u32 (e .<< 8) .| b) entry_point bs) mem)
  else Throw (UnknownRecordType rec_type)))))).

Definition load_line (base_addr entry_point : Z) (mem : M) (line : list Z) : outcome :=
  if (length line =? 0)%nat || negb (line !!! 0%nat =? 58) then Next base_addr entry_point mem
  else if (length line <? 11)%nat then Throw (ShortRecord line)
  else load_record base_addr entry_point mem (strip line).

Fixpoint load_lines (base_addr entry_point : Z) (mem : M) (lines : list (list Z)) :
    result loader_exn Z * M :=
  match lines with
  | [] => (Ok entry_point, mem)
  | line :: lines =>
      match load_line base_addr entry_point mem line with
      | Next b e m => load_lines b e m lines
      | Return e => (Ok e, mem)
      | Throw x => (Err x, mem)
      end
  end.

Definition load_ihex (mem : M) (file : option (list Z)) : result loader_exn Z * M :=
  match file with
  | None => (Err CannotOpen, mem)
  | Some text => load_lines 0 0 mem (getlines [] text)
  end.

End Load.
Arguments outcome M : clear implicits.
End Loader.
