(* ===== verification/LoaderProps.v ===== *)
(** Intel HEX: an encoder for the format's records, what a sequence of records
    means for the memory, and that the loader does exactly that. *)
From Stdlib Require Import ZifyBool.
From S2P Require Export Loader.

Import Loader.

(** * The format *)

Inductive hex_record : Type :=
  | RData (offset : Z) (payload : list Z)
  | REof
  | RSegment (v : Z)
  | RLinear (v : Z)
  | RStart (v : Z).

Definition record_wf (r : hex_record) : Prop :=
  match r with
  | RData off l => in_u16 off /\ is_bytes l /\ (length l <= 255)%nat
  | REof => True
  | RSegment v | RLinear v => in_u16 v
  | RStart v => in_u32 v
  end.

(** Count, address, type and payload. *)
Definition record_bytes (r : hex_record) : list Z :=
  match r with
  | RData off l => [Z.of_nat (length l); off / 256; off mod 256; 0x00] ++ l
  | REof => [0; 0; 0; 0x01]
  | RSegment v => [2; 0; 0; 0x02; v / 256; v mod 256]
  | RLinear v => [2; 0; 0; 0x04; v / 256; v mod 256]
  | RStart v => [4; 0; 0; 0x05; v / 2 ^ 24; v / 2 ^ 16 mod 256; v / 256 mod 256; v mod 256]
  end.

Definition sum (l : list Z) : Z := foldr Z.add 0 l.

(** All bytes of a record sum to zero modulo 256. *)
Definition record_line (r : hex_record) : list Z :=
  record_bytes r ++ [(- sum (record_bytes r)) mod 256].

Definition hex_char (d : Z) : Z := if d <? 10 then 48 + d else 55 + d.
Definition hex_byte (b : Z) : list Z := [hex_char (b / 16); hex_char (b mod 16)].

(** A colon and two upper-case digits a byte. *)
Definition line_text (bs : list Z) : list Z := 58 :: concat (hex_byte <$> bs).

(** The text of a file, with LF or CR LF line ends. *)
Definition eol_text (crlf : bool) : list Z := if crlf then [13; 10] else [10].
Definition file_text (crlf : bool) (rs : list hex_record) : list Z :=
  concat ((fun r => line_text (record_line r) ++ eol_text crlf) <$> rs).

(** * What records mean *)

Section Meaning.
Context {M : Type} `{IMemoryBus M}.

(** One record: data is stored at the base plus its offset, the address records
    set the base, the start record the entry point. *)
Definition record_outcome (base entry : Z) (m : M) (r : hex_record) : outcome M :=
  match r with
  | RData off l =>
      match bus_load m (u32 (base + off)) l with
      | Ok m' => Next base entry m'
      | Err e => Throw (LoadFault e)
      end
  | REof => Return entry
  | RSegment v => Next (16 * v) entry m
  | RLinear v => Next (65536 * v) entry m
  | RStart v => Next base v m
  end.

(** Records in order, then what [k] says; the first end of file or fault ends
    it, with the memory as the records before left it. *)
Fixpoint run_records (base entry : Z) (m : M) (rs : list hex_record)
    (k : Z -> Z -> M -> result loader_exn Z * M) : result loader_exn Z * M :=
  match rs with
  | [] => k base entry m
  | r :: rs =>
      match record_outcome base entry m r with
      | Next b e m => run_records b e m rs k
      | Return e => (Ok e, m)
      | Throw x => (Err x, m)
      end
  end.

End Meaning.

(** * Parsing encoded bytes *)

Lemma hex_digit_char d : 0 <= d < 16 -> hex_digit (hex_char d) = Some d.
Proof.
  intros Hd. unfold hex_char, hex_digit. destruct (Z.ltb_spec d 10).
  - rewrite (proj2 (Z.leb_le 48 _)), (proj2 (Z.leb_le _ 57)) by lia. cbn [andb]. f_equal. lia.
  - rewrite (proj2 (Z.leb_gt _ 57)) by lia. rewrite andb_false_r.
    rewrite (proj2 (Z.leb_gt 97 _)) by lia. cbn [andb].
    rewrite (proj2 (Z.leb_le 65 _)), (proj2 (Z.leb_le _ 70)) by lia. cbn [andb]. f_equal. lia.
Qed.

Lemma hex_digit_range c d : hex_digit c = Some d -> 0 <= d < 16.
Proof.
  unfold hex_digit. intros E. repeat case_match; try done; injection E as <-; reflect_bools; lia.
Qed.

Lemma length_line_text bs : length (line_text bs) = (1 + 2 * length bs)%nat.
Proof.
  unfold line_text. cbn [length]. f_equal. induction bs as [|b bs IH]; [done|]. cbn. lia.
Qed.

Lemma line_text_app bs1 bs2 :
  line_text (bs1 ++ bs2) = line_text bs1 ++ concat (hex_byte <$> bs2).
Proof. unfold line_text. by rewrite fmap_app, concat_app. Qed.

Lemma parse_line bs k b :
  is_bytes bs -> bs !! k = Some b -> parse_hex_byte (line_text bs) (1 + 2 * k) = Ok b.
Proof.
  intros Hb Hk. assert (in_u8 b) as Hin by (by apply (Forall_lookup_1 _ _ _ _ Hb Hk)).
  pose proof (lookup_lt_Some _ _ _ Hk) as Hlt.
  apply list_elem_of_split_length in Hk as (l1 & l2 & -> & Hl).
  assert (line_text (l1 ++ b :: l2) =
          line_text l1 ++ hex_char (b / 16) :: hex_char (b mod 16) :: concat (hex_byte <$> l2))
    as -> by (by rewrite line_text_app).
  assert (1 + 2 * k = length (line_text l1))%nat as -> by (rewrite length_line_text; lia).
  unfold parse_hex_byte, char_at. set (p := line_text l1).
  set (rest := concat (hex_byte <$> l2)).
  rewrite (proj2 (Nat.ltb_lt (length p) _)) by (rewrite length_app; simpl; lia).
  rewrite (list_lookup_total_middle p _ _ _ eq_refl). cbn [result_bind].
  rewrite hex_digit_char by (unfold in_u8 in Hin; word_lia).
  rewrite (proj2 (Nat.ltb_lt (length p + 1) _)) by (rewrite length_app; simpl; lia).
  rewrite (cons_middle (hex_char (b / 16)) p), app_assoc.
  rewrite (list_lookup_total_middle (p ++ [_])) by (rewrite length_app; simpl; lia).
  cbn [result_bind]. rewrite hex_digit_char by (unfold in_u8 in Hin; word_lia).
  f_equal. Z.div_mod_to_equations. lia.
Qed.

Lemma checksum_loop_sum bs k n acc :
  is_bytes bs -> (k + n = length bs)%nat -> in_u8 acc ->
  checksum_loop (line_text bs) (1 + 2 * k) n acc = Ok (u8 (acc + sum (drop k bs))).
Proof.
  intros Hb. revert k acc. induction n as [|n IH]; intros k acc Hk Hacc.
  - rewrite drop_ge by lia. cbn. rewrite Z.add_0_r. by rewrite u8_small.
  - destruct (lookup_lt_is_Some_2 bs k) as [b Hbk]; [lia|].
    cbn [checksum_loop]. rewrite (parse_line bs k b) by done. cbn [result_bind].
    replace (1 + 2 * k + 2)%nat with (1 + 2 * S k)%nat by lia.
    rewrite IH by (lia || apply u8_range). rewrite (drop_S _ _ _ Hbk). cbn [sum foldr].
    f_equal. unfold sum. word_lia.
Qed.

(** The checksum test accepts exactly the lines whose bytes sum to zero. *)
Lemma verify_line bs :
  is_bytes bs ->
  verify_checksum (line_text bs) =
  if sum bs mod 256 =? 0 then Ok tt else Err (ChecksumError (line_text bs)).
Proof.
  intros Hb. unfold verify_checksum. rewrite length_line_text.
  assert ((1 + 2 * length bs - 1) / 2 = length bs)%nat as ->.
  { replace (1 + 2 * length bs - 1)%nat with (length bs * 2)%nat by lia. apply Nat.div_mul. lia. }
  change 1%nat with (1 + 2 * 0)%nat at 1. rewrite checksum_loop_sum by (done || lia). done.
Qed.

Lemma parse_bytes_line bs k n :
  is_bytes bs -> (k + n <= length bs)%nat ->
  parse_bytes (line_text bs) (1 + 2 * k) n = Ok (slice k n bs).
Proof.
  intros Hb. revert k. induction n as [|n IH]; intros k Hk; [done|].
  destruct (lookup_lt_is_Some_2 bs k) as [b Hbk]; [lia|].
  cbn [parse_bytes]. rewrite (parse_line bs k b) by done. cbn [result_bind].
  replace (1 + 2 * k + 2)%nat with (1 + 2 * S k)%nat by lia.
  rewrite IH by lia. cbn [result_bind]. unfold slice. by rewrite (drop_S _ _ _ Hbk).
Qed.

(** * Lines of a file *)

Lemma hex_char_plain d : 0 <= d < 16 -> 48 <= hex_char d <= 70.
Proof. intros Hd. unfold hex_char. destruct (Z.ltb_spec d 10); lia. Qed.

(** No line end occurs inside a line. *)
Lemma line_text_plain bs : is_bytes bs -> Forall (fun c => 48 <= c <= 70) (line_text bs).
Proof.
  intros Hb. constructor; [lia|]. induction Hb as [|b bs Hb _ IH]; [constructor|].
  cbn. unfold in_u8 in Hb. constructor; [apply hex_char_plain; word_lia|].
  constructor; [apply hex_char_plain; word_lia|done].
Qed.

Lemma getlines_line cur l text :
  Forall (fun c => c <> 10) l -> getlines cur (l ++ 10 :: text) = (cur ++ l) :: getlines [] text.
Proof.
  intros Hl. revert cur. induction Hl as [|c l Hc Hl IH]; intros cur; cbn [getlines app].
  - by rewrite app_nil_r.
  - rewrite (proj2 (Z.eqb_neq _ _) Hc), IH. by rewrite <-app_assoc.
Qed.

Lemma strip_plain l eol :
  Forall (fun c => 48 <= c <= 70) l -> l <> [] -> eol = [] \/ eol = [13] -> strip (l ++ eol) = l.
Proof.
  intros Hl Hne Heol. unfold strip. destruct l as [|z l' _] using rev_ind; [done|].
  assert (48 <= z <= 70) as Hz.
  { apply Forall_app in Hl as [_ Hz]. by inversion_clear Hz. }
  assert (strip_rev (rev (l' ++ [z])) = rev (l' ++ [z])) as E.
  { rewrite rev_app_distr. simpl.
    rewrite (proj2 (Z.eqb_neq z 13)), (proj2 (Z.eqb_neq z 10)) by lia. done. }
  destruct Heol as [->| ->].
  - by rewrite app_nil_r, E, rev_involutive.
  - rewrite rev_app_distr. simpl. by rewrite E, rev_involutive.
Qed.

Section Lines.
Context {M : Type} `{IMemoryBus M}.

(** A line of encoded bytes reaches the record decoder as it is. *)
Lemma load_line_text base entry (m : M) bs cr :
  is_bytes bs -> (5 <= length bs)%nat ->
  load_line base entry m (line_text bs ++ (if cr : bool then [13] else [])) =
  load_record base entry m (line_text bs).
Proof.
  intros Hb Hl. unfold load_line.
  rewrite (strip_plain _ _ (line_text_plain bs Hb)) by (done || destruct cr; auto).
  rewrite (proj2 (Nat.eqb_neq _ 0)) by (rewrite length_app, length_line_text; lia).
  rewrite (proj2 (Nat.ltb_ge _ 11)) by (rewrite length_app, length_line_text; lia). done.
Qed.

Lemma sum_app l1 l2 : sum (l1 ++ l2) = sum l1 + sum l2.
Proof. induction l1 as [|x l1 IH]; cbn; [done|]. unfold sum in *. lia. Qed.

Lemma record_line_sum r : sum (record_line r) mod 256 = 0.
Proof. unfold record_line. rewrite sum_app. cbn. word_lia. Qed.

Lemma record_bytes_wf r : record_wf r -> is_bytes (record_bytes r) /\ (4 <= length (record_bytes r))%nat.
Proof.
  intros Hr. destruct r as [off l| |v|v|v]; cbn [record_bytes record_wf] in *.
  - destruct Hr as (Ho & Hl & Hn). split; [|rewrite length_app; simpl; lia].
    apply Forall_app. split; [|done]. repeat constructor; unfold in_u16 in Ho; word_lia.
  - split; [|simpl; lia]. repeat constructor; lia.
  - split; [|simpl; lia]. repeat constructor; unfold in_u16 in Hr; word_lia.
  - split; [|simpl; lia]. repeat constructor; unfold in_u16 in Hr; word_lia.
  - split; [|simpl; lia]. repeat constructor; unfold in_u32 in Hr; word_lia.
Qed.

Lemma record_line_wf r :
  record_wf r -> is_bytes (record_line r) /\ length (record_line r) = S (length (record_bytes r)).
Proof.
  intros Hr. destruct (record_bytes_wf r Hr) as [Hb _]. unfold record_line. split.
  - apply Forall_app. split; [done|]. repeat constructor; word_lia.
  - rewrite length_app. simpl. lia.
Qed.

(** The four header bytes of a line whose checksum holds. *)
Lemma load_record_header base entry (m : M) c h l t bs :
  is_bytes (c :: h :: l :: t :: bs) -> sum (c :: h :: l :: t :: bs) mod 256 = 0 ->
  load_record base entry m (line_text (c :: h :: l :: t :: bs)) =
  let line := line_text (c :: h :: l :: t :: bs) in
  let offset := h * 256 + l in
  if t =? 0x00 then
    or_throw (parse_bytes line 9 (Z.to_nat c)) (fun data =>
    match bus_load m (u32 (base + offset)) data with
    | Ok mem => Next base entry mem
    | Err e => Throw (LoadFault e)
    end)
  else if t =? 0x01 then Return entry
  else if t =? 0x02 then
    or_throw (parse_hex_byte line 9) (fun hi =>
    or_throw (parse_hex_byte line 11) (fun lo =>
    Next (u32 (u32 ((hi .<< 8) .| lo) .<< 4)) entry m))
  else if t =? 0x04 then
    or_throw (parse_hex_byte line 9) (fun hi =>
    or_throw (parse_hex_byte line 11) (fun lo =>
    Next (u32 (u32 ((hi .<< 8) .| lo) .<< 16)) entry m))
  else if t =? 0x05 then
    or_throw (parse_bytes line 9 4) (fun bs =>
    Next base (foldl (fun e b => u32 (e .<< 8) .| b) entry bs) m)
  else Throw (UnknownRecordType t).
Proof.
  intros Hb Hs. unfold load_record. rewrite verify_line, Hs by done. cbn [Z.eqb or_throw].
  rewrite (parse_line _ 0 c Hb eq_refl : parse_hex_byte _ 1 = _). cbn [or_throw].
  rewrite (parse_line _ 1 h Hb eq_refl : parse_hex_byte _ 3 = _). cbn [or_throw].
  rewrite (parse_line _ 2 l Hb eq_refl : parse_hex_byte _ 5 = _). cbn [or_throw].
  rewrite (parse_line _ 3 t Hb eq_refl : parse_hex_byte _ 7 = _). cbn [or_throw].
  inversion_clear Hb as [|? ? _ Hb1]. inversion_clear Hb1 as [|? ? Hh Hb2].
  inversion_clear Hb2 as [|? ? Hl _].
  assert (u16 ((h .<< 8) .| l) = h * 256 + l) as ->; [|done].
  rewrite lor_shiftl by (lia || exact Hl). change (2 ^ 8) with 256.
  apply u16_small. unfold in_u8, in_u16 in *. lia.
Qed.

(** Two payload bytes are a 16-bit value again. *)
Lemma pack16 v : in_u16 v -> u32 (((v / 256) .<< 8) .| (v mod 256)) = v.
Proof.
  intros Hv. rewrite lor_shiftl by (lia || apply Z.mod_pos_bound; lia). change (2 ^ 8) with 256.
  rewrite u32_small; unfold in_u16, in_u32 in *; Z.div_mod_to_equations; lia.
Qed.

Lemma entry_bytes e v :
  in_u32 v ->
  foldl (fun e b => u32 (e .<< 8) .| b) e [v / 2 ^ 24; v / 2 ^ 16 mod 256; v / 256 mod 256; v mod 256] = v.
Proof.
  intros Hv. assert (forall x b, in_u8 b -> u32 (x .<< 8) .| b = u32 (x * 256) + b) as Hs.
  { intros x b Hb. rewrite Z.shiftl_mul_pow2 by lia. change (2 ^ 8) with 256.
    replace (u32 (x * 256)) with ((x mod 0x1000000) .<< 8).
    - rewrite lor_shiftl by (lia || exact Hb). rewrite Z.shiftl_mul_pow2 by lia. done.
    - rewrite Z.shiftl_mul_pow2 by lia. change (2 ^ 8) with 256. word_lia. }
  cbn [foldl]. unfold in_u32 in Hv.
  rewrite !Hs by (unfold in_u8; change (2 ^ 24) with 16777216; word_lia).
  change (2 ^ 24) with 16777216. change (2 ^ 16) with 65536. word_lia.
Qed.

Lemma load_record_line base entry (m : M) r :
  record_wf r ->
  load_record base entry m (line_text (record_line r)) = record_outcome base entry m r.
Proof.
  intros Hr. destruct (record_line_wf r Hr) as [Hb Hl]. pose proof (record_line_sum r) as Hs.
  destruct r as [off l| |v|v|v]; cbn [record_wf record_outcome] in *.
  - destruct Hr as (Ho & Hlb & Hn). unfold record_line, record_bytes in *.
    cbn [app] in *. rewrite load_record_header by done. cbn [Z.eqb Pos.eqb]. cbv zeta.
    change 9%nat with (1 + 2 * 4)%nat. rewrite parse_bytes_line by
      (done || simpl; rewrite length_app; lia).
    cbn [or_throw]. assert (slice 4 (Z.to_nat (Z.of_nat (length l)))
      (Z.of_nat (length l) :: off / 256 :: off mod 256 :: 0 :: l ++
        [(- sum (Z.of_nat (length l) :: off / 256 :: off mod 256 :: 0 :: l)) mod 256]) = l) as ->.
    { unfold slice. simpl. rewrite Nat2Z.id. apply take_app_length. }
    by replace (off / 256 * 256 + off mod 256) with off by (Z.div_mod_to_equations; lia).
  - unfold record_line, record_bytes in *. cbn [app] in *. by rewrite load_record_header.
  - unfold record_line, record_bytes in *. cbn [app] in *.
    rewrite load_record_header by done. cbn [Z.eqb Pos.eqb]. cbv zeta.
    rewrite (parse_line _ 4 (v / 256) Hb eq_refl : parse_hex_byte _ 9 = _). cbn [or_throw].
    rewrite (parse_line _ 5 (v mod 256) Hb eq_refl : parse_hex_byte _ 11 = _). cbn [or_throw].
    rewrite pack16 by done. rewrite Z.shiftl_mul_pow2 by lia. f_equal.
    unfold in_u16 in Hr. word_lia.
  - unfold record_line, record_bytes in *. cbn [app] in *.
    rewrite load_record_header by done. cbn [Z.eqb Pos.eqb]. cbv zeta.
    rewrite (parse_line _ 4 (v / 256) Hb eq_refl : parse_hex_byte _ 9 = _). cbn [or_throw].
    rewrite (parse_line _ 5 (v mod 256) Hb eq_refl : parse_hex_byte _ 11 = _). cbn [or_throw].
    rewrite pack16 by done. rewrite Z.shiftl_mul_pow2 by lia. f_equal.
    unfold in_u16 in Hr. word_lia.
  - unfold record_line, record_bytes in *. cbn [app] in *.
    rewrite load_record_header by done. cbn [Z.eqb Pos.eqb]. cbv zeta.
    change 9%nat with (1 + 2 * 4)%nat. rewrite parse_bytes_line by (done || simpl; lia).
    cbn [or_throw]. unfold slice. cbn [drop take]. by rewrite entry_bytes.
Qed.

Lemma getlines_file crlf r rs text :
  record_wf r ->
  getlines [] (file_text crlf (r :: rs) ++ text) =
  (line_text (record_line r) ++ (if crlf then [13] else [])) ::
  getlines [] (file_text crlf rs ++ text).
Proof.
  intros Hr. destruct (record_line_wf r Hr) as [Hb _].
  unfold file_text. cbn [fmap list_fmap concat]. rewrite <-!app_assoc.
  assert (forall t, eol_text crlf ++ t = (if crlf then [13] else []) ++ 10 :: t) as E
    by (by destruct crlf).
  rewrite E, app_assoc. rewrite getlines_line; [done|].
  apply Forall_app. split; [|destruct crlf; repeat constructor; lia].
  eapply Forall_impl; [by apply line_text_plain|]. simpl. lia.
Qed.

(** The loader on an encoded file, followed by anything. *)
Lemma load_file_text crlf rs base entry (m : M) text :
  Forall record_wf rs ->
  load_lines base entry m (getlines [] (file_text crlf rs ++ text)) =
  run_records base entry m rs (fun b e m => load_lines b e m (getlines [] text)).
Proof.
  intros Hrs. revert base entry m. induction Hrs as [|r rs Hr Hrs IH]; intros base entry m; [done|].
  rewrite getlines_file by done. cbn [load_lines run_records].
  destruct (record_line_wf r Hr) as [Hb Hl]. destruct (record_bytes_wf r Hr) as [_ Hl'].
  rewrite load_line_text, load_record_line by (done || lia).
  by destruct (record_outcome base entry m r).
Qed.

End Lines.

(** * Properties *)

(** C17: Loading is the inverse of encoding.  For every list of well-formed
    records, printed as Intel HEX with either line end, [load_ihex] performs
    exactly the records' meaning: data stored in order at base plus offset
    modulo 2^32, segment and linear bases, the entry point returned at the end
    of file or the end of the text, and the first bus fault thrown with the
    memory as it then is. *)
Theorem hex_roundtrip {M} `{IMemoryBus M} crlf rs (m : M) :
  Forall record_wf rs ->
  load_ihex m (Some (file_text crlf rs)) = run_records 0 0 m rs (fun _ e m => (Ok e, m)).
Proof.
  intros Hrs. unfold load_ihex. rewrite <-(app_nil_r (file_text crlf rs)).
  by rewrite load_file_text.
Qed.

(** C35: A corrupted byte is caught.  If one byte of an encoded record, the count
    and the checksum included, is replaced by another, loading throws the
    checksum error at that line: after the records before it, without storing
    any of the line's data and whatever text follows. *)
Theorem hex_corruption {M} `{IMemoryBus M} crlf rs r i b text (m : M) :
  Forall record_wf rs -> record_wf r -> in_u8 b ->
  (i < length (record_line r))%nat -> record_line r !! i <> Some b ->
  load_ihex m (Some (file_text crlf rs ++ line_text (<[i:=b]> (record_line r)) ++
                     eol_text crlf ++ text)) =
  run_records 0 0 m rs
    (fun _ _ m => (Err (ChecksumError (line_text (<[i:=b]> (record_line r)))), m)).
Proof.
  intros Hrs Hr Hb Hi Hne. unfold load_ihex. rewrite load_file_text by done.
  destruct (record_line_wf r Hr) as [Hbytes Hlen]. destruct (record_bytes_wf r Hr) as [_ Hl4].
  assert (is_bytes (<[i:=b]> (record_line r))) as Hbytes' by (by apply Forall_insert).
  assert (forall t, eol_text crlf ++ t = (if crlf then [13] else []) ++ 10 :: t) as Eeol
    by (by destruct crlf).
  assert (forall b0 e (m0 : M), load_record b0 e m0 (line_text (<[i:=b]> (record_line r))) =
            Throw (ChecksumError (line_text (<[i:=b]> (record_line r))))) as Hrec.
  { intros b0 e m0. unfold load_record. rewrite verify_line by done.
    pose proof (record_line_sum r) as Hs. destruct (lookup_lt_is_Some_2 _ _ Hi) as [x Hx].
    assert (x <> b) by congruence.
    assert (in_u8 x) as Hxb by (by apply (Forall_lookup_1 _ _ _ _ Hbytes Hx)).
    apply list_elem_of_split_length in Hx as (l1 & l2 & Er & ->).
    rewrite Er in Hs |- *. rewrite insert_app_r_alt by lia. rewrite Nat.sub_diag. cbn [insert list_insert].
    rewrite sum_app in Hs |- *. cbn [sum foldr] in Hs |- *. fold (sum l2) in Hs |- *.
    destruct (Z.eqb_spec ((sum l1 + (b + sum l2)) mod 256) 0) as [E|]; [|done].
    unfold in_u8 in *. exfalso. Z.div_mod_to_equations. lia. }
  assert (getlines [] (line_text (<[i:=b]> (record_line r)) ++ eol_text crlf ++ text) =
          (line_text (<[i:=b]> (record_line r)) ++ (if crlf then [13] else [])) ::
          getlines [] text) as ->.
  { rewrite Eeol, app_assoc. rewrite getlines_line; [done|].
    apply Forall_app. split; [|destruct crlf; repeat constructor; lia].
    eapply Forall_impl; [by apply line_text_plain|]. simpl. lia. }
  assert (forall base entry (m0 : M),
    load_lines base entry m0 ((line_text (<[i:=b]> (record_line r)) ++
       (if crlf then [13] else [])) :: getlines [] text) =
    (Err (ChecksumError (line_text (<[i:=b]> (record_line r)))), m0)) as E.
  { intros base entry m0. cbn [load_lines].
    rewrite load_line_text by (done || rewrite length_insert; lia). by rewrite Hrec. }
  clear -E. revert m. generalize 0 at 1 3. generalize 0.
  induction rs as [|r0 rs IH]; intros e b0 m; cbn [run_records]; [apply E|].
  destruct (record_outcome b0 e m r0); auto.
Qed.

(** * Witnesses *)

(** Two bytes into SRAM through a linear base, then the end of file. *)
Definition sram_records : list hex_record := [RLinear 0x2000; RData 0x10 [0xAB; 0xCD]; REof].

Lemma sram_records_wf : Forall record_wf sram_records.
Proof.
  constructor; [split; lia|]. constructor; [|constructor; [done|constructor]].
  split; [split; lia|]. split; [|simpl; lia]. repeat constructor; lia.
Qed.

Lemma hex_roundtrip_witness :
  load_ihex FlatMemoryBus.clear (Some (file_text true sram_records)) =
  run_records 0 0 FlatMemoryBus.clear sram_records (fun _ e m => (Ok e, m)).
Proof. exact (hex_roundtrip true sram_records FlatMemoryBus.clear sram_records_wf). Defined.

(** The data length of the second record read as 3. *)
Lemma hex_corruption_witness :
  fst (load_ihex FlatMemoryBus.clear
    (Some (file_text false [RLinear 0x2000] ++
           line_text (<[0%nat:=3]> (record_line (RData 0x10 [0xAB; 0xCD]))) ++ eol_text false ++ [])))
  = Err (ChecksumError (line_text (<[0%nat:=3]> (record_line (RData 0x10 [0xAB; 0xCD]))))).
Proof.
  pose proof sram_records_wf as Hw. inversion_clear Hw as [|? ? H1 Hw2].
  inversion_clear Hw2 as [|? ? H2 _].
  assert (in_u8 3) as Hb by (split; lia).
  assert (Forall record_wf [RLinear 0x2000]) as Hrs by (constructor; [exact H1|constructor]).
  rewrite (hex_corruption false [RLinear 0x2000] (RData 0x10 [0xAB; 0xCD]) 0 3 []
    FlatMemoryBus.clear Hrs H2 Hb).
  - reflexivity.
  - cbn. lia.
  - cbn. discriminate.
Defined.
