(* ===== verification/Cli.v ===== *)
(** src/src/main.cpp: the command line, loading and running a program, and what is
    printed.  The files are a function from paths to contents. *)
From S2P Require Export What Trace Loader.

#[local] Open Scope string_scope.
#[local] Open Scope Z_scope.

Definition DEFAULT_STEPS : Z := 100000.

Record Config : Type := mkConfig {
  binary_path : string;
  ihex_path : string;
  cfg_trace : bool;
  steps : Z;
  load_addr : Z
}.

Definition default_config : Config := mkConfig "" "" false DEFAULT_STEPS 0.

Definition with_binary (p : string) (c : Config) : Config :=
  mkConfig p (ihex_path c) (cfg_trace c) (steps c) (load_addr c).
Definition with_hex (p : string) (c : Config) : Config :=
  mkConfig (binary_path c) p (cfg_trace c) (steps c) (load_addr c).
Definition with_trace (c : Config) : Config :=
  mkConfig (binary_path c) (ihex_path c) true (steps c) (load_addr c).
Definition with_steps (n : Z) (c : Config) : Config :=
  mkConfig (binary_path c) (ihex_path c) (cfg_trace c) n (load_addr c).
Definition with_addr (a : Z) (c : Config) : Config :=
  mkConfig (binary_path c) (ihex_path c) (cfg_trace c) (steps c) a.

(** What is written, in order. *)
Inductive output : Type :=
  | Stdout (s : string)
  | Stderr (s : string).

(** How the program ends: with an exit status, by [std::terminate] on an exception
    of [std::stoul] that [main] does not catch, or in what C++ leaves undefined. *)
Inductive status : Type :=
  | Exit (code : Z)
  | Terminate (e : number_exn)
  | Undefined.

Definition EXIT_SUCCESS : Z := 0.
Definition EXIT_FAILURE : Z := 1.

Definition nl : string := Tracer.newline.

Definition print_usage (argv0 : string) : list output :=
  [Stderr ("Usage: " ++ argv0 ++ " [options]" ++ nl ++
           "  --binary <file>     Load raw binary" ++ nl ++
           "  --hex    <file>     Load Intel HEX file" ++ nl ++
           "  --addr   <hex>      Load address for binary (default: 0x0000)" ++ nl ++
           "  --trace             Print every instruction" ++ nl ++
           "  --steps  <n>        Max steps (default: 100000)" ++ nl)].

(** [printf("  %-4s = 0x%08X", name, value)], four to a line. *)
Definition register_text (c : CortexM0) (i : Z) : string :=
  "  " ++ left 4 (pick ThumbDisassembler.reg_names i) ++ " = 0x" ++ zeros 8 (HEX (reg c i)).

Definition register_row (c : CortexM0) (i : Z) : string :=
  register_text c i ++ register_text c (i + 1) ++ register_text c (i + 2) ++ register_text c (i + 3) ++ nl.

Definition dump_registers (c : CortexM0) : list output :=
  let f := apsr_ c in
  [Stdout (nl ++ "── Registers ────────────────────────────────" ++ nl ++
           register_row c 0 ++ register_row c 4 ++ register_row c 8 ++ register_row c 12 ++
           "  APSR: N=" ++ dec (b2z (flag_N f)) ++ " Z=" ++ dec (b2z (flag_Z f)) ++
           " C=" ++ dec (b2z (flag_C f)) ++ " V=" ++ dec (b2z (flag_V f)) ++ nl ++
           "  Cycles: " ++ dec (cycles_ c) ++ nl)].

(** What the loader throws, for the file that [load_firmware] loads. *)
Definition loader_what (cfg : Config) (e : loader_exn) : string :=
  let binary := negb (binary_path cfg =? "")%string in
  c_str
    match e with
    | CannotOpen =>
        if binary then "Cannot open binary: " ++ binary_path cfg
        else "Cannot open HEX file: " ++ ihex_path cfg
    | EmptyBinary => "Empty binary: " ++ binary_path cfg
    | InvalidHexByte c0 c1 => "Invalid hex byte: " ++ text_of [c0; c1]
    | ChecksumError line => "Checksum error in HEX record: " ++ text_of line
    | ShortRecord line => "Short HEX record: " ++ text_of line
    | UnknownRecordType rec_type => "Unknown HEX record type: " ++ dec rec_type
    | LoadFault e => fault_what e
    | OutOfBounds => ""
    end.

(** The two calls of the loader, and the line printed when they return. *)
Definition load_firmware (files : string -> option (list Z)) (cfg : Config) :
    result loader_exn Z * FlatMemoryBus.t :=
  if negb (binary_path cfg =? "")%string
  then Loader.load_binary FlatMemoryBus.clear (files (binary_path cfg)) (load_addr cfg)
  else Loader.load_ihex FlatMemoryBus.clear (files (ihex_path cfg)).

Definition loaded_text (cfg : Config) (entry : Z) : string :=
  if negb (binary_path cfg =? "")%string
  then "Loaded binary '" ++ binary_path cfg ++ "' at 0x" ++ zeros 4 (HEX (load_addr cfg)) ++ nl
  else "Loaded HEX '" ++ ihex_path cfg ++ "', entry=0x" ++ zeros 8 (HEX entry) ++ nl.

(** The core set up to run, with the tracer when it was asked for. *)
Definition ready_core (cfg : Config) (entry : Z) (mem : FlatMemoryBus.t) : machine FlatMemoryBus.t :=
  let c := set_reg PC (entry .& not32 1) new_cpu in
  mkMachine (if cfg_trace cfg then Tracer.attach c else c) mem [].

Definition trace_heading : string :=
  nl ++ "── Trace ─────────────────────────────────────" ++ nl.

(** What the tracer printed during the run. *)
Definition trace_text (cfg : Config) (log : list (Z * Z)) : list output :=
  if cfg_trace cfg
  then [Stdout trace_heading;
        Stdout (default "" (Tracer.trace_calls (Some "") log))]
  else [].

Definition run_simulation (files : string -> option (list Z)) (cfg : Config) : list output * status :=
  let '(loaded, mem) := load_firmware files cfg in
  match loaded with
  | Err OutOfBounds => ([], Undefined)
  | Err (LoadFault e) =>
      (Stderr (nl ++ "[FAULT] " ++ fault_what e ++ nl) :: dump_registers new_cpu, Exit EXIT_FAILURE)
  | Err e => ([Stderr (nl ++ "[ERROR] " ++ loader_what cfg e ++ nl)], Exit EXIT_FAILURE)
  | Ok entry =>
      let '(r, s) := run (steps cfg) (ready_core cfg entry mem) in
      let out := (Stdout (loaded_text cfg entry) :: trace_text cfg (trace_log s))%list in
      match r with
      | Ok executed =>
          ((out ++ [Stdout (nl ++ "Done: " ++ dec executed ++ " steps executed." ++ nl)] ++
            dump_registers (cpu s))%list, Exit EXIT_SUCCESS)
      | Err (BusFault e) =>
          ((out ++ [Stderr (nl ++ "[FAULT] " ++ fault_what e ++ nl)] ++ dump_registers (cpu s))%list,
           Exit EXIT_FAILURE)
      | Err (UndefinedInstructionException opcode) =>
          ((out ++ [Stderr (nl ++ "[SIM ERROR] " ++ undefined_what opcode ++ nl)] ++
            dump_registers (cpu s))%list, Exit EXIT_FAILURE)
      end
  end.

(** The loop over the arguments: the configuration, or how [main] ends there.
    [value] is the argument after [arg] and [args2] what follows it. *)
Fixpoint parse_args (argv0 : string) (args : list string) (cfg : Config) :
    result (list output * status) Config :=
  match args with
  | [] => Ok cfg
  | arg :: args1 =>
      let more := match args1 with [] => false | _ => true end in
      let value := match args1 with [] => "" | value :: _ => value end in
      let args2 := match args1 with [] => args1 | _ :: args2 => args2 end in
      if (arg =? "--binary")%string && more then parse_args argv0 args2 (with_binary value cfg)
      else if (arg =? "--hex")%string && more then parse_args argv0 args2 (with_hex value cfg)
      else if (arg =? "--addr")%string && more then
        match stoul 16 value with
        | Ok a => parse_args argv0 args2 (with_addr (u32 a) cfg)
        | Err e => Err ([], Terminate e)
        end
      else if (arg =? "--trace")%string then parse_args argv0 args1 (with_trace cfg)
      else if (arg =? "--steps")%string && more then
        match stoul 10 value with
        | Ok n => parse_args argv0 args2 (with_steps n cfg)
        | Err e => Err ([], Terminate e)
        end
      else if (arg =? "--help")%string then Err (print_usage argv0, Exit EXIT_SUCCESS)
      else Err ([Stderr ("Unknown option: " ++ arg ++ nl)], Exit EXIT_FAILURE)
  end.

(** [args] are [argv[1]] to [argv[argc - 1]]. *)
Definition main (files : string -> option (list Z)) (argv0 : string) (args : list string) :
    list output * status :=
  match args with
  | [] => (print_usage argv0, Exit EXIT_FAILURE)
  | _ =>
      match parse_args argv0 args default_config with
      | Err stop => stop
      | Ok cfg =>
          if (binary_path cfg =? "")%string && (ihex_path cfg =? "")%string
          then ((Stderr ("Error: provide --binary or --hex" ++ nl) :: print_usage argv0)%list, Exit EXIT_FAILURE)
          else run_simulation files cfg
      end
  end.
