(* ===== verification/CliProps.v ===== *)
(** The command line: options are read back, what makes the program fail, that
    --trace only adds the trace, and the sample program from file to printout. *)
From Stdlib Require Import ZifyBool Arith.Factorial.
From S2P Require Export TraceProps Factorial Cli.

#[local] Open Scope string_scope.
#[local] Open Scope Z_scope.
#[local] Open Scope list_scope.

(** * Options *)

(** The arguments that ask for [cfg]. *)
Definition options (cfg : Config) : list string :=
  ["--binary"; binary_path cfg; "--hex"; ihex_path cfg;
   "--addr"; ("0x" ++ HEX (load_addr cfg))%string; "--steps"; dec (steps cfg)] ++
  (if cfg_trace cfg then ["--trace"] else []).

Lemma stoul_addr a : 0 <= a < 0x10000000000000000 -> stoul 16 ("0x" ++ HEX a) = Ok a.
Proof. intros Ha. exact (stoul_0x true 0 a Ha). Qed.

Lemma stoul_steps n : 0 <= n < 0x10000000000000000 -> stoul 10 (dec n) = Ok n.
Proof. intros Hn. exact (stoul_digits false 10 0 n ltac:(lia) Hn). Qed.

Lemma parse_args_two argv0 arg v l cfg :
  parse_args argv0 (arg :: v :: l) cfg =
  if (arg =? "--binary")%string then parse_args argv0 l (with_binary v cfg)
  else if (arg =? "--hex")%string then parse_args argv0 l (with_hex v cfg)
  else if (arg =? "--addr")%string then
    match stoul 16 v with
    | Ok a => parse_args argv0 l (with_addr (u32 a) cfg)
    | Err e => Err ([], Terminate e)
    end
  else if (arg =? "--trace")%string then parse_args argv0 (v :: l) (with_trace cfg)
  else if (arg =? "--steps")%string then
    match stoul 10 v with
    | Ok n => parse_args argv0 l (with_steps n cfg)
    | Err e => Err ([], Terminate e)
    end
  else if (arg =? "--help")%string then Err (print_usage argv0, Exit EXIT_SUCCESS)
  else Err ([Stderr ("Unknown option: " ++ arg ++ nl)], Exit EXIT_FAILURE).
Proof. cbn [parse_args]. by rewrite !andb_true_r. Qed.

Lemma parse_args_one argv0 arg cfg :
  parse_args argv0 [arg] cfg =
  if (arg =? "--trace")%string then Ok (with_trace cfg)
  else if (arg =? "--help")%string then Err (print_usage argv0, Exit EXIT_SUCCESS)
  else Err ([Stderr ("Unknown option: " ++ arg ++ nl)], Exit EXIT_FAILURE).
Proof. cbn [parse_args]. by rewrite !andb_false_r. Qed.

(** Options that are read completely leave the rest of the line to be read. *)
Lemma parse_args_app argv0 pre : forall rest cfg cfg',
  parse_args argv0 pre cfg = Ok cfg' -> parse_args argv0 (pre ++ rest) cfg = parse_args argv0 rest cfg'.
Proof.
  remember (length pre) as n eqn:En. revert pre En.
  induction n as [n IH] using lt_wf_ind. intros pre -> rest cfg cfg' Hp.
  destruct pre as [|arg [|v pre]].
  - by injection Hp as ->.
  - rewrite parse_args_one in Hp. destruct (String.eqb_spec arg "--trace") as [->|Hne].
    + injection Hp as <-. by destruct rest.
    + by destruct (String.eqb arg "--help").
  - cbn [app]. rewrite parse_args_two in Hp |- *.
    repeat match goal with
    | H : context [if ?b then _ else _] |- _ => destruct b
    | H : context [match stoul ?b ?s with _ => _ end] |- _ => destruct (stoul b s)
    end; try done; try (by eapply IH; [|reflexivity|]; [cbn [length]; lia|]).
    change (v :: pre ++ rest) with ((v :: pre) ++ rest).
    by eapply IH; [|reflexivity|]; [cbn [length]; lia|].
Qed.

(** Where reading the options throws. *)
Definition bad_number (opt v : string) (e : number_exn) : Prop :=
  (opt = "--addr" /\ stoul 16 v = Err e) \/ (opt = "--steps" /\ stoul 10 v = Err e).

Lemma parse_args_throws argv0 e out args : forall cfg,
  parse_args argv0 args cfg = Err (out, Terminate e) ->
  out = [] /\ exists pre opt v rest cfg', args = pre ++ opt :: v :: rest /\
    parse_args argv0 pre cfg = Ok cfg' /\ bad_number opt v e.
Proof.
  remember (length args) as n eqn:En. revert args En.
  induction n as [n IH] using lt_wf_ind. intros args -> cfg Hp.
  assert (forall first l c, args = first ++ l -> first <> [] -> parse_args argv0 first cfg = Ok c ->
            parse_args argv0 l c = Err (out, Terminate e) ->
            out = [] /\ exists pre opt v rest cfg', args = pre ++ opt :: v :: rest /\
              parse_args argv0 pre cfg = Ok cfg' /\ bad_number opt v e) as Hnext.
  { intros first l c -> Hne Hf Hl.
    destruct (IH (length l)) with (args := l) (cfg := c) as (Ho & pre & opt & v & rest & c' & -> & Hc & Hb).
    - rewrite length_app. destruct first; [done|]. cbn [length]. lia.
    - done.
    - done.
    - split; [done|]. exists (first ++ pre), opt, v, rest, c'. split; [by rewrite app_assoc|].
      split; [|done]. by rewrite (parse_args_app _ _ _ _ c). }
  destruct args as [|arg [|v l]]; [done| |].
  { rewrite parse_args_one in Hp. repeat case_match; done. }
  rewrite parse_args_two in Hp. pose proof (parse_args_two argv0 arg v [] cfg) as Ht.
  destruct (String.eqb_spec arg "--binary"); [by eapply (Hnext [arg; v])|].
  destruct (String.eqb_spec arg "--hex"); [by eapply (Hnext [arg; v])|].
  destruct (String.eqb_spec arg "--addr") as [->|].
  { destruct (stoul 16 v) eqn:Es; [by eapply (Hnext ["--addr"; v])|]. injection Hp as <- <-.
    split; [done|]. exists [], "--addr"%string, v, l, cfg. split_and!; [done|done|]. by left. }
  destruct (String.eqb_spec arg "--trace") as [->|]; [by eapply (Hnext ["--trace"]%string)|].
  destruct (String.eqb_spec arg "--steps") as [->|].
  { destruct (stoul 10 v) eqn:Es; [by eapply (Hnext ["--steps"; v])|]. injection Hp as <- <-.
    split; [done|]. exists [], "--steps"%string, v, l, cfg. split_and!; [done|done|]. by right. }
  by destruct (String.eqb arg "--help").
Qed.

Lemma parse_args_bad argv0 pre opt v rest cfg cfg' e :
  parse_args argv0 pre cfg = Ok cfg' -> bad_number opt v e ->
  parse_args argv0 (pre ++ opt :: v :: rest) cfg = Err ([], Terminate e).
Proof.
  intros Hp Hb. rewrite (parse_args_app _ _ _ _ _ Hp), parse_args_two.
  by destruct Hb as [[-> Hs]|[-> Hs]]; rewrite Hs.
Qed.

(** * Loading *)

(** The program file in memory. *)
Lemma load_program n files path cfg :
  path <> "" -> binary_path cfg = path -> load_addr cfg = 0 -> files path = Some (program_bytes n) ->
  exists rest, load_firmware files cfg = (Ok 0, FlatMemoryBus.mk (program_bytes n ++ rest)).
Proof.
  intros Hne Hb Ha Hf. unfold load_firmware. rewrite Hb, Ha, Hf.
  destruct (String.eqb_spec path ""); [done|]. cbn [negb]. unfold Loader.load_binary.
  change (length (program_bytes n) =? 0)%nat with false. cbv iota.
  change (bus_load FlatMemoryBus.clear 0 (program_bytes n)) with
    (Ok (E := bus_fault) (FlatMemoryBus.mk (list_inserts 0 (program_bytes n) (FlatMemoryBus.data_ FlatMemoryBus.clear)))).
  rewrite list_inserts_splice; [by eexists|].
  unfold FlatMemoryBus.clear. cbn [FlatMemoryBus.data_]. rewrite length_replicate.
  change (length (program_bytes n)) with 14%nat. unfold FlatMemoryBus.SIZE, MemMap.TOTAL_SIZE. lia.
Qed.

(** * Tracing *)

Definition untraced_config (cfg : Config) : Config :=
  mkConfig (binary_path cfg) (ihex_path cfg) false (steps cfg) (load_addr cfg).

Lemma ready_untraced cfg entry mem :
  ready_core (untraced_config cfg) entry mem = untraced (ready_core (with_trace cfg) entry mem).
Proof. done. Qed.

(** A run with the tracer prints the lines of the instructions it executes. *)
Lemma traced_lines cfg entry mem r s :
  run (steps cfg) (ready_core (with_trace cfg) entry mem) = (r, s) ->
  run (steps cfg) (ready_core (untraced_config cfg) entry mem) = (r, untraced s) /\
  Tracer.trace_calls (Some "") (trace_log s) =
    Some (lines (history (Z.to_nat (steps cfg)) (ready_core (untraced_config cfg) entry mem))).
Proof.
  intros Hr. pose proof (blind_run_loop (Z.to_nat (steps cfg)) 0 (ready_core (with_trace cfg) entry mem)) as Hb.
  pose proof (run_loop_traces (Z.to_nat (steps cfg)) 0 (ready_core (with_trace cfg) entry mem) eq_refl) as Hl.
  unfold run in *. rewrite Hr in Hb, Hl. cbn [fst snd] in *. split; [exact Hb|].
  by rewrite trace_calls_lines, Hl.
Qed.

(** * Properties *)

(** C36: --trace only adds the trace.  After any options, a final --trace changes
    neither the exit status nor what else is printed: when the firmware loads, the
    heading and one line for each instruction executed stand after the first line
    of the output; otherwise nothing is added. *)
Theorem trace_option files argv0 args cfg :
  parse_args argv0 args default_config = Ok cfg -> cfg_trace cfg = false ->
  binary_path cfg <> "" \/ ihex_path cfg <> "" ->
  snd (main files argv0 (args ++ ["--trace"])) = snd (main files argv0 args) /\
  match load_firmware files cfg with
  | (Ok entry, mem) => exists first rest,
      fst (main files argv0 args) = first :: rest /\
      fst (main files argv0 (args ++ ["--trace"])) =
        first :: Stdout trace_heading ::
        Stdout (lines (history (Z.to_nat (steps cfg)) (ready_core cfg entry mem))) :: rest
  | _ => fst (main files argv0 (args ++ ["--trace"])) = fst (main files argv0 args)
  end.
Proof.
  intros Hp Ht Hpath.
  assert (cfg = untraced_config cfg) as Hcfg by (destruct cfg; cbn in *; by subst).
  assert (forall l c, (binary_path c =? "")%string && (ihex_path c =? "")%string = false ->
            parse_args argv0 l default_config = Ok c -> main files argv0 l = run_simulation files c) as Hmain.
  { intros l c Hc Hl. unfold main. destruct l; [by injection Hl as <-|]. by rewrite Hl, Hc. }
  assert ((binary_path cfg =? "")%string && (ihex_path cfg =? "")%string = false) as Hne.
  { destruct (String.eqb_spec (binary_path cfg) ""), (String.eqb_spec (ihex_path cfg) ""); by destruct Hpath. }
  rewrite (Hmain args cfg), (Hmain (args ++ ["--trace"]) (with_trace cfg)); try done;
    [|by rewrite (parse_args_app _ _ _ _ _ Hp)].
  unfold run_simulation. change (load_firmware files (with_trace cfg)) with (load_firmware files cfg).
  destruct (load_firmware files cfg) as [[entry|x] mem]; [|by destruct x].
  change (steps (with_trace cfg)) with (steps cfg).
  destruct (run (steps cfg) (ready_core (with_trace cfg) entry mem)) as [r s] eqn:Er.
  destruct (traced_lines _ _ _ _ _ Er) as [Eu El]. rewrite <-Hcfg in Eu, El. rewrite Eu.
  unfold trace_text. rewrite Ht. cbn [cfg_trace with_trace]. rewrite El.
  destruct r as [k|[e|op]]; (split; [done|]; eexists _, _; split; [done|]; done).
Qed.

(** C37: The exception of a number that cannot be read is not caught.  The program
    ends in [std::terminate], having printed and loaded nothing, exactly when the
    options before some --addr or --steps are well formed and [std::stoul] throws on
    the argument after it. *)
Theorem bad_number_terminates files argv0 args out e :
  main files argv0 args = (out, Terminate e) <->
  out = [] /\ exists pre opt v rest cfg, args = pre ++ opt :: v :: rest /\
    parse_args argv0 pre default_config = Ok cfg /\ bad_number opt v e.
Proof.
  split.
  - intros Hm. unfold main in Hm. destruct args as [|a args]; [done|].
    destruct (parse_args argv0 (a :: args) default_config) as [cfg|stop] eqn:Hp.
    + exfalso. destruct (_ && _); [done|]. unfold run_simulation in Hm.
      destruct (load_firmware files cfg) as [[entry|[]] mem]; try done.
      by destruct (run _ _) as [[k|[]] s].
    + rewrite Hm in Hp. by apply parse_args_throws in Hp.
  - intros (-> & pre & opt & v & rest & cfg & -> & Hp & Hb).
    unfold main. rewrite (parse_args_bad _ _ _ _ _ _ _ _ Hp Hb). by destruct pre.
Qed.

(** The options are read back: a configuration written as options, its numbers
    in hexadecimal and decimal, is the one the program uses, whatever was set
    before, for every 32-bit address and 64-bit number of steps. *)
Theorem options_roundtrip argv0 cfg before :
  in_u32 (load_addr cfg) -> 0 <= steps cfg < 0x10000000000000000 -> cfg_trace before = false ->
  parse_args argv0 (options cfg) before = Ok cfg.
Proof.
  intros Ha Hs Hb. pose proof (stoul_addr (load_addr cfg) ltac:(word_lia)) as Hx.
  pose proof (stoul_steps _ Hs) as Hd. pose proof (u32_small _ Ha) as Hu.
  unfold options. cbn [app]. revert Hx Hd. generalize ("0x" ++ HEX (load_addr cfg))%string, (dec (steps cfg)).
  intros x d Hx Hd. destruct cfg as [b h t n a], before as [b1 h1 t1 n1 a1]. cbn in Hx, Hd, Hu, Hb. subst t1.
  cbn [binary_path ihex_path cfg_trace].
  rewrite parse_args_two. change ("--binary" =? "--binary")%string with true. cbv iota.
  rewrite parse_args_two. change (("--hex" =? "--binary")%string) with false. cbv iota.
  change (("--hex" =? "--hex")%string) with true. cbv iota.
  rewrite parse_args_two. cbn [String.eqb Ascii.eqb Bool.eqb]. rewrite Hx, Hu.
  rewrite parse_args_two. cbn [String.eqb Ascii.eqb Bool.eqb]. rewrite Hd. by destruct t.
Qed.

(** C15: The sample program from file to printout.  For every start value from 1 to
    255 the program loads the file, runs it to its end and exits with success, having
    printed the number of steps and the registers, with the factorial in r1. *)
Theorem main_factorial files argv0 path n :
  path <> "" -> 1 <= n <= 255 -> files path = Some (program_bytes n) ->
  exists c,
    main files argv0 ["--binary"; path] =
      ([Stdout ("Loaded binary '" ++ path ++ "' at 0x0000" ++ nl);
        Stdout (nl ++ "Done: " ++ dec (4 * rounds n + 2) ++ " steps executed." ++ nl)] ++ dump_registers c,
       Exit EXIT_SUCCESS) /\
    reg c 1 = u32 (Z.of_nat (fact (Z.to_nat n))).
Proof.
  intros Hne Hn Hf. unfold main. rewrite parse_args_two. cbn [String.eqb Ascii.eqb Bool.eqb parse_args].
  set (cfg := with_binary path default_config).
  destruct (load_program n files path cfg Hne eq_refl eq_refl Hf) as [rest Hl].
  change (binary_path cfg) with path. destruct (String.eqb_spec path "") as [|_]; [done|]. cbn [andb].
  unfold run_simulation. rewrite Hl.
  destruct (run_program n _ Hn (program_loaded n rest) false (mkAPSR false false false false) [] DEFAULT_STEPS)
    as (r0 & f & log & E); [unfold rounds, DEFAULT_STEPS; lia|].
  change (ready_core cfg 0 (FlatMemoryBus.mk (program_bytes n ++ rest))) with
    (mkMachine (in_program 0 0 0 (mkAPSR false false false false) 0 false false)
       (FlatMemoryBus.mk (program_bytes n ++ rest)) []).
  change (steps cfg) with DEFAULT_STEPS. rewrite E.
  exists (in_program 0 r0 (u32 (Z.of_nat (fact (Z.to_nat n)))) f (4 * rounds n + 3) true false). split; [|reflexivity].
  unfold loaded_text. change (binary_path cfg) with path. destruct (String.eqb_spec path ""); done.
Qed.

(** * Witnesses *)

(** Five factorial: the first line of the output of --trace is the same, the exit
    status too. *)
Definition sample_files (path : string) : option (list Z) :=
  if (path =? "f.bin")%string then Some (program_bytes 5) else None.

Lemma trace_option_witness :
  snd (main sample_files "simulator" ["--binary"; "f.bin"; "--trace"]) =
  snd (main sample_files "simulator" ["--binary"; "f.bin"]).
Proof.
  refine (proj1 (trace_option sample_files "simulator" ["--binary"; "f.bin"]
                   (with_binary "f.bin" default_config) _ _ _)); [reflexivity|reflexivity|left; discriminate].
Defined.

Lemma options_roundtrip_witness :
  parse_args "simulator" ["--binary"; "f.bin"; "--hex"; ""; "--addr"; "0x1F0"; "--steps"; "250"] default_config =
  Ok (mkConfig "f.bin" "" false 250 0x1F0).
Proof.
  exact (options_roundtrip "simulator" (mkConfig "f.bin" "" false 250 0x1F0) default_config
           ltac:(split; [discriminate|reflexivity]) ltac:(split; [discriminate|reflexivity]) eq_refl).
Defined.

Lemma main_factorial_witness :
  exists c, snd (main sample_files "simulator" ["--binary"; "f.bin"]) = Exit EXIT_SUCCESS /\ reg c 1 = 120.
Proof.
  destruct (main_factorial sample_files "simulator" "f.bin" 5) as (c & H1 & H2);
    [discriminate|split; discriminate|reflexivity|].
  exists c. rewrite H1. split; [reflexivity|exact H2].
Defined.
