(* ===== verification/HexImage.v ===== *)
(** src/src/main.cpp and loader.cpp together: a program gives the same output whether
    it is loaded as a raw binary or as Intel HEX. *)
From S2P Require Export LoaderProps CliProps.

Import FlatMemoryBus Loader.

#[local] Open Scope string_scope.
#[local] Open Scope Z_scope.
#[local] Open Scope list_scope.

(** * An image as records *)

(** Consecutive data records from address [a] on. *)
Fixpoint image_records (a : Z) (chunks : list (list Z)) : list hex_record :=
  match chunks with
  | [] => []
  | c :: chunks => RData a c :: image_records (a + Z.of_nat (length c)) chunks
  end.

(** The image [concat chunks] at [a], with [a] as the start address. *)
Definition hex_image (a : Z) (chunks : list (list Z)) : list hex_record :=
  image_records a chunks ++ [RStart a; REof].

(** A data record holds 1 to 255 bytes. *)
Definition chunk_wf (c : list Z) : Prop := is_bytes c /\ (1 <= length c <= 255)%nat.

Lemma image_records_wf a chunks :
  0 <= a -> a + Z.of_nat (length (concat chunks)) <= SIZE -> Forall chunk_wf chunks ->
  Forall record_wf (image_records a chunks).
Proof.
  revert a. induction chunks as [|c chunks IH]; intros a Ha Hl Hc; [constructor|].
  apply Forall_cons in Hc as [[Hb Hn] Hc]. cbn [concat] in Hl. rewrite length_app in Hl.
  unfold SIZE, MemMap.TOTAL_SIZE in *. cbn [image_records]. constructor.
  - split; [unfold in_u16; lia|]. by split; [|lia].
  - apply IH; [lia|lia|done].
Qed.

(** * Loading it *)

Lemma load_at m a l :
  l <> [] -> 0 <= a -> a + Z.of_nat (length l) <= SIZE ->
  load m a l = Ok (mk (list_inserts (Z.to_nat a) l (data_ m))).
Proof.
  intros Hl Ha Hs. assert (0 < length l)%nat by (by destruct l; [|cbn; lia]).
  unfold load, translate, SIZE, MemMap.TOTAL_SIZE in *. rewrite (proj2 (Z.ltb_lt _ _)) by lia.
  cbn [result_bind]. unfold u64. rewrite Z.mod_small by lia. by rewrite (proj2 (Z.ltb_ge _ _)) by lia.
Qed.

Lemma list_inserts_twice {A} i (xs ys l : list A) :
  (i + length (xs ++ ys) <= length l)%nat ->
  list_inserts (i + length xs) ys (list_inserts i xs l) = list_inserts i (xs ++ ys) l.
Proof.
  rewrite length_app. intros Hl.
  rewrite !list_inserts_splice by (rewrite ?length_inserts, ?length_app; lia).
  assert (length (take i l ++ xs) = i + length xs)%nat as Hi
    by (rewrite length_app, length_take, Nat.min_l; lia).
  rewrite (app_assoc (take i l)), take_app_length' by done.
  rewrite drop_app_ge by lia. rewrite drop_drop, Hi, <-!app_assoc, length_app.
  do 4 f_equal. lia.
Qed.

(** The records store what one load of the whole image stores. *)
Lemma run_image e rest k chunks : forall a m,
  0 <= a -> a + Z.of_nat (length (concat chunks)) <= SIZE -> Forall chunk_wf chunks ->
  length (data_ m) = Z.to_nat SIZE ->
  run_records 0 e m (image_records a chunks ++ rest) k =
  run_records 0 e (mk (list_inserts (Z.to_nat a) (concat chunks) (data_ m))) rest k.
Proof.
  induction chunks as [|c chunks IH]; intros a m Ha Hl Hc Hm; [by destruct m|].
  apply Forall_cons in Hc as [[_ Hn] Hc]. cbn [concat] in *. rewrite length_app in Hl.
  cbn [image_records app run_records record_outcome]. change (bus_load ?m ?x ?l) with (load m x l).
  rewrite Z.add_0_l, u32_small by (unfold in_u32, SIZE, MemMap.TOTAL_SIZE in *; lia).
  rewrite load_at by (lia || by destruct c; [cbn in Hn; lia|]).
  rewrite IH by (cbn [data_]; rewrite ?length_inserts; done || lia). cbn [data_].
  rewrite Z2Nat.inj_add, Nat2Z.id by lia.
  rewrite list_inserts_twice; [done|]. rewrite length_app, Hm. lia.
Qed.

(** Both loaders leave the same memory, and the start record makes the same entry
    point. *)
Lemma load_firmware_image files bin hex crlf a chunks t n :
  bin <> "" -> files bin = Some (concat chunks) -> files hex = Some (file_text crlf (hex_image a chunks)) ->
  chunks <> [] -> Forall chunk_wf chunks ->
  0 <= a -> a + Z.of_nat (length (concat chunks)) <= SIZE ->
  exists m, load_firmware files (mkConfig bin "" t n a) = (Ok a, m) /\
            load_firmware files (mkConfig "" hex t n 0) = (Ok a, m).
Proof.
  intros Hb Hfb Hfh Hne Hc Ha Hl.
  assert (concat chunks <> []) as Hi.
  { destruct chunks as [|c chunks]; [done|]. apply Forall_cons in Hc as [[_ Hn] _]. by destruct c; [cbn in Hn; lia|]. }
  assert (Forall record_wf (hex_image a chunks)) as Hw.
  { apply Forall_app. split; [by apply image_records_wf|]. repeat constructor; unfold SIZE, MemMap.TOTAL_SIZE in *; lia. }
  eexists. unfold load_firmware. cbn [binary_path ihex_path load_addr].
  destruct (String.eqb_spec bin "") as [|_]; [done|]. cbn [negb String.eqb]. rewrite Hfb, Hfh. split.
  - unfold load_binary. destruct (Nat.eqb_spec (length (concat chunks)) 0) as [E|_];
      [by apply nil_length_inv in E|].
    change (bus_load ?m ?x ?l) with (load m x l). by rewrite load_at.
  - unfold load_ihex. rewrite <-(app_nil_r (file_text _ _)), load_file_text by done.
    unfold hex_image. rewrite run_image by (done || apply length_replicate). done.
Qed.

(** The program started with the options that ask for [cfg]. *)
Lemma main_options files argv0 cfg :
  in_u32 (load_addr cfg) -> 0 <= steps cfg < 0x10000000000000000 ->
  ~ (binary_path cfg = "" /\ ihex_path cfg = "") ->
  main files argv0 (options cfg) = run_simulation files cfg.
Proof.
  intros Ha Hs Hp. unfold main. rewrite options_roundtrip by done. unfold options. cbn [app].
  destruct (String.eqb_spec (binary_path cfg) ""), (String.eqb_spec (ihex_path cfg) ""); try done.
  by destruct Hp.
Qed.

(** * Properties *)

(** C25: The formats agree.  For every image of a program, every address it fits in
    memory at, every way to cut it into data records of 1 to 255 bytes, and either
    line end: after the line that says what was loaded, the program prints the same
    and ends with the same status whether it is given the raw binary with --addr or
    its Intel HEX text, with or without --trace, for any --steps. *)
Theorem main_hex_binary files argv0 bin hex crlf a chunks t n :
  bin <> "" -> hex <> "" ->
  files bin = Some (concat chunks) -> files hex = Some (file_text crlf (hex_image a chunks)) ->
  chunks <> [] -> Forall chunk_wf chunks ->
  0 <= a -> a + Z.of_nat (length (concat chunks)) <= SIZE -> 0 <= n < 0x10000000000000000 ->
  exists out st,
    main files argv0 (options (mkConfig bin "" t n a)) =
      (Stdout ("Loaded binary '" ++ bin ++ "' at 0x" ++ zeros 4 (HEX a) ++ nl) :: out, st) /\
    main files argv0 (options (mkConfig "" hex t n 0)) =
      (Stdout ("Loaded HEX '" ++ hex ++ "', entry=0x" ++ zeros 8 (HEX a) ++ nl) :: out, st).
Proof.
  intros Hb Hh Hfb Hfh Hne Hc Ha Hl Hn.
  destruct (load_firmware_image files bin hex crlf a chunks t n) as (m & Lb & Lh); try done.
  rewrite !main_options; try done; try (by intros []);
    [|by unfold in_u32, SIZE, MemMap.TOTAL_SIZE in *; cbn; lia].
  unfold run_simulation. rewrite Lb, Lh. cbn [steps].
  change (ready_core (mkConfig "" hex t n 0) a m) with (ready_core (mkConfig bin "" t n a) a m).
  destruct (run n _) as [r s]. unfold loaded_text. cbn [binary_path ihex_path load_addr].
  destruct (String.eqb_spec bin "") as [|_]; [done|].
  destruct r as [k|[e|op]]; eexists _, _; split; reflexivity.
Qed.

(** The sample program at 0x200, as a HEX file of three records of data. *)
Definition image_chunks : list (list Z) :=
  [take 5 (program_bytes 5); take 4 (drop 5 (program_bytes 5)); drop 9 (program_bytes 5)].

Definition image_files (path : string) : option (list Z) :=
  if (path =? "f.bin")%string then Some (concat image_chunks)
  else if (path =? "f.hex")%string then Some (file_text true (hex_image 0x200 image_chunks))
  else None.

Lemma main_hex_binary_witness :
  exists out st,
    main image_files "simulator" (options (mkConfig "f.bin" "" true 1000 0x200)) =
      (Stdout ("Loaded binary 'f.bin' at 0x0200" ++ nl) :: out, st) /\
    main image_files "simulator" (options (mkConfig "" "f.hex" true 1000 0)) =
      (Stdout ("Loaded HEX 'f.hex', entry=0x00000200" ++ nl) :: out, st).
Proof.
  refine (main_hex_binary image_files "simulator" "f.bin" "f.hex" true 0x200 image_chunks true 1000
            _ _ eq_refl eq_refl _ _ _ _ _); [discriminate|discriminate|discriminate| |..].
  - repeat constructor; vm_compute; done || lia.
  - lia.
  - vm_compute. discriminate.
  - lia.
Defined.
