(* ===== verification/Ring.v ===== *)
(** Circular buffers: the array, head, tail and count that the UART FIFOs, the
    CAN receive buffer and the RTOS queue each write out, and the list of
    elements such a buffer stands for. *)
From S2P Require Export Prelude.

Section Ring.
Context {A : Type} `{Inhabited A}.

(** The four members, e.g. [rx_fifo_], [rx_head_], [rx_tail_], [rx_count_]. *)
Record ring : Type := mkRing {
  buf_ : list A;
  head_ : nat;
  tail_ : nat;
  count_ : nat
}.

(** [N] default elements, empty. *)
Definition new_ring (N : nat) (d : A) : ring := mkRing (replicate N d) 0 0 0.

(** Append at the tail; [None] is the early return of [false] on a full buffer. *)
Definition push (N : nat) (r : ring) (x : A) : option ring :=
  if (count_ r =? N)%nat then None
  else Some {| buf_ := <[tail_ r := x]> (buf_ r);
               head_ := head_ r;
               tail_ := ((tail_ r + 1) mod N)%nat;
               count_ := count_ r + 1 |}.

(** Take from the head; [None] is the early return on an empty buffer. *)
Definition pop (N : nat) (r : ring) : option (A * ring) :=
  if (count_ r =? 0)%nat then None
  else Some (buf_ r !!! head_ r,
             {| buf_ := buf_ r;
                head_ := ((head_ r + 1) mod N)%nat;
                tail_ := tail_ r;
                count_ := count_ r - 1 |}).

(** What [reset] does: indices and count only, the array keeps its bytes. *)
Definition rewind (r : ring) : ring := mkRing (buf_ r) 0 0 0.

(** * The list a buffer stands for *)

Definition ring_wf (N : nat) (r : ring) : Prop :=
  (0 < N)%nat /\ length (buf_ r) = N /\ (head_ r < N)%nat /\ (count_ r <= N)%nat /\
  tail_ r = ((head_ r + count_ r) mod N)%nat.

Definition contents (N : nat) (r : ring) : list A :=
  (fun k => buf_ r !!! ((head_ r + k) mod N)%nat) <$> seq 0 (count_ r).

Lemma length_contents N r : length (contents N r) = count_ r.
Proof. unfold contents. by rewrite length_fmap, length_seq. Qed.

Lemma mod_wrap N i : (i < 2 * N)%nat -> (i mod N = if i <? N then i else i - N)%nat.
Proof.
  intros Hi. destruct (Nat.ltb_spec i N); [by apply Nat.mod_small|].
  replace i with ((i - N) + 1 * N)%nat at 1 by lia.
  rewrite Nat.Div0.mod_add. apply Nat.mod_small. lia.
Qed.

Lemma new_ring_wf N d : (0 < N)%nat -> ring_wf N (new_ring N d).
Proof.
  intros HN. split_and!; simpl; [done|apply length_replicate|lia|lia|].
  by rewrite Nat.mod_small.
Qed.

Lemma contents_new N d : contents N (new_ring N d) = [].
Proof. done. Qed.

Lemma rewind_wf N r : ring_wf N r -> ring_wf N (rewind r).
Proof. intros (HN & Hl & _). split_and!; simpl; try lia. by rewrite Nat.mod_small. Qed.

Lemma contents_rewind N r : contents N (rewind r) = [].
Proof. done. Qed.

(** A buffer is a bounded queue: pushing appends unless it holds [N] elements. *)
Lemma push_spec N r x :
  ring_wf N r ->
  if (length (contents N r) =? N)%nat then push N r x = None
  else exists r', push N r x = Some r' /\ ring_wf N r' /\
                  contents N r' = contents N r ++ [x].
Proof.
  intros (HN & Hl & Hh & Hc & Ht). rewrite length_contents. unfold push.
  destruct (Nat.eqb_spec (count_ r) N) as [|Hne]; [done|].
  eexists. split; [done|]. rewrite Ht. split.
  - split_and!; simpl; rewrite ?length_insert; try lia.
    rewrite Nat.Div0.add_mod_idemp_l. f_equal. lia.
  - unfold contents. simpl. rewrite Nat.add_1_r, seq_S, fmap_app. f_equal.
    + apply list_fmap_ext. intros i k Hk. apply lookup_seq in Hk as [-> Hi].
      rewrite list_lookup_total_insert_ne; [done|].
      rewrite !mod_wrap by lia. simpl.
      destruct (Nat.ltb_spec (head_ r + count_ r) N), (Nat.ltb_spec (head_ r + i) N); lia.
    + simpl. f_equal. rewrite list_lookup_total_insert_eq; [done|].
      rewrite Hl. apply Nat.mod_upper_bound. lia.
Qed.

(** ... and popping takes the first element unless there is none. *)
Lemma pop_spec N r :
  ring_wf N r ->
  match contents N r with
  | [] => pop N r = None
  | x :: l => exists r', pop N r = Some (x, r') /\ ring_wf N r' /\ contents N r' = l
  end.
Proof.
  intros (HN & Hl & Hh & Hc & Ht). unfold pop, contents.
  destruct (count_ r) as [|n] eqn:En; [done|]. cbn [seq fmap list_fmap].
  eexists. split; [|split].
  - simpl. rewrite Nat.add_0_r, (Nat.mod_small (head_ r)) by done. reflexivity.
  - split_and!; simpl; try lia.
    + apply Nat.mod_upper_bound. lia.
    + rewrite Ht. rewrite Nat.Div0.add_mod_idemp_l. f_equal. lia.
  - simpl. rewrite Nat.sub_0_r. rewrite <-(fmap_S_seq 0 n), <-list_fmap_compose.
    apply list_fmap_ext. intros i k _. simpl. f_equal.
    rewrite Nat.Div0.add_mod_idemp_l. f_equal. lia.
Qed.

End Ring.
Arguments ring A : clear implicits.
