(* ===== verification/Peripheral.v ===== *)
(** src/peripherals/peripheral.h: the peripheral interface and the address
    decoder [PeripheralBus].

    A peripheral object may change other objects when it is accessed (a CAN
    node delivers frames to the nodes on its bus), and the bus holds pointers to
    objects others hold too.  An [IPeripheral*] is therefore modelled by its two
    virtual functions acting on the state [W] of all objects. *)
From S2P Require Export Prelude.

(** [AddressError] with its address, and the one other [PeripheralError]. *)
Inductive periph_error : Type :=
  | AddressError (address : Z)
  | TooManyPeripherals.

Module PeriphMap.
Definition UART0_BASE : Z := 0x40000000.
Definition UART1_BASE : Z := 0x40001000.
Definition SPI0_BASE : Z := 0x40002000.
Definition I2C0_BASE : Z := 0x40003000.
Definition CAN0_BASE : Z := 0x40004000.
Definition CAN1_BASE : Z := 0x40005000.
Definition REGION_SIZE : Z := 0x00001000.
End PeriphMap.

(** [read_reg] is a const function of the code whose objects have mutable
    members: it returns the new state as well. *)
Record IPeripheral (W : Type) : Type := mkPeriph {
  read_reg : W -> Z -> Z * W;
  write_reg : W -> Z -> Z -> W
}.
Arguments mkPeriph {W} _ _.
Arguments read_reg {W} _ _ _.
Arguments write_reg {W} _ _ _ _.

(** An object of type [P] that is a member of the world [W]. *)
Class Member (W P : Type) : Type := {
  get_member : W -> P;
  set_member : P -> W -> W
}.

Definition member {W P} `{Member W P} (p : IPeripheral P) : IPeripheral W := {|
  read_reg w off := let '(v, o) := read_reg p (get_member w) off in (v, set_member o w);
  write_reg w off val := set_member (write_reg p (get_member w) off val) w
|}.

Module PeripheralBus.
Section Bus.
Context {W : Type}.

Definition MAX_PERIPHERALS : nat := 8.

Record Entry : Type := mkEntry {
  base : Z;
  size : Z;
  periph : IPeripheral W
}.

(** The first [count_] elements of [entries_]; the others are never read. *)
Record t : Type := mkBus { entries_ : list Entry }.

Definition count_ (b : t) : nat := length (entries_ b).

Definition empty : t := mkBus [].

Definition attach (b : t) (bs : Z) (p : IPeripheral W) (sz : Z) : result periph_error t :=
  if (MAX_PERIPHERALS <=? count_ b)%nat then Err TooManyPeripherals
  else Ok (mkBus (entries_ b ++ [mkEntry bs sz p])).

(** The test of [find]: [base + size] is a 32-bit sum. *)
Definition matches (addr : Z) (e : Entry) : bool :=
  (base e <=? addr) && (addr <? u32 (base e + size e)).

Fixpoint find_entry (addr : Z) (l : list Entry) : option Entry :=
  match l with
  | [] => None
  | e :: l => if matches addr e then Some e else find_entry addr l
  end.

Definition find (b : t) (addr : Z) : option Entry := find_entry addr (entries_ b).

Definition bus_read (b : t) (w : W) (addr : Z) : result periph_error (Z * W) :=
  match find b addr with
  | None => Err (AddressError addr)
  | Some e => Ok (read_reg (periph e) w (u32 (addr - base e)))
  end.

Definition bus_write (b : t) (w : W) (addr val : Z) : result periph_error W :=
  match find b addr with
  | None => Err (AddressError addr)
  | Some e => Ok (write_reg (periph e) w (u32 (addr - base e)) val)
  end.

Definition is_mapped (b : t) (addr : Z) : bool :=
  match find b addr with Some _ => true | None => false end.

Definition peripheral_count (b : t) : nat := count_ b.

End Bus.
End PeripheralBus.
