(* ===== verification/PeripheralProps.v ===== *)
(** The address decoder: which peripheral an access reaches, and which error the
    others raise. *)
From S2P Require Export Peripheral.

Import PeripheralBus.

Section Decode.
Context {W : Type}.

Fixpoint attach_all (b : t) (l : list (Entry (W := W))) : result periph_error t :=
  match l with
  | [] => Ok b
  | e :: l =>
      match attach b (base e) (periph e) (size e) with
      | Ok b' => attach_all b' l
      | Err x => Err x
      end
  end.

Definition in_window (addr : Z) (e : Entry (W := W)) : Prop :=
  base e <= addr < base e + size e.

(** A window that does not reach the end of the address space. *)
Definition window_ok (e : Entry (W := W)) : Prop :=
  0 <= base e /\ 0 <= size e /\ base e + size e < 2 ^ 32.

Definition disjoint (e f : Entry (W := W)) : Prop :=
  base e + size e <= base f \/ base f + size f <= base e.

Lemma attach_all_app b l :
  attach_all b l =
  if (length (entries_ b) + length l <=? 8)%nat || (length l =? 0)%nat
  then Ok (mkBus (entries_ b ++ l)) else Err TooManyPeripherals.
Proof.
  revert b. induction l as [|e l IH]; intros b; simpl.
  - rewrite orb_true_r, app_nil_r. by destruct b.
  - unfold attach, count_, MAX_PERIPHERALS. rewrite orb_false_r.
    destruct (Nat.leb_spec 8 (length (entries_ b))).
    + by destruct (Nat.leb_spec (length (entries_ b) + S (length l)) 8); [lia|].
    + rewrite IH. simpl. rewrite length_app, <-app_assoc. destruct e. simpl.
      replace (length (entries_ b) + 1 + length l)%nat
        with (length (entries_ b) + S (length l))%nat by lia.
      destruct (Nat.leb_spec (length (entries_ b) + S (length l)) 8); [done|].
      destruct (Nat.eqb_spec (length l) 0); [lia|done].
Qed.

Lemma matches_spec addr e : window_ok e -> matches addr e = true <-> in_window addr e.
Proof.
  intros (H1 & H2 & H3). unfold matches, in_window.
  rewrite u32_small by (split; [lia|exact H3]).
  rewrite andb_true_iff, Z.leb_le, Z.ltb_lt. done.
Qed.

Lemma find_entry_in addr l e :
  Forall window_ok l -> ForallOrdPairs disjoint l -> In e l -> in_window addr e ->
  find_entry addr l = Some e.
Proof.
  induction l as [|f l IH]; intros Hw Hd Hin Hwin; [done|].
  inversion_clear Hw as [|? ? Hf Hl]. inversion_clear Hd as [|? ? Hdf Hdl]. simpl.
  destruct Hin as [->|Hin].
  - by apply matches_spec in Hwin as ->.
  - destruct (matches addr f) eqn:E; [|by apply IH].
    apply matches_spec in E; [|done]. rewrite List.Forall_forall in Hdf.
    apply Hdf in Hin. unfold disjoint, in_window in *. lia.
Qed.

Lemma find_entry_none addr l :
  Forall window_ok l -> Forall (fun e => ~ in_window addr e) l -> find_entry addr l = None.
Proof.
  induction l as [|f l IH]; intros Hw Hn; [done|]. simpl.
  inversion_clear Hw. inversion_clear Hn.
  destruct (matches addr f) eqn:E; [by apply matches_spec in E|auto].
Qed.

(** A bus takes up to eight peripherals and throws on the ninth.  When the
    windows are pairwise disjoint and end below 2^32, an access reaches the
    peripheral whose window holds the address, at the offset from its base and
    whatever the order of attachment; an address in no window throws
    [AddressError] with that address and touches no peripheral. *)
Theorem bus_decode (l : list (Entry (W := W))) :
  attach_all empty l =
    (if (length l <=? 8)%nat then Ok (mkBus l) else Err TooManyPeripherals) /\
  (Forall window_ok l -> ForallOrdPairs disjoint l ->
   forall addr w val, in_u32 addr ->
   (forall e, In e l -> in_window addr e ->
      is_mapped (mkBus l) addr = true /\
      bus_read (mkBus l) w addr = Ok (read_reg (periph e) w (addr - base e)) /\
      bus_write (mkBus l) w addr val = Ok (write_reg (periph e) w (addr - base e) val)) /\
   (Forall (fun e => ~ in_window addr e) l ->
      is_mapped (mkBus l) addr = false /\
      bus_read (mkBus l) w addr = Err (AddressError addr) /\
      bus_write (mkBus l) w addr val = Err (AddressError addr))).
Proof.
  split.
  { rewrite attach_all_app. simpl. destruct l; [done|]. by rewrite orb_false_r. }
  intros Hw Hd addr w val Ha. unfold is_mapped, bus_read, bus_write, find. simpl.
  split.
  - intros e Hin Hwin. rewrite (find_entry_in addr l e) by done.
    rewrite u32_small; [done|]. rewrite List.Forall_forall in Hw.
    destruct (Hw e Hin) as (? & ? & ?). unfold in_window, in_u32 in *. lia.
  - intros Hn. by rewrite find_entry_none.
Qed.

End Decode.
