(* ===== verification/Can.v ===== *)
(** src/peripherals/can.h, can.cpp: CAN controllers and the bus they share.

    A [CanBus] holds pointers to its nodes, and sending on one node changes the
    others: the state is a store of node objects and of bus objects, addressed
    by handles. *)
From stdpp Require Export gmap.
From S2P Require Export Ring Bytes Peripheral.

Record CanFrame : Type := mkFrame {
  id : Z;
  dlc : Z;
  data : list Z
}.

(** [CanFrame{}]. *)
Definition empty_frame : CanFrame := mkFrame 0 0 (replicate 8 0).
#[global] Instance CanFrame_inhabited : Inhabited CanFrame := populate empty_frame.

Module CanBus.

Definition MAX_NODES : nat := 8.

(** The first [count_] pointers of [nodes_]; the others are null. *)
Abbreviation t := (list nat).

Definition attach (nodes : t) (node : nat) : t :=
  if (length nodes <? MAX_NODES)%nat then nodes ++ [node] else nodes.

(** The last pointer replaces the one that goes. *)
Definition detach (nodes : t) (node : nat) : t :=
  match list_find (fun n => n = node) nodes with
  | Some (i, _) =>
      let count := (length nodes - 1)%nat in
      take count (<[i := nodes !!! count]> nodes)
  | None => nodes
  end.

End CanBus.

Module Can.

Definition RX_CAPACITY : nat := 32.

Definition REG_TX_ID : Z := 0x00.
Definition REG_TX_DLC : Z := 0x04.
Definition REG_TX_D0 : Z := 0x08.
Definition REG_TX_D1 : Z := 0x0C.
Definition REG_TX_SEND : Z := 0x10.
Definition REG_RX_ID : Z := 0x14.
Definition REG_RX_DLC : Z := 0x18.
Definition REG_RX_D0 : Z := 0x1C.
Definition REG_RX_D1 : Z := 0x20.
Definition REG_RX_POP : Z := 0x24.
Definition REG_SR : Z := 0x28.
Definition REG_FILTER_ID : Z := 0x2C.
Definition REG_FILTER_MASK : Z := 0x30.

Definition SR_TX_OK : Z := 1 .<< 0.
Definition SR_RX_READY : Z := 1 .<< 1.
Definition SR_RX_OVERFLOW : Z := 1 .<< 2.

(** [bus_] is the handle of a bus or null; [rx_] is [rx_buf_], [rx_head_],
    [rx_tail_] and [rx_count_]. *)
Record t : Type := mkCan {
  bus_ : option nat;
  tx_frame_ : CanFrame;
  rx_ : ring CanFrame;
  sr_ : Z;
  filter_id_ : Z;
  filter_mask_ : Z
}.

Definition with_tx (f : CanFrame -> CanFrame) (c : t) : t :=
  mkCan (bus_ c) (f (tx_frame_ c)) (rx_ c) (sr_ c) (filter_id_ c) (filter_mask_ c).
Definition with_rx (r : ring CanFrame) (c : t) : t :=
  mkCan (bus_ c) (tx_frame_ c) r (sr_ c) (filter_id_ c) (filter_mask_ c).
Definition with_sr (f : Z -> Z) (c : t) : t :=
  mkCan (bus_ c) (tx_frame_ c) (rx_ c) (f (sr_ c)) (filter_id_ c) (filter_mask_ c).

Definition rx_count (c : t) : nat := count_ (rx_ c).
Definition rx_ready (c : t) : bool := (0 <? rx_count c)%nat.

Definition passes_filter (c : t) (fid : Z) : bool :=
  fid .& filter_mask_ c =? filter_id_ c .& filter_mask_ c.

Definition rx_push (c : t) (f : CanFrame) : bool * t :=
  match push RX_CAPACITY (rx_ c) f with
  | None => (false, c)
  | Some r => (true, with_rx r c)
  end.

Definition rx_peek (c : t) : CanFrame :=
  if (rx_count c =? 0)%nat then empty_frame else buf_ (rx_ c) !!! head_ (rx_ c).

Definition inject (c : t) (frame : CanFrame) : bool * t :=
  if negb (passes_filter c (id frame)) then (false, c)
  else match rx_push c frame with
       | (false, c') => (false, with_sr (fun sr => sr .| SR_RX_OVERFLOW) c')
       | (true, c') => (true, with_sr (fun sr => sr .| SR_RX_READY) c')
       end.

(** * Register reads: [memcpy] of four payload bytes on a little-endian host *)

Definition read_reg (c : t) (offset : Z) : Z :=
  if offset =? REG_TX_ID then id (tx_frame_ c)
  else if offset =? REG_TX_DLC then dlc (tx_frame_ c)
  else if offset =? REG_TX_D0 then le_value (slice 0 4 (data (tx_frame_ c)))
  else if offset =? REG_TX_D1 then le_value (slice 4 4 (data (tx_frame_ c)))
  else if offset =? REG_RX_ID then
    if (0 <? rx_count c)%nat then id (buf_ (rx_ c) !!! head_ (rx_ c)) else 0
  else if offset =? REG_RX_DLC then
    if (0 <? rx_count c)%nat then dlc (buf_ (rx_ c) !!! head_ (rx_ c)) else 0
  else if offset =? REG_RX_D0 then
    if (rx_count c =? 0)%nat then 0
    else le_value (slice 0 4 (data (buf_ (rx_ c) !!! head_ (rx_ c))))
  else if offset =? REG_RX_D1 then
    if (rx_count c =? 0)%nat then 0
    else le_value (slice 4 4 (data (buf_ (rx_ c) !!! head_ (rx_ c))))
  else if offset =? REG_SR then sr_ c
  else if offset =? REG_FILTER_ID then filter_id_ c
  else if offset =? REG_FILTER_MASK then filter_mask_ c
  else 0.

(** * The objects *)

Record world : Type := mkWorld {
  nodes : gmap nat t;
  buses : gmap nat CanBus.t
}.

Definition update_node (n : nat) (f : t -> t) (w : world) : world :=
  mkWorld (alter f n (nodes w)) (buses w).

(** The loop of [CanBus::broadcast]: [delivered |= nodes_[i]->inject(frame)]. *)
Fixpoint broadcast (l : list nat) (frame : CanFrame) (sender : nat)
    (delivered : bool) (ns : gmap nat t) : bool * gmap nat t :=
  match l with
  | [] => (delivered, ns)
  | n :: l =>
      if decide (n = sender) then broadcast l frame sender delivered ns
      else match ns !! n with
           | Some c =>
               let '(b, c') := inject c frame in
               broadcast l frame sender (delivered || b) (<[n := c']> ns)
           | None => broadcast l frame sender delivered ns
           end
  end.

(** The constructor of a node at a fresh handle, and the destructor. *)
Definition new_can (n : nat) (bus : option nat) (w : world) : world :=
  mkWorld
    (<[n := mkCan bus empty_frame (new_ring RX_CAPACITY empty_frame) 0 0 0]> (nodes w))
    (match bus with
     | Some b => alter (fun l => CanBus.attach l n) b (buses w)
     | None => buses w
     end).

Definition delete_can (n : nat) (w : world) : world :=
  match nodes w !! n with
  | Some c =>
      mkWorld (delete n (nodes w))
        (match bus_ c with
         | Some b => alter (fun l => CanBus.detach l n) b (buses w)
         | None => buses w
         end)
  | None => w
  end.

(** [TX_SEND]: broadcast [tx_frame_] to the bus, then report success. *)
Definition tx_send (self : nat) (w : world) : world :=
  let w := update_node self (with_sr (fun sr => sr .& not32 SR_TX_OK)) w in
  let w :=
    match nodes w !! self with
    | Some c =>
        match bus_ c with
        | Some b =>
            mkWorld
              (snd (broadcast (default [] (buses w !! b)) (tx_frame_ c) self false (nodes w)))
              (buses w)
        | None => w
        end
    | None => w
    end in
  update_node self (with_sr (fun sr => sr .| SR_TX_OK)) w.

(** [RX_POP]. *)
Definition rx_pop (c : t) : t :=
  if (0 <? rx_count c)%nat then
    let c := with_rx (mkRing (buf_ (rx_ c)) ((head_ (rx_ c) + 1) mod RX_CAPACITY)%nat
                        (tail_ (rx_ c)) (count_ (rx_ c) - 1)) c in
    if (rx_count c =? 0)%nat then with_sr (fun sr => sr .& not32 SR_RX_READY) c else c
  else c.

Definition write_reg (self : nat) (w : world) (offset val : Z) : world :=
  if offset =? REG_TX_ID then
    update_node self (with_tx (fun f => mkFrame (u16 (val .& 0x7FF)) (dlc f) (data f))) w
  else if offset =? REG_TX_DLC then
    update_node self (with_tx (fun f =>
      let d := u8 (val .& 0xF) in
      mkFrame (id f) (if 8 <? d then 8 else d) (data f))) w
  else if offset =? REG_TX_D0 then
    update_node self (with_tx (fun f =>
      mkFrame (id f) (dlc f) (list_inserts 0 (le_bytes 4 val) (data f)))) w
  else if offset =? REG_TX_D1 then
    update_node self (with_tx (fun f =>
      mkFrame (id f) (dlc f) (list_inserts 4 (le_bytes 4 val) (data f)))) w
  else if offset =? REG_TX_SEND then tx_send self w
  else if offset =? REG_RX_POP then update_node self rx_pop w
  else if offset =? REG_FILTER_ID then
    update_node self (fun c => mkCan (bus_ c) (tx_frame_ c) (rx_ c) (sr_ c)
                                 (u16 (val .& 0x7FF)) (filter_mask_ c)) w
  else if offset =? REG_FILTER_MASK then
    update_node self (fun c => mkCan (bus_ c) (tx_frame_ c) (rx_ c) (sr_ c)
                                 (filter_id_ c) (u16 (val .& 0x7FF))) w
  else w.

(** The object [n] as an [IPeripheral*]. *)
Definition device (n : nat) : IPeripheral world :=
  mkPeriph (fun w off => (match nodes w !! n with Some c => read_reg c off | None => 0 end, w))
           (fun w off val => write_reg n w off val).

End Can.
