(* ===== verification/CanProps.v ===== *)
(** CAN nodes and buses: the invariant of the object store, reception as a
    bounded queue, and what a transmission does to every node. *)
From Stdlib Require Import ZifyBool.
From S2P Require Export Can.

Import Can.

(** * Invariants *)

Definition frame_wf (f : CanFrame) : Prop :=
  in_u16 (id f) /\ in_u8 (dlc f) /\ length (data f) = 8%nat /\ is_bytes (data f).

(** What the TX registers can hold. *)
Definition tx_wf (f : CanFrame) : Prop :=
  frame_wf f /\ id f < 0x800 /\ dlc f <= 8.

Definition rx_queue (c : t) : list CanFrame := contents RX_CAPACITY (rx_ c).

(** [SR_RX_READY] is set exactly when frames wait. *)
Definition can_wf (c : t) : Prop :=
  ring_wf RX_CAPACITY (rx_ c) /\ Forall frame_wf (rx_queue c) /\ tx_wf (tx_frame_ c) /\
  0 <= sr_ c < 8 /\ bit (sr_ c) 1 = rx_ready c /\
  0 <= filter_id_ c < 0x800 /\ 0 <= filter_mask_ c < 0x800.

(** A bus lists live nodes, each once, each created on that bus. *)
Definition bus_wf (ns : gmap nat t) (b : nat) (l : list nat) : Prop :=
  (length l <= CanBus.MAX_NODES)%nat /\ NoDup l /\
  forall n, n ∈ l -> exists c, ns !! n = Some c /\ bus_ c = Some b.

Definition world_wf (w : world) : Prop :=
  (forall n c, nodes w !! n = Some c -> can_wf c) /\
  (forall b l, buses w !! b = Some l -> bus_wf (nodes w) b l).

Lemma empty_frame_wf : tx_wf empty_frame.
Proof.
  split; [|simpl; lia]. split; [done|]. split; [done|]. split; [done|].
  apply is_bytes_replicate. split; lia.
Qed.

(** * Status bits *)

Lemma sr_case (P : Z -> Prop) :
  P 0 -> P 1 -> P 2 -> P 3 -> P 4 -> P 5 -> P 6 -> P 7 -> forall sr, 0 <= sr < 8 -> P sr.
Proof.
  intros. assert (sr = 0 \/ sr = 1 \/ sr = 2 \/ sr = 3 \/ sr = 4 \/ sr = 5 \/ sr = 6 \/ sr = 7)
    as E by lia. by repeat destruct E as [->|E]; [..|subst].
Qed.

Definition sr_update (f : Z -> Z) (tx_ok rx_rdy ovf : bool -> bool) : Prop :=
  forall sr, 0 <= sr < 8 ->
    0 <= f sr < 8 /\ bit (f sr) 0 = tx_ok (bit sr 0) /\
    bit (f sr) 1 = rx_rdy (bit sr 1) /\ bit (f sr) 2 = ovf (bit sr 2).

Lemma sr_set_tx_ok :
  sr_update (fun sr => sr .| SR_TX_OK) (fun _ => true) (fun b => b) (fun b => b).
Proof. intros sr. revert sr. by apply sr_case. Qed.
Lemma sr_clear_tx_ok :
  sr_update (fun sr => sr .& not32 SR_TX_OK) (fun _ => false) (fun b => b) (fun b => b).
Proof. intros sr. revert sr. by apply sr_case. Qed.
Lemma sr_set_ready :
  sr_update (fun sr => sr .| SR_RX_READY) (fun b => b) (fun _ => true) (fun b => b).
Proof. intros sr. revert sr. by apply sr_case. Qed.
Lemma sr_clear_ready :
  sr_update (fun sr => sr .& not32 SR_RX_READY) (fun b => b) (fun _ => false) (fun b => b).
Proof. intros sr. revert sr. by apply sr_case. Qed.
Lemma sr_set_overflow :
  sr_update (fun sr => sr .| SR_RX_OVERFLOW) (fun b => b) (fun b => b) (fun _ => true).
Proof. intros sr. revert sr. by apply sr_case. Qed.

(** * Reception *)

Lemma rx_ready_queue c : rx_ready c = negb (length (rx_queue c) =? 0)%nat.
Proof.
  unfold rx_ready, rx_queue, rx_count. rewrite length_contents.
  by destruct (count_ (rx_ c)).
Qed.

(** The three outcomes of [inject]. *)
Definition inject_spec (c : t) (f : CanFrame) (r : bool) (c' : t) : Prop :=
  let accepted := passes_filter c (id f) in
  let full := (length (rx_queue c) =? 32)%nat in
  r = accepted && negb full /\
  rx_queue c' = (if r then rx_queue c ++ [f] else rx_queue c) /\
  bit (sr_ c') 0 = bit (sr_ c) 0 /\
  bit (sr_ c') 2 = (bit (sr_ c) 2 || (accepted && full)) /\
  bus_ c' = bus_ c /\ tx_frame_ c' = tx_frame_ c /\
  filter_id_ c' = filter_id_ c /\ filter_mask_ c' = filter_mask_ c.

Lemma inject_ok c f :
  can_wf c -> frame_wf f ->
  can_wf (snd (inject c f)) /\ inject_spec c f (fst (inject c f)) (snd (inject c f)).
Proof.
  intros Hc Hf. pose proof Hc as (Hr & Hq & Ht & Hs & Hb & Hi & Hm).
  unfold inject, inject_spec. destruct (passes_filter c (id f)); simpl.
  2:{ split; [done|]. rewrite orb_false_r. by split_and!. }
  pose proof (push_spec RX_CAPACITY (rx_ c) f Hr) as E. unfold rx_push, rx_queue.
  change 32%nat with RX_CAPACITY.
  destruct (length (contents RX_CAPACITY (rx_ c)) =? RX_CAPACITY)%nat.
  - rewrite E. simpl. destruct (sr_set_overflow _ Hs) as (H1 & H2 & H3 & H4).
    split; [|split_and!; try done; by rewrite H4, orb_true_r].
    split; [done|]. split; [done|]. split; [done|]. split; [done|]. split; [|done].
    simpl. by rewrite H3.
  - destruct E as (r & -> & Hrw & Hrc). simpl.
    destruct (sr_set_ready _ Hs) as (H1 & H2 & H3 & H4).
    split; [|split_and!; try done; by rewrite H4, orb_false_r].
    split; [done|]. split; [unfold rx_queue; simpl; rewrite Hrc; apply Forall_app; by split; [|constructor]|].
    split; [done|]. split; [done|]. split; [|done]. rewrite rx_ready_queue. unfold rx_queue; simpl.
    rewrite Hrc, H3, length_app. simpl. symmetry. apply negb_true_iff, Nat.eqb_neq. lia.
Qed.

Lemma rx_pop_ok c :
  can_wf c ->
  can_wf (rx_pop c) /\ rx_queue (rx_pop c) = tl (rx_queue c) /\
  bit (sr_ (rx_pop c)) 0 = bit (sr_ c) 0 /\ bit (sr_ (rx_pop c)) 2 = bit (sr_ c) 2 /\
  bus_ (rx_pop c) = bus_ c /\ tx_frame_ (rx_pop c) = tx_frame_ c.
Proof.
  intros Hc. pose proof Hc as (Hr & Hq & Ht & Hs & Hb & Hi & Hm).
  pose proof (pop_spec RX_CAPACITY (rx_ c) Hr) as E.
  pose proof (length_contents RX_CAPACITY (rx_ c)) as Hl. unfold rx_queue in *.
  unfold rx_pop, rx_count. destruct (contents RX_CAPACITY (rx_ c)) as [|f q] eqn:Eq; simpl in Hl.
  { rewrite <-Hl. simpl. unfold rx_queue. by rewrite Eq. }
  destruct E as (r & Hpop & Hrw & Hrc). rewrite <-Hl. unfold pop in Hpop. rewrite <-Hl in Hpop.
  cbn [Nat.eqb] in Hpop. 
  assert (mkRing (buf_ (rx_ c)) ((head_ (rx_ c) + 1) mod RX_CAPACITY)%nat (tail_ (rx_ c))
            (S (length q) - 1) = r) as <- by congruence. clear Hpop.
  replace (S (length q) - 1)%nat with (length q) in * by lia.
  change (0 <? S (length q))%nat with true. cbv iota zeta. unfold rx_count. cbn [rx_ with_rx count_].
  assert (forall cc, bus_ cc = bus_ c -> tx_frame_ cc = tx_frame_ c ->
    filter_id_ cc = filter_id_ c -> filter_mask_ cc = filter_mask_ c ->
    contents RX_CAPACITY (rx_ cc) = q -> ring_wf RX_CAPACITY (rx_ cc) ->
    0 <= sr_ cc < 8 -> bit (sr_ cc) 1 = negb (length q =? 0)%nat -> can_wf cc) as Hwf.
  { intros cc E1 E2 E3 E4 E5 E6 E7 E8. inversion_clear Hq.
    split; [done|]. unfold rx_queue. rewrite E5, E2, E3, E4.
    split; [done|]. split; [done|]. split; [done|]. split; [|done].
    rewrite rx_ready_queue. unfold rx_queue. by rewrite E5. }
  destruct (Nat.eqb_spec (length q) 0) as [E0|E0].
  - destruct (sr_clear_ready _ Hs) as (H1 & H2 & H3 & H4). split; [|split; [exact Hrc|by split_and!]].
    by apply Hwf.
  - split; [|split; [exact Hrc|by split_and!]]. apply Hwf; try done. simpl.
    rewrite Hb, rx_ready_queue. unfold rx_queue. by rewrite Eq.
Qed.

(** * The bus's table of nodes *)

Lemma detach_perm l n : n ∈ l -> l ≡ₚ n :: CanBus.detach l n.
Proof.
  intros Hin. unfold CanBus.detach.
  destruct (list_find (fun m => m = n) l) as [[i m]|] eqn:E.
  2:{ apply list_find_None in E. rewrite List.Forall_forall in E.
      apply list_elem_of_In in Hin. by apply E in Hin. }
  apply list_find_Some in E as (Hi & -> & _).
  destruct l as [|z l' _] using rev_ind; [done|].
  rewrite length_app. simpl. replace (length l' + 1 - 1)%nat with (length l') by lia.
  rewrite list_lookup_total_middle by done.
  apply lookup_app_Some in Hi as [Hi|[Hge Hi]].
  - rewrite insert_app_l by (by eapply lookup_lt_Some).
    rewrite <-(length_insert l' i z). rewrite take_app_length.
    apply list_elem_of_split_length in Hi as (l1 & l2 & -> & ->).
    rewrite insert_app_r_alt by lia. rewrite Nat.sub_diag. simpl.
    rewrite <-app_assoc. simpl. rewrite <-Permutation_middle, (Permutation_app_comm l2 [z]).
    simpl. by rewrite Permutation_middle.
  - apply list_lookup_singleton_Some in Hi as [Hi ->].
    replace i with (length l' + 0)%nat by lia. rewrite insert_app_r. simpl.
    rewrite take_app_length. by rewrite Permutation_app_comm.
Qed.

Lemma detach_not_in l n : n ∉ l -> CanBus.detach l n = l.
Proof.
  intros Hn. unfold CanBus.detach.
  destruct (list_find (fun m => m = n) l) as [[i m]|] eqn:E; [|done].
  apply list_find_Some in E as (Hi & -> & _). by apply list_elem_of_lookup_2 in Hi.
Qed.

(** Detaching takes exactly that node off the table. *)
Lemma detach_spec l n m :
  NoDup l -> (NoDup (CanBus.detach l n) /\ (length (CanBus.detach l n) <= length l)%nat) /\
  (m ∈ CanBus.detach l n <-> m ∈ l /\ m <> n).
Proof.
  intros Hd. destruct (decide (n ∈ l)) as [Hin|Hin].
  - pose proof (detach_perm l n Hin) as Hp. rewrite Hp in Hd. apply NoDup_cons in Hd as [Hn Hd].
    split; [split; [done|]|].
    + rewrite (Permutation_length Hp). simpl. lia.
    + rewrite (elem_of_Permutation_proper m _ _ Hp), elem_of_cons.
      split; [|by intros [[->|?] ?]]. intros Hm. split; [by right|]. by intros ->.
  - rewrite detach_not_in by done. split; [done|]. split; [|by intros [? _]].
    intros Hm. split; [done|]. by intros ->.
Qed.

(** * Transmission *)

(** The loop calls [inject] once on every attached node but the sender. *)
Lemma broadcast_nodes l frame sender d ns m :
  NoDup l ->
  snd (broadcast l frame sender d ns) !! m =
  if decide (m ∈ l /\ m <> sender) then (fun c => snd (inject c frame)) <$> ns !! m
  else ns !! m.
Proof.
  intros Hd. revert d ns. induction Hd as [|n l Hn Hd IH]; intros d ns; cbn [broadcast snd].
  { by rewrite decide_False by (by intros [?%elem_of_nil _]). }
  assert (forall k, k <> n -> (k ∈ n :: l /\ k <> sender) <-> (k ∈ l /\ k <> sender)) as Hk
    by (intros k Hkn; rewrite elem_of_cons; split; [by intros [[->|?] ?]|intros []; auto]).
  destruct (decide (n = sender)) as [->|Hns].
  - rewrite IH. apply decide_ext. destruct (decide (m = sender)) as [->|Hm].
    + split; by intros [_ ?].
    + symmetry. by apply Hk.
  - destruct (ns !! n) as [c|] eqn:Ec.
    + destruct (inject c frame) as [b c'] eqn:Ei. rewrite IH.
      destruct (decide (m = n)) as [->|Hm].
      * rewrite (decide_False (P := n ∈ l /\ n <> sender)) by (by intros [? _]).
        rewrite decide_True by (split; [by left|done]).
        by rewrite lookup_insert_eq, Ec; simpl; rewrite Ei.
      * rewrite lookup_insert_ne by done. apply decide_ext. symmetry. by apply Hk.
    + rewrite IH. destruct (decide (m = n)) as [->|Hm].
      * rewrite (decide_False (P := n ∈ l /\ n <> sender)) by (by intros [? _]).
        by rewrite decide_True, Ec by (split; [by left|done]).
      * apply decide_ext. symmetry. by apply Hk.
Qed.

(** The nodes a transmission of [c] is offered to. *)
Definition bus_nodes (w : world) (c : t) : list nat :=
  match bus_ c with Some b => default [] (buses w !! b) | None => [] end.

Lemma bus_nodes_nodup w c : world_wf w -> NoDup (bus_nodes w c).
Proof.
  intros [_ Hb]. unfold bus_nodes. destruct (bus_ c) as [b|]; [|apply NoDup_nil_2].
  destruct (buses w !! b) as [l|] eqn:E; [|apply NoDup_nil_2]. by destruct (Hb b l E) as (_ & ? & _).
Qed.

Lemma tx_send_nodes w n c m :
  world_wf w -> nodes w !! n = Some c ->
  nodes (tx_send n w) !! m =
  if decide (m = n)
  then Some (with_sr (fun sr => (sr .& not32 SR_TX_OK) .| SR_TX_OK) c)
  else if decide (m ∈ bus_nodes w c) then (fun cm => snd (inject cm (tx_frame_ c))) <$> nodes w !! m
  else nodes w !! m.
Proof.
  intros Hw Hn. pose proof (bus_nodes_nodup w c Hw) as Hd. unfold bus_nodes in *.
  set (c1 := with_sr (fun sr => sr .& not32 SR_TX_OK) c).
  set (w1 := update_node n (with_sr (fun sr => sr .& not32 SR_TX_OK)) w).
  assert (nodes w1 !! n = Some c1) as Hn1 by (simpl; by rewrite lookup_alter_eq, Hn).
  assert (forall k, k <> n -> nodes w1 !! k = nodes w !! k) as Ho
    by (intros k Hk; simpl; by rewrite lookup_alter_ne).
  unfold tx_send. fold w1. rewrite Hn1. change (bus_ c1) with (bus_ c).
  change (tx_frame_ c1) with (tx_frame_ c). change (buses w1) with (buses w).
  destruct (bus_ c) as [b|]; cbn [nodes update_node].
  - destruct (decide (m = n)) as [->|Hm].
    + rewrite lookup_alter_eq, broadcast_nodes by done.
      rewrite decide_False by (by intros [_ ?]). fold w1. by rewrite Hn1.
    + rewrite lookup_alter_ne by done. rewrite broadcast_nodes by done. fold w1.
      rewrite (Ho m) by done. apply decide_ext. split; [by intros []|done].
  - destruct (decide (m = n)) as [->|Hm].
    + rewrite lookup_alter_eq. fold w1. by rewrite Hn1.
    + rewrite lookup_alter_ne by done. fold w1. rewrite (Ho m) by done.
      by rewrite decide_False by (by intros ?%elem_of_nil).
Qed.

Lemma tx_send_buses w n : buses (tx_send n w) = buses w.
Proof. unfold tx_send. simpl. by repeat case_match. Qed.

(** * The operations on the store *)

Inductive can_op : Type :=
  | NewCan (n : nat) (bus : option nat)
  | DeleteCan (n : nat)
  | WriteReg (n : nat) (offset val : Z)
  | Inject (n : nat) (frame : CanFrame).

Definition can_step (w : world) (o : can_op) : world :=
  match o with
  | NewCan n bus => new_can n bus w
  | DeleteCan n => delete_can n w
  | WriteReg n off v => write_reg n w off v
  | Inject n f => update_node n (fun c => snd (inject c f)) w
  end.

(** Handles are fresh, buses exist, arguments have the parameters' types. *)
Definition can_op_ok (w : world) (o : can_op) : Prop :=
  match o with
  | NewCan n bus => nodes w !! n = None /\ (forall b, bus = Some b -> is_Some (buses w !! b))
  | DeleteCan _ => True
  | WriteReg _ off v => in_u32 off /\ in_u32 v
  | Inject _ f => frame_wf f
  end.

Lemma update_node_wf n f w :
  world_wf w ->
  (forall c, nodes w !! n = Some c -> can_wf c -> can_wf (f c) /\ bus_ (f c) = bus_ c) ->
  world_wf (update_node n f w).
Proof.
  intros [Hn Hb] Hf. split; simpl.
  - intros m c [(-> & c0 & Hc & ->)|[Hm Hc]]%lookup_alter_Some; [|by eapply Hn].
    apply Hf; eauto.
  - intros b l Hl. destruct (Hb b l Hl) as (H1 & H2 & H3). split; [done|]. split; [done|].
    intros m Hm. destruct (H3 m Hm) as (c & Hc & Hbus).
    destruct (decide (m = n)) as [->|Hne].
    + exists (f c). rewrite lookup_alter_eq, Hc. split; [done|].
      destruct (Hf c Hc (Hn _ _ Hc)) as [_ ->]. done.
    + exists c. by rewrite lookup_alter_ne.
Qed.

(** A bus table survives the creation of a node, even when it attaches. *)
Lemma bus_wf_new ns b l n c :
  bus_wf ns b l -> ns !! n = None -> bus_wf (<[n:=c]> ns) b l.
Proof.
  intros (H1 & H2 & H3) Hf. split; [done|]. split; [done|].
  intros m Hm. destruct (H3 m Hm) as (cm & Hc & Hbus). exists cm.
  rewrite lookup_insert_ne; [done|]. by intros ->; rewrite Hf in Hc.
Qed.

Lemma bus_wf_attach ns b l n c :
  bus_wf ns b l -> ns !! n = None -> bus_ c = Some b ->
  bus_wf (<[n:=c]> ns) b (CanBus.attach l n).
Proof.
  intros Hl Hf Hc. pose proof (bus_wf_new _ _ _ n c Hl Hf) as (H1 & H2 & H3).
  unfold CanBus.attach. destruct (Nat.ltb_spec (length l) CanBus.MAX_NODES); [|done].
  split; [rewrite length_app; simpl; lia|]. split.
  - apply NoDup_app. split; [done|]. split; [|apply NoDup_singleton].
    intros m Hm ->%list_elem_of_singleton. destruct Hl as (_ & _ & Hl).
    destruct (Hl n Hm) as (? & E & _). congruence.
  - intros m [Hm| ->%list_elem_of_singleton]%elem_of_app; [by apply H3|].
    exists c. by rewrite lookup_insert_eq.
Qed.

Lemma new_can_wf n bus w : world_wf w -> can_op_ok w (NewCan n bus) -> world_wf (new_can n bus w).
Proof.
  intros [Hn Hb] [Hfresh Hbus]. split; simpl.
  - intros m c. rewrite lookup_insert_Some. intros [[<- <-]|[_ Hc]]; [|by eapply Hn].
    split; [apply new_ring_wf; unfold RX_CAPACITY; lia|]. split; [constructor|].
    split; [apply empty_frame_wf|]. done.
  - intros b l. destruct bus as [b'|]; [|intros Hl; apply bus_wf_new; auto].
    intros [(-> & l0 & Hl & ->)|[Hne Hl]]%lookup_alter_Some.
    + apply bus_wf_attach; auto.
    + apply bus_wf_new; auto.
Qed.

Lemma delete_can_wf n w : world_wf w -> world_wf (delete_can n w).
Proof.
  intros [Hn Hb]. unfold delete_can. destruct (nodes w !! n) as [c|] eqn:Hc; [|done].
  split; simpl.
  - intros m cm [_ Hm]%lookup_delete_Some. by eapply Hn.
  - assert (forall b l, bus_wf (nodes w) b l -> n ∉ l -> bus_wf (delete n (nodes w)) b l) as Hd.
    { intros b l (H1 & H2 & H3) Hin. split; [done|]. split; [done|]. intros m Hm.
      destruct (H3 m Hm) as (cm & Hcm & Hbus). exists cm.
      rewrite lookup_delete_ne; [done|]. by intros ->. }
    assert (forall b l, buses w !! b = Some l -> bus_ c <> Some b -> n ∉ l) as Hnot.
    { intros b l Hl Hne Hin. destruct (Hb _ _ Hl) as (_ & _ & H3).
      destruct (H3 n Hin) as (cm & Hcm & Hbus). congruence. }
    intros b l. destruct (bus_ c) as [b'|] eqn:Hbus.
    + intros [(-> & l0 & Hl & ->)|[Hne Hl]]%lookup_alter_Some.
      * destruct (Hb _ _ Hl) as (H1 & H2 & H3).
        apply Hd; [|by intros [_ ?]%detach_spec].
        destruct (detach_spec l0 n n H2) as [[H4 H5] _]. split; [lia|]. split; [done|].
        intros m [Hm _]%detach_spec; [|done]. by apply H3.
      * apply Hd; [by apply Hb|]. eapply Hnot; [done|]. congruence.
    + intros Hl. apply Hd; [by apply Hb|]. by eapply Hnot.
Qed.

(** Writing the staging registers keeps a frame CAN can carry. *)
Lemma with_tx_wf c f : can_wf c -> tx_wf (f (tx_frame_ c)) -> can_wf (with_tx f c).
Proof. intros (H1 & H2 & _ & H4) Hf. by split. Qed.

Lemma data_wf f i v :
  tx_wf f -> tx_wf (mkFrame (id f) (dlc f) (list_inserts i (le_bytes 4 v) (data f))).
Proof.
  intros ((H1 & H2 & H3 & H4) & H5). split; [|done]. split; [done|]. split; [done|].
  cbn [data]. rewrite length_inserts. auto with word.
Qed.

Lemma mask_id v : u16 (v .& 0x7FF) = v mod 0x800.
Proof.
  change 0x7FF with (Z.ones 11). rewrite land_mask by lia. change (2 ^ 11) with 0x800. word_lia.
Qed.

Lemma mask_dlc v : (if 8 <? u8 (v .& 0xF) then 8 else u8 (v .& 0xF)) = Z.min 8 (v mod 16).
Proof.
  change 0xF with (Z.ones 4). rewrite land_mask by lia. change (2 ^ 4) with 16.
  assert (u8 (v mod 16) = v mod 16) as -> by word_lia. destruct (Z.ltb_spec 8 (v mod 16)); lia.
Qed.

Lemma tx_send_wf n w : world_wf w -> world_wf (tx_send n w).
Proof.
  intros Hw. pose proof Hw as [Hn Hb]. destruct (nodes w !! n) as [c|] eqn:Hc.
  - assert (can_wf (with_sr (fun sr => (sr .& not32 SR_TX_OK) .| SR_TX_OK) c)) as Hc'.
    { destruct (Hn _ _ Hc) as (H1 & H2 & H3 & H4 & H5 & H6 & H7).
      destruct (sr_clear_tx_ok _ H4) as (K1 & _ & K2 & _).
      destruct (sr_set_tx_ok _ K1) as (L1 & _ & L2 & _).
      split; [done|]. split; [done|]. split; [done|]. split; [done|]. split; [|done].
      simpl. by rewrite L2, K2. }
    assert (frame_wf (tx_frame_ c)) as Hf by apply (Hn _ _ Hc).
    split.
    + intros m cm. rewrite (tx_send_nodes w n c) by done. case_decide; [by intros [= <-]|].
      case_decide; [|apply Hn]. intros (c0 & Hc0 & ->)%fmap_Some.
      apply inject_ok; [by eapply Hn|done].
    + intros b l. rewrite tx_send_buses. intros Hl. destruct (Hb _ _ Hl) as (H1 & H2 & H3).
      split; [done|]. split; [done|]. intros m Hm. destruct (H3 m Hm) as (cm & Hcm & Hbus).
      rewrite (tx_send_nodes w n c) by done. case_decide as Hmn.
      * eexists. split; [done|]. simpl. congruence.
      * rewrite Hcm. case_decide; [|by exists cm]. eexists. split; [done|].
        destruct (inject_ok cm (tx_frame_ c)) as [_ Hi]; [by eapply Hn|done|].
        destruct Hi as (_ & _ & _ & _ & -> & _). done.
  - assert (forall f, update_node n f w = w) as Hu.
    { intros f. destruct w as [ns bs]. unfold update_node; simpl in *. f_equal.
      apply map_eq. intros m. destruct (decide (m = n)) as [->|].
      - by rewrite lookup_alter_eq, Hc.
      - by rewrite lookup_alter_ne. }
    unfold tx_send. by rewrite Hu, Hc, Hu.
Qed.

Lemma can_step_wf w o : world_wf w -> can_op_ok w o -> world_wf (can_step w o).
Proof.
  intros Hw Ho. destruct o as [n bus|n|n off v|n f]; simpl.
  - by apply new_can_wf.
  - by apply delete_can_wf.
  - unfold write_reg. cbv zeta. rewrite mask_dlc. repeat case_if; try done; try (by apply tx_send_wf);
      (apply update_node_wf; [done|]); intros c _ Hc; (split; [|try done]).
    + apply with_tx_wf; [done|]. destruct Hc as (_ & _ & ((H1 & H2) & H3 & H4) & _).
      rewrite mask_id. split; [|simpl; split; [word_lia|done]].
      split; [simpl; word_lia|done].
    + apply with_tx_wf; [done|]. destruct Hc as (_ & _ & ((H1 & H2 & H5) & H3 & H4) & _).
      split; [|simpl; split; [done|lia]].
      split; [done|]. split; [simpl; word_lia|done].
    + apply with_tx_wf; [done|]. by apply data_wf, Hc.
    + apply with_tx_wf; [done|]. by apply data_wf, Hc.
    + by apply rx_pop_ok.
    + by apply rx_pop_ok.
    + destruct Hc as (H1 & H2 & H3 & H4 & H5 & H6 & H7). rewrite mask_id.
      split; [done|]. split; [done|]. split; [done|]. split; [done|]. split; [done|].
      split; [simpl; word_lia|done].
    + destruct Hc as (H1 & H2 & H3 & H4 & H5 & H6 & H7). rewrite mask_id.
      split; [done|]. split; [done|]. split; [done|]. split; [done|]. split; [done|].
      split; [done|simpl; word_lia].
  - apply update_node_wf; [done|]. intros c _ Hc. destruct (inject_ok c f Hc Ho) as [H1 H2].
    split; [done|]. apply H2.
Qed.

(** * Properties *)

(** A world with buses but no nodes, and what operations lead to. *)
Inductive can_reachable : world -> Prop :=
  | reach_start bs : (forall b l, bs !! b = Some l -> l = []) -> can_reachable (mkWorld ∅ bs)
  | reach_step w o : can_reachable w -> can_op_ok w o -> can_reachable (can_step w o).

(** C20: Whatever nodes are created, destroyed, written and injected into, in any
    order: every bus lists at most eight nodes, each live, once, and created on
    that bus (no dangling pointer is ever broadcast to); every node's receive
    buffer is a well-formed queue of frames; its status register reports
    RX_READY exactly when a frame waits; its transmit registers hold a legal
    frame. *)
Theorem can_invariant w : can_reachable w -> world_wf w.
Proof.
  induction 1 as [bs Hbs|w o Hw IH Ho]; [|by apply can_step_wf].
  split; [done|]. intros b l Hl. apply Hbs in Hl as ->.
  split; [simpl; lia|]. split; [constructor|]. by intros n ?%elem_of_nil.
Qed.

(** Writing TX_SEND offers the staged frame to every other node attached to
    the sender's bus exactly once: one whose filter passes the identifier
    queues it, or sets its overflow flag and drops it when 32 frames wait; one
    whose filter does not pass it is unchanged.  Nodes not attached to that bus
    are unchanged, the bus is unchanged, and the sender only reports TX_OK. *)
Theorem can_delivery w n c v :
  world_wf w -> nodes w !! n = Some c ->
  let w' := write_reg n w REG_TX_SEND v in
  let attached := match bus_ c with Some b => default [] (buses w !! b) | None => [] end in
  buses w' = buses w /\
  (forall m cm, nodes w !! m = Some cm -> m <> n ->
     exists cm', nodes w' !! m = Some cm' /\
       if decide (m ∈ attached)
       then can_wf cm' /\ exists r, inject_spec cm (tx_frame_ c) r cm'
       else cm' = cm) /\
  exists c', nodes w' !! n = Some c' /\
    bit (sr_ c') 0 = true /\ bit (sr_ c') 1 = bit (sr_ c) 1 /\ bit (sr_ c') 2 = bit (sr_ c) 2 /\
    rx_ c' = rx_ c /\ tx_frame_ c' = tx_frame_ c.
Proof.
  intros Hw Hn w' attached. unfold w'. change (write_reg n w REG_TX_SEND v) with (tx_send n w).
  split; [apply tx_send_buses|]. split.
  - intros m cm Hm Hne. rewrite (tx_send_nodes w n c) by done. rewrite decide_False by done.
    change (bus_nodes w c) with attached. rewrite Hm.
    case_decide; [|by exists cm]. eexists. split; [done|].
    destruct Hw as [Hwf _]. destruct (inject_ok cm (tx_frame_ c)) as [H1 H2];
      [by eapply Hwf|by apply (Hwf _ _ Hn)|]. eauto.
  - rewrite (tx_send_nodes w n c) by done. rewrite decide_True by done.
    eexists. split; [done|]. destruct Hw as [Hwf _].
    destruct (Hwf _ _ Hn) as (_ & _ & _ & H4 & _).
    destruct (sr_clear_tx_ok _ H4) as (K1 & _ & K2 & K3).
    destruct (sr_set_tx_ok _ K1) as (L1 & L0 & L2 & L3). simpl.
    by rewrite L0, L2, L3, K2, K3.
Qed.

(** The head of the queue, as the RX registers show it. *)
Lemma rx_registers c :
  can_wf c ->
  let f := hd empty_frame (rx_queue c) in
  read_reg c REG_RX_ID = id f /\ read_reg c REG_RX_DLC = dlc f /\
  read_reg c REG_RX_D0 = le_value (take 4 (data f)) /\
  read_reg c REG_RX_D1 = le_value (drop 4 (data f)).
Proof.
  intros Hc. pose proof Hc as (Hr & Hq & _).
  pose proof (pop_spec RX_CAPACITY (rx_ c) Hr) as E. unfold rx_queue in *.
  pose proof (length_contents RX_CAPACITY (rx_ c)) as Hl. unfold pop in E.
  destruct (contents RX_CAPACITY (rx_ c)) as [|f q]; simpl in Hl.
  - cbv zeta. unfold read_reg, rx_count. rewrite <-Hl. done.
  - destruct E as (r & E & _). rewrite <-Hl in E. cbn [Nat.eqb] in E.
    assert (buf_ (rx_ c) !!! head_ (rx_ c) = f) as Eh by congruence.
    cbv zeta. unfold read_reg, rx_count. rewrite <-Hl, Eh.
    split; [done|]. split; [done|]. split; [done|].
    change (le_value (slice 4 4 (data f)) = le_value (drop 4 (data f))).
    unfold slice. rewrite take_ge; [done|]. rewrite length_drop.
    inversion_clear Hq as [|? ? (_ & _ & Hd & _) _]. lia.
Qed.

(** C38: Reception is a queue of 32 frames.  [inject] appends a frame that passes
    the filter while there is room, sets only the overflow flag when there is
    none, and ignores others; the RX registers show the oldest frame (zeros
    when there is none), its payload words little-endian; RX_POP removes it. *)
Theorem can_reception c f :
  can_wf c -> frame_wf f ->
  (let r := passes_filter c (id f) && (length (rx_queue c) <? 32)%nat in
   fst (inject c f) = r /\
   rx_queue (snd (inject c f)) = (if r then rx_queue c ++ [f] else rx_queue c) /\
   bit (sr_ (snd (inject c f))) 2 =
     (bit (sr_ c) 2 || (passes_filter c (id f) && negb r))) /\
  (let h := hd empty_frame (rx_queue c) in
   read_reg c REG_RX_ID = id h /\ read_reg c REG_RX_DLC = dlc h /\
   read_reg c REG_RX_D0 = le_value (take 4 (data h)) /\
   read_reg c REG_RX_D1 = le_value (drop 4 (data h)) /\
   bit (read_reg c REG_SR) 1 = negb (length (rx_queue c) =? 0)%nat) /\
  rx_queue (rx_pop c) = tl (rx_queue c).
Proof.
  intros Hc Hf. destruct (inject_ok c f Hc Hf) as [_ (H1 & H2 & _ & H4 & _)].
  destruct (rx_registers c Hc) as (R1 & R2 & R3 & R4).
  assert (length (rx_queue c) <= 32)%nat as Hle.
  { unfold rx_queue. rewrite length_contents. apply Hc. }
  assert ((length (rx_queue c) <? 32)%nat = negb (length (rx_queue c) =? 32)%nat) as ->.
  { destruct (Nat.ltb_spec (length (rx_queue c)) 32), (Nat.eqb_spec (length (rx_queue c)) 32);
      simpl; lia || done. }
  split; [|split; [|by apply rx_pop_ok]].
  - split; [done|]. rewrite <-H1. split; [done|]. rewrite H4, H1.
    by destruct (passes_filter _ _), (_ =? _)%nat, (bit _ _).
  - split; [done|]. split; [done|]. split; [done|]. split; [done|].
    rewrite <-rx_ready_queue. apply Hc.
Qed.

(** Four staged registers make one frame. *)
Definition staged (i dl d0 d1 : Z) : CanFrame :=
  mkFrame (i mod 0x800) (Z.min 8 (dl mod 16)) (le_bytes 4 d0 ++ le_bytes 4 d1).

Definition stage (n : nat) (w : world) (i dl d0 d1 : Z) : world :=
  write_reg n (write_reg n (write_reg n (write_reg n w REG_TX_ID i) REG_TX_DLC dl)
    REG_TX_D0 d0) REG_TX_D1 d1.

Lemma data_words (l : list Z) d0 d1 :
  length l = 8%nat ->
  list_inserts 4 (le_bytes 4 d1) (list_inserts 0 (le_bytes 4 d0) l) = le_bytes 4 d0 ++ le_bytes 4 d1.
Proof.
  intros Hl. do 8 (destruct l as [|? l]; [done|]). destruct l; done.
Qed.

Lemma stage_nodes n w i dl d0 d1 c :
  tx_wf (tx_frame_ c) -> nodes w !! n = Some c ->
  nodes (stage n w i dl d0 d1) !! n = Some (with_tx (fun _ => staged i dl d0 d1) c) /\
  buses (stage n w i dl d0 d1) = buses w /\
  forall m, m <> n -> nodes (stage n w i dl d0 d1) !! m = nodes w !! m.
Proof.
  intros ((_ & _ & Hd & _) & _) Hc. unfold stage, write_reg. simpl Z.eqb. cbv iota zeta.
  rewrite mask_id, mask_dlc.
  split; [|split; [done|intros m Hm; simpl; by rewrite !lookup_alter_ne]].
  cbn [nodes update_node]. rewrite !lookup_alter_eq, Hc. cbn [fmap option_fmap option_map].
  unfold with_tx, staged. cbn [tx_frame_ id dlc data]. by rewrite data_words.
Qed.

Lemma stage_wf n w i dl d0 d1 :
  world_wf w -> in_u32 i -> in_u32 dl -> in_u32 d0 -> in_u32 d1 ->
  world_wf (stage n w i dl d0 d1).
Proof.
  intros Hw H1 H2 H3 H4. unfold stage.
  apply (can_step_wf _ (WriteReg n REG_TX_D1 d1)); [|by split].
  apply (can_step_wf _ (WriteReg n REG_TX_D0 d0)); [|by split].
  apply (can_step_wf _ (WriteReg n REG_TX_DLC dl)); [|by split].
  by apply (can_step_wf _ (WriteReg n REG_TX_ID i)).
Qed.

(** End to end: what node [a] writes to TX_ID, TX_DLC, TX_D0 and TX_D1 before
    TX_SEND is what an idle node [b] of the same bus, whose filter passes the
    identifier, reads from RX_ID, RX_DLC, RX_D0 and RX_D1: the identifier modulo
    2^11, the length cut to 8, both payload words unchanged. *)
Theorem can_roundtrip w a b ca cb bus l i dl d0 d1 v :
  world_wf w -> nodes w !! a = Some ca -> nodes w !! b = Some cb -> a <> b ->
  bus_ ca = Some bus -> buses w !! bus = Some l -> b ∈ l ->
  rx_queue cb = [] -> passes_filter cb (i mod 0x800) = true ->
  in_u32 i -> in_u32 dl -> in_u32 d0 -> in_u32 d1 ->
  exists cb', nodes (write_reg a (stage a w i dl d0 d1) REG_TX_SEND v) !! b = Some cb' /\
    read_reg cb' REG_RX_ID = i mod 0x800 /\
    read_reg cb' REG_RX_DLC = Z.min 8 (dl mod 16) /\
    read_reg cb' REG_RX_D0 = d0 /\ read_reg cb' REG_RX_D1 = d1.
Proof.
  intros Hw Ha Hb Hab Hbus Hl Hin Hq Hp H1 H2 H3 H4.
  pose proof (stage_wf a w i dl d0 d1 Hw H1 H2 H3 H4) as Hsw.
  pose proof Hw as [Hwf _].
  assert (tx_wf (tx_frame_ ca)) as Htx by (by apply (Hwf _ _ Ha)).
  destruct (stage_nodes a w i dl d0 d1 ca Htx Ha) as (Hsa & Hsb & Hso).
  change (write_reg a ?x REG_TX_SEND v) with (tx_send a x).
  rewrite (tx_send_nodes _ a _ b Hsw Hsa). rewrite decide_False by done.
  rewrite decide_True by (unfold bus_nodes; cbn [bus_ with_tx]; by rewrite Hbus, Hsb, Hl).
  rewrite (Hso b), Hb by done. eexists. split; [done|]. cbn [tx_frame_ with_tx].
  destruct (inject_ok cb (staged i dl d0 d1)) as [Hi (Hr & Hrq & _)]; [by eapply Hwf| |].
  { destruct Hsw as [Hsw _]. destruct (Hsw _ _ Hsa) as (_ & _ & [Hf _] & _). exact Hf. }
  rewrite Hq in Hr, Hrq. cbn [id staged] in Hr. rewrite Hp in Hr. simpl in Hr. rewrite Hr in Hrq.
  destruct (rx_registers _ Hi) as (R1 & R2 & R3 & R4). rewrite Hrq in R1, R2, R3, R4.
  rewrite R1, R2, R3, R4. unfold staged. cbn [hd app id dlc data].
  split; [done|]. split; [done|].
  change (take 4 (le_bytes 4 d0 ++ le_bytes 4 d1)) with (le_bytes 4 d0).
  change (drop 4 (le_bytes 4 d0 ++ le_bytes 4 d1)) with (le_bytes 4 d1).
  by rewrite !le_value_small.
Qed.

(** * Witnesses *)

(** Two nodes on bus 0. *)
Definition two_nodes : world :=
  can_step (can_step (mkWorld ∅ {[0%nat := []]}) (NewCan 0 (Some 0%nat))) (NewCan 1 (Some 0%nat)).

Lemma two_nodes_reachable : can_reachable two_nodes.
Proof.
  apply reach_step.
  - apply reach_step; [apply reach_start|].
    + intros b l [_ <-]%lookup_singleton_Some. done.
    + split; [done|]. intros b [= <-]. by eexists.
  - split; [done|]. intros b [= <-]. by eexists.
Qed.

Lemma two_nodes_wf : world_wf two_nodes.
Proof.
  apply can_step_wf; [apply can_step_wf|].
  - split; [done|]. intros b l. simpl. intros [_ <-]%lookup_singleton_Some.
    split; [simpl; lia|]. split; [constructor|]. by intros n ?%elem_of_nil.
  - split; [done|]. intros b [= <-]. by eexists.
  - split; [done|]. intros b [= <-]. by eexists.
Qed.

Definition idle_node : t := mkCan (Some 0%nat) empty_frame (new_ring RX_CAPACITY empty_frame) 0 0 0.

Lemma can_invariant_witness : world_wf two_nodes.
Proof. exact (can_invariant two_nodes two_nodes_reachable). Defined.

Lemma can_delivery_witness :
  exists c', nodes (write_reg 0 two_nodes REG_TX_SEND 1) !! 0%nat = Some c' /\ bit (sr_ c') 0 = true.
Proof.
  assert (nodes two_nodes !! 0%nat = Some idle_node) as Hn by (vm_compute; reflexivity).
  destruct (can_delivery two_nodes 0 idle_node 1 two_nodes_wf Hn) as (_ & _ & c' & H1 & H2 & _).
  exists c'. split; [exact H1|exact H2].
Defined.

Lemma idle_node_wf : can_wf idle_node.
Proof. by apply (proj1 two_nodes_wf 0%nat). Qed.

Lemma can_reception_witness :
  rx_queue (snd (inject idle_node empty_frame)) = [empty_frame].
Proof.
  destruct (can_reception idle_node empty_frame idle_node_wf (proj1 empty_frame_wf))
    as ((_ & E & _) & _).
  exact E.
Defined.

Lemma can_roundtrip_witness :
  exists cb', nodes (write_reg 0 (stage 0 two_nodes 0x123 8 0x04030201 0x08070605) REG_TX_SEND 1)
                !! 1%nat = Some cb' /\ read_reg cb' REG_RX_D1 = 0x08070605.
Proof.
  assert (nodes two_nodes !! 0%nat = Some idle_node) as Ha by (vm_compute; reflexivity).
  assert (nodes two_nodes !! 1%nat = Some idle_node) as Hb by (vm_compute; reflexivity).
  assert (buses two_nodes !! 0%nat = Some [0%nat; 1%nat]) as Hl by (vm_compute; reflexivity).
  destruct (can_roundtrip two_nodes 0 1 idle_node idle_node 0 [0%nat; 1%nat]
              0x123 8 0x04030201 0x08070605 1 two_nodes_wf Ha Hb) as (cb' & H1 & _ & _ & _ & H2);
    [discriminate|reflexivity|exact Hl|right; left|reflexivity|reflexivity
    |split; [discriminate|reflexivity]..|].
  exists cb'. split; [exact H1|exact H2].
Defined.
