(* ===== verification/Flash.v ===== *)
(** src/peripherals/spi.h, spi.cpp: the simulated W25Q32 flash. *)
From S2P Require Export Prelude Bytes.

Module W25Q32Flash.

Definition CAPACITY : Z := 64 * 1024.
Definition SECTOR_SIZE : Z := 4096.
Definition PAGE_SIZE : Z := 256.
Definition CMD_READ_ID : Z := 0x9F.
Definition CMD_READ_DATA : Z := 0x03.
Definition CMD_PAGE_PROGRAM : Z := 0x02.
Definition CMD_SECTOR_ERASE : Z := 0x20.
Definition CMD_READ_STATUS : Z := 0x05.
Definition CMD_WRITE_ENABLE : Z := 0x06.

Inductive State : Type := IDLE | CMD | ADDR | DATA.

Record t : Type := mkFlash {
  state_ : State;
  cmd_ : Z;
  addr_ : Z;
  addr_bytes_ : Z;
  buf_ : list Z;
  wel_ : bool;
  data_ : list Z
}.

(** The constructor fills the array with 0xFF. *)
Definition new_flash : t :=
  mkFlash IDLE 0 0 0 [] false (replicate (Z.to_nat CAPACITY) 0xFF).

Definition with_data (d : list Z) (f : t) : t :=
  mkFlash (state_ f) (cmd_ f) (addr_ f) (addr_bytes_ f) (buf_ f) (wel_ f) d.
Definition with_wel (b : bool) (f : t) : t :=
  mkFlash (state_ f) (cmd_ f) (addr_ f) (addr_bytes_ f) (buf_ f) b (data_ f).
Definition with_buf (l : list Z) (f : t) : t :=
  mkFlash (state_ f) (cmd_ f) (addr_ f) (addr_bytes_ f) l (wel_ f) (data_ f).
Definition with_state (s : State) (f : t) : t :=
  mkFlash s (cmd_ f) (addr_ f) (addr_bytes_ f) (buf_ f) (wel_ f) (data_ f).
Definition with_addr (a : Z) (f : t) : t :=
  mkFlash (state_ f) (cmd_ f) a (addr_bytes_ f) (buf_ f) (wel_ f) (data_ f).

Definition read_byte (f : t) (addr : Z) : Z :=
  if addr <? CAPACITY then data_ f !!! Z.to_nat addr else 0xFF.

(** [data_[a] &= v]. *)
Definition and_byte (a v : Z) (d : list Z) : list Z :=
  <[Z.to_nat a := (d !!! Z.to_nat a) .& v]> d.

Definition write_byte (f : t) (addr val : Z) : bool * t :=
  if CAPACITY <=? addr then (false, f)
  else (true, with_data (and_byte addr val (data_ f)) f).

Definition erase_sector (f : t) (addr : Z) : t :=
  let base := (addr / SECTOR_SIZE) * SECTOR_SIZE in
  if CAPACITY <=? base then f
  else with_data
         (list_inserts (Z.to_nat base) (replicate (Z.to_nat SECTOR_SIZE) 0xFF) (data_ f)) f.

Definition cs_assert (f : t) : t := with_buf [] (with_state CMD f).

(** The loop of [commit] from index [i]. *)
Fixpoint program_loop (page_base i : Z) (l : list Z) (d : list Z) : list Z :=
  match l with
  | [] => d
  | b :: l =>
      if i <? PAGE_SIZE then
        let a := u32 (page_base + u32 i) in
        program_loop page_base (i + 1) l (if a <? CAPACITY then and_byte a b d else d)
      else d
  end.

Definition commit (f : t) : t :=
  if (cmd_ f =? CMD_PAGE_PROGRAM) && wel_ f && negb (length (buf_ f) =? 0)%nat then
    let page_base := addr_ f .& not32 (PAGE_SIZE - 1) in
    with_wel false (with_data (program_loop page_base 0 (buf_ f) (data_ f)) f)
  else if (cmd_ f =? CMD_SECTOR_ERASE) && wel_ f then
    with_wel false (erase_sector f (addr_ f))
  else f.

Definition cs_deassert (f : t) : t := with_buf [] (with_state IDLE (commit f)).

Definition id_seq : list Z := [0xEF; 0x40; 0x16].

Definition handle_data (f : t) (tx : Z) : Z * t :=
  if cmd_ f =? CMD_READ_ID then
    let idx := length (buf_ f) in
    ((if (idx <? 3)%nat then id_seq !!! idx else 0xFF), with_buf (buf_ f ++ [tx]) f)
  else if cmd_ f =? CMD_READ_STATUS then ((if wel_ f then 0x02 else 0x00), f)
  else if cmd_ f =? CMD_READ_DATA then
    (data_ f !!! Z.to_nat (addr_ f), with_addr (u32 (addr_ f + 1) .& (CAPACITY - 1)) f)
  else if cmd_ f =? CMD_PAGE_PROGRAM then (0xFF, with_buf (buf_ f ++ [tx]) f)
  else (0xFF, f).

Definition exchange (f : t) (tx : Z) : Z * t :=
  match state_ f with
  | IDLE => (0xFF, f)
  | CMD =>
      let f := mkFlash (state_ f) tx 0 0 [] (wel_ f) (data_ f) in
      if cmd_ f =? CMD_WRITE_ENABLE then (0xFF, with_state IDLE (with_wel true f))
      else if cmd_ f =? CMD_READ_ID then (0xFF, with_state DATA f)
      else if cmd_ f =? CMD_READ_STATUS then (0xFF, with_state DATA f)
      else (0xFF, with_state ADDR f)
  | ADDR =>
      let addr := u32 (addr_ f .<< 8) .| tx in
      let n := u8 (addr_bytes_ f + 1) in
      if n =? 3 then
        (0xFF, mkFlash DATA (cmd_ f) (addr .& (CAPACITY - 1)) n (buf_ f) (wel_ f) (data_ f))
      else (0xFF, mkFlash ADDR (cmd_ f) addr n (buf_ f) (wel_ f) (data_ f))
  | DATA => handle_data f tx
  end.

(** Bytes exchanged one after the other, and the responses. *)
Fixpoint exchanges (f : t) (l : list Z) : list Z * t :=
  match l with
  | [] => ([], f)
  | tx :: l =>
      let '(b, f1) := exchange f tx in
      let '(bs, f2) := exchanges f1 l in (b :: bs, f2)
  end.

(** A chip-select window around them. *)
Definition transaction (f : t) (l : list Z) : list Z * t :=
  let '(bs, f') := exchanges (cs_assert f) l in (bs, cs_deassert f').

End W25Q32Flash.
