(* ===== verification/Spi.v ===== *)
(** src/peripherals/spi.h, spi.cpp: the SPI master that the flash is attached to. *)
From S2P Require Export Peripheral Flash.

Module Spi.

Definition BURST_REGS : Z := 64.
Definition BYTE3_SHIFT : Z := 24.

Definition REG_CR : Z := 0x00.
Definition REG_SR : Z := 0x04.
Definition REG_DR : Z := 0x08.
Definition REG_BURST_LEN : Z := 0x0C.
Definition REG_BURST_TX : Z := 0x10.
Definition REG_BURST_RX : Z := 0x50.

Definition CR_EN : Z := 1 .<< 0.
Definition CR_NSS_LOW : Z := 1 .<< 3.
Definition SR_TX_EMPTY : Z := 1 .<< 0.
Definition SR_RX_READY : Z := 1 .<< 1.

Record t : Type := mkSpi {
  cr_ : Z;
  burst_len_ : Z;
  burst_tx_ : list Z;
  burst_rx_ : list Z;
  rx_queue_ : list Z;
  flash_ : W25Q32Flash.t;
  cs_active_ : bool
}.

Definition new_spi : t :=
  mkSpi CR_EN 1 (replicate 64 0) (replicate 64 0) [] W25Q32Flash.new_flash false.

Definition with_cr (f : Z -> Z) (s : t) : t :=
  mkSpi (f (cr_ s)) (burst_len_ s) (burst_tx_ s) (burst_rx_ s) (rx_queue_ s) (flash_ s) (cs_active_ s).
Definition with_flash (f : W25Q32Flash.t) (s : t) : t :=
  mkSpi (cr_ s) (burst_len_ s) (burst_tx_ s) (burst_rx_ s) (rx_queue_ s) f (cs_active_ s).
Definition with_cs (b : bool) (s : t) : t :=
  mkSpi (cr_ s) (burst_len_ s) (burst_tx_ s) (burst_rx_ s) (rx_queue_ s) (flash_ s) b.
Definition with_queue (q : list Z) (s : t) : t :=
  mkSpi (cr_ s) (burst_len_ s) (burst_tx_ s) (burst_rx_ s) q (flash_ s) (cs_active_ s).
Definition with_rx (l : list Z) (s : t) : t :=
  mkSpi (cr_ s) (burst_len_ s) (burst_tx_ s) l (rx_queue_ s) (flash_ s) (cs_active_ s).

Definition set_nss (low : bool) (s : t) : t :=
  let s :=
    if low && negb (cs_active_ s) then
      with_cs true (with_flash (W25Q32Flash.cs_assert (flash_ s)) s)
    else if negb low && cs_active_ s then
      with_cs false (with_flash (W25Q32Flash.cs_deassert (flash_ s)) s)
    else s in
  if low then with_cr (fun cr => cr .| CR_NSS_LOW) s
  else with_cr (fun cr => cr .& not32 CR_NSS_LOW) s.

Definition transfer_byte (s : t) (tx : Z) : Z * t :=
  if cs_active_ s then
    let '(b, f) := W25Q32Flash.exchange (flash_ s) tx in (b, with_flash f s)
  else (0xFF, s).

(** The body of the loop of [do_burst] for each index. *)
Fixpoint burst_loop (l : list nat) (s : t) : t :=
  match l with
  | [] => s
  | i :: l =>
      let '(b, s1) := transfer_byte s (burst_tx_ s !!! i) in
      burst_loop l (with_rx (<[i := b]> (burst_rx_ s1)) s1)
  end.

Definition do_burst (s : t) : t :=
  let s := if negb (cs_active_ s)
           then with_cs true (with_flash (W25Q32Flash.cs_assert (flash_ s)) s) else s in
  let n_bytes := u32 (burst_len_ s * 4) in
  let s := burst_loop (seq 0 (Z.to_nat (Z.min n_bytes BURST_REGS))) s in
  let s := with_cs false (with_flash (W25Q32Flash.cs_deassert (flash_ s)) s) in
  with_cr (fun cr => cr .& not32 CR_NSS_LOW) s.

(** The word register [idx] of a burst buffer, most significant byte first. *)
Definition burst_word (l : list Z) (idx : nat) : Z :=
  u32 ((l !!! (idx * 4)%nat) .<< BYTE3_SHIFT) .| ((l !!! (idx * 4 + 1)%nat) .<< 16)
  .| ((l !!! (idx * 4 + 2)%nat) .<< 8) .| (l !!! (idx * 4 + 3)%nat).

Definition read_reg (s : t) (offset : Z) : Z * t :=
  if offset =? REG_CR then (cr_ s, s)
  else if offset =? REG_SR then
    (SR_TX_EMPTY .| (if (length (rx_queue_ s) =? 0)%nat then 0 else SR_RX_READY), s)
  else if offset =? REG_DR then
    match rx_queue_ s with
    | [] => (0xFF, s)
    | b :: q => (b, with_queue q s)
    end
  else if offset =? REG_BURST_LEN then (burst_len_ s, s)
  else if (REG_BURST_TX <=? offset) && (offset <? REG_BURST_TX + BURST_REGS) then
    (burst_word (burst_tx_ s) (Z.to_nat ((offset - REG_BURST_TX) / 4)), s)
  else if (REG_BURST_RX <=? offset) && (offset <? REG_BURST_RX + BURST_REGS) then
    (burst_word (burst_rx_ s) (Z.to_nat ((offset - REG_BURST_RX) / 4)), s)
  else (0, s).

(** The four bytes a write to word register [idx] stores. *)
Definition store_word (idx : nat) (val : Z) (l : list Z) : list Z :=
  <[(idx * 4 + 3)%nat := u8 (val .& 0xFF)]>
  (<[(idx * 4 + 2)%nat := u8 ((val .>> 8) .& 0xFF)]>
  (<[(idx * 4 + 1)%nat := u8 ((val .>> 16) .& 0xFF)]>
  (<[(idx * 4)%nat := u8 ((val .>> BYTE3_SHIFT) .& 0xFF)]> l))).

Definition write_reg (s : t) (offset val : Z) : t :=
  if offset =? REG_CR then
    let want_nss := negb (val .& CR_NSS_LOW =? 0) in
    set_nss want_nss (with_cr (fun _ => val .& 0x0F) s)
  else if offset =? REG_DR then
    let '(rx, s) := transfer_byte s (u8 (val .& 0xFF)) in
    with_queue (rx_queue_ s ++ [rx]) s
  else if offset =? REG_BURST_LEN then
    mkSpi (cr_ s) (Z.min val 16) (burst_tx_ s) (burst_rx_ s) (rx_queue_ s) (flash_ s) (cs_active_ s)
  else if (REG_BURST_TX <=? offset) && (offset <? REG_BURST_TX + BURST_REGS) then
    let idx := (offset - REG_BURST_TX) / 4 in
    let s := mkSpi (cr_ s) (burst_len_ s) (store_word (Z.to_nat idx) val (burst_tx_ s))
               (burst_rx_ s) (rx_queue_ s) (flash_ s) (cs_active_ s) in
    if burst_len_ s <=? u32 (idx + 1) then do_burst s else s
  else s.

Definition device : IPeripheral t := mkPeriph read_reg write_reg.

End Spi.
