(* ===== verification/SpiProps.v ===== *)
(** The flash command set as transactions on an array of bytes, and the SPI
    burst as one such transaction. *)
From Stdlib Require Import ZifyBool.
From S2P Require Export Spi.

Import W25Q32Flash.

(** * Invariant *)

Definition flash_wf (f : t) : Prop :=
  length (data_ f) = Z.to_nat CAPACITY /\ is_bytes (data_ f).

Lemma new_flash_wf : flash_wf new_flash.
Proof.
  split; [apply length_replicate|]. apply is_bytes_replicate. split; lia.
Qed.

(** * Exchanges *)

Lemma exchanges_app f l1 l2 :
  exchanges f (l1 ++ l2) =
  let '(b1, f1) := exchanges f l1 in
  let '(b2, f2) := exchanges f1 l2 in (b1 ++ b2, f2).
Proof.
  revert f. induction l1 as [|tx l1 IH]; intros f; simpl.
  - by destruct (exchanges f l2).
  - destruct (exchange f tx) as [b f1]. rewrite IH. destruct (exchanges f1 l1) as [b1 f2].
    by destruct (exchanges f2 l2).
Qed.

(** Exchanging bytes never touches the array: only [commit] does. *)
Lemma exchange_data f tx : data_ (snd (exchange f tx)) = data_ f.
Proof. unfold exchange, handle_data. by repeat (case_match; simpl). Qed.

Lemma exchanges_data f l : data_ (snd (exchanges f l)) = data_ f.
Proof.
  revert f. induction l as [|tx l IH]; intros f; simpl; [done|].
  pose proof (exchange_data f tx) as E. destruct (exchange f tx) as [b f1].
  specialize (IH f1). destruct (exchanges f1 l) as [bs f2]. simpl in *. congruence.
Qed.

(** [wel_] only changes when a WRITE ENABLE command is received, after which the
    rest of the transaction is ignored. *)
Lemma exchanges_idle f l : state_ f = IDLE -> snd (exchanges f l) = f.
Proof.
  revert f. induction l as [|tx l IH]; intros f Hf; simpl; [done|].
  unfold exchange. rewrite Hf. specialize (IH f Hf). by destruct (exchanges f l).
Qed.

Lemma exchange_busy f tx :
  state_ f = ADDR \/ state_ f = DATA ->
  let f' := snd (exchange f tx) in
  (state_ f' = ADDR \/ state_ f' = DATA) /\ wel_ f' = wel_ f /\ cmd_ f' = cmd_ f.
Proof.
  intros [Hs|Hs]; unfold exchange, handle_data; rewrite Hs; simpl;
    repeat (case_match; simpl); auto.
Qed.

Lemma exchanges_busy f l :
  state_ f = ADDR \/ state_ f = DATA ->
  wel_ (snd (exchanges f l)) = wel_ f /\ cmd_ (snd (exchanges f l)) = cmd_ f.
Proof.
  revert f. induction l as [|tx l IH]; intros f Hs; simpl; [done|].
  pose proof (exchange_busy f tx Hs) as (H1 & H2 & H3). destruct (exchange f tx) as [b f1].
  simpl in *. destruct (IH f1 H1) as [H4 H5]. destruct (exchanges f1 l). simpl in *.
  by rewrite H4, H5.
Qed.

Lemma exchanges_wel f tx l :
  let f' := snd (exchanges (cs_assert f) (tx :: l)) in
  cmd_ f' = tx /\ wel_ f' = ((tx =? CMD_WRITE_ENABLE) || wel_ f).
Proof.
  cbv zeta. simpl. unfold exchange. simpl state_. cbv iota zeta. cbn [cmd_].
  destruct (tx =? CMD_WRITE_ENABLE) eqn:E1.
  - pose proof (exchanges_idle (with_state IDLE (with_wel true
      (mkFlash CMD tx 0 0 [] (wel_ f) (data_ f)))) l eq_refl) as E. simpl in *.
    destruct (exchanges _ l) as [bs f2]. simpl in *. by subst f2.
  - destruct (tx =? CMD_READ_ID); [|destruct (tx =? CMD_READ_STATUS)];
      (match goal with |- context [exchanges ?f1 l] =>
         destruct (exchanges_busy f1 l) as [H1 H2]; [by auto|];
         destruct (exchanges f1 l) as [bs f2]; simpl in *; by rewrite H1, H2 end).
Qed.

(** * Addressed commands *)

Definition addressed (cmd : Z) : Prop :=
  cmd <> CMD_WRITE_ENABLE /\ cmd <> CMD_READ_ID /\ cmd <> CMD_READ_STATUS.

(** The address three bytes give: the upper one is masked off. *)
Definition address (a1 a0 : Z) : Z := a1 * 256 + a0.

(** An address byte is shifted in. *)
Lemma shift_in a tx : 0 <= a < 2 ^ 16 -> in_u8 tx -> u32 (a .<< 8) .| tx = a * 256 + tx.
Proof.
  intros Ha Htx. rewrite u32_small.
  - apply lor_shiftl; [lia|exact Htx].
  - unfold in_u32. rewrite Z.shiftl_mul_pow2 by lia. unfold in_u8 in *. lia.
Qed.

Lemma exchange_address cmd a n buf w d tx :
  0 <= a < 2 ^ 16 -> in_u8 tx -> 0 <= n < 2 ->
  exchange (mkFlash ADDR cmd a n buf w d) tx = (0xFF, mkFlash ADDR cmd (a * 256 + tx) (n + 1) buf w d).
Proof.
  intros Ha Htx Hn. unfold exchange. cbn [state_ addr_ addr_bytes_ cmd_ buf_ wel_ data_].
  rewrite shift_in by done. by assert (n = 0 \/ n = 1) as [-> | ->] by lia.
Qed.

Lemma exchange_erase_command f :
  exchange (cs_assert f) CMD_SECTOR_ERASE = (0xFF, mkFlash ADDR CMD_SECTOR_ERASE 0 0 [] (wel_ f) (data_ f)).
Proof. done. Qed.

Lemma exchanges_address f cmd a2 a1 a0 :
  addressed cmd -> in_u8 a2 -> in_u8 a1 -> in_u8 a0 ->
  exchanges (cs_assert f) [cmd; a2; a1; a0] =
  (replicate 4 0xFF, mkFlash DATA cmd (address a1 a0) 3 [] (wel_ f) (data_ f)).
Proof.
  intros (H1 & H2 & H3) Ha2 Ha1 Ha0.
  assert (exchange (cs_assert f) cmd = (0xFF, mkFlash ADDR cmd 0 0 [] (wel_ f) (data_ f))) as Hc.
  { unfold exchange. cbn [state_ cs_assert with_buf with_state]. cbv iota zeta. cbn [cmd_].
    by rewrite (proj2 (Z.eqb_neq _ _) H1), (proj2 (Z.eqb_neq _ _) H2), (proj2 (Z.eqb_neq _ _) H3). }
  cbn [exchanges]. rewrite Hc, !exchange_address by (done || unfold in_u8 in *; lia).
  rewrite Z.mul_0_l, Z.add_0_l.
  unfold exchange at 1. cbn [state_ with_state addr_ addr_bytes_ cmd_ buf_ wel_ data_].
  change (u8 (0 + 1 + 1 + 1) =? 3) with true. cbv iota zeta.
  rewrite (shift_in (a2 * 256 + a1)) by (done || unfold in_u8 in *; lia).
  change (CAPACITY - 1) with (Z.ones 16). rewrite land_mask by lia.
  assert (((a2 * 256 + a1) * 256 + a0) mod 2 ^ 16 = address a1 a0) as ->; [|done].
  replace ((a2 * 256 + a1) * 256 + a0) with (address a1 a0 + a2 * 2 ^ 16) by (unfold address; lia).
  rewrite Z.mod_add by lia. apply Z.mod_small. unfold address, in_u8 in *. lia.
Qed.

(** * The data phase *)

Lemma exchanges_read f l :
  state_ f = DATA -> cmd_ f = CMD_READ_DATA -> 0 <= addr_ f < CAPACITY ->
  fst (exchanges f l) =
  (fun k => data_ f !!! Z.to_nat ((addr_ f + Z.of_nat k) mod CAPACITY)) <$> seq 0 (length l).
Proof.
  revert f. induction l as [|tx l IH]; intros f Hs Hc Ha; [done|].
  cbn [exchanges]. unfold exchange. rewrite Hs. unfold handle_data. rewrite Hc. simpl Z.eqb.
  cbv iota. set (f1 := with_addr _ f).
  assert (addr_ f1 = (addr_ f + 1) mod CAPACITY) as E1.
  { unfold f1. cbn [addr_ with_addr]. change (CAPACITY - 1) with (Z.ones 16).
    rewrite land_mask by lia. rewrite u32_small by (unfold CAPACITY, in_u32 in *; lia). done. }
  specialize (IH f1 Hs Hc). destruct (exchanges f1 l) as [bs f2]. cbn [fst] in *.
  rewrite IH by (rewrite E1; apply Z.mod_pos_bound; done). rewrite E1. cbn [length seq fmap list_fmap].
  f_equal.
  - rewrite Z.add_0_r. by rewrite Z.mod_small.
  - rewrite <-(fmap_S_seq 0), <-list_fmap_compose. apply list_fmap_ext. intros i k _.
    simpl. do 2 f_equal. rewrite Z.add_mod_idemp_l by done. f_equal. lia.
Qed.

Lemma exchanges_program f l :
  state_ f = DATA -> cmd_ f = CMD_PAGE_PROGRAM ->
  exchanges f l = (replicate (length l) 0xFF, with_buf (buf_ f ++ l) f).
Proof.
  revert f. induction l as [|tx l IH]; intros f Hs Hc.
  - simpl. rewrite app_nil_r. by destruct f.
  - simpl. unfold exchange. rewrite Hs. unfold handle_data. rewrite Hc. simpl.
    rewrite IH by done. simpl. by rewrite <-app_assoc.
Qed.

Lemma exchanges_erase f l :
  state_ f = DATA -> cmd_ f = CMD_SECTOR_ERASE ->
  exchanges f l = (replicate (length l) 0xFF, f).
Proof.
  intros Hs Hc. induction l as [|tx l IH]; [done|].
  simpl. unfold exchange. rewrite Hs. unfold handle_data. rewrite Hc. simpl. by rewrite IH.
Qed.

(** * Bytes of the array *)

Definition byte (d : list Z) (a : Z) : Z := d !!! Z.to_nat a.

Lemma and_byte_at d a v k :
  0 <= a < Z.of_nat (length d) -> 0 <= k ->
  byte (and_byte a v d) k = if k =? a then byte d a .& v else byte d k.
Proof.
  intros Ha Hk. unfold byte, and_byte. destruct (Z.eqb_spec k a) as [->|Hne].
  - apply list_lookup_total_insert_eq. lia.
  - apply list_lookup_total_insert_ne. lia.
Qed.

Lemma length_program_loop pb i l d : length (program_loop pb i l d) = length d.
Proof.
  revert i d. induction l as [|b l IH]; intros i d; simpl; [done|].
  destruct (i <? PAGE_SIZE); [|done]. rewrite IH. destruct (_ <? CAPACITY); [|done].
  unfold and_byte. by rewrite length_insert.
Qed.

(** Page programming ANDs the bytes from the start of the page on. *)
Lemma program_loop_at pb i l d k :
  length d = Z.to_nat CAPACITY -> 0 <= pb -> pb + 256 <= CAPACITY -> 0 <= i -> 0 <= k ->
  byte (program_loop pb i l d) k =
  if (pb + i <=? k) && (k <? pb + Z.min 256 (i + Z.of_nat (length l)))
  then byte d k .& byte l (k - pb - i) else byte d k.
Proof.
  revert i d. induction l as [|b l IH]; intros i d Hd Hpb Hcap Hi Hk; simpl.
  { destruct (Z.leb_spec (pb + i) k), (Z.ltb_spec k (pb + Z.min 256 (i + Z.of_nat 0))); done || lia. }
  unfold PAGE_SIZE, CAPACITY in *. destruct (Z.ltb_spec i 256) as [Hlt|Hge].
  2:{ rewrite Z.min_l by lia.
      by destruct (Z.leb_spec (pb + i) k), (Z.ltb_spec k (pb + 256)); simpl; try lia. }
  rewrite (u32_small i) by (unfold in_u32; lia). rewrite u32_small by (unfold in_u32; lia).
  destruct (Z.ltb_spec (pb + i) (64 * 1024)); [|lia].
  rewrite IH by (lia || by unfold and_byte; rewrite length_insert).
  rewrite and_byte_at by lia. replace (i + 1 + Z.of_nat (length l))
    with (i + Z.of_nat (S (length l))) by lia.
  destruct (Z.eqb_spec k (pb + i)) as [->|Hne].
  - destruct (Z.leb_spec (pb + (i + 1)) (pb + i)); [lia|].
    destruct (Z.leb_spec (pb + i) (pb + i)); [|lia].
    destruct (Z.ltb_spec (pb + i) (pb + Z.min 256 (i + Z.of_nat (S (length l))))); [|lia].
    simpl. f_equal. unfold byte. by replace (pb + i - pb - i) with 0 by lia.
  - destruct (Z.leb_spec (pb + (i + 1)) k), (Z.leb_spec (pb + i) k); simpl; try lia.
    destruct (k <? _); [|done]. f_equal. unfold byte.
    replace (Z.to_nat (k - pb - i)) with (S (Z.to_nat (k - pb - (i + 1)))) by lia. done.
Qed.

Lemma erase_sector_at f a k :
  length (data_ f) = Z.to_nat CAPACITY -> 0 <= a < CAPACITY -> 0 <= k ->
  byte (data_ (erase_sector f a)) k =
  if k / SECTOR_SIZE =? a / SECTOR_SIZE then 0xFF else byte (data_ f) k.
Proof.
  intros Hl Ha Hk. unfold erase_sector, CAPACITY, SECTOR_SIZE in *.
  pose proof (Z.div_lt_upper_bound a 4096 16 ltac:(lia) ltac:(lia)).
  pose proof (Z.div_pos a 4096 ltac:(lia) ltac:(lia)).
  destruct (Z.leb_spec (64 * 1024) (a / 4096 * 4096)); [lia|]. cbn [data_ with_data]. unfold byte.
  destruct (Z.eqb_spec (k / 4096) (a / 4096)) as [E|E].
  - assert (a / 4096 * 4096 <= k < a / 4096 * 4096 + 4096) by (rewrite <-E; word_lia).
    rewrite list_lookup_total_inserts by (rewrite ?length_replicate; lia).
    rewrite lookup_total_replicate_2; [done|]. lia.
  - assert (k < a / 4096 * 4096 \/ a / 4096 * 4096 + 4096 <= k) as [?|?] by word_lia.
    + apply list_lookup_total_inserts_lt. lia.
    + apply list_lookup_total_inserts_ge. rewrite length_replicate. lia.
Qed.

(** * Transactions *)

Lemma and_byte_bytes a v d : is_bytes d -> in_u8 v -> is_bytes (and_byte a v d).
Proof.
  intros Hd Hv. apply Forall_insert; [done|]. unfold in_u8 in *.
  pose proof (land_range (d !!! Z.to_nat a) v ltac:(lia)). lia.
Qed.

Lemma program_loop_bytes pb i l d : is_bytes d -> is_bytes l -> is_bytes (program_loop pb i l d).
Proof.
  intros Hd Hl. revert i d Hd. induction Hl as [|b l Hb Hl IH]; intros i d Hd; simpl; [done|].
  destruct (i <? PAGE_SIZE); [|done]. apply IH.
  destruct (_ <? CAPACITY); [|done]. by apply and_byte_bytes.
Qed.

Lemma commit_wf f : flash_wf f -> is_bytes (buf_ f) -> flash_wf (commit f).
Proof.
  intros [Hl Hb] Hbuf. unfold commit, erase_sector. repeat case_if; try (split; assumption); split; cbn [data_ with_wel with_data].
  - by rewrite length_program_loop.
  - by apply program_loop_bytes.
  - by rewrite length_inserts.
  - apply is_bytes_inserts; [|done]. apply is_bytes_replicate. split; lia.
Qed.

Lemma page_base a1 a0 : in_u8 a1 -> in_u8 a0 -> address a1 a0 .& not32 (PAGE_SIZE - 1) = a1 * 256.
Proof.
  intros H1 H0. unfold address. change 256 with (2 ^ 8).
  rewrite <-(lor_shiftl a1 a0 8) by (lia || exact H0). rewrite <-Z.shiftl_mul_pow2 by lia.
  apply Z.bits_inj'. intros k Hk. rewrite Z.land_spec, Z.lor_spec.
  change (not32 (PAGE_SIZE - 1)) with (Z.shiftl (Z.ones 24) 8).
  destruct (Z.ltb_spec k 8).
  - rewrite !Z.shiftl_spec_low by lia. apply andb_false_r.
  - rewrite (testbit_high a0 8 k), orb_false_r by (exact H0 || lia).
    rewrite !Z.shiftl_spec by lia. destruct (Z.ltb_spec (k - 8) 24).
    + rewrite Z.ones_spec_low by lia. apply andb_true_r.
    + rewrite (testbit_high a1 8) by (exact H1 || lia). done.
Qed.

Lemma program_transaction f a2 a1 a0 l :
  flash_wf f -> in_u8 a2 -> in_u8 a1 -> in_u8 a0 -> is_bytes l ->
  let f' := snd (transaction f ([CMD_PAGE_PROGRAM; a2; a1; a0] ++ l)) in
  flash_wf f' /\ wel_ f' = (wel_ f && (length l =? 0)%nat) /\
  forall k, 0 <= k < CAPACITY ->
    byte (data_ f') k =
    if wel_ f && (a1 * 256 <=? k) && (k <? a1 * 256 + Z.min 256 (Z.of_nat (length l)))
    then byte (data_ f) k .& byte l (k - a1 * 256) else byte (data_ f) k.
Proof.
  intros [Hl Hb] H2 H1 H0 Hlb. unfold transaction.
  rewrite exchanges_app, exchanges_address by done. rewrite exchanges_program by done.
  cbv zeta. cbn [snd cs_deassert with_buf with_state data_ wel_ buf_ app].
  set (f1 := with_buf l _).
  assert (flash_wf (commit f1)) as Hw by (apply commit_wf; [split; assumption|exact Hlb]).
  split; [exact Hw|]. unfold commit, f1. cbn [cmd_ wel_ buf_ addr_ data_ with_buf]. simpl (_ =? _).
  rewrite page_base by done. destruct (wel_ f); [|by split]. rewrite !andb_true_l.
  destruct l as [|b l].
  - split; [done|]. intros k Hk. simpl.
    case_if; [lia|done].
  - cbn [length Nat.eqb negb]. cbv iota. split; [done|]. intros k Hk.
    cbn [data_ with_wel with_data].
    rewrite program_loop_at by (unfold CAPACITY, in_u8 in *; lia).
    by rewrite Z.add_0_r, Z.add_0_l, Z.sub_0_r.
Qed.

Lemma erase_transaction f a2 a1 a0 l :
  flash_wf f -> in_u8 a2 -> in_u8 a1 -> in_u8 a0 ->
  let f' := snd (transaction f ([CMD_SECTOR_ERASE; a2; a1; a0] ++ l)) in
  flash_wf f' /\ wel_ f' = false /\
  forall k, 0 <= k < CAPACITY ->
    byte (data_ f') k =
    if wel_ f && (k / SECTOR_SIZE =? address a1 a0 / SECTOR_SIZE) then 0xFF
    else byte (data_ f) k.
Proof.
  intros [Hl Hb] H2 H1 H0. unfold transaction.
  rewrite exchanges_app, exchanges_address by done. rewrite exchanges_erase by done.
  cbv zeta. cbn [snd cs_deassert with_buf with_state data_ wel_ buf_ app].
  set (f1 := mkFlash _ _ _ _ _ _ _).
  assert (flash_wf (commit f1)) as Hw by (apply commit_wf; [split; assumption|constructor]).
  split; [exact Hw|]. unfold commit, f1. cbn [cmd_ wel_ buf_ addr_ data_]. simpl (_ =? _).
  destruct (wel_ f); [|by split]. simpl. split; [done|]. intros k Hk.
  apply (erase_sector_at (mkFlash DATA CMD_SECTOR_ERASE (address a1 a0) 3 [] true (data_ f)));
    [done| |lia].
  unfold address, CAPACITY, in_u8 in *. lia.
Qed.

Lemma read_transaction f a2 a1 a0 l :
  in_u8 a2 -> in_u8 a1 -> in_u8 a0 ->
  fst (transaction f ([CMD_READ_DATA; a2; a1; a0] ++ l)) =
  replicate 4 0xFF ++
  ((fun k => byte (data_ f) ((address a1 a0 + Z.of_nat k) mod CAPACITY)) <$> seq 0 (length l)).
Proof.
  intros H2 H1 H0. unfold transaction. rewrite exchanges_app, exchanges_address by done.
  set (f1 := mkFlash _ _ _ _ _ _ _).
  pose proof (exchanges_read f1 l eq_refl eq_refl) as E.
  destruct (exchanges f1 l) as [bs f2]. cbn [fst] in *. rewrite E; [done|].
  simpl. unfold address, CAPACITY, in_u8 in *. lia.
Qed.

Lemma wren_transaction f :
  flash_wf f -> snd (transaction f [CMD_WRITE_ENABLE]) =
  mkFlash IDLE CMD_WRITE_ENABLE 0 0 [] true (data_ f).
Proof. done. Qed.

(** Between transactions a set latch never meets a stale erase command. *)
Definition latch_ok (f : t) : Prop := wel_ f = true -> cmd_ f <> CMD_SECTOR_ERASE.

Definition transactions (f : t) (ts : list (list Z)) : t :=
  foldl (fun f l => snd (transaction f l)) f ts.

Lemma transaction_commit f l :
  snd (transaction f l) = cs_deassert (snd (exchanges (cs_assert f) l)).
Proof. unfold transaction. by destruct (exchanges _ l). Qed.

Lemma commit_noop f :
  wel_ f = false \/ (cmd_ f <> CMD_PAGE_PROGRAM /\ cmd_ f <> CMD_SECTOR_ERASE) ->
  commit f = f.
Proof.
  intros Hf. unfold commit. destruct Hf as [->|[H1 H2]].
  - by rewrite !andb_false_r.
  - by rewrite (proj2 (Z.eqb_neq _ _) H1), (proj2 (Z.eqb_neq _ _) H2).
Qed.

(** A transaction that does not find the latch set changes no byte. *)
Lemma protected_transaction f tx l :
  wel_ f = false \/ (tx <> CMD_PAGE_PROGRAM /\ tx <> CMD_SECTOR_ERASE) ->
  let f' := snd (transaction f (tx :: l)) in
  data_ f' = data_ f /\ wel_ f' = ((tx =? CMD_WRITE_ENABLE) || wel_ f) /\ cmd_ f' = tx.
Proof.
  intros Hf. cbv zeta. rewrite transaction_commit.
  pose proof (exchanges_data (cs_assert f) (tx :: l)) as Hd.
  pose proof (exchanges_wel f tx l) as Hw. cbv zeta in Hw.
  set (f1 := snd (exchanges (cs_assert f) (tx :: l))) in *. destruct Hw as [Hc Hw].
  unfold cs_deassert. rewrite commit_noop; [by split|]. rewrite Hc, Hw.
  destruct (Z.eqb_spec tx CMD_WRITE_ENABLE) as [->|]; [by right|].
  destruct Hf as [->|?]; [by left|by right].
Qed.

(** * The SPI master *)

Definition be_bytes (v : Z) : list Z :=
  [u8 ((v .>> Spi.BYTE3_SHIFT) .& 0xFF); u8 ((v .>> 16) .& 0xFF); u8 ((v .>> 8) .& 0xFF);
   u8 (v .& 0xFF)].

Lemma store_word_inserts idx v l :
  Spi.store_word idx v l = list_inserts (idx * 4) (be_bytes v) l.
Proof.
  unfold Spi.store_word, be_bytes. cbn [list_inserts].
  replace (S (idx * 4)) with (idx * 4 + 1)%nat by lia.
  replace (S (idx * 4 + 1)) with (idx * 4 + 2)%nat by lia.
  replace (S (idx * 4 + 2)) with (idx * 4 + 3)%nat by lia.
  rewrite (list_insert_insert_ne _ (idx * 4 + 3) (idx * 4 + 2)) by lia.
  rewrite (list_insert_insert_ne _ (idx * 4 + 3) (idx * 4 + 1)) by lia.
  rewrite (list_insert_insert_ne _ (idx * 4 + 3) (idx * 4)) by lia.
  rewrite (list_insert_insert_ne _ (idx * 4 + 2) (idx * 4 + 1)) by lia.
  rewrite (list_insert_insert_ne _ (idx * 4 + 2) (idx * 4)) by lia.
  by rewrite (list_insert_insert_ne _ (idx * 4 + 1) (idx * 4)) by lia.
Qed.

Lemma slice_cons {A} `{Inhabited A} (l : list A) i m :
  (i < length l)%nat -> slice i (S m) l = l !!! i :: slice (S i) m l.
Proof.
  intros Hi. unfold slice. destruct (lookup_lt_is_Some_2 l i Hi) as [x Hx].
  rewrite (drop_S l x i Hx). simpl. by rewrite (list_lookup_total_correct l i x Hx).
Qed.

Lemma length_exchanges f l : length (fst (exchanges f l)) = length l.
Proof.
  revert f. induction l as [|tx l IH]; intros f; simpl; [done|].
  destruct (exchange f tx) as [b f1]. specialize (IH f1).
  destruct (exchanges f1 l). simpl in *. by rewrite IH.
Qed.

(** The burst loop exchanges a range of the transmit buffer and stores the
    responses in the same range of the receive buffer. *)
Lemma burst_loop_exchanges m i s :
  Spi.cs_active_ s = true -> (i + m <= length (Spi.burst_tx_ s))%nat ->
  let ex := exchanges (Spi.flash_ s) (slice i m (Spi.burst_tx_ s)) in
  Spi.burst_loop (seq i m) s =
  Spi.with_rx (list_inserts i (fst ex) (Spi.burst_rx_ s)) (Spi.with_flash (snd ex) s).
Proof.
  revert i s. induction m as [|m IH]; intros i s Hcs Hi; cbv zeta.
  - simpl. by destruct s.
  - rewrite slice_cons by lia. cbn [seq Spi.burst_loop exchanges].
    unfold Spi.transfer_byte. rewrite Hcs.
    destruct (exchange (Spi.flash_ s) (Spi.burst_tx_ s !!! i)) as [b f1] eqn:E1.
    set (s1 := Spi.with_rx (<[i:=b]> (Spi.burst_rx_ s)) (Spi.with_flash f1 s)).
    pose proof (IH (S i) s1 Hcs ltac:(simpl; lia)) as E. cbv zeta in E. unfold s1 in E.
    cbn [Spi.flash_ Spi.burst_tx_ Spi.burst_rx_ Spi.with_rx Spi.with_flash] in *.
    fold (Spi.with_flash f1 s). rewrite E. destruct (exchanges f1 _) as [bs f2]. simpl.
    unfold Spi.with_rx, Spi.with_flash. simpl. f_equal.
    by rewrite list_insert_inserts_lt by lia.
Qed.

Definition spi_wf (s : Spi.t) : Prop :=
  length (Spi.burst_tx_ s) = 64%nat /\ length (Spi.burst_rx_ s) = 64%nat /\
  0 <= Spi.burst_len_ s <= 16.

Definition with_tx (l : list Z) (s : Spi.t) : Spi.t :=
  Spi.mkSpi (Spi.cr_ s) (Spi.burst_len_ s) l (Spi.burst_rx_ s) (Spi.rx_queue_ s)
    (Spi.flash_ s) (Spi.cs_active_ s).

(** A burst is one transaction of the first [4 * burst_len_] bytes. *)
Lemma do_burst_transaction s :
  spi_wf s -> Spi.cs_active_ s = false ->
  let n := (4 * Z.to_nat (Spi.burst_len_ s))%nat in
  let tr := transaction (Spi.flash_ s) (take n (Spi.burst_tx_ s)) in
  Spi.do_burst s =
  Spi.mkSpi (Spi.cr_ s .& not32 Spi.CR_NSS_LOW) (Spi.burst_len_ s) (Spi.burst_tx_ s)
    (list_inserts 0 (fst tr) (Spi.burst_rx_ s)) (Spi.rx_queue_ s) (snd tr) false.
Proof.
  intros (Htx & Hrx & Hn) Hcs. cbv zeta. unfold Spi.do_burst. rewrite Hcs. cbn [negb].
  set (s1 := Spi.with_cs true _).
  assert (Z.to_nat (Z.min (u32 (Spi.burst_len_ s1 * 4)) Spi.BURST_REGS) =
          4 * Z.to_nat (Spi.burst_len_ s))%nat as ->.
  { change (Spi.burst_len_ s1) with (Spi.burst_len_ s). unfold Spi.BURST_REGS.
    rewrite u32_small by (unfold in_u32; lia). lia. }
  rewrite burst_loop_exchanges by (done || simpl; lia). unfold slice. rewrite drop_0.
  change (Spi.flash_ s1) with (cs_assert (Spi.flash_ s)).
  change (Spi.burst_tx_ s1) with (Spi.burst_tx_ s).
  unfold transaction. by destruct (exchanges _ _).
Qed.

Fixpoint write_words (k : Z) (ws : list Z) (s : Spi.t) : Spi.t :=
  match ws with
  | [] => s
  | w :: ws => write_words (k + 1) ws (Spi.write_reg s (Spi.REG_BURST_TX + 4 * k) w)
  end.

(** Writing word register [k]. *)
Lemma write_burst_word s k w :
  0 <= k < 16 ->
  Spi.write_reg s (Spi.REG_BURST_TX + 4 * k) w =
  let s' := with_tx (list_inserts (4 * Z.to_nat k) (be_bytes w) (Spi.burst_tx_ s)) s in
  if Spi.burst_len_ s <=? k + 1 then Spi.do_burst s' else s'.
Proof.
  intros Hk. unfold Spi.write_reg, Spi.REG_CR, Spi.REG_DR, Spi.REG_BURST_LEN, Spi.REG_BURST_TX,
    Spi.BURST_REGS.
  rewrite !(proj2 (Z.eqb_neq _ _)) by lia. rewrite (proj2 (Z.leb_le _ _)) by lia.
  rewrite (proj2 (Z.ltb_lt _ _)) by lia. cbn [andb].
  replace ((0x10 + 4 * k - 0x10) / 4) with k by (Z.div_mod_to_equations; lia).
  rewrite (u32_small (k + 1)) by (unfold in_u32; lia). rewrite store_word_inserts.
  by rewrite (Nat.mul_comm (Z.to_nat k) 4).
Qed.

(** The last word of a burst starts it, with all words in place. *)
Lemma write_words_burst k ws s :
  0 <= k -> ws <> [] -> Spi.burst_len_ s <= 16 -> k + Z.of_nat (length ws) = Spi.burst_len_ s ->
  write_words k ws s =
  Spi.do_burst
    (with_tx (list_inserts (4 * Z.to_nat k) (concat (be_bytes <$> ws)) (Spi.burst_tx_ s)) s).
Proof.
  revert k s. induction ws as [|w ws IH]; intros k s Hk Hne Hn Hlen; [done|].
  cbn [write_words length] in *. rewrite write_burst_word by lia. cbv zeta.
  destruct ws as [|w2 ws].
  - rewrite (proj2 (Z.leb_le _ _)) by (simpl in Hlen; lia). done.
  - rewrite (proj2 (Z.leb_gt _ _)) by (simpl in Hlen; lia).
    rewrite IH by (done || simpl in *; lia). f_equal. unfold with_tx. simpl Spi.cr_. f_equal.
    cbn [fmap list_fmap concat Spi.burst_tx_]. rewrite (list_inserts_app_l (be_bytes w)).
    f_equal. simpl. lia.
Qed.

(** * Properties *)

(** C23: PAGE PROGRAM and SECTOR ERASE, as whole transactions.  With the write
    enable latch set, programming ANDs up to 256 bytes into the array from the
    start of the addressed page on, and erasing sets the addressed 4 KB sector
    to 0xFF; every other byte is unchanged, the latch is cleared (a program
    without data keeps it), and without the latch nothing changes. *)
Theorem flash_write f a2 a1 a0 l :
  flash_wf f -> in_u8 a2 -> in_u8 a1 -> in_u8 a0 -> is_bytes l ->
  (let f' := snd (transaction f ([CMD_PAGE_PROGRAM; a2; a1; a0] ++ l)) in
   flash_wf f' /\ wel_ f' = (wel_ f && (length l =? 0)%nat) /\
   forall k, 0 <= k < CAPACITY ->
     byte (data_ f') k =
     if wel_ f && (a1 * 256 <=? k) && (k <? a1 * 256 + Z.min 256 (Z.of_nat (length l)))
     then byte (data_ f) k .& byte l (k - a1 * 256) else byte (data_ f) k) /\
  (let f' := snd (transaction f ([CMD_SECTOR_ERASE; a2; a1; a0] ++ l)) in
   flash_wf f' /\ wel_ f' = false /\
   forall k, 0 <= k < CAPACITY ->
     byte (data_ f') k =
     if wel_ f && (k / SECTOR_SIZE =? address a1 a0 / SECTOR_SIZE) then 0xFF
     else byte (data_ f) k).
Proof.
  intros Hf H2 H1 H0 Hl. split; [by apply program_transaction|by apply erase_transaction].
Qed.

(** An erase that is cut short: the address bytes sent so far count as the whole
    address, so fewer than three erase a sector that was never addressed. *)
Lemma erase_truncated f l :
  flash_wf f -> wel_ f = true -> is_bytes l -> (length l < 3)%nat ->
  let addr := foldl (fun a b => a * 256 + b) 0 l in
  let f' := snd (transaction f (CMD_SECTOR_ERASE :: l)) in
  wel_ f' = false /\
  forall k, 0 <= k < CAPACITY ->
    byte (data_ f') k = if k / SECTOR_SIZE =? addr / SECTOR_SIZE then 0xFF else byte (data_ f) k.
Proof.
  intros [Hl Hb] Hw Hbs Hlen addr f'.
  assert (0 <= addr < CAPACITY /\ exists n,
    snd (exchanges (cs_assert f) (CMD_SECTOR_ERASE :: l)) =
    mkFlash ADDR CMD_SECTOR_ERASE addr n [] true (data_ f)) as (Ha & n & E).
  { unfold addr. destruct l as [|b1 [|b2 [|]]]; [..|cbn in Hlen; lia]; cbn [foldl].
    - split; [done|]. exists 0. cbn [exchanges]. by rewrite exchange_erase_command, Hw.
    - apply Forall_cons in Hbs as [H1 _]. split; [unfold CAPACITY, in_u8 in *; lia|].
      exists 1. cbn. rewrite (shift_in 0) by (done || lia). by rewrite Hw.
    - apply Forall_cons in Hbs as [H1 [H2 _]%Forall_cons]. split; [unfold CAPACITY, in_u8 in *; lia|].
      exists 2. cbn [exchanges].
      rewrite exchange_erase_command, !exchange_address by (done || unfold in_u8 in *; lia). by rewrite Hw. }
  unfold f'. rewrite transaction_commit. rewrite E. unfold cs_deassert, commit.
  cbn [cmd_ wel_ buf_ addr_ andb]. simpl (_ =? _). cbn [andb wel_ with_buf with_state with_wel data_].
  split; [done|]. intros k Hk.
  apply (erase_sector_at (mkFlash ADDR CMD_SECTOR_ERASE addr n [] true (data_ f))); [done|lia|lia].
Qed.

(** Write protection.  Starting with the latch clear, no sequence of
    transactions without a WRITE ENABLE, whatever bytes it sends, changes a
    byte of the array or sets the latch; and even with the latch set, a
    transaction whose command is neither PAGE PROGRAM nor SECTOR ERASE changes
    nothing but the latch, which only WRITE ENABLE sets. *)
Theorem flash_write_protect f ts :
  Forall (fun l => hd 0 l <> CMD_WRITE_ENABLE) ts ->
  (wel_ f = false ->
   data_ (transactions f ts) = data_ f /\ wel_ (transactions f ts) = false) /\
  (forall tx l, tx <> CMD_PAGE_PROGRAM -> tx <> CMD_SECTOR_ERASE ->
   data_ (snd (transaction f (tx :: l))) = data_ f /\
   wel_ (snd (transaction f (tx :: l))) = ((tx =? CMD_WRITE_ENABLE) || wel_ f)).
Proof.
  intros Hts. split.
  - revert f. induction Hts as [|l ts Hl Hts IH]; intros f Hf; [done|].
    unfold transactions. cbn [foldl]. fold (transactions (snd (transaction f l)) ts).
    destruct l as [|tx l].
    + rewrite transaction_commit. cbn [exchanges snd]. unfold cs_deassert.
      rewrite commit_noop by (by left). destruct (IH (with_buf [] (with_state IDLE (cs_assert f))) Hf).
      done.
    + destruct (protected_transaction f tx l (or_introl Hf)) as (H1 & H2 & _).
      rewrite Hf, orb_false_r in H2. cbn [hd] in Hl. rewrite (proj2 (Z.eqb_neq _ _) Hl) in H2.
      destruct (IH _ H2) as [H3 H4]. by rewrite H3, H1, H4.
  - intros tx l H1 H2. destruct (protected_transaction f tx l) as (H3 & H4 & _); [by right|done].
Qed.

(** Round trip.  Erasing a sector and programming up to 256 bytes at the
    start of one of its pages makes READ at that address return exactly those
    bytes, leaves the rest of the sector erased and every byte outside the
    sector as it was. *)
Theorem flash_roundtrip f a2 a1 l dummy :
  flash_wf f -> in_u8 a2 -> in_u8 a1 -> is_bytes l -> (length l <= 256)%nat ->
  length dummy = length l ->
  let f' := transactions f
    [[CMD_WRITE_ENABLE]; [CMD_SECTOR_ERASE; a2; a1; 0];
     [CMD_WRITE_ENABLE]; [CMD_PAGE_PROGRAM; a2; a1; 0] ++ l] in
  fst (transaction f' ([CMD_READ_DATA; a2; a1; 0] ++ dummy)) = replicate 4 0xFF ++ l /\
  forall k, 0 <= k < CAPACITY -> ~ a1 * 256 <= k < a1 * 256 + Z.of_nat (length l) ->
    byte (data_ f') k =
    if k / SECTOR_SIZE =? a1 * 256 / SECTOR_SIZE then 0xFF else byte (data_ f) k.
Proof.
  intros Hf H2 H1 Hl Hlen Hdummy f'. unfold f', transactions. cbn [foldl].
  assert (in_u8 0) as H0 by (split; lia).
  rewrite (wren_transaction f Hf). set (f1 := mkFlash _ _ _ _ _ _ _).
  destruct (erase_transaction f1 a2 a1 0 [] Hf H2 H1 H0) as (W2 & _ & D2).
  rewrite app_nil_r in *. set (f2 := snd (transaction f1 [CMD_SECTOR_ERASE; a2; a1; 0])) in *.
  rewrite (wren_transaction f2 W2). set (f3 := mkFlash _ _ _ _ _ _ _).
  destruct (program_transaction f3 a2 a1 0 l W2 H2 H1 H0 Hl) as (W4 & _ & D4).
  set (f4 := snd (transaction f3 _)) in *. unfold address in D2. rewrite Z.add_0_r in D2.
  change (wel_ f1) with true in D2. change (wel_ f3) with true in D4.
  change (data_ f1) with (data_ f) in D2. change (data_ f3) with (data_ f2) in D4.
  cbn [andb] in D2, D4. rewrite Z.min_r in D4 by lia.
  assert (a1 * 256 + 256 <= CAPACITY) as Hcap by (unfold CAPACITY, in_u8 in *; lia).
  split.
  - rewrite read_transaction by done. f_equal. rewrite Hdummy. apply list_eq. intros i.
    rewrite list_lookup_fmap. destruct (decide (i < length l)%nat) as [Hi|Hi].
    + rewrite lookup_seq_lt by done. cbn [fmap option_fmap option_map Nat.add]. unfold address.
      rewrite Z.add_0_r, Z.mod_small by (unfold CAPACITY, in_u8 in *; lia).
      rewrite D4 by (unfold in_u8 in *; lia).
      rewrite (proj2 (Z.leb_le _ _)), (proj2 (Z.ltb_lt _ _)) by lia. cbn [andb].
      rewrite D2 by (unfold in_u8 in *; lia).
      assert ((a1 * 256 + Z.of_nat i) / SECTOR_SIZE = a1 * 256 / SECTOR_SIZE) as ->
        by (unfold SECTOR_SIZE; word_lia).
      rewrite Z.eqb_refl. replace (a1 * 256 + Z.of_nat i - a1 * 256) with (Z.of_nat i) by lia.
      unfold byte. rewrite Nat2Z.id. destruct (lookup_lt_is_Some_2 l i Hi) as [b Hb].
      rewrite (list_lookup_total_correct _ _ _ Hb), Hb. f_equal.
      change 0xFF with (Z.ones 8). rewrite Z.land_comm, land_mask by lia. apply Z.mod_small.
      by apply (Forall_lookup_1 _ _ _ _ Hl Hb).
    + rewrite !lookup_ge_None_2; [done|lia|rewrite length_seq; lia].
  - intros k Hk Hout. rewrite D4, D2 by done. case_if; [lia|done].
Qed.

Lemma length_concat_be ws : length (concat (be_bytes <$> ws)) = (4 * length ws)%nat.
Proof. induction ws as [|w ws IH]; [done|]. cbn. rewrite IH. lia. Qed.

Lemma burst_word_inserts bs rx k :
  (4 * k + 3 < length bs)%nat -> (length bs <= length rx)%nat ->
  Spi.burst_word (list_inserts 0 bs rx) k = Spi.burst_word bs k.
Proof.
  intros Hk Hl. unfold Spi.burst_word.
  by rewrite !list_lookup_total_inserts, !Nat.sub_0_r by lia.
Qed.

(** The burst engine.  On a well-formed idle controller, writing the number
    [n] of words (1 to 16) and then the [n] transmit registers performs exactly
    one flash transaction, of the words' bytes from the most significant on,
    and the receive registers then read the response words; chip select is
    released and the byte-wise receive queue is untouched. *)
Theorem spi_burst s ws :
  spi_wf s -> Spi.cs_active_ s = false -> (1 <= length ws <= 16)%nat ->
  let n := Z.of_nat (length ws) in
  let s' := write_words 0 ws (Spi.write_reg s Spi.REG_BURST_LEN n) in
  let tr := transaction (Spi.flash_ s) (concat (be_bytes <$> ws)) in
  Spi.flash_ s' = snd tr /\ Spi.cs_active_ s' = false /\
  Spi.rx_queue_ s' = Spi.rx_queue_ s /\ spi_wf s' /\
  forall k, 0 <= k < n ->
    Spi.read_reg s' (Spi.REG_BURST_RX + 4 * k) = (Spi.burst_word (fst tr) (Z.to_nat k), s').
Proof.
  intros (Htx & Hrx & Hlen) Hcs Hws n s' tr.
  assert (s' = Spi.mkSpi (Spi.cr_ s .& not32 Spi.CR_NSS_LOW) n
    (list_inserts 0 (concat (be_bytes <$> ws)) (Spi.burst_tx_ s))
    (list_inserts 0 (fst tr) (Spi.burst_rx_ s)) (Spi.rx_queue_ s) (snd tr) false) as Es.
  { unfold s'. change (Spi.write_reg s Spi.REG_BURST_LEN n) with
      (Spi.mkSpi (Spi.cr_ s) (Z.min n 16) (Spi.burst_tx_ s) (Spi.burst_rx_ s)
         (Spi.rx_queue_ s) (Spi.flash_ s) (Spi.cs_active_ s)).
    rewrite Z.min_l by lia.
    rewrite write_words_burst by (done || (destruct ws; simpl in *; done || lia)).
    rewrite do_burst_transaction; [|split; [|split]|done].
    - simpl Spi.burst_len_. simpl Spi.burst_tx_.
      assert (take (4 * Z.to_nat n) (list_inserts 0 (concat (be_bytes <$> ws)) (Spi.burst_tx_ s))
        = concat (be_bytes <$> ws)) as E.
      { unfold n. rewrite Nat2Z.id, <-length_concat_be.
        pose proof (slice_inserts_same 0 (concat (be_bytes <$> ws)) (Spi.burst_tx_ s)) as E.
        unfold slice in E. rewrite drop_0 in E. apply E. rewrite length_concat_be. lia. }
      change (4 * Z.to_nat 0)%nat with 0%nat. by rewrite E.
    - simpl. by rewrite length_inserts.
    - done.
    - simpl. lia. }
  rewrite Es. cbn [Spi.flash_ Spi.cs_active_ Spi.rx_queue_].
  assert (length (fst tr) = 4 * length ws)%nat as Hl.
  { unfold tr, transaction. rewrite <-length_concat_be.
    pose proof (length_exchanges (cs_assert (Spi.flash_ s)) (concat (be_bytes <$> ws))) as E.
    by destruct (exchanges _ _). }
  split; [done|]. split; [done|]. split; [done|]. split.
  - split; [simpl; by rewrite length_inserts|]. split; [simpl; by rewrite length_inserts|].
    simpl. lia.
  - intros k Hk. unfold Spi.read_reg, Spi.REG_CR, Spi.REG_SR, Spi.REG_DR, Spi.REG_BURST_LEN,
      Spi.REG_BURST_TX, Spi.REG_BURST_RX, Spi.BURST_REGS.
    rewrite !(proj2 (Z.eqb_neq _ _)) by lia.
    rewrite (proj2 (Z.ltb_ge _ (0x10 + 64))) by lia. rewrite andb_false_r.
    rewrite (proj2 (Z.leb_le _ _)), (proj2 (Z.ltb_lt _ _)) by lia. cbn [andb].
    replace ((0x50 + 4 * k - 0x50) / 4) with k by (Z.div_mod_to_equations; lia).
    simpl Spi.burst_rx_. by rewrite burst_word_inserts by lia.
Qed.

(** * Witnesses *)

(** Programming 0x12 at the start of page 1 of an erased flash with the latch set. *)
Lemma flash_write_witness :
  let f' := snd (transaction (with_wel true new_flash) ([CMD_PAGE_PROGRAM; 0; 1; 0] ++ [0x12])) in
  wel_ f' = false /\ byte (data_ f') 0x100 = byte (data_ new_flash) 0x100 .& 0x12.
Proof.
  assert (is_bytes [0x12]) as Hl by (constructor; [split; lia|constructor]).
  destruct (flash_write (with_wel true new_flash) 0 1 0 [0x12] new_flash_wf) as [(_ & E & Hb) _];
    [split; lia..|exact Hl|].
  split; [exact E|]. refine (Hb 0x100 _). unfold CAPACITY. lia.
Defined.

Lemma flash_write_protect_witness :
  data_ (transactions new_flash [[CMD_SECTOR_ERASE; 0; 0; 0]; [CMD_PAGE_PROGRAM; 0; 0; 0; 0]]) =
  data_ new_flash.
Proof.
  refine (proj1 (proj1 (flash_write_protect new_flash
    [[CMD_SECTOR_ERASE; 0; 0; 0]; [CMD_PAGE_PROGRAM; 0; 0; 0; 0]] _) eq_refl)).
  constructor; [discriminate|]. constructor; [discriminate|constructor].
Defined.

Lemma flash_roundtrip_witness :
  fst (transaction
    (transactions new_flash
      [[CMD_WRITE_ENABLE]; [CMD_SECTOR_ERASE; 0; 3; 0];
       [CMD_WRITE_ENABLE]; [CMD_PAGE_PROGRAM; 0; 3; 0] ++ [0xCA; 0xFE]])
    ([CMD_READ_DATA; 0; 3; 0] ++ [0; 0])) = replicate 4 0xFF ++ [0xCA; 0xFE].
Proof.
  refine (proj1 (flash_roundtrip new_flash 0 3 [0xCA; 0xFE] [0; 0] new_flash_wf _ _ _ _ _)).
  - split; lia.
  - split; lia.
  - constructor; [split; lia|]. constructor; [split; lia|constructor].
  - simpl. lia.
  - reflexivity.
Defined.

(** A burst of one word sends READ ID. *)
Lemma spi_burst_witness :
  let s' := write_words 0 [0x9F000000] (Spi.write_reg Spi.new_spi Spi.REG_BURST_LEN 1) in
  Spi.read_reg s' (Spi.REG_BURST_RX + 4 * 0) = (0xFFEF4016, s').
Proof.
  assert (spi_wf Spi.new_spi) as Hw.
  { split; [reflexivity|]. split; [reflexivity|]. simpl. lia. }
  destruct (spi_burst Spi.new_spi [0x9F000000] Hw eq_refl) as (_ & _ & _ & _ & H);
    [simpl; lia|].
  intros s'. etransitivity; [apply (H 0); simpl; lia|]. reflexivity.
Defined.
