(* ===== verification/Lm75.v ===== *)
(** src/peripherals/i2c.h: the LM75 temperature sensor. *)
From S2P Require Export Prelude.

Module Lm75.

Definition DEFAULT_ADDR : Z := 0x48.
Definition REG_TEMP : Z := 0x00.
Definition REG_CONF : Z := 0x01.
Definition REG_TOS : Z := 0x02.
Definition REG_THYST : Z := 0x03.

(** Four registers of two bytes, most significant first. *)
Record t : Type := mkLm75 { regs_ : list Z }.

(** The constructor: 25.0, configuration 0, 80.0 and 75.0 degrees. *)
Definition new_lm75 : t := mkLm75 [0x19; 0x00; 0x00; 0x00; 0x50; 0x00; 0x4B; 0x00].

Definition read_reg16 (s : t) (reg : Z) : Z :=
  if 3 <? reg then 0
  else
    let base := Z.to_nat (reg * 2) in
    u16 (((regs_ s !!! base) .<< 8) .| (regs_ s !!! (base + 1)%nat)).

Definition write_reg16 (s : t) (reg val : Z) : t :=
  if 3 <? reg then s
  else
    let base := Z.to_nat (reg * 2) in
    mkLm75 (<[(base + 1)%nat := u8 (val .& 0xFF)]> (<[base := u8 (val .>> 8)]> (regs_ s))).

Definition set_temperature_raw (s : t) (raw_9bit : Z) : t :=
  mkLm75 (<[1%nat := if negb (raw_9bit .& 1 =? 0) then 0x80 else 0x00]>
            (<[0%nat := u8 ((raw_9bit .>> 1) .& 0xFF)]> (regs_ s))).

(** Division and remainder of C++ round towards zero. *)
Definition set_temperature_c10 (s : t) (temp_c10 : Z) : t :=
  let integer_part := Z.quot temp_c10 10 in
  let half := 5 <=? Z.rem temp_c10 10 in
  mkLm75 (<[1%nat := if half then 0x80 else 0x00]>
            (<[0%nat := u8 (s8 integer_part)]> (regs_ s))).

(** The [float] returned, counted in half degrees: the values are multiples of
    0.5 below 128 and a [float] holds them exactly. *)
Definition temperature_c_halves (s : t) : Z :=
  let msb := s8 (regs_ s !!! 0%nat) in
  let f := 2 * msb in
  if negb ((regs_ s !!! 1%nat) .& 0x80 =? 0) then f + 1 else f.

End Lm75.
