(* ===== verification/I2c.v ===== *)
(** src/peripherals/i2c.h, i2c.cpp: the I2C master in front of the sensor. *)
From S2P Require Export Peripheral Lm75.

Module I2c.

Definition REG_CR : Z := 0x00.
Definition REG_SR : Z := 0x04.
Definition REG_DR : Z := 0x08.
Definition REG_REG_ADDR : Z := 0x0C.

Definition CR_READ : Z := 1 .<< 8.
Definition CR_START : Z := 1 .<< 9.
Definition CR_STOP : Z := 1 .<< 10.

Definition SR_BUSY : Z := 1 .<< 0.
Definition SR_ACK_OK : Z := 1 .<< 1.
Definition SR_NACK : Z := 1 .<< 2.
Definition SR_RX_READY : Z := 1 .<< 3.

Record t : Type := mkI2c {
  sr_ : Z;
  reg_addr_ : Z;
  rx_queue_ : list Z;
  lm75_ : Lm75.t
}.

Definition new_i2c : t := mkI2c 0 0 [] Lm75.new_lm75.

Definition with_sr (v : Z) (s : t) : t := mkI2c v (reg_addr_ s) (rx_queue_ s) (lm75_ s).
Definition with_reg_addr (v : Z) (s : t) : t := mkI2c (sr_ s) v (rx_queue_ s) (lm75_ s).
Definition with_queue (q : list Z) (s : t) : t := mkI2c (sr_ s) (reg_addr_ s) q (lm75_ s).
Definition with_lm75 (m : Lm75.t) (s : t) : t := mkI2c (sr_ s) (reg_addr_ s) (rx_queue_ s) m.

Definition read_reg (s : t) (offset : Z) : Z * t :=
  if offset =? REG_SR then (sr_ s, s)
  else if offset =? REG_DR then
    match rx_queue_ s with
    | [] => (0xFF, s)
    | byte :: q =>
        let s := with_queue q s in
        (byte, match q with [] => with_sr (sr_ s .& not32 SR_RX_READY) s | _ => s end)
    end
  else if offset =? REG_REG_ADDR then (reg_addr_ s, s)
  else (0, s).

Definition dispatch_read (s : t) (slave reg : Z) : bool * t :=
  if negb (slave =? Lm75.DEFAULT_ADDR) then (false, s)
  else
    let word := Lm75.read_reg16 (lm75_ s) reg in
    (true, with_queue [u8 (word .>> 8); u8 (word .& 0xFF)] s).

(** [data] is the array passed with its length. *)
Definition dispatch_write (s : t) (slave reg : Z) (data : list Z) : bool * t :=
  if negb (slave =? Lm75.DEFAULT_ADDR) then (false, s)
  else if (length data <? 2)%nat then (false, s)
  else
    let val := u16 (((data !!! 0%nat) .<< 8) .| (data !!! 1%nat)) in
    (true, with_lm75 (Lm75.write_reg16 (lm75_ s) reg val) s).

Definition write_reg (s : t) (offset val : Z) : t :=
  if offset =? REG_CR then
    let slave := u8 (val .& 0x7F) in
    let read := negb (val .& CR_READ =? 0) in
    let start := negb (val .& CR_START =? 0) in
    if negb start then s
    else
      let s := with_sr SR_BUSY s in
      if read then
        match dispatch_read s slave (reg_addr_ s) with
        | (true, s) => with_sr (SR_ACK_OK .| SR_RX_READY) s
        | (false, s) => with_sr SR_NACK s
        end
      else
        let stop := negb (val .& CR_STOP =? 0) in
        let reg := u8 ((val .>> 8) .& 0xFF) in
        let data16 := u16 ((val .>> 16) .& 0xFFFF) in
        let s := with_reg_addr reg s in
        if stop then
          match dispatch_write s slave reg [u8 (data16 .>> 8); u8 (data16 .& 0xFF)] with
          | (true, s) => with_sr SR_ACK_OK s
          | (false, s) => with_sr SR_NACK s
          end
        else with_sr SR_ACK_OK s
  else if offset =? REG_REG_ADDR then with_reg_addr (u8 (val .& 0xFF)) s
  else s.

(** Returns the number of bytes queued; the byte count asked for is unused. *)
Definition read_sensor_reg (s : t) (slave_addr reg : Z) : nat * t :=
  let s := with_reg_addr reg s in
  match dispatch_read s slave_addr reg with
  | (false, s) => (0%nat, with_sr SR_NACK s)
  | (true, s) => (length (rx_queue_ s), with_sr (SR_ACK_OK .| SR_RX_READY) s)
  end.

Definition write_sensor_reg (s : t) (slave_addr reg value : Z) : t :=
  match dispatch_write s slave_addr reg [u8 (value .>> 8); u8 (value .& 0xFF)] with
  | (true, s) => with_sr SR_ACK_OK s
  | (false, s) => with_sr SR_NACK s
  end.

Definition device : IPeripheral t := mkPeriph read_reg write_reg.

End I2c.
