(* ===== verification/I2cProps.v ===== *)
(** The LM75 and the I2C register protocol. *)
From Stdlib Require Import ZifyBool.
From S2P Require Export I2c Bytes.

Import I2c.

Definition lm75_wf (m : Lm75.t) : Prop := length (Lm75.regs_ m) = 8%nat /\ is_bytes (Lm75.regs_ m).

Lemma lm75_cases m :
  lm75_wf m -> exists a b c d e f g h, Lm75.regs_ m = [a; b; c; d; e; f; g; h] /\ is_bytes [a; b; c; d; e; f; g; h].
Proof.
  intros [Hl Hb]. destruct m as [l]; simpl in *.
  do 8 (destruct l as [|? l]; [done|]). destruct l; [|done]. eauto 10.
Qed.

Lemma pack_word a b : in_u8 a -> in_u8 b -> u16 ((a .<< 8) .| b) = a * 256 + b.
Proof.
  intros Ha Hb. rewrite lor_shiftl by (lia || exact Hb). change (2 ^ 8) with 256.
  apply u16_small. unfold in_u8, in_u16 in *. lia.
Qed.

Lemma word_high v : in_u16 v -> u8 (v .>> 8) = v / 256.
Proof. intros Hv. rewrite Z.shiftr_div_pow2 by lia. change (2 ^ 8) with 256. word_lia. Qed.

Lemma word_low v : u8 (v .& 0xFF) = v mod 256.
Proof. change 0xFF with (Z.ones 8). rewrite land_mask by lia. change (2 ^ 8) with 256. word_lia. Qed.

(** * Sensor registers *)

Lemma read_write_reg16 m r r' v :
  lm75_wf m -> 0 <= r <= 3 -> 0 <= r' <= 3 -> in_u16 v ->
  lm75_wf (Lm75.write_reg16 m r v) /\
  Lm75.read_reg16 (Lm75.write_reg16 m r v) r' =
    if r' =? r then v else Lm75.read_reg16 m r'.
Proof.
  intros Hm Hr Hr' Hv. destruct (lm75_cases m Hm) as (a & b & c & d & e & f & g & h & E & Hb).
  unfold Lm75.write_reg16, Lm75.read_reg16. rewrite (proj2 (Z.ltb_ge 3 r)), (proj2 (Z.ltb_ge 3 r')) by lia.
  rewrite word_high, word_low by done. rewrite E.
  assert (in_u8 (v / 256)) as Hh by word_lia.
  assert (in_u8 (v mod 256)) as Hl by word_lia.
  split.
  - split; simpl; [by rewrite !length_insert|]. by repeat apply Forall_insert.
  - assert (r = 0 \/ r = 1 \/ r = 2 \/ r = 3) as Er by lia.
    assert (r' = 0 \/ r' = 1 \/ r' = 2 \/ r' = 3) as Er' by lia.
    assert (v / 256 * 256 + v mod 256 = v) as Ev by (Z.div_mod_to_equations; lia).
    destruct Er as [->|[->|[->| ->]]], Er' as [->|[->|[->| ->]]]; cbn;
      rewrite ?pack_word by done; done.
Qed.

Lemma read_reg16_range m r : lm75_wf m -> 0 <= r -> in_u16 (Lm75.read_reg16 m r).
Proof. intros _ _. unfold Lm75.read_reg16. destruct (3 <? r); [done|]. apply u16_range. Qed.

(** * Properties *)

(** Temperatures.  Setting a raw 9-bit value gives exactly that many half
    degrees and the register word [128 * raw]; setting tenths of a degree
    rounds down to the half degree from zero up, and below zero drops the
    fraction altogether. *)
Theorem lm75_temperature m :
  lm75_wf m ->
  (forall raw, -256 <= raw < 256 ->
     Lm75.temperature_c_halves (Lm75.set_temperature_raw m raw) = raw /\
     Lm75.read_reg16 (Lm75.set_temperature_raw m raw) Lm75.REG_TEMP = u16 (128 * raw)) /\
  (forall c10, 0 <= c10 < 1280 ->
     Lm75.temperature_c_halves (Lm75.set_temperature_c10 m c10) = c10 / 5) /\
  (forall c10, -1280 <= c10 < 0 ->
     Lm75.temperature_c_halves (Lm75.set_temperature_c10 m c10) = 2 * - (- c10 / 10)).
Proof.
  intros Hm. destruct (lm75_cases m Hm) as (a & b & c & d & e & f & g & h & E & _).
  assert (forall x, -128 <= x < 128 -> s8 (u8 x) = x) as Hs8.
  { intros x Hx. unfold s8. case_if; word_lia. }
  assert (forall x, s8 (u8 (s8 x)) = s8 x) as Hs8'.
  { intros x. apply Hs8. unfold s8. case_if; word_lia. }
  assert (forall x, -128 <= x < 128 -> s8 x = x) as Hs8''.
  { intros x Hx. unfold s8. case_if; word_lia. }
  unfold Lm75.temperature_c_halves, Lm75.set_temperature_raw, Lm75.set_temperature_c10.
  rewrite E. cbn [Lm75.regs_].
  split; [|split].
  - intros raw Hraw. change 0xFF with (Z.ones 8). change (raw .& 1) with (raw .& Z.ones 1).
    rewrite Z.shiftr_div_pow2, !land_mask by lia. change (2 ^ 1) with 2. change (2 ^ 8) with 256.
    assert (u8 ((raw / 2) mod 256) = u8 (raw / 2)) as -> by word_lia. split.
    + cbn. rewrite Hs8 by word_lia.
      destruct (Z.eqb_spec (raw mod 2) 0) as [E0|E0]; simpl; word_lia.
    + unfold Lm75.read_reg16. cbn. rewrite pack_word.
      * destruct (Z.eqb_spec (raw mod 2) 0) as [E0|E0]; simpl; word_lia.
      * apply u8_range.
      * destruct (raw mod 2 =? 0); split; simpl; lia.
  - intros c10 Hc. cbn. rewrite Hs8'. rewrite Hs8'' by (Z.quot_rem_to_equations; lia).
    destruct (Z.leb_spec 5 (Z.rem c10 10)); simpl; Z.to_euclidean_division_equations; lia.
  - intros c10 Hc. cbn. rewrite Hs8'. rewrite Hs8'' by (Z.quot_rem_to_equations; lia).
    destruct (Z.leb_spec 5 (Z.rem c10 10)); simpl; Z.to_euclidean_division_equations; lia.
Qed.

(** The read protocol.  After REG_ADDR is written with [r] and CR with START
    and READ set: if the low seven bits of CR are the sensor's address, SR shows
    ACK_OK and RX_READY, two reads of DR return register [r] of the sensor from
    the most significant byte on (zero for [r > 3]), after which RX_READY is
    clear and DR reads 0xFF; for any other address SR shows NACK and no byte is
    queued.  The sensor is unchanged in both cases. *)
Theorem i2c_read s r val :
  lm75_wf (lm75_ s) -> in_u8 r -> bit val 8 = true -> bit val 9 = true ->
  let s0 := write_reg (write_reg s REG_REG_ADDR r) REG_CR val in
  let word := Lm75.read_reg16 (lm75_ s) r in
  if val mod 128 =? 0x48 then
    fst (read_reg s0 REG_SR) = SR_ACK_OK .| SR_RX_READY /\
    let '(hi, s1) := read_reg s0 REG_DR in
    let '(lo, s2) := read_reg s1 REG_DR in
    hi = word / 256 /\ lo = word mod 256 /\
    fst (read_reg s2 REG_SR) = SR_ACK_OK /\ fst (read_reg s2 REG_DR) = 0xFF /\
    lm75_ s2 = lm75_ s
  else
    fst (read_reg s0 REG_SR) = SR_NACK /\ rx_queue_ s0 = rx_queue_ s /\ lm75_ s0 = lm75_ s.
Proof.
  intros Hm Hr H8 H9 s0 word.
  assert (in_u16 word) as Hw by (apply read_reg16_range; unfold in_u8 in *; done || lia).
  assert (s0 = if val mod 128 =? 0x48
               then mkI2c (SR_ACK_OK .| SR_RX_READY) r [word / 256; word mod 256] (lm75_ s)
               else mkI2c SR_NACK r (rx_queue_ s) (lm75_ s)) as Es.
  { assert (write_reg s REG_REG_ADDR r = with_reg_addr r s) as E0.
    { unfold write_reg. simpl. rewrite word_low. unfold with_reg_addr. f_equal.
      by apply Z.mod_small. }
    unfold s0. rewrite E0. unfold write_reg. simpl Z.eqb. cbv iota zeta.
    unfold CR_START, CR_READ. rewrite !bit_mask_test, H8, H9 by lia. cbn [negb].
    unfold dispatch_read.
    assert (u8 (val .& 0x7F) = val mod 128) as ->.
    { change 0x7F with (Z.ones 7). rewrite land_mask by lia. change (2 ^ 7) with 128. word_lia. }
    change Lm75.DEFAULT_ADDR with 0x48. simpl lm75_. simpl reg_addr_. fold word.
    rewrite word_high, word_low by done. by destruct (val mod 128 =? 0x48). }
  rewrite Es. by destruct (val mod 128 =? 0x48).
Qed.

(** C39: The write protocol.  A CR write with START and without READ latches bits
    15..8 as the register address and never changes the sensor: with STOP set
    that address has bits 1 and 2 set, so it is above the last register, yet
    ACK_OK is reported for the sensor's address.  The direct call
    [write_sensor_reg] does write: reading the register back returns the value
    and the other registers keep theirs. *)
Theorem i2c_write s val r r' v :
  lm75_wf (lm75_ s) -> 0 <= r <= 3 -> 0 <= r' <= 3 -> in_u16 v ->
  (bit val 8 = false -> bit val 9 = true ->
   let s' := write_reg s REG_CR val in
   lm75_ s' = lm75_ s /\ rx_queue_ s' = rx_queue_ s /\
   reg_addr_ s' = (val / 256) mod 256 /\
   sr_ s' = (if bit val 10 && negb (val mod 128 =? 0x48) then SR_NACK else SR_ACK_OK)) /\
  (let s' := write_sensor_reg s Lm75.DEFAULT_ADDR r v in
   let '(n, s'') := read_sensor_reg s' Lm75.DEFAULT_ADDR r' in
   sr_ s' = SR_ACK_OK /\ n = 2%nat /\ lm75_wf (lm75_ s'') /\
   let word := if r' =? r then v else Lm75.read_reg16 (lm75_ s) r' in
   rx_queue_ s'' = [word / 256; word mod 256]).
Proof.
  intros Hm Hr Hr' Hv. split.
  - intros H8 H9 s'. unfold s', write_reg. simpl Z.eqb. cbv iota zeta.
    unfold CR_START, CR_READ, CR_STOP. rewrite !bit_mask_test, H8, H9 by lia. cbn [negb].
    rewrite word_low. rewrite (Z.shiftr_div_pow2 val 8) by lia. change (2 ^ 8) with 256.
    destruct (bit val 10) eqn:H10; [|done]. unfold dispatch_write.
    assert (u8 (val .& 0x7F) = val mod 128) as ->.
    { change 0x7F with (Z.ones 7). rewrite land_mask by lia. change (2 ^ 7) with 128. word_lia. }
    change Lm75.DEFAULT_ADDR with 0x48. cbn [andb].
    destruct (val mod 128 =? 0x48); [|done]. simpl.
    assert (3 < (val / 256) mod 256) as Hreg.
    { rewrite bit_div in H9, H10 by lia. reflect_bools.
      change (2 ^ 9) with (256 * 2) in H9. change (2 ^ 10) with (256 * 4) in H10.
      rewrite <-Z.div_div in H9, H10 by lia. Z.div_mod_to_equations. lia. }
    unfold Lm75.write_reg16. rewrite (proj2 (Z.ltb_lt _ _)) by done. done.
  - unfold write_sensor_reg, dispatch_write. simpl. rewrite word_high, word_low by done.
    assert (u16 (((v / 256) .<< 8) .| (v mod 256)) = v) as ->.
    { rewrite pack_word by word_lia. Z.div_mod_to_equations. lia. }
    destruct (read_write_reg16 (lm75_ s) r r' v Hm Hr Hr' Hv) as [Hw E].
    unfold read_sensor_reg, dispatch_read. simpl. rewrite E.
    split; [done|]. split; [done|]. split; [done|].
    rewrite word_high, word_low; [done|]. destruct (r' =? r); [done|].
    apply read_reg16_range; [done|lia].
Qed.

(** * Witnesses *)

Lemma new_lm75_wf : lm75_wf Lm75.new_lm75.
Proof. split; [reflexivity|]. repeat constructor; lia. Qed.

(** -12.5 degrees. *)
Lemma lm75_temperature_witness :
  Lm75.temperature_c_halves (Lm75.set_temperature_raw Lm75.new_lm75 (-25)) = -25.
Proof. refine (proj1 (proj1 (lm75_temperature Lm75.new_lm75 new_lm75_wf) (-25) _)). lia. Defined.

Lemma i2c_read_witness :
  fst (read_reg (write_reg (write_reg new_i2c REG_REG_ADDR 2) REG_CR 0x348) REG_SR) =
  SR_ACK_OK .| SR_RX_READY.
Proof.
  refine (proj1 (i2c_read new_i2c 2 0x348 new_lm75_wf _ eq_refl eq_refl)). split; lia.
Defined.

Lemma i2c_write_witness : lm75_ (write_reg new_i2c REG_CR 0x12340648) = Lm75.new_lm75.
Proof.
  assert (in_u16 7) as Hv by (split; lia).
  assert (0 <= 2 <= 3) as Hr by lia.
  destruct (i2c_write new_i2c 0x12340648 2 2 7 new_lm75_wf Hr Hr Hv) as [H _].
  exact (proj1 (H eq_refl eq_refl)).
Defined.
