(* ===== verification/Scheduler.v ===== *)
(** src/rtos/scheduler.h, scheduler.cpp: the scheduler's own state and the
    decisions of its API functions.

    The contexts of the tasks ([ucontext_t], the stacks, the task functions) are
    not part of this state: a function that may switch contexts returns which
    switch it makes, and the kernel model runs the continuations. *)
From S2P Require Export Prelude.

Inductive TaskState : Type := READY | RUNNING | BLOCKED | SUSPENDED | DELETED.
#[global] Instance TaskState_eq_dec : EqDecision TaskState.
Proof. solve_decision. Defined.

(** The fields of the task control block that decide scheduling. *)
Record TCB : Type := mkTCB {
  priority : Z;
  state : TaskState;
  resume_tick : Z
}.
#[global] Instance TCB_inhabited : Inhabited TCB := populate (mkTCB 7 DELETED 0).

Definition with_state (x : TaskState) (t : TCB) : TCB := mkTCB (priority t) x (resume_tick t).
Definition with_resume (n : Z) (t : TCB) : TCB := mkTCB (priority t) (state t) n.

(** What a function did to the CPU: returned to its caller, swapped to the
    context of a task, or swapped to the idle context. *)
Inductive switch : Type :=
  | Stay
  | SwitchTo (next : nat)
  | ToIdle.

Module Scheduler.

Definition MAX_TASKS : nat := 16.
Definition INVALID_TASK : nat := 0xFF.
Definition UINT32_MAX : Z := 0xFFFFFFFF.

(** The first [task_count_] elements of [tasks_]. *)
Record t : Type := mkSched {
  tasks_ : list TCB;
  tick_count_ : Z;
  current_ : nat
}.

Definition task_count_ (s : t) : nat := length (tasks_ s).

Definition new_scheduler : t := mkSched [] 0 INVALID_TASK.

Definition update_task (i : nat) (f : TCB -> TCB) (s : t) : t :=
  mkSched (alter f i (tasks_ s)) (tick_count_ s) (current_ s).
Definition with_current (c : nat) (s : t) : t := mkSched (tasks_ s) (tick_count_ s) c.
Definition task (s : t) (i : nat) : TCB := tasks_ s !!! i.

(** The new handle, or [INVALID_TASK]. *)
Definition xTaskCreate (prio : Z) (s : t) : nat * t :=
  if (MAX_TASKS <=? task_count_ s)%nat then (INVALID_TASK, s)
  else (task_count_ s,
        mkSched (tasks_ s ++ [mkTCB prio READY 0]) (tick_count_ s) (current_ s)).

Definition get_state (s : t) (i : nat) : TaskState :=
  if (task_count_ s <=? i)%nat then DELETED else state (task s i).
Definition get_priority (s : t) (i : nat) : Z :=
  if (task_count_ s <=? i)%nat then 0xFF else priority (task s i).

Definition is_ready (x : TCB) : bool := bool_decide (state x = READY).

(** The first loop of [select_next]. *)
Definition best_prio (l : list TCB) : Z :=
  foldl (fun best x => if is_ready x && (priority x <? best) then priority x else best) 0xFF l.

(** The second loop: the first of the indices, taken round from [start]. *)
Fixpoint scan (s : t) (best : Z) (start : nat) (l : list nat) : nat :=
  match l with
  | [] => INVALID_TASK
  | i :: l =>
      let idx := ((start + i) mod task_count_ s)%nat in
      if is_ready (task s idx) && (priority (task s idx) =? best) then idx
      else scan s best start l
  end.

Definition select_next (s : t) : nat :=
  let best := best_prio (tasks_ s) in
  if best =? 0xFF then INVALID_TASK
  else
    let start := if (current_ s =? INVALID_TASK)%nat then 0%nat
                 else ((current_ s + 1) mod task_count_ s)%nat in
    scan s best start (seq 0 (task_count_ s)).

(** A task blocked with a deadline. *)
Definition delayed (x : TCB) : bool :=
  bool_decide (state x = BLOCKED) && (0 <? resume_tick x).

Definition earliest (l : list TCB) : Z :=
  foldl (fun e x => if delayed x then Z.min e (resume_tick x) else e) UINT32_MAX l.

(** The loop that wakes the tasks whose deadline has come. *)
Definition wake_due (now : Z) (l : list TCB) : list TCB :=
  (fun x => if delayed x && (resume_tick x <=? now) then mkTCB (priority x) READY 0 else x) <$> l.

Definition advance_to (now : Z) (s : t) : t := mkSched (wake_due now (tasks_ s)) now (current_ s).

(** The loop of [schedule_from] ([prev] given) and of [schedule_after_delete]
    ([None]: there is no context to return to).  [None] when out of fuel. *)
Fixpoint schedule_loop (fuel : nat) (prev : option nat) (s : t) : option (switch * t) :=
  match fuel with
  | O => None
  | S fuel =>
      let next := select_next s in
      if negb (next =? INVALID_TASK)%nat then
        if bool_decide (prev = Some next) then
          Some (Stay, update_task next (with_state RUNNING) s)
        else
          Some (SwitchTo next, update_task next (with_state RUNNING) (with_current next s))
      else
        let e := earliest (tasks_ s) in
        if e =? UINT32_MAX then Some (ToIdle, with_current INVALID_TASK s)
        else schedule_loop fuel prev (advance_to e s)
  end.

Definition schedule_from (prev : nat) (s : t) : option (switch * t) :=
  schedule_loop (S (S (task_count_ s))) (Some prev) s.
Definition schedule_after_delete (s : t) : option (switch * t) :=
  schedule_loop (S (S (task_count_ s))) None s.

(** The end of [task_entry], when the function of task [i] has returned. *)
Definition task_exit (i : nat) (s : t) : option (switch * t) :=
  schedule_after_delete (update_task i (with_state DELETED) s).

Definition vTaskStartScheduler (s : t) : switch * t :=
  let first := select_next s in
  if (first =? INVALID_TASK)%nat then (Stay, s)
  else (SwitchTo first, update_task first (with_state RUNNING) (with_current first s)).

Definition vTaskDelay (ticks : Z) (s : t) : option (switch * t) :=
  let c := current_ s in
  if (c =? INVALID_TASK)%nat then Some (Stay, s)
  else if ticks =? 0 then schedule_from c (update_task c (with_state READY) s)
  else
    schedule_from c
      (update_task c (fun x => with_state BLOCKED (with_resume (u32 (tick_count_ s + ticks)) x)) s).

Definition vTaskSuspend (i : nat) (s : t) : option (switch * t) :=
  if (task_count_ s <=? i)%nat then Some (Stay, s)
  else
    let s := update_task i (with_state SUSPENDED) s in
    if (i =? current_ s)%nat then schedule_from (current_ s) s else Some (Stay, s).

Definition vTaskResume (i : nat) (s : t) : t :=
  if (task_count_ s <=? i)%nat then s
  else if bool_decide (state (task s i) = SUSPENDED) then update_task i (with_state READY) s
  else s.

Definition vTaskDelete (i : nat) (s : t) : option (switch * t) :=
  if (task_count_ s <=? i)%nat then Some (Stay, s)
  else
    let s := update_task i (with_state DELETED) s in
    if (i =? current_ s)%nat then schedule_from (current_ s) s else Some (Stay, s).

Definition block_current (s : t) : option (switch * t) :=
  let c := current_ s in
  if (c =? INVALID_TASK)%nat then Some (Stay, s)
  else schedule_from c (update_task c (with_state BLOCKED) s).

Definition unblock (i : nat) (s : t) : option (switch * t) :=
  if (task_count_ s <=? i)%nat then Some (Stay, s)
  else if negb (bool_decide (state (task s i) = BLOCKED)) then Some (Stay, s)
  else
    let s := update_task i (with_state READY) s in
    let c := current_ s in
    if negb (c =? INVALID_TASK)%nat && (priority (task s i) <? priority (task s c)) then
      schedule_from c (update_task c (with_state READY) s)
    else Some (Stay, s).

Definition tick (ms : Z) (s : t) : option (switch * t) :=
  let s := advance_to (u32 (tick_count_ s + ms)) s in
  let next := select_next s in
  let c := current_ s in
  if negb (next =? INVALID_TASK)%nat && negb (c =? INVALID_TASK)%nat &&
     (priority (task s next) <? priority (task s c)) then
    schedule_from c (update_task c (with_state READY) s)
  else Some (Stay, s).

(** The calls of the public interface, and the return of a task's function. *)
Inductive sched_op : Type :=
  | Create (prio : Z)
  | Start
  | Delay (ticks : Z)
  | Suspend (i : nat)
  | Resume (i : nat)
  | Delete (i : nat)
  | Block
  | Unblock (i : nat)
  | Tick (ms : Z)
  | Exit.

Definition sched_step (s : t) (o : sched_op) : option (switch * t) :=
  match o with
  | Create p => Some (Stay, snd (xTaskCreate p s))
  | Start => Some (vTaskStartScheduler s)
  | Delay n => vTaskDelay n s
  | Suspend i => vTaskSuspend i s
  | Resume i => Some (Stay, vTaskResume i s)
  | Delete i => vTaskDelete i s
  | Block => block_current s
  | Unblock i => unblock i s
  | Tick ms => tick ms s
  | Exit => task_exit (current_ s) s
  end.

End Scheduler.
