(* ===== verification/SchedulerProps.v ===== *)
(** The scheduler's decisions: selection by priority and round robin,
    termination of the discrete-event loop, and the invariant of the running
    task over all sequences of API calls. *)
From Stdlib Require Import ZifyBool.
From S2P Require Export Scheduler.

Import Scheduler.

(** * Selection *)

(** A task the scheduler can pick: READY with a priority other than 0xFF. *)
Definition eligible (x : TCB) : Prop := state x = READY /\ priority x < 0xFF.

Definition prio_ok (x : TCB) : Prop := 0 <= priority x <= 0xFF.

Lemma is_ready_true x : is_ready x = true <-> state x = READY.
Proof. apply bool_decide_eq_true. Qed.

Lemma best_prio_fold l b :
  let r := foldl (fun best x => if is_ready x && (priority x <? best) then priority x else best) b l in
  r <= b /\ (forall x, x ∈ l -> state x = READY -> r <= priority x) /\
  (r = b \/ exists x, x ∈ l /\ state x = READY /\ priority x = r).
Proof.
  revert b. induction l as [|x l IH]; intros b; cbn [foldl].
  - split; [lia|]. split; [by intros x ?%elem_of_nil|by left].
  - destruct (is_ready x && (priority x <? b)) eqn:E.
    + apply andb_true_iff in E as [Hr Hlt]. apply is_ready_true in Hr.
      destruct (IH (priority x)) as (H1 & H2 & H3). split; [lia|]. split.
      * intros y [->|Hy]%elem_of_cons Hs; auto.
      * right. destruct H3 as [H3|(y & Hy & H4 & H5)].
        -- exists x. rewrite elem_of_cons. auto.
        -- exists y. rewrite elem_of_cons. auto.
    + destruct (IH b) as (H1 & H2 & H3). split; [done|]. split.
      * intros y [->|Hy]%elem_of_cons Hs; [|auto].
        apply is_ready_true in Hs. rewrite Hs in E. lia.
      * destruct H3 as [H3|(y & Hy & H4 & H5)]; [by left|right].
        exists y. rewrite elem_of_cons. auto.
Qed.

Lemma best_prio_spec l :
  Forall prio_ok l ->
  if best_prio l =? 0xFF then forall x, x ∈ l -> ~ eligible x
  else (exists x, x ∈ l /\ eligible x /\ priority x = best_prio l) /\
       forall x, x ∈ l -> state x = READY -> best_prio l <= priority x.
Proof.
  intros Hp. destruct (best_prio_fold l 0xFF) as (H1 & H2 & H3). fold (best_prio l) in *.
  destruct (Z.eqb_spec (best_prio l) 0xFF) as [E|E].
  - intros x Hx [Hs Hlt]. specialize (H2 x Hx Hs). lia.
  - split; [|done]. destruct H3 as [H3|(x & Hx & H4 & H5)]; [done|].
    exists x. split; [done|]. split; [|done]. split; [done|lia].
Qed.

(** How far task [j] is from [start] in round-robin order. *)
Definition rank (n start j : nat) : nat := ((j + n - start) mod n)%nat.

Lemma rank_index n start j :
  (start < n)%nat -> (j < n)%nat ->
  (rank n start j < n)%nat /\ ((start + rank n start j) mod n)%nat = j.
Proof.
  intros Hs Hj. unfold rank. split; [apply Nat.mod_upper_bound; lia|].
  rewrite Nat.Div0.add_mod_idemp_r. replace (start + (j + n - start))%nat with (j + 1 * n)%nat by lia.
  rewrite Nat.Div0.mod_add. by apply Nat.mod_small.
Qed.

Lemma index_rank n start i :
  (start < n)%nat -> (i < n)%nat -> rank n start ((start + i) mod n) = i.
Proof.
  intros Hs Hi. unfold rank. replace ((start + i) mod n + n - start)%nat
    with ((start + i) mod n + (n - start))%nat by lia.
  rewrite Nat.Div0.add_mod_idemp_l. replace (start + i + (n - start))%nat with (i + 1 * n)%nat by lia.
  rewrite Nat.Div0.mod_add. by apply Nat.mod_small.
Qed.

Lemma task_lookup s i : (i < task_count_ s)%nat -> tasks_ s !! i = Some (task s i).
Proof. intros Hi. unfold task. by apply list_lookup_lookup_total_lt. Qed.

Lemma task_elem s i : (i < task_count_ s)%nat -> task s i ∈ tasks_ s.
Proof. intros Hi. eapply list_elem_of_lookup_2. by apply task_lookup. Qed.

(** The second loop stops at the first index that matches, if one does. *)
Lemma scan_spec s best start a n :
  let good i := is_ready (task s ((start + i) mod task_count_ s)) &&
                (priority (task s ((start + i) mod task_count_ s)) =? best) in
  (scan s best start (seq a n) = INVALID_TASK /\ forall i, (a <= i < a + n)%nat -> good i = false) \/
  exists i, (a <= i < a + n)%nat /\ good i = true /\
    scan s best start (seq a n) = ((start + i) mod task_count_ s)%nat /\
    forall j, (a <= j < i)%nat -> good j = false.
Proof.
  cbv zeta. revert a. induction n as [|n IH]; intros a; cbn [seq scan].
  - left. split; [done|]. lia.
  - destruct (is_ready (task s ((start + a) mod task_count_ s)) &&
              (priority (task s ((start + a) mod task_count_ s)) =? best)) eqn:E.
    + right. exists a. split; [lia|]. split; [done|]. split; [done|]. lia.
    + destruct (IH (S a)) as [[H1 H2]|(i & H1 & H2 & H3 & H4)].
      * left. split; [done|]. intros i Hi. destruct (decide (i = a)) as [->|]; [done|apply H2; lia].
      * right. exists i. split; [lia|]. split; [done|]. split; [done|].
        intros j Hj. destruct (decide (j = a)) as [->|]; [done|apply H4; lia].
Qed.

Definition start_index (s : t) : nat :=
  if (current_ s =? INVALID_TASK)%nat then 0%nat
  else ((current_ s + 1) mod task_count_ s)%nat.

Lemma select_next_spec s :
  Forall prio_ok (tasks_ s) -> (task_count_ s <= MAX_TASKS)%nat ->
  if (select_next s =? INVALID_TASK)%nat then forall x, x ∈ tasks_ s -> ~ eligible x
  else (select_next s < task_count_ s)%nat /\ eligible (task s (select_next s)) /\
       (forall x, x ∈ tasks_ s -> state x = READY -> priority (task s (select_next s)) <= priority x) /\
       (forall j, (j < task_count_ s)%nat -> state (task s j) = READY ->
          priority (task s j) = priority (task s (select_next s)) ->
          (rank (task_count_ s) (start_index s) (select_next s) <=
           rank (task_count_ s) (start_index s) j)%nat).
Proof.
  intros Hp Hn. pose proof (best_prio_spec _ Hp) as Hb. unfold select_next.
  destruct (best_prio (tasks_ s) =? 0xFF) eqn:Eb; [done|]. fold (start_index s).
  destruct Hb as [(x & Hx & [Hxr Hxp] & Hxb) Hmin].
  apply list_elem_of_lookup in Hx as [k Hk]. pose proof (lookup_lt_Some _ _ _ Hk) as Hkn.
  fold (task_count_ s) in Hkn.
  assert (task s k = x) as Hkx by (unfold task; by apply list_lookup_total_correct).
  assert (start_index s < task_count_ s)%nat as Hst.
  { unfold start_index. destruct (_ =? _)%nat; [lia|]. apply Nat.mod_upper_bound. lia. }
  destruct (rank_index _ _ _ Hst Hkn) as [Hr1 Hr2].
  pose proof (scan_spec s (best_prio (tasks_ s)) (start_index s) 0 (task_count_ s)) as Hscan.
  cbv zeta in Hscan. destruct Hscan as [[_ Hnone]|(i & Hi & Hgood & -> & Hfirst)].
  { specialize (Hnone _ (conj (Nat.le_0_l _) Hr1)). rewrite Hr2, Hkx in Hnone.
    rewrite (proj2 (is_ready_true x) Hxr), Hxb, Z.eqb_refl in Hnone. done. }
  set (nx := ((start_index s + i) mod task_count_ s)%nat) in *.
  assert (nx < task_count_ s)%nat as Hnx by (apply Nat.mod_upper_bound; lia).
  rewrite (proj2 (Nat.eqb_neq nx _)) by (unfold INVALID_TASK, MAX_TASKS in *; lia).
  apply andb_true_iff in Hgood as [Hg1 Hg2]. apply is_ready_true in Hg1. apply Z.eqb_eq in Hg2.
  split; [done|]. split; [split; [done|lia]|]. split; [intros y Hy Hys; rewrite Hg2; auto|].
  intros j Hj Hjr Hjp. unfold nx. rewrite index_rank by lia.
  destruct (rank_index _ _ _ Hst Hj) as [Hj1 Hj2].
  destruct (Nat.le_gt_cases i (rank (task_count_ s) (start_index s) j)) as [|Hlt]; [done|].
  specialize (Hfirst _ (conj (Nat.le_0_l _) Hlt)). rewrite Hj2 in Hfirst.
  rewrite (proj2 (is_ready_true _) Hjr), Hjp, Hg2, Z.eqb_refl in Hfirst. done.
Qed.

(** * The discrete-event loop *)

Definition delays (l : list TCB) : nat := length (filter (fun x => delayed x = true) l).

Lemma earliest_fold l b :
  let e := foldl (fun e x => if delayed x then Z.min e (resume_tick x) else e) b l in
  e <= b /\ (forall x, x ∈ l -> delayed x = true -> e <= resume_tick x) /\
  (e = b \/ exists x, x ∈ l /\ delayed x = true /\ resume_tick x = e).
Proof.
  revert b. induction l as [|x l IH]; intros b; cbn [foldl].
  - split; [lia|]. split; [by intros x ?%elem_of_nil|by left].
  - destruct (delayed x) eqn:E.
    + destruct (IH (Z.min b (resume_tick x))) as (H1 & H2 & H3). split; [lia|]. split.
      * intros y [->|Hy]%elem_of_cons Hd; [lia|auto].
      * destruct H3 as [H3|(y & Hy & H4 & H5)].
        -- destruct (Z.min_spec b (resume_tick x)) as [[_ Em]|[_ Em]].
           ++ left. lia.
           ++ right. exists x. rewrite elem_of_cons. split; [by left|]. split; [done|lia].
        -- right. exists y. rewrite elem_of_cons. auto.
    + destruct (IH b) as (H1 & H2 & H3). split; [done|]. split.
      * intros y [->|Hy]%elem_of_cons Hd; [congruence|auto].
      * destruct H3 as [H3|(y & Hy & H4 & H5)]; [by left|right].
        exists y. rewrite elem_of_cons. auto.
Qed.

Lemma wake_due_delayed now x :
  delayed (if delayed x && (resume_tick x <=? now) then mkTCB (priority x) READY 0 else x) = true ->
  delayed x = true /\ now < resume_tick x.
Proof.
  destruct (delayed x) eqn:E; cbn [andb].
  - destruct (Z.leb_spec (resume_tick x) now); [done|]. by intros.
  - congruence.
Qed.

(** Waking at the earliest deadline leaves fewer tasks waiting for one. *)
Lemma delays_wake l x now :
  x ∈ l -> delayed x = true -> resume_tick x <= now ->
  (delays (wake_due now l) < delays l)%nat.
Proof.
  assert (forall l, (delays (wake_due now l) <= delays l)%nat) as Hle.
  { clear. unfold delays, wake_due. induction l as [|y l IH]; cbn [fmap list_fmap]; [done|].
    rewrite !filter_cons. case_decide as H1; case_decide as H2; cbn [length]; try lia.
    by apply wake_due_delayed in H1 as [? _]. }
  unfold delays, wake_due in *. induction l as [|y l IH]; intros Hx Hd Hn; [by apply elem_of_nil in Hx|].
  cbn [fmap list_fmap]. rewrite !filter_cons. apply elem_of_cons in Hx as [->|Hx].
  - rewrite (decide_True (P := delayed y = true)) by done. rewrite decide_False.
    + cbn [length]. specialize (Hle l). lia.
    + intros [_ ?]%wake_due_delayed. lia.
  - specialize (IH Hx Hd Hn). case_decide as H1; case_decide as H2; cbn [length]; try lia.
    by apply wake_due_delayed in H1 as [? _].
Qed.

Lemma length_wake_due now l : length (wake_due now l) = length l.
Proof. apply length_fmap. Qed.

Lemma delays_bound l : (delays l <= length l)%nat.
Proof. apply length_filter. Qed.

(** The loop returns, and its fuel does not matter. *)
Lemma schedule_loop_total fuel prev s :
  (delays (tasks_ s) < fuel)%nat -> exists r, schedule_loop fuel prev s = Some r.
Proof.
  revert s. induction fuel as [|fuel IH]; intros s Hf; [lia|]. cbn [schedule_loop].
  destruct (negb _); [destruct (bool_decide _); eauto|].
  destruct (earliest_fold (tasks_ s) UINT32_MAX) as (_ & _ & He). fold (earliest (tasks_ s)) in He.
  destruct (Z.eqb_spec (earliest (tasks_ s)) UINT32_MAX); [eauto|].
  destruct He as [He|(x & Hx & Hd & He)]; [done|]. apply IH.
  pose proof (delays_wake (tasks_ s) x (earliest (tasks_ s)) Hx Hd ltac:(lia)).
  unfold advance_to. cbn [tasks_]. lia.
Qed.

Lemma schedule_loop_fuel f1 f2 prev s r :
  schedule_loop f1 prev s = Some r -> (f1 <= f2)%nat -> schedule_loop f2 prev s = Some r.
Proof.
  revert f2 s. induction f1 as [|f1 IH]; intros f2 s Hr Hf; [done|].
  destruct f2 as [|f2]; [lia|]. cbn [schedule_loop] in *.
  destruct (negb _); [done|]. destruct (_ =? UINT32_MAX); [done|]. apply IH; [done|lia].
Qed.

Lemma schedule_loop_S fuel prev s :
  schedule_loop (S fuel) prev s =
  let next := select_next s in
  if negb (next =? INVALID_TASK)%nat then
    if bool_decide (prev = Some next) then
      Some (Stay, update_task next (with_state RUNNING) s)
    else Some (SwitchTo next, update_task next (with_state RUNNING) (with_current next s))
  else if earliest (tasks_ s) =? UINT32_MAX then Some (ToIdle, with_current INVALID_TASK s)
  else schedule_loop fuel prev (advance_to (earliest (tasks_ s)) s).
Proof. done. Qed.

(** One iteration of [schedule_from], free of fuel. *)
Lemma schedule_loop_unfold n prev s :
  n = task_count_ s ->
  schedule_loop (S (S n)) prev s =
  let next := select_next s in
  if negb (next =? INVALID_TASK)%nat then
    if bool_decide (prev = Some next) then
      Some (Stay, update_task next (with_state RUNNING) s)
    else Some (SwitchTo next, update_task next (with_state RUNNING) (with_current next s))
  else if earliest (tasks_ s) =? UINT32_MAX then Some (ToIdle, with_current INVALID_TASK s)
  else schedule_loop (S (S n)) prev (advance_to (earliest (tasks_ s)) s).
Proof.
  intros ->. set (n := task_count_ s). set (sn := S n).
  rewrite schedule_loop_S at 1. cbv zeta. destruct (negb _); [done|].
  destruct (earliest (tasks_ s) =? UINT32_MAX); [done|].
  destruct (schedule_loop_total sn prev (advance_to (earliest (tasks_ s)) s)) as [r Hr].
  { unfold advance_to, sn, n, task_count_. cbn [tasks_].
    pose proof (delays_bound (wake_due (earliest (tasks_ s)) (tasks_ s))) as Hb.
    rewrite length_wake_due in Hb. lia. }
  rewrite Hr. symmetry. by apply (schedule_loop_fuel sn); [|lia].
Qed.

(** * Well-formed schedulers *)

Definition tcb_wf (x : TCB) : Prop := in_u8 (priority x) /\ in_u32 (resume_tick x).

Definition sched_wf (s : t) : Prop :=
  (task_count_ s <= MAX_TASKS)%nat /\ Forall tcb_wf (tasks_ s) /\ in_u32 (tick_count_ s) /\
  (current_ s = INVALID_TASK \/ (current_ s < task_count_ s)%nat).

Lemma tcb_wf_prio l : Forall tcb_wf l -> Forall prio_ok l.
Proof.
  intros H. eapply Forall_impl; [done|]. intros x [[? ?] _]. unfold prio_ok. lia.
Qed.

Lemma update_task_wf i f s :
  sched_wf s -> (forall x, tcb_wf x -> tcb_wf (f x)) -> sched_wf (update_task i f s).
Proof.
  intros (H1 & H2 & H3 & H4) Hf. unfold sched_wf, task_count_, update_task in *. cbn [tasks_ tick_count_ current_] in *.
  rewrite length_alter. split; [done|]. split; [|done]. apply Forall_alter; [done|]. intros; by apply Hf.
Qed.

Lemma advance_to_wf now s : sched_wf s -> in_u32 now -> sched_wf (advance_to now s).
Proof.
  intros (H1 & H2 & H3 & H4) Hn. unfold sched_wf, task_count_, advance_to in *. cbn [tasks_ tick_count_ current_] in *.
  rewrite length_wake_due. split; [done|]. split; [|done]. apply Forall_fmap.
  eapply Forall_impl; [done|]. intros x [Hp Hr]. simpl.
  destruct (_ && _); [|done]. split; [done|]. split; simpl; lia.
Qed.

Lemma earliest_range s : sched_wf s -> in_u32 (earliest (tasks_ s)).
Proof.
  intros (_ & H2 & _). destruct (earliest_fold (tasks_ s) UINT32_MAX) as (H1 & _ & H3).
  fold (earliest (tasks_ s)) in *. destruct H3 as [->|(x & Hx & _ & <-)]; [done|].
  rewrite Forall_forall in H2. by apply H2.
Qed.

(** * The running task *)

(** RUNNING is the state of the current task and of no other. *)
Definition running_ok (s : t) : Prop :=
  forall i x, tasks_ s !! i = Some x -> (state x = RUNNING <-> i = current_ s).

Definition none_running (s : t) : Prop :=
  forall i x, tasks_ s !! i = Some x -> state x <> RUNNING.

(** No READY task has a higher priority than the current one. *)
Definition preempt_ok (s : t) : Prop :=
  current_ s <> INVALID_TASK ->
  forall x, x ∈ tasks_ s -> state x = READY -> priority (task s (current_ s)) <= priority x.

(** After a scheduling decision: the current task runs and nothing READY is more
    urgent, or nothing is left to run or to wait for. *)
Definition dispatched (s : t) : Prop :=
  sched_wf s /\ running_ok s /\ preempt_ok s /\
  (current_ s = INVALID_TASK ->
   forall x, x ∈ tasks_ s -> ~ eligible x /\ (delayed x = true -> resume_tick x = UINT32_MAX)).

Lemma task_update s i f j :
  tasks_ (update_task i f s) !! j = (if decide (j = i) then f <$> tasks_ s !! j else tasks_ s !! j).
Proof.
  unfold update_task. cbn [tasks_]. case_decide as E.
  - rewrite E. apply list_lookup_alter_eq.
  - by apply list_lookup_alter_ne.
Qed.

Lemma update_none_running s i f :
  (forall j x, tasks_ s !! j = Some x -> j <> i -> state x <> RUNNING) ->
  (forall x, state (f x) <> RUNNING) -> none_running (update_task i f s).
Proof.
  intros Hs Hf j x. rewrite task_update. case_decide as E; [|eauto].
  intros (y & _ & ->)%fmap_Some. apply Hf.
Qed.

(** The other tasks of a scheduler with a running task do not run. *)
Lemma running_others s j x :
  running_ok s -> tasks_ s !! j = Some x -> j <> current_ s -> state x <> RUNNING.
Proof. intros Hr Hx Hj Hs. apply Hj. by apply (Hr j x Hx). Qed.

(** Running a selected task. *)
Lemma dispatch_next s :
  sched_wf s -> none_running s -> select_next s <> INVALID_TASK ->
  dispatched (update_task (select_next s) (with_state RUNNING) (with_current (select_next s) s)).
Proof.
  intros Hw Hn Hsel. pose proof Hw as (H1 & H2 & H3 & H4).
  pose proof (select_next_spec s (tcb_wf_prio _ H2) H1) as Hs.
  rewrite (proj2 (Nat.eqb_neq _ _) Hsel) in Hs. destruct Hs as (S1 & S2 & S3 & _).
  set (n := select_next s) in *. set (s' := update_task n _ _).
  assert (forall j, tasks_ s' !! j = if decide (j = n) then with_state RUNNING <$> tasks_ s !! j
                                     else tasks_ s !! j) as Hlk by (intros j; apply (task_update (with_current n s))).
  assert (current_ s' = n) as Hc by done.
  assert (task s' n = with_state RUNNING (task s n)) as Ht.
  { unfold task at 1. apply list_lookup_total_correct. rewrite Hlk, decide_True by done.
    by rewrite task_lookup. }
  split; [|split; [|split]].
  - apply update_task_wf; [|done]. split; [done|]. split; [done|]. split; [done|]. by right.
  - intros j x. rewrite Hlk, Hc. case_decide as E.
    + intros (y & _ & ->)%fmap_Some. done.
    + intros Hx. split; [|done]. intros Hr. by apply Hn in Hx.
  - intros _ x Hx Hr. rewrite Hc, Ht. cbn [priority with_state].
    apply list_elem_of_lookup in Hx as [j Hj]. rewrite Hlk in Hj. case_decide as E.
    + apply fmap_Some in Hj as (y & _ & ->). done.
    + apply S3; [|done]. by eapply list_elem_of_lookup_2.
  - rewrite Hc. intros ->. done.
Qed.

Lemma advance_none_running now s : none_running s -> none_running (advance_to now s).
Proof.
  intros Hn i x. unfold advance_to, wake_due. cbn [tasks_].
  rewrite list_lookup_fmap. intros (y & Hy & ->)%fmap_Some. apply Hn in Hy.
  by destruct (_ && _).
Qed.

Lemma schedule_loop_dispatched fuel prev s sw s' :
  sched_wf s -> none_running s -> (prev = None \/ prev = Some (current_ s)) ->
  schedule_loop fuel prev s = Some (sw, s') ->
  dispatched s' /\ task_count_ s' = task_count_ s /\
  match sw with
  | Stay => current_ s' = current_ s /\ prev = Some (current_ s')
  | SwitchTo n => current_ s' = n /\ n <> INVALID_TASK /\ prev <> Some n
  | ToIdle => current_ s' = INVALID_TASK
  end.
Proof.
  revert s. induction fuel as [|fuel IH]; intros s Hw Hn Hprev Hr; [done|].
  rewrite schedule_loop_S in Hr. cbv zeta in Hr.
  destruct (Nat.eqb_spec (select_next s) INVALID_TASK) as [Esel|Esel]; cbn [negb] in Hr.
  - destruct (Z.eqb_spec (earliest (tasks_ s)) UINT32_MAX) as [Ee|Ee].
    + injection Hr as <- <-. split; [|done].
      pose proof Hw as (H1 & H2 & H3 & H4).
      pose proof (select_next_spec s (tcb_wf_prio _ H2) H1) as Hs.
      rewrite Esel, Nat.eqb_refl in Hs.
      split; [by split; [|split; [|split; [|left]]]|]. split; [|split].
      * intros i x Hx. split; [by intros ?%(Hn i x Hx)|]. cbn. intros ->.
        apply lookup_lt_Some in Hx. cbn in Hx. unfold task_count_, INVALID_TASK, MAX_TASKS in *. lia.
      * by intros [].
      * intros _ x Hx. split; [by apply Hs|]. intros Hd.
        destruct (earliest_fold (tasks_ s) UINT32_MAX) as (_ & E & _).
        fold (earliest (tasks_ s)) in E. specialize (E x Hx Hd).
        rewrite Forall_forall in H2. destruct (H2 x Hx) as [_ Hrt].
        unfold in_u32, UINT32_MAX in *. lia.
    + assert (task_count_ (advance_to (earliest (tasks_ s)) s) = task_count_ s) as Hct
        by apply length_wake_due.
      rewrite <-Hct. apply (IH (advance_to (earliest (tasks_ s)) s)); [|by apply advance_none_running|done|done].
      apply advance_to_wf; [done|by apply earliest_range].
  - assert (forall s0 n f, task_count_ (update_task n f s0) = task_count_ s0) as Hlen
      by (intros; apply length_alter).
    case_bool_decide as Ep; injection Hr as <- <-.
    + assert (current_ s = select_next s) as Ec by (destruct Hprev; congruence).
      assert (with_current (select_next s) s = s) as Es by (rewrite <-Ec; by destruct s).
      pose proof (dispatch_next s Hw Hn Esel) as Hd. rewrite Es in Hd.
      split; [done|]. split; [apply Hlen|]. split; [done|]. cbn. congruence.
    + split; [by apply dispatch_next|].
      split; [apply (Hlen (with_current (select_next s) s))|]. done.
Qed.

(** * API calls *)

(** The scheduler is started when no task runs, and a running task exits. *)
Definition sched_op_ok (s : t) (o : sched_op) : Prop :=
  match o with
  | Create p => in_u8 p
  | Start => current_ s = INVALID_TASK
  | Delay n | Tick n => in_u32 n
  | Exit => current_ s <> INVALID_TASK
  | _ => True
  end.

(** What every call guarantees: it returns, keeps the scheduler well formed with
    only the current task RUNNING, and reports its switch truly. *)
Definition step_result (s s' : t) (sw : switch) : Prop :=
  sched_wf s' /\ running_ok s' /\
  match sw with
  | Stay => current_ s' = current_ s
  | SwitchTo n => current_ s' = n /\ n <> INVALID_TASK
  | ToIdle => current_ s' = INVALID_TASK
  end.

(** ... and the calls that preserve priority scheduling. *)
Definition step_goal (s : t) (preempts : bool) (r : option (switch * t)) : Prop :=
  exists sw s', r = Some (sw, s') /\ step_result s s' sw /\
    (preempts = true -> preempt_ok s -> preempt_ok s').

Lemma schedule_from_step s0 s :
  sched_wf s -> none_running s -> current_ s = current_ s0 ->
  step_goal s0 true (schedule_from (current_ s) s).
Proof.
  intros Hw Hn Hc. unfold schedule_from.
  destruct (schedule_loop_total (S (S (task_count_ s))) (Some (current_ s)) s) as [[sw s'] Hr].
  { pose proof (delays_bound (tasks_ s)). unfold task_count_. lia. }
  destruct (schedule_loop_dispatched _ _ _ _ _ Hw Hn (or_intror eq_refl) Hr) as ((D1 & D2 & D3 & _) & _ & D4).
  exists sw, s'. split; [done|]. split; [|done]. split; [done|]. split; [done|].
  destruct sw; [|by destruct D4 as (? & ? & ?)|done].
  destruct D4. congruence.
Qed.

Lemma update_current_step s0 s f :
  sched_wf s -> running_ok s -> current_ s = current_ s0 ->
  (forall x, tcb_wf x -> tcb_wf (f x)) -> (forall x, state (f x) <> RUNNING) ->
  step_goal s0 true (schedule_from (current_ s) (update_task (current_ s) f s)).
Proof.
  intros Hw Hr Hc Hf1 Hf2.
  apply (schedule_from_step s0 (update_task (current_ s) f s)); [by apply update_task_wf| |done].
  apply update_none_running; [|done]. intros j x Hx Hj. by eapply running_others.
Qed.

(** Changing the state of another task to one that is neither RUNNING nor READY. *)
Lemma update_other_step s i x0 :
  sched_wf s -> running_ok s -> i <> current_ s -> x0 <> RUNNING -> x0 <> READY ->
  step_goal s true (Some (Stay, update_task i (with_state x0) s)).
Proof.
  intros Hw Hr Hi H1 H2. eexists _, _. split; [done|].
  assert (task (update_task i (with_state x0) s) (current_ s) = task s (current_ s)) as Ht.
  { unfold task. rewrite !list_lookup_total_alt, task_update. by rewrite decide_False. }
  split; [split; [|split; [|done]]|].
  - by apply update_task_wf.
  - intros j x. rewrite task_update. case_decide as E; [|apply Hr].
    intros (y & _ & ->)%fmap_Some. cbn. subst j. split; [done|]. intros ->. by destruct Hi.
  - intros _ Hp Hne x Hx Hxr. cbn [current_ update_task]. rewrite Ht. apply Hp; [done| |done].
    apply list_elem_of_lookup in Hx as [j Hj]. rewrite task_update in Hj. case_decide as E.
    + by apply fmap_Some in Hj as (y & _ & ->).
    + by eapply list_elem_of_lookup_2.
Qed.

Lemma stay_step s b : sched_wf s -> running_ok s -> step_goal s b (Some (Stay, s)).
Proof. intros Hw Hr. exists Stay, s. split; [done|]. split; [by split|done]. Qed.

(** Making another task READY. *)
Lemma ready_other_ok s i :
  sched_wf s -> running_ok s -> i <> current_ s ->
  sched_wf (update_task i (with_state READY) s) /\ running_ok (update_task i (with_state READY) s).
Proof.
  intros Hw Hr Hi. split; [by apply update_task_wf|].
  intros j x. rewrite task_update. case_decide as E; [|apply Hr].
  intros (y & _ & ->)%fmap_Some. cbn. subst j. split; [done|]. intros ->. by destruct Hi.
Qed.

Lemma advance_ok now s :
  sched_wf s -> in_u32 now -> running_ok s ->
  sched_wf (advance_to now s) /\ running_ok (advance_to now s).
Proof.
  intros Hw Hn Hr. split; [by apply advance_to_wf|].
  intros i x. unfold advance_to, wake_due. cbn [tasks_ current_].
  rewrite list_lookup_fmap. intros (y & Hy & ->)%fmap_Some. rewrite <-(Hr i y Hy).
  destruct (delayed y) eqn:Ed; cbn [andb]; [|done].
  destruct (_ <=? _); [|done]. apply andb_true_iff in Ed as [Ed _].
  apply bool_decide_eq_true in Ed. cbn. rewrite Ed. done.
Qed.

Lemma unblock_step s i : sched_wf s -> running_ok s -> step_goal s true (unblock i s).
Proof.
  intros Hw Hr. unfold unblock. destruct (Nat.leb_spec (task_count_ s) i) as [|Hi]; [by apply stay_step|].
  case_bool_decide as Hb; cbn [negb]; [|by apply stay_step].
  assert (i <> current_ s) as Hic.
  { intros ->. pose proof (task_lookup s _ Hi) as E. apply Hr in E as E'. by rewrite (proj2 E' eq_refl) in Hb. }
  destruct (ready_other_ok s i Hw Hr Hic) as [Hw1 Hr1]. set (s1 := update_task i (with_state READY) s) in *.
  destruct (negb _ && _) eqn:Ec.
  - by apply (update_current_step s s1).
  - exists Stay, s1. split; [done|]. split; [by split|]. intros _ Hp Hne x Hx Hxr.
    apply andb_false_iff in Ec as [Ec|Ec].
    { apply negb_false_iff, Nat.eqb_eq in Ec. by destruct Hne. }
    apply Z.ltb_ge in Ec. apply list_elem_of_lookup in Hx as [j Hj].
    unfold s1 in Hj. rewrite task_update in Hj. case_decide as E.
    + subst j. assert (task s1 i = x) as <-; [|exact Ec].
      unfold task. apply list_lookup_total_correct. unfold s1. by rewrite task_update, decide_True.
    + assert (task s1 (current_ s1) = task s (current_ s)) as ->.
      { unfold task, s1. rewrite !list_lookup_total_alt, task_update.
        by rewrite decide_False by (intros E'; by destruct Hic). }
      apply Hp; [done| |done]. by eapply list_elem_of_lookup_2.
Qed.

Lemma tick_step s ms : sched_wf s -> running_ok s -> step_goal s true (tick ms s).
Proof.
  intros Hw Hr. unfold tick. set (now := u32 (tick_count_ s + ms)).
  destruct (advance_ok now s Hw (u32_range _) Hr) as [Hw1 Hr1]. set (s1 := advance_to now s) in *.
  destruct (negb _ && _ && _) eqn:Ec.
  - by apply (update_current_step s s1).
  - exists Stay, s1. split; [done|]. split; [by split|]. intros _ _ Hne x Hx Hxr.
    destruct Hw1 as (H1 & H2 & H3 & H4).
    pose proof (select_next_spec s1 (tcb_wf_prio _ H2) H1) as Hs.
    rewrite (proj2 (Nat.eqb_neq _ _) Hne) in Ec. rewrite andb_true_r in Ec.
    destruct (Nat.eqb_spec (select_next s1) INVALID_TASK) as [E|E]; cbn [negb andb] in Ec.
    + destruct H4 as [H4|H4]; [done|]. rewrite Forall_forall in H2.
      destruct (H2 _ (task_elem s1 _ H4)) as [Hp _]. specialize (Hs x Hx).
      destruct (Z.lt_ge_cases (priority x) 0xFF) as [Hlt|Hge]; [by destruct Hs|].
      unfold in_u8 in Hp. lia.
    + apply Z.ltb_ge in Ec. destruct Hs as (_ & _ & Hs & _). specialize (Hs x Hx Hxr). lia.
Qed.

Lemma exit_step s :
  sched_wf s -> running_ok s -> current_ s <> INVALID_TASK ->
  step_goal s true (task_exit (current_ s) s).
Proof.
  intros Hw Hr Hne. unfold task_exit, schedule_after_delete.
  set (s1 := update_task (current_ s) (with_state DELETED) s).
  assert (sched_wf s1) as Hw1 by (by apply update_task_wf).
  assert (none_running s1) as Hn1.
  { apply update_none_running; [|done]. intros j x Hx Hj. by eapply running_others. }
  destruct (schedule_loop_total (S (S (task_count_ s1))) None s1) as [[sw s'] E].
  { pose proof (delays_bound (tasks_ s1)). unfold task_count_. lia. }
  destruct (schedule_loop_dispatched _ _ _ _ _ Hw1 Hn1 (or_introl eq_refl) E)
    as ((D1 & D2 & D3 & _) & D5 & D4).
  exists sw, s'. split; [done|]. split; [|done]. split; [done|]. split; [done|].
  destruct sw as [|n|]; [by destruct D4|by destruct D4 as (? & ? & ?)|done].
Qed.

Lemma start_step s :
  sched_wf s -> running_ok s -> current_ s = INVALID_TASK ->
  step_goal s true (Some (vTaskStartScheduler s)).
Proof.
  intros Hw Hr Hc. unfold vTaskStartScheduler.
  destruct (Nat.eqb_spec (select_next s) INVALID_TASK) as [E|E]; [by apply stay_step|].
  assert (none_running s) as Hn.
  { intros i x Hx Hs. apply (Hr i x Hx) in Hs. apply lookup_lt_Some in Hx.
    destruct Hw as [Hl _]. unfold task_count_, INVALID_TASK, MAX_TASKS in *. lia. }
  destruct (dispatch_next s Hw Hn E) as (D1 & D2 & D3 & _).
  eexists _, _. split; [done|]. split; [|done]. by split.
Qed.

Lemma create_step s p :
  sched_wf s -> running_ok s -> in_u8 p -> step_goal s false (Some (Stay, snd (xTaskCreate p s))).
Proof.
  intros Hw Hr Hp. unfold xTaskCreate.
  destruct (Nat.leb_spec MAX_TASKS (task_count_ s)) as [|Hlt]; [by apply stay_step|].
  eexists _, _. split; [done|]. split; [|done]. destruct Hw as (H1 & H2 & H3 & H4).
  split; [|split; [|done]].
  - unfold sched_wf, task_count_ in *. cbn [snd tasks_ tick_count_ current_].
    rewrite length_app. cbn [length]. split; [lia|]. split; [|split; [done|]].
    + apply Forall_app. split; [done|]. constructor; [|constructor]. split; [done|]. split; simpl; lia.
    + destruct H4; [by left|right; lia].
  - intros i x. cbn [snd tasks_ current_]. intros [Hx|[Hle Hx]]%lookup_app_Some; [by apply Hr|].
    apply list_lookup_singleton_Some in Hx as [Hx <-]. cbn. split; [done|]. intros ->.
    unfold task_count_, INVALID_TASK, MAX_TASKS in *. lia.
Qed.

Lemma resume_step s i :
  sched_wf s -> running_ok s -> step_goal s false (Some (Stay, vTaskResume i s)).
Proof.
  intros Hw Hr. unfold vTaskResume. destruct (Nat.leb_spec (task_count_ s) i) as [|Hi]; [by apply stay_step|].
  case_bool_decide as Hs; [|by apply stay_step].
  assert (i <> current_ s) as Hic.
  { intros ->. pose proof (task_lookup s _ Hi) as E. apply Hr in E as E'. by rewrite (proj2 E' eq_refl) in Hs. }
  destruct (ready_other_ok s i Hw Hr Hic). eexists _, _. split; [done|]. by split.
Qed.

Definition preempts (o : sched_op) : bool :=
  match o with Create _ | Resume _ => false | _ => true end.

Lemma sched_step_goal s o :
  sched_wf s -> running_ok s -> sched_op_ok s o -> step_goal s (preempts o) (sched_step s o).
Proof.
  intros Hw Hr Ho. destruct o as [p| |n|i|i|i| |i|n| ]; cbn [sched_step sched_op_ok preempts] in *.
  - by apply create_step.
  - by apply start_step.
  - unfold vTaskDelay. destruct (Nat.eqb_spec (current_ s) INVALID_TASK); [by apply stay_step|].
    destruct (n =? 0); apply update_current_step; try done.
    intros x [Hp _]. split; [done|apply u32_range].
  - unfold vTaskSuspend. destruct (Nat.leb_spec (task_count_ s) i); [by apply stay_step|].
    cbn [current_ update_task].
    destruct (Nat.eqb_spec i (current_ s)) as [->|Hi]; [by apply update_current_step|].
    by apply update_other_step.
  - by apply resume_step.
  - unfold vTaskDelete. destruct (Nat.leb_spec (task_count_ s) i); [by apply stay_step|].
    cbn [current_ update_task].
    destruct (Nat.eqb_spec i (current_ s)) as [->|Hi]; [by apply update_current_step|].
    by apply update_other_step.
  - unfold block_current. destruct (Nat.eqb_spec (current_ s) INVALID_TASK); [by apply stay_step|].
    by apply update_current_step.
  - by apply unblock_step.
  - by apply tick_step.
  - by apply exit_step.
Qed.

(** * Properties *)

Inductive sched_reachable : t -> Prop :=
  | sched_new : sched_reachable new_scheduler
  | sched_next s o sw s' :
      sched_reachable s -> sched_op_ok s o -> sched_step s o = Some (sw, s') -> sched_reachable s'.

Lemma reachable_ok s : sched_reachable s -> sched_wf s /\ running_ok s.
Proof.
  induction 1 as [|s o sw s' Hs [Hw Hr] Ho Hstep].
  - split; [|done]. split; [simpl; unfold MAX_TASKS; cbn; lia|]. split; [constructor|].
    split; [split; simpl; lia|by left].
  - destruct (sched_step_goal s o Hw Hr Ho) as (sw1 & s1 & E & (H1 & H2 & _) & _).
    rewrite E in Hstep. injection Hstep as -> ->. done.
Qed.

(** Running a sequence of calls. *)
Fixpoint sched_run (s : t) (os : list sched_op) : option t :=
  match os with
  | [] => Some s
  | o :: os => match sched_step s o with
               | Some (_, s') => sched_run s' os
               | None => None
               end
  end.

(** The arguments a call sequence may have, as a test. *)
Definition op_okb (s : t) (o : sched_op) : bool :=
  match o with
  | Create p => (0 <=? p) && (p <? 256)
  | Start => (current_ s =? INVALID_TASK)%nat
  | Delay n | Tick n => (0 <=? n) && (n <? 2 ^ 32)
  | Exit => negb (current_ s =? INVALID_TASK)%nat
  | _ => true
  end.

Lemma op_okb_ok s o : op_okb s o = true -> sched_op_ok s o.
Proof.
  destruct o as [p| |n|i|i|i| |i|n| ]; cbn [op_okb sched_op_ok]; unfold in_u8, in_u32; try done; try lia.
Qed.

(** Every call of the sequence is allowed where it is made. *)
Fixpoint run_okb (s : t) (os : list sched_op) : bool :=
  match os with
  | [] => true
  | o :: os => op_okb s o &&
               match sched_step s o with
               | Some (_, s') => run_okb s' os
               | None => true
               end
  end.

Lemma sched_run_reachable os s s' :
  sched_reachable s -> run_okb s os = true -> sched_run s os = Some s' -> sched_reachable s'.
Proof.
  revert s. induction os as [|o os IH]; intros s Hs Hok Hr; cbn [run_okb sched_run] in *.
  - by injection Hr as <-.
  - apply andb_true_iff in Hok as [Ho Hok]. destruct (sched_step s o) as [[sw s1]|] eqn:E; [|done].
    apply (IH s1); [|done|done]. eapply sched_next; [done|by apply op_okb_ok|done].
Qed.

(** C1: Whatever sequence of API calls is made on a new scheduler, in any order
    and with any arguments: the next call returns (the discrete-event loop
    terminates), at most 16 tasks exist, the task reported as current is the one
    RUNNING task, and the context switch performed is the one to the new current
    task, to the idle context exactly when no task is current any more. *)
Theorem sched_invariant s o :
  sched_reachable s -> sched_op_ok s o ->
  sched_wf s /\ running_ok s /\
  exists sw s', sched_step s o = Some (sw, s') /\ step_result s s' sw.
Proof.
  intros Hs Ho. destruct (reachable_ok s Hs) as [Hw Hr].
  split; [done|]. split; [done|].
  destruct (sched_step_goal s o Hw Hr Ho) as (sw & s' & E & H & _). eauto.
Qed.

(** C31: Selection.  [select_next] returns INVALID_TASK exactly when no task is
    READY with a priority other than 0xFF; otherwise a READY task of the highest
    priority among the READY ones, and among those of that priority the first
    after the current task in round-robin order. *)
Theorem select_next_highest s :
  sched_wf s ->
  let n := select_next s in
  (n = INVALID_TASK <-> forall x, x ∈ tasks_ s -> ~ eligible x) /\
  (n <> INVALID_TASK ->
   (n < task_count_ s)%nat /\ state (task s n) = READY /\
   (forall x, x ∈ tasks_ s -> state x = READY -> priority (task s n) <= priority x) /\
   forall j, (j < task_count_ s)%nat -> state (task s j) = READY ->
     priority (task s j) = priority (task s n) ->
     (rank (task_count_ s) (start_index s) n <= rank (task_count_ s) (start_index s) j)%nat).
Proof.
  intros (H1 & H2 & _) n. pose proof (select_next_spec s (tcb_wf_prio _ H2) H1) as Hs. fold n in Hs.
  destruct (Nat.eqb_spec n INVALID_TASK) as [E|E].
  - split; [by split|]. by intros [].
  - destruct Hs as (S1 & [S2 S2'] & S3 & S4). split; [|done]. split; [done|].
    intros Hno. exfalso. by apply (Hno _ (task_elem s n S1)).
Qed.

(** C30: Priority preemption.  If no READY task is more urgent than the current
    one, then after any call but xTaskCreate and vTaskResume that still holds of
    the task current then: unblocking or waking a more urgent task, or giving up
    the CPU, runs the most urgent READY task. *)
Theorem sched_preemption s o sw s' :
  sched_wf s -> running_ok s -> sched_op_ok s o -> preempts o = true ->
  sched_step s o = Some (sw, s') -> preempt_ok s -> preempt_ok s'.
Proof.
  intros Hw Hr Ho Hp E Hs. destruct (sched_step_goal s o Hw Hr Ho) as (sw1 & s1 & E1 & _ & H).
  rewrite E1 in E. injection E as -> ->. by apply H.
Qed.

(** The first state in which two tasks run round robin. *)
Definition two_tasks : list sched_op := [Create 2; Create 2; Create 5; Start].

Definition sched_demo : t := default new_scheduler (sched_run new_scheduler two_tasks).

Lemma sched_demo_reachable : sched_reachable sched_demo.
Proof. apply (sched_run_reachable two_tasks new_scheduler); [constructor|vm_compute; reflexivity..]. Qed.

Lemma sched_invariant_witness :
  exists sw s', sched_step sched_demo (Delay 5) = Some (sw, s') /\ step_result sched_demo s' sw.
Proof.
  destruct (sched_invariant sched_demo (Delay 5) sched_demo_reachable (op_okb_ok sched_demo (Delay 5) eq_refl))
    as (_ & _ & H). exact H.
Defined.

Lemma select_next_highest_witness :
  select_next sched_demo = 1%nat /\ state (task sched_demo 1) = READY.
Proof.
  split; [reflexivity|].
  destruct (select_next_highest sched_demo (proj1 (reachable_ok _ sched_demo_reachable))) as [_ H].
  apply H. discriminate.
Defined.

Lemma sched_preemption_witness :
  preempt_ok (snd (default (Stay, sched_demo) (sched_step sched_demo (Delay 5)))).
Proof.
  destruct (reachable_ok _ sched_demo_reachable) as [Hw Hr].
  refine (sched_preemption sched_demo (Delay 5) (SwitchTo 1) _ Hw Hr _ eq_refl _ _).
  - by apply op_okb_ok.
  - vm_compute. reflexivity.
  - intros _ x Hx _. revert x Hx. apply Forall_forall. repeat constructor; discriminate.
Defined.
