(* ===== verification/SchedTime.v ===== *)
(** The scheduler's treatment of time: deadlines of vTaskDelay over sequences of
    calls, and where the code's own bookkeeping makes time run backwards. *)
From Stdlib Require Import ZifyBool.
From S2P Require Export SchedulerProps.

Import Scheduler.

(** * Time *)

(** Deadlines lie ahead, and only tasks waiting for one have one. *)
Definition calm (s : t) : Prop :=
  forall x, x ∈ tasks_ s ->
    if delayed x then tick_count_ s < resume_tick x else resume_tick x = 0.

(** What scheduling at time [now] makes of a task. *)
Definition woken (now : Z) (x x' : TCB) : Prop :=
  if delayed x then
    (x' = x /\ now < resume_tick x) \/
    ((state x' = READY \/ state x' = RUNNING) /\ resume_tick x' = 0 /\ resume_tick x <= now)
  else resume_tick x' = resume_tick x /\
       (state x' = state x \/ (state x = READY /\ state x' = RUNNING)).

Definition timely (s s' : t) : Prop :=
  calm s' /\ tick_count_ s <= tick_count_ s' /\
  forall i x, tasks_ s !! i = Some x ->
    exists x', tasks_ s' !! i = Some x' /\ woken (tick_count_ s') x x'.

Lemma woken_refl s x : calm s -> x ∈ tasks_ s -> woken (tick_count_ s) x x.
Proof.
  intros Hc Hx. specialize (Hc x Hx). unfold woken. destruct (delayed x); [by left|].
  split; [done|by left].
Qed.

Lemma woken_trans n1 n2 x y z : n1 <= n2 -> woken n1 x y -> woken n2 y z -> woken n2 x z.
Proof.
  unfold woken. intros Hn Hxy Hyz. destruct (delayed x) eqn:Ex.
  - destruct Hxy as [[-> Hlt]|(Hs & Hr & Hle)].
    + by rewrite Ex in Hyz.
    + right. assert (delayed y = false) as Ey.
      { unfold delayed. by rewrite Hr, andb_false_r. }
      rewrite Ey in Hyz. destruct Hyz as [H1 H2]. split; [|split; [congruence|lia]].
      destruct H2 as [->|[_ ->]]; [done|by right].
  - destruct Hxy as [H1 H2]. assert (delayed y = false) as Ey.
    { revert Ex. unfold delayed. rewrite H1. destruct H2 as [->|[-> ->]]; [done|].
      intros _. by rewrite bool_decide_eq_false_2. }
    rewrite Ey in Hyz. destruct Hyz as [H3 H4]. split; [congruence|].
    destruct H2 as [H2|[H2 H2']], H4 as [H4|[H4 H4']]; try congruence;
      [left; congruence|right; split; congruence|right; split; congruence].
Qed.

Lemma timely_trans s1 s2 s3 : timely s1 s2 -> timely s2 s3 -> timely s1 s3.
Proof.
  intros (_ & T1 & W1) (C & T2 & W2). split; [done|]. split; [lia|].
  intros i x Hx. destruct (W1 i x Hx) as (y & Hy & Hxy). destruct (W2 i y Hy) as (z & Hz & Hyz).
  exists z. split; [done|]. by eapply woken_trans.
Qed.

Lemma advance_timely now s :
  calm s -> sched_wf s -> tick_count_ s <= now -> timely s (advance_to now s).
Proof.
  intros Hc (_ & Hw & _) Hn.
  assert (forall x, x ∈ tasks_ s ->
    woken now x (if delayed x && (resume_tick x <=? now) then mkTCB (priority x) READY 0 else x)) as Hwk.
  { intros x Hx. specialize (Hc x Hx). unfold woken. destruct (delayed x); cbn [andb].
    - destruct (Z.leb_spec (resume_tick x) now); [right|by left]. cbn. auto.
    - split; [done|by left]. }
  split; [|split; [done|]].
  - intros x Hx. unfold advance_to, wake_due in Hx. cbn [tasks_] in Hx.
    apply list_elem_of_fmap in Hx as (y & -> & Hy). specialize (Hc y Hy). specialize (Hwk y Hy).
    destruct (delayed y) eqn:Ey; cbn [andb].
    + destruct (Z.leb_spec (resume_tick y) now); [done|]. rewrite Ey. cbn [tick_count_ advance_to]. lia.
    + by rewrite Ey.
  - intros i x Hx. unfold advance_to, wake_due. cbn [tasks_ tick_count_].
    rewrite list_lookup_fmap, Hx. eexists. split; [done|]. apply Hwk. by eapply list_elem_of_lookup_2.
Qed.

Lemma schedule_loop_timely fuel prev s sw s' :
  sched_wf s -> calm s -> schedule_loop fuel prev s = Some (sw, s') -> timely s s'.
Proof.
  revert s. induction fuel as [|fuel IH]; intros s Hw Hc Hr; [done|].
  assert (forall n c, select_next s = n -> n <> INVALID_TASK ->
    timely s (update_task n (with_state RUNNING) (with_current c s))) as Hdisp.
  { intros n c Hsel Hne. destruct Hw as (H1 & H2 & _).
    pose proof (select_next_spec s (tcb_wf_prio _ H2) H1) as Hs. rewrite Hsel in Hs.
    rewrite (proj2 (Nat.eqb_neq _ _) Hne) in Hs. destruct Hs as (S1 & [S2 _] & _).
    pose proof (task_lookup s n S1) as Hn.
    assert (delayed (task s n) = false) as Hnd.
    { unfold delayed. rewrite S2. by rewrite bool_decide_eq_false_2. }
    pose proof (Hc _ (task_elem s n S1)) as Hn0. rewrite Hnd in Hn0.
    split; [|split; [done|]].
    - intros x Hx. apply list_elem_of_lookup in Hx as [j Hj].
      rewrite (task_update (with_current c s)) in Hj. case_decide as E.
      + subst j. cbn [tasks_ with_current] in Hj. rewrite Hn in Hj. injection Hj as <-.
        unfold delayed. cbn [state with_state resume_tick]. by rewrite bool_decide_eq_false_2.
      + apply Hc. by eapply list_elem_of_lookup_2.
    - intros i x Hx. rewrite (task_update (with_current c s)). cbn [tasks_ with_current].
      case_decide as E.
      + subst i. rewrite Hx. eexists. split; [done|]. rewrite Hn in Hx. injection Hx as <-.
        unfold woken. rewrite Hnd. split; [done|]. by right.
      + exists x. split; [done|]. apply (woken_refl s); [done|]. by eapply list_elem_of_lookup_2. }
  rewrite schedule_loop_S in Hr. cbv zeta in Hr.
  destruct (Nat.eqb_spec (select_next s) INVALID_TASK) as [Esel|Esel]; cbn [negb] in Hr.
  - destruct (Z.eqb_spec (earliest (tasks_ s)) UINT32_MAX) as [Ee|Ee].
    + injection Hr as <- <-. split; [done|]. split; [done|]. intros i x Hx. exists x. split; [done|].
      apply (woken_refl s); [done|]. by eapply list_elem_of_lookup_2.
    + assert (tick_count_ s <= earliest (tasks_ s)) as Hle.
      { destruct (earliest_fold (tasks_ s) UINT32_MAX) as (_ & _ & [E|(x & Hx & Hd & E)]); [done|].
        fold (earliest (tasks_ s)) in E. specialize (Hc x Hx). rewrite Hd in Hc. lia. }
      pose proof (advance_timely _ s Hc Hw Hle) as Ha.
      eapply timely_trans; [done|]. apply IH; [by apply advance_to_wf, earliest_range| |done]. apply Ha.
  - case_bool_decide as Ep; injection Hr as <- <-; [|by apply Hdisp].
    assert (with_current (current_ s) s = s) as Es by (by destruct s).
    pose proof (Hdisp _ (current_ s) eq_refl Esel) as H. by rewrite Es in H.
Qed.

(** * Calls that respect deadlines *)

(** A call that respects deadlines: it does not overflow the tick count, and does
    not touch another task that is waiting for its deadline. *)
Definition respects (s : t) (o : sched_op) : Prop :=
  match o with
  | Delay n | Tick n => tick_count_ s + n < 2 ^ 32
  | Unblock i | Suspend i | Delete i => delayed (task s i) = false
  | _ => True
  end.

(** The other task a call acts on. *)
Definition touched (o : sched_op) : option nat :=
  match o with
  | Unblock i | Suspend i | Delete i => Some i
  | _ => None
  end.

(** The blocked tasks other than the touched one. *)
Definition watched (a : option nat) (i : nat) (x : TCB) : Prop := state x = BLOCKED /\ a <> Some i.

(** [timely] for those tasks. *)
Definition punctual (a : option nat) (s s' : t) : Prop :=
  calm s' /\ tick_count_ s <= tick_count_ s' /\
  forall i x, tasks_ s !! i = Some x -> watched a i x ->
    exists x', tasks_ s' !! i = Some x' /\ woken (tick_count_ s') x x'.

Definition punctual_step (a : option nat) (s : t) (r : option (switch * t)) : Prop :=
  forall sw s', r = Some (sw, s') -> punctual a s s'.

Lemma punctual_timely a s1 s2 s3 : punctual a s1 s2 -> timely s2 s3 -> punctual a s1 s3.
Proof.
  intros (_ & T1 & W1) (C & T2 & W2). split; [done|]. split; [lia|].
  intros i x Hx Hd. destruct (W1 i x Hx Hd) as (y & Hy & Hxy). destruct (W2 i y Hy) as (z & Hz & Hyz).
  exists z. split; [done|]. by eapply woken_trans.
Qed.

Lemma timely_punctual a s s' : timely s s' -> punctual a s s'.
Proof. intros (C & T & W). split; [done|]. split; [done|]. intros i x Hx _. by apply W. Qed.

Lemma punctual_refl a s : calm s -> punctual a s s.
Proof.
  intros Hc. split; [done|]. split; [done|]. intros i x Hx _. exists x. split; [done|].
  apply (woken_refl s); [done|]. by eapply list_elem_of_lookup_2.
Qed.

Lemma schedule_punctual a s s1 fuel prev :
  sched_wf s1 -> punctual a s s1 -> punctual_step a s (schedule_loop fuel prev s1).
Proof.
  intros Hw Hp sw s' Hr. eapply punctual_timely; [done|].
  eapply schedule_loop_timely; [done|apply Hp|done].
Qed.

Lemma stay_punctual a s s1 sw : punctual a s s1 -> punctual_step a s (Some (sw, s1)).
Proof. by intros Hp sw' s' [= <- <-]. Qed.

(** Changing a task that is not waiting for a deadline, so that it has none
    afterwards, or one ahead. *)
Lemma update_punctual a s s1 i f :
  punctual a s s1 ->
  (forall x, tasks_ s1 !! i = Some x -> delayed x = false) ->
  (forall x, tasks_ s !! i = Some x -> ~ watched a i x) ->
  (forall x, tasks_ s1 !! i = Some x -> resume_tick x = 0 ->
     if delayed (f x) then tick_count_ s1 < resume_tick (f x) else resume_tick (f x) = 0) ->
  punctual a s (update_task i f s1).
Proof.
  intros (C & T & W) Hi1 Hi Hf. split; [|split; [done|]].
  - intros x Hx. apply list_elem_of_lookup in Hx as [j Hj]. rewrite task_update in Hj.
    cbn [tick_count_ update_task]. case_decide as E.
    + subst j. apply fmap_Some in Hj as (y & Hy & ->). apply Hf; [done|].
      specialize (C y (list_elem_of_lookup_2 _ _ _ Hy)). by rewrite (Hi1 y Hy) in C.
    + apply C. by eapply list_elem_of_lookup_2.
  - intros j x Hx Hd. destruct (W j x Hx Hd) as (x' & Hx' & Hwk). exists x'. split; [|done].
    rewrite task_update. case_decide as E; [|done]. subst j. by apply Hi in Hx.
Qed.

(** ... in particular giving it a new state. *)
Lemma update_state_punctual a s s1 i y :
  punctual a s s1 ->
  (forall x, tasks_ s1 !! i = Some x -> delayed x = false) ->
  (forall x, tasks_ s !! i = Some x -> ~ watched a i x) ->
  punctual a s (update_task i (with_state y) s1).
Proof.
  intros Hp H1 H2. apply update_punctual; try done.
  intros x _ H0. unfold delayed. cbn [resume_tick with_state]. by rewrite H0, andb_false_r.
Qed.

Lemma current_not_delayed s x :
  running_ok s -> tasks_ s !! current_ s = Some x -> delayed x = false.
Proof.
  intros Hr Hx. apply Hr in Hx as E. unfold delayed.
  rewrite (proj2 E eq_refl). by rewrite bool_decide_eq_false_2.
Qed.

Lemma task_not_delayed s i x :
  delayed (task s i) = false -> tasks_ s !! i = Some x -> delayed x = false.
Proof. intros Hd Hx. unfold task in Hd. by rewrite (list_lookup_total_correct _ _ _ Hx) in Hd. Qed.

Lemma state_not_delayed s i :
  state (task s i) <> BLOCKED -> delayed (task s i) = false.
Proof. intros Hs. unfold delayed. by rewrite bool_decide_eq_false_2. Qed.

Lemma state_not_watched a s i x :
  state (task s i) <> BLOCKED -> tasks_ s !! i = Some x -> ~ watched a i x.
Proof.
  intros Hs Hx [Hb _]. apply Hs. unfold task. by rewrite (list_lookup_total_correct _ _ _ Hx).
Qed.

Lemma current_not_watched a s x :
  running_ok s -> tasks_ s !! current_ s = Some x -> ~ watched a (current_ s) x.
Proof. intros Hr Hx [Hb _]. apply Hr in Hx as E. by rewrite (proj2 E eq_refl) in Hb. Qed.

Lemma touched_not_watched i x : ~ watched (Some i) i x.
Proof. by intros [_ []]. Qed.

Section Step.
Context (s : t) (Hw : sched_wf s) (Hr : running_ok s) (Hc : calm s).

#[local] Hint Resolve punctual_refl update_state_punctual current_not_delayed task_not_delayed
  update_task_wf stay_punctual state_not_watched current_not_watched touched_not_watched : core.

Lemma current_state_step a y fuel prev :
  punctual_step a s (schedule_loop fuel prev (update_task (current_ s) (with_state y) s)).
Proof. apply schedule_punctual; [by apply update_task_wf|]. eauto. Qed.

Lemma create_punctual a p : punctual_step a s (Some (Stay, snd (xTaskCreate p s))).
Proof.
  unfold xTaskCreate. destruct (MAX_TASKS <=? task_count_ s)%nat; [by eauto|].
  apply stay_punctual. split; [|split; [done|]].
  - intros x Hx. cbn in Hx. apply elem_of_app in Hx as [Hx| ->%list_elem_of_singleton]; [by apply Hc|done].
  - intros i x Hx _. exists x. split; [cbn; by apply lookup_app_l_Some|].
    apply (woken_refl s); [done|]. by eapply list_elem_of_lookup_2.
Qed.

Lemma start_punctual a : punctual_step a s (Some (vTaskStartScheduler s)).
Proof.
  unfold vTaskStartScheduler. destruct (Nat.eqb_spec (select_next s) INVALID_TASK) as [E|E]; [by eauto|].
  assert (schedule_loop 1 None s =
    Some (SwitchTo (select_next s), update_task (select_next s) (with_state RUNNING)
      (with_current (select_next s) s))) as <-.
  { rewrite schedule_loop_S. cbv zeta. by rewrite (proj2 (Nat.eqb_neq _ _) E). }
  apply schedule_punctual; auto.
Qed.

Lemma delay_punctual a n :
  in_u32 n -> tick_count_ s + n < 2 ^ 32 -> punctual_step a s (vTaskDelay n s).
Proof.
  intros Hn Hlt. unfold vTaskDelay. destruct (Nat.eqb_spec (current_ s) INVALID_TASK); [by eauto|].
  destruct (Z.eqb_spec n 0) as [->|Hn0]; [by apply current_state_step|].
  destruct Hw as (_ & _ & Ht & _). apply schedule_punctual.
  - apply update_task_wf; [done|]. intros x [Hp _]. split; [done|apply u32_range].
  - apply update_punctual; eauto. intros x Hx _.
    unfold delayed. cbn [resume_tick state with_state with_resume].
    rewrite u32_small by (unfold in_u32 in *; lia). rewrite bool_decide_eq_true_2 by done.
    cbn [andb]. unfold in_u32 in *. destruct (Z.ltb_spec 0 (tick_count_ s + n)); lia.
Qed.

(** vTaskSuspend and vTaskDelete. *)
Lemma stop_punctual i y :
  delayed (task s i) = false ->
  punctual_step (Some i) s
    (if (task_count_ s <=? i)%nat then Some (Stay, s)
     else let s1 := update_task i (with_state y) s in
          if (i =? current_ s1)%nat then schedule_from (current_ s1) s1 else Some (Stay, s1)).
Proof.
  intros Hd. destruct (task_count_ s <=? i)%nat; [by eauto|]. cbv zeta. cbn [current_ update_task].
  destruct (Nat.eqb_spec i (current_ s)) as [->|_]; [by apply current_state_step|].
  apply stay_punctual; eauto.
Qed.

Lemma resume_punctual a i : punctual_step a s (Some (Stay, vTaskResume i s)).
Proof.
  unfold vTaskResume. destruct (task_count_ s <=? i)%nat; [by eauto|].
  case_bool_decide as Hs; [|by eauto].
  assert (delayed (task s i) = false) by (apply state_not_delayed; by rewrite Hs).
  assert (state (task s i) <> BLOCKED) by (by rewrite Hs).
  apply stay_punctual; eauto.
Qed.

Lemma block_punctual a : punctual_step a s (block_current s).
Proof.
  unfold block_current. destruct (Nat.eqb_spec (current_ s) INVALID_TASK); [by eauto|].
  by apply current_state_step.
Qed.

Lemma unblock_punctual i : delayed (task s i) = false -> punctual_step (Some i) s (unblock i s).
Proof.
  intros Hd. unfold unblock. destruct (Nat.leb_spec (task_count_ s) i) as [|Hi]; [by eauto|].
  case_bool_decide as Hb; cbn [negb]; [|by eauto].
  assert (i <> current_ s) as Hic.
  { intros ->. pose proof (task_lookup s _ Hi) as E. apply Hr in E as E'. by rewrite (proj2 E' eq_refl) in Hb. }
  assert (punctual (Some i) s (update_task i (with_state READY) s)) as Hp by eauto.
  destruct (ready_other_ok s i Hw Hr Hic) as [Hw1 Hr1].
  set (s1 := update_task i (with_state READY) s) in *.
  destruct (negb _ && _); [|by eauto].
  apply schedule_punctual; [by apply update_task_wf|]. apply update_state_punctual; eauto.
  intros x. change (current_ s1) with (current_ s). eauto.
Qed.

Lemma tick_punctual a n : in_u32 n -> tick_count_ s + n < 2 ^ 32 -> punctual_step a s (tick n s).
Proof.
  intros Hn Hlt. unfold tick.
  destruct (advance_ok _ s Hw (u32_range (tick_count_ s + n)) Hr) as [Hw1 Hr1].
  assert (punctual a s (advance_to (u32 (tick_count_ s + n)) s)) as Hp.
  { apply timely_punctual, advance_timely; [done|done|]. destruct Hw as (_ & _ & Ht & _).
    rewrite u32_small by (unfold in_u32 in *; lia). unfold in_u32 in *. lia. }
  set (s1 := advance_to (u32 (tick_count_ s + n)) s) in *.
  destruct (negb _ && _ && _); [|by eauto].
  apply schedule_punctual; [by apply update_task_wf|]. apply update_state_punctual; eauto.
  intros x. change (current_ s1) with (current_ s). eauto.
Qed.

Lemma sched_step_punctual o :
  sched_op_ok s o -> respects s o -> punctual_step (touched o) s (sched_step s o).
Proof.
  intros Ho Hres. destruct o as [p| |n|i|i|i| |i|n| ]; cbn [sched_step sched_op_ok respects touched] in *.
  - apply create_punctual.
  - apply start_punctual.
  - by apply delay_punctual.
  - by apply stop_punctual.
  - apply resume_punctual.
  - by apply stop_punctual.
  - apply block_punctual.
  - by apply unblock_punctual.
  - by apply tick_punctual.
  - apply current_state_step.
Qed.
End Step.

(** * Properties *)

(** C27: Time.  From a state in which every deadline lies ahead, a call that
    neither overflows the 32-bit tick count nor touches another task waiting for
    its deadline leads to such a state again; the tick count does not go back;
    and a task waiting for a deadline is either left alone, its deadline still
    ahead, or woken at or after its deadline: never early, never forgotten. *)
Theorem sched_time s o sw s' :
  sched_wf s -> running_ok s -> calm s -> sched_op_ok s o -> respects s o ->
  sched_step s o = Some (sw, s') ->
  calm s' /\ tick_count_ s <= tick_count_ s' /\
  forall i x, tasks_ s !! i = Some x -> delayed x = true ->
    exists x', tasks_ s' !! i = Some x' /\
      ((x' = x /\ tick_count_ s' < resume_tick x) \/
       (resume_tick x <= tick_count_ s' /\ (state x' = READY \/ state x' = RUNNING))).
Proof.
  intros Hw Hr Hc Ho Hres E.
  destruct (sched_step_punctual s Hw Hr Hc o Ho Hres sw s' E) as (C & T & W).
  split; [done|]. split; [done|]. intros i x Hx Hd. destruct (W i x Hx) as (x' & Hx' & Hwk).
  { split; [by apply andb_true_iff in Hd as [Hd%bool_decide_eq_true _]|]. intros E'.
    assert (delayed (task s i) = false) as Hd' by (by destruct o; simplify_eq/=).
    by rewrite (task_not_delayed s i x Hd' Hx) in Hd. }
  exists x'. split; [done|]. unfold woken in Hwk. rewrite Hd in Hwk.
  destruct Hwk as [?|(H1 & H2 & H3)]; [by left|by right].
Qed.

Lemma sched_time_witness :
  tick_count_ (snd (default (Stay, sched_demo) (sched_step sched_demo (Delay 5)))) = 0 /\
  calm (snd (default (Stay, sched_demo) (sched_step sched_demo (Delay 5)))).
Proof.
  destruct (reachable_ok _ sched_demo_reachable) as [Hw Hr].
  split; [reflexivity|].
  refine (proj1 (sched_time sched_demo (Delay 5) (SwitchTo 1) _ Hw Hr _ _ _ _)).
  - intros x Hx. revert x Hx. by apply (Forall_forall (fun x : TCB =>
      if delayed x then tick_count_ sched_demo < resume_tick x else resume_tick x = 0)); repeat constructor.
  - by apply op_okb_ok.
  - reflexivity.
  - vm_compute. reflexivity.
Defined.

(** The condition on deadlines is needed: the deadline of a task that was
    suspended in its delay and resumed stays in its control block, and when the
    task next blocks on something else, with nothing READY, the scheduler takes
    it for a deadline: the tick count goes back to it and the task wakes although
    nothing unblocked it. *)
Theorem stale_deadline :
  exists s s', sched_reachable s /\ sched_step s Block = Some (SwitchTo 0, s') /\
    state (task s 0) = BLOCKED /\ state (task s' 0) = RUNNING /\ tick_count_ s' < tick_count_ s.
Proof.
  set (os := [Create 1; Create 2; Start; Delay 100; Suspend 0; Resume 0; Tick 500; Block]).
  exists (default new_scheduler (sched_run new_scheduler os)).
  exists (default new_scheduler (sched_run new_scheduler (os ++ [Block]))).
  split; [apply (sched_run_reachable os new_scheduler); [constructor|vm_compute; reflexivity..]|]. by vm_compute.
Qed.

(** Deletion is not final: suspending and resuming a task that has returned
    from its function makes it READY again, and the next scheduling decision
    switches to it. *)
Theorem deleted_returns :
  exists s s', sched_reachable s /\ state (task s 0) = DELETED /\
    sched_run s [Suspend 0; Resume 0; Delay 1] = Some s' /\
    current_ s' = 0%nat /\ state (task s' 0) = RUNNING.
Proof.
  set (os := [Create 1; Create 2; Start; Exit]).
  exists (default new_scheduler (sched_run new_scheduler os)).
  exists (default new_scheduler (sched_run new_scheduler (os ++ [Suspend 0; Resume 0; Delay 1]))).
  split; [apply (sched_run_reachable os new_scheduler); [constructor|vm_compute; reflexivity..]|]. by vm_compute.
Qed.
