(* ===== verification/SchedLive.v ===== *)
(** Round robin is fair: in any run, a READY task that nothing more urgent keeps
    waiting gets the CPU after the tasks before it in the order have given it up
    once each. *)
From S2P Require Export SchedTime.

Import Scheduler.

(** * Tasks that can run *)

Definition active (x : TCB) : Prop := state x = READY \/ state x = RUNNING.

(** Ready or running. *)
Definition runnable (s : t) (j : nat) : Prop := exists x, tasks_ s !! j = Some x /\ active x.

(** ... with priority [p]. *)
Definition runnable_at (p : Z) (s : t) (j : nat) : Prop :=
  exists x, tasks_ s !! j = Some x /\ active x /\ priority x = p.

Lemma runnable_priority s j : runnable s j <-> runnable_at (priority (task s j)) s j.
Proof.
  split; intros (x & Hx & Hs); exists x; [|naive_solver]. split; [done|]. split; [done|].
  unfold task. by rewrite (list_lookup_total_correct _ _ _ Hx).
Qed.

Lemma runnable_forget p s j : runnable_at p s j -> runnable s j.
Proof. intros (x & Hx & Ha & _). by exists x. Qed.

Section Runnable.
Context (p : Z).

Lemma runnable_at_update s i f j :
  (i = j -> forall x, active x -> active (f x) /\ priority (f x) = priority x) ->
  runnable_at p s j -> runnable_at p (update_task i f s) j.
Proof.
  intros Hf (x & Hx & Hs & Hp). unfold runnable_at. rewrite task_update. case_decide as E; [|eauto].
  subst j. rewrite Hx. exists (f x). split; [done|]. destruct (Hf eq_refl x Hs) as [? ->]. done.
Qed.

Lemma runnable_at_advance now s j : runnable_at p s j -> runnable_at p (advance_to now s) j.
Proof.
  intros (x & Hx & Hs & Hp). unfold runnable_at, advance_to, wake_due. cbn [tasks_].
  rewrite list_lookup_fmap, Hx. eexists. split; [done|].
  destruct (delayed x && (resume_tick x <=? now)); [|done]. split; [by left|done].
Qed.

Lemma runnable_at_schedule fuel prev s sw s' j :
  schedule_loop fuel prev s = Some (sw, s') -> runnable_at p s j -> runnable_at p s' j.
Proof.
  revert s. induction fuel as [|fuel IH]; intros s E Hr; [done|]. rewrite schedule_loop_S in E. cbv zeta in E.
  destruct (negb _).
  - case_bool_decide; injection E as <- <-;
      (apply runnable_at_update; [by intros _ x _; split; [right|]|done]).
  - destruct (_ =? _); [by injection E as <- <-|]. by apply (IH _ E), runnable_at_advance.
Qed.

(** A task that can run can still run after a call of another task that does not
    touch it; unblocking and creating never take that away. *)
Lemma runnable_at_step s o sw s' j :
  sched_step s o = Some (sw, s') -> j <> current_ s -> touched o <> Some j \/ o = Unblock j ->
  runnable_at p s j -> runnable_at p s' j.
Proof.
  intros E Hj Ht Hr.
  assert (forall i f, (i <> j) -> runnable_at p (update_task i f s) j) as Hother
    by (intros i f Hne; by apply runnable_at_update).
  assert (forall i s0, runnable_at p s0 j -> runnable_at p (update_task i (with_state READY) s0) j) as Hready
    by (intros i s0; apply runnable_at_update; by intros _ x _; split; [left|]).
  destruct o; cbn [sched_step touched] in *.
  - injection E as <- <-. unfold xTaskCreate. case_match; [done|]. destruct Hr as (x & Hx & Hs & Hp).
    exists x. split; [cbn [snd tasks_]; apply lookup_app_l_Some, Hx|done].
  - unfold vTaskStartScheduler in E. case_match; injection E as <- <-; [done|].
    by apply runnable_at_update; [by intros _ x _; split; [right|]|].
  - unfold vTaskDelay in E. repeat case_match; [by injection E as <- <-| |];
      (eapply runnable_at_schedule; [exact E|]); [by apply Hready|by apply Hother].
  - assert (i <> j) by (destruct Ht as [Ht|]; [congruence|done]). unfold vTaskSuspend in E.
    repeat case_match; [by injection E as <- <-| |by injection E as <- <-; apply Hother].
    eapply runnable_at_schedule; [exact E|by apply Hother].
  - injection E as <- <-. unfold vTaskResume. repeat case_match; [done|by apply Hready|done].
  - assert (i <> j) by (destruct Ht as [Ht|]; [congruence|done]). unfold vTaskDelete in E.
    repeat case_match; [by injection E as <- <-| |by injection E as <- <-; apply Hother].
    eapply runnable_at_schedule; [exact E|by apply Hother].
  - unfold block_current in E. case_match; [by injection E as <- <-|].
    eapply runnable_at_schedule; [exact E|by apply Hother].
  - unfold unblock in E. repeat case_match; try (injection E as <- <-); try done; [|by apply Hready].
    eapply runnable_at_schedule; [exact E|by apply Hready, Hready].
  - unfold tick in E. cbv zeta in E. case_match; [|by injection E as <- <-; apply runnable_at_advance].
    eapply runnable_at_schedule; [exact E|by apply Hready, runnable_at_advance].
  - eapply runnable_at_schedule; [exact E|by apply Hother].
Qed.
End Runnable.

Lemma runnable_update s i f j :
  (i = j -> forall x, active x -> active (f x) /\ priority (f x) = priority x) ->
  runnable s j -> runnable (update_task i f s) j.
Proof. rewrite (runnable_priority s). intros Hf Hr. by eapply runnable_forget, runnable_at_update. Qed.

Lemma runnable_schedule fuel prev s sw s' j :
  schedule_loop fuel prev s = Some (sw, s') -> runnable s j -> runnable s' j.
Proof. rewrite (runnable_priority s). intros E Hr. by eapply runnable_forget, runnable_at_schedule. Qed.

Lemma runnable_step s o sw s' j :
  sched_step s o = Some (sw, s') -> j <> current_ s -> touched o <> Some j \/ o = Unblock j ->
  runnable s j -> runnable s' j.
Proof. rewrite (runnable_priority s). intros E Hj Ht Hr. by eapply runnable_forget, runnable_at_step. Qed.

(** Waking another task does not stop the caller. *)
Lemma unblock_caller s w sw s' :
  sched_step s (Unblock w) = Some (sw, s') -> runnable s (current_ s) -> runnable s' (current_ s).
Proof.
  intros E Hr. cbn [sched_step] in E. unfold unblock in E.
  assert (forall i s0, runnable s0 (current_ s) ->
    runnable (update_task i (with_state READY) s0) (current_ s)) as Hready
    by (intros i s0; apply runnable_update; by intros _ x _; split; [left|]).
  repeat case_match; try (injection E as <- <-); try done; [|by apply Hready].
  eapply runnable_schedule; [exact E|by apply Hready, Hready].
Qed.

(** * Distance *)

(** How many tasks come between [c] and [i] in the order in which they are
    considered, counting all the places of the table. *)
Definition between (c i : nat) : nat :=
  if (c <? i)%nat then (i - c - 1)%nat else (i + MAX_TASKS - c - 1)%nat.

Lemma rank_unfold n start j :
  (start < n)%nat -> (j < n)%nat ->
  rank n start j = if (start <=? j)%nat then (j - start)%nat else (j + n - start)%nat.
Proof.
  intros Hs Hj. unfold rank. destruct (Nat.leb_spec start j).
  - replace (j + n - start)%nat with (j - start + 1 * n)%nat by lia.
    rewrite Nat.Div0.mod_add. apply Nat.mod_small. lia.
  - apply Nat.mod_small. lia.
Qed.

Lemma next_index c n :
  (c < n)%nat -> ((c + 1) mod n)%nat = if (c + 1 =? n)%nat then 0%nat else (c + 1)%nat.
Proof.
  intros Hc. destruct (Nat.eqb_spec (c + 1) n) as [->|]; [apply Nat.Div0.mod_same|].
  apply Nat.mod_small. lia.
Qed.

(** Selecting another task at or before [i] leaves fewer between. *)
Lemma rank_between n c j i :
  (n <= MAX_TASKS)%nat -> (c < n)%nat -> (j < n)%nat -> (i < n)%nat -> c <> i -> j <> i ->
  (rank n ((c + 1) mod n) j <= rank n ((c + 1) mod n) i)%nat ->
  j <> c /\ (between j i < between c i)%nat.
Proof.
  intros Hn Hc Hj Hi Hci Hji. rewrite next_index by done. unfold between.
  destruct (Nat.eqb_spec (c + 1) n); rewrite !rank_unfold by lia;
    repeat match goal with |- context [(?a <=? ?b)%nat] => destruct (Nat.leb_spec a b) end;
    repeat match goal with |- context [(?a <? ?b)%nat] => destruct (Nat.ltb_spec a b) end;
    lia.
Qed.

(** * A task whose turn will come *)

(** A task more urgent than [i] can run. *)
Definition outranked (i : nat) (s : t) : Prop :=
  exists x, x ∈ tasks_ s /\ active x /\ priority x < priority (task s i).

Definition ready (i : nat) (s : t) : Prop :=
  (i < task_count_ s)%nat /\ eligible (task s i).

(** A decision made while [i] is READY and that leaves it so, with nothing more
    urgent, is a switch to a task nearer to [i]. *)
Lemma schedule_closer fuel prev s sw s' i :
  sched_wf s -> none_running s -> ready i s -> (current_ s < task_count_ s)%nat -> current_ s <> i ->
  (prev = None \/ prev = Some (current_ s)) ->
  schedule_loop (S fuel) prev s = Some (sw, s') -> ready i s' -> ~ outranked i s' ->
  sw = SwitchTo (current_ s') /\ (between (current_ s') i < between (current_ s) i)%nat.
Proof.
  intros Hw Hn [Hi Hr] Hc Hci Hprev E [_ Hr'] Ho. pose proof Hw as (H1 & H2 & _).
  pose proof (select_next_spec s (tcb_wf_prio _ H2) H1) as Hs.
  rewrite schedule_loop_S in E. cbv zeta in E. set (n := select_next s) in *.
  destruct (Nat.eqb_spec n INVALID_TASK) as [En|En]; cbn [negb] in E.
  { destruct (Hs (task s i)); [by apply task_elem|done]. }
  destruct Hs as (S1 & _ & S3 & S4).
  set (sn := update_task n (with_state RUNNING) (with_current n s)) in *.
  assert (s' = sn) as ->.
  { revert E. case_bool_decide as Ep; [|by intros [= _ <-]]. intros [= _ <-].
    assert (n = current_ s) as Ec by (destruct Hprev; congruence). unfold sn. rewrite Ec. by destruct s. }
  assert (forall j, (j < task_count_ s)%nat ->
    tasks_ sn !! j = Some (if decide (j = n) then with_state RUNNING (task s j) else task s j)) as Hl.
  { intros j Hj. unfold sn. rewrite task_update. cbn [tasks_ with_current].
    rewrite task_lookup by done. by destruct (decide (j = n)). }
  assert (task sn i = if decide (i = n) then with_state RUNNING (task s i) else task s i) as Ht.
  { unfold task at 1. apply list_lookup_total_correct. by apply Hl. }
  assert (n <> i) as Hni by (intros <-; rewrite Ht, decide_True in Hr' by done; by destruct Hr').
  rewrite decide_False in Ht by done.
  assert (priority (task s i) = priority (task s n)) as Hp.
  { apply Z.le_antisymm; [|apply S3; [by apply task_elem|apply Hr]].
    destruct (Z.le_gt_cases (priority (task s i)) (priority (task s n))) as [|Hlt]; [done|]. destruct Ho.
    exists (with_state RUNNING (task s n)). split; [|split; [by right|by rewrite Ht]].
    eapply list_elem_of_lookup_2. rewrite Hl by done. by rewrite decide_True. }
  specialize (S4 i Hi (proj1 Hr) Hp). unfold start_index in S4.
  rewrite (proj2 (Nat.eqb_neq _ _)) in S4 by (unfold INVALID_TASK, MAX_TASKS in *; lia).
  apply rank_between in S4 as [Hnc Hb]; [|done..]. cbn [current_ sn update_task with_current].
  split; [|done]. revert E. case_bool_decide as Ep; [|by intros [= <-]].
  destruct Hprev; congruence.
Qed.

(** * Steps *)

Lemma task_update_ne s j f i : i <> j -> task (update_task j f s) i = task s i.
Proof. intros Hi. unfold task. rewrite !list_lookup_total_alt, task_update. by rewrite decide_False. Qed.

Lemma count_update s j f : task_count_ (update_task j f s) = task_count_ s.
Proof. apply length_alter. Qed.

Lemma ready_update s j f i : i <> j -> ready i (update_task j f s) <-> ready i s.
Proof. intros Hi. unfold ready. by rewrite count_update, task_update_ne. Qed.

Lemma ready_not_current s i : running_ok s -> ready i s -> current_ s <> i.
Proof.
  intros Hr [Hi [Hs _]] Hc. pose proof (task_lookup s i Hi) as E. apply Hr in E.
  rewrite (proj2 E) in Hs by done. done.
Qed.

(** The running task leaves the CPU for another one nearer to [i]. *)
Lemma leave_closer fuel prev s f sw s' i :
  sched_wf s -> running_ok s -> ready i s -> (current_ s < task_count_ s)%nat ->
  (forall x, tcb_wf x -> tcb_wf (f x)) -> (forall x, state (f x) <> RUNNING) ->
  (prev = None \/ prev = Some (current_ s)) ->
  schedule_loop (S fuel) prev (update_task (current_ s) f s) = Some (sw, s') ->
  ready i s' -> ~ outranked i s' ->
  sw = SwitchTo (current_ s') /\ (between (current_ s') i < between (current_ s) i)%nat.
Proof.
  intros Hw Hr Hi Hc Hf1 Hf2 Hprev E Hi' Ho. pose proof (ready_not_current s i Hr Hi) as Hne.
  apply (schedule_closer fuel prev (update_task (current_ s) f s)); try done.
  - by apply update_task_wf.
  - apply update_none_running; [|done]. intros j x Hx Hj. by eapply running_others.
  - by apply ready_update.
  - by rewrite count_update.
Qed.

(** The calls by which the running task leaves the CPU. *)
Definition gives_up (s : t) (o : sched_op) : bool :=
  match o with
  | Delay _ | Block | Exit => true
  | Suspend j | Delete j => (j =? current_ s)%nat
  | _ => false
  end.

Lemma ready_advance now s i : ready i s -> ready i (advance_to now s).
Proof.
  intros [Hi [Hs Hp]]. assert (task (advance_to now s) i = task s i) as Ht.
  { unfold task at 1. apply list_lookup_total_correct. unfold advance_to, wake_due. cbn [tasks_].
    rewrite list_lookup_fmap, task_lookup by done. cbn. unfold delayed. by rewrite Hs. }
  unfold ready. rewrite Ht. split; [|done]. unfold task_count_, advance_to in *. cbn [tasks_].
  by rewrite length_wake_due.
Qed.

Definition nearer (i : nat) (s s' : t) (sw : switch) (leaves : bool) : Prop :=
  (sw = Stay /\ leaves = false /\ current_ s' = current_ s) \/
  (sw = SwitchTo (current_ s') /\ (between (current_ s') i < between (current_ s) i)%nat).

Section Step.
Context (s : t) (i : nat).
Hypothesis (Hw : sched_wf s) (Hr : running_ok s) (Hc : (current_ s < task_count_ s)%nat).
Hypothesis (Hi : ready i s).

Lemma current_valid : (current_ s =? INVALID_TASK)%nat = false.
Proof using Hw Hc. apply Nat.eqb_neq. destruct Hw as [H _]. unfold INVALID_TASK, MAX_TASKS in *. lia. Qed.

Lemma stay_nearer sw s1 s' :
  Some (Stay, s1) = Some (sw, s') -> current_ s1 = current_ s -> nearer i s s' sw false.
Proof using. intros [= <- <-] E. by left. Qed.

Lemma stop_nearer j y sw s' :
  y <> RUNNING ->
  (if (j =? current_ s)%nat
   then schedule_from (current_ s) (update_task j (with_state y) s)
   else Some (Stay, update_task j (with_state y) s)) = Some (sw, s') ->
  ready i s' -> ~ outranked i s' -> nearer i s s' sw (j =? current_ s)%nat.
Proof using All.
  intros Hy E Hi' Ho. destruct (Nat.eqb_spec j (current_ s)) as [->|]; [|by eapply stay_nearer].
  right. eapply leave_closer; [..|exact E|done|done]; try done. by right.
Qed.

Lemma unblock_nearer j sw s' :
  unblock j s = Some (sw, s') -> ready i s' -> ~ outranked i s' -> nearer i s s' sw false.
Proof using All.
  unfold unblock. intros E Hi' Ho. destruct (_ <=? _)%nat; [by eapply stay_nearer|].
  case_bool_decide as Hb; cbn [negb] in E; [|by eapply stay_nearer].
  destruct (negb _ && _); [|by eapply stay_nearer].
  assert (j <> current_ s) as Hjc.
  { intros ->. pose proof (task_lookup s _ Hc) as E'. apply Hr in E'. by rewrite (proj2 E') in Hb. }
  destruct (ready_other_ok s j Hw Hr Hjc) as [Hw1 Hr1]. right.
  apply (leave_closer _ _ _ _ _ _ i Hw1 Hr1) in E; try done.
  - apply ready_update; [|done]. intros <-. destruct Hi as [_ [Hs _]]. congruence.
  - by rewrite count_update.
  - by right.
Qed.

Lemma tick_nearer n sw s' :
  tick n s = Some (sw, s') -> ready i s' -> ~ outranked i s' -> nearer i s s' sw false.
Proof using All.
  unfold tick. intros E Hi' Ho.
  destruct (advance_ok (u32 (tick_count_ s + n)) s Hw (u32_range _) Hr) as [Hw1 Hr1].
  destruct (negb _ && _ && _); [|by eapply stay_nearer].
  right. apply (leave_closer _ _ _ _ _ _ i Hw1 Hr1) in E; try done.
  - by apply ready_advance.
  - unfold task_count_, advance_to. cbn [tasks_ current_]. by rewrite length_wake_due.
  - by right.
Qed.

Lemma step_nearer o sw s' :
  sched_op_ok s o -> sched_step s o = Some (sw, s') -> ready i s' -> ~ outranked i s' ->
  nearer i s s' sw (gives_up s o).
Proof using All.
  pose proof current_valid as Hv.
  intros Hok E Hi' Ho. destruct o as [p| |n|j|j|j| |j|n| ]; cbn [sched_step gives_up] in *.
  - eapply stay_nearer; [exact E|]. unfold xTaskCreate. by destruct (_ <=? _)%nat.
  - cbn in Hok. by rewrite Hok in Hv.
  - right. unfold vTaskDelay in E. rewrite Hv in E. destruct (n =? 0).
    all: eapply leave_closer; [..|exact E|done|done]; try done; try by right.
    intros x [Hp _]. split; [done|apply u32_range].
  - unfold vTaskSuspend in E. destruct (Nat.leb_spec (task_count_ s) j).
    + rewrite (proj2 (Nat.eqb_neq _ _)) by lia. by eapply stay_nearer.
    + by apply (stop_nearer j SUSPENDED).
  - eapply stay_nearer; [exact E|]. unfold vTaskResume. destruct (_ <=? _)%nat; [done|]. by case_bool_decide.
  - unfold vTaskDelete in E. destruct (Nat.leb_spec (task_count_ s) j).
    + rewrite (proj2 (Nat.eqb_neq _ _)) by lia. by eapply stay_nearer.
    + by apply (stop_nearer j DELETED).
  - right. unfold block_current in E. rewrite Hv in E.
    eapply leave_closer; [..|exact E|done|done]; try done. by right.
  - by eapply unblock_nearer.
  - by eapply tick_nearer.
  - right. eapply leave_closer; [..|exact E|done|done]; try done. by left.
Qed.
End Step.

(** * Runs *)

(** The states of a run, the first included. *)
Fixpoint sched_states (s : t) (os : list sched_op) : list t :=
  s :: match os with
       | [] => []
       | o :: os => match sched_step s o with
                    | Some (_, s') => sched_states s' os
                    | None => []
                    end
       end.

(** How often the running task leaves the CPU. *)
Fixpoint departures (s : t) (os : list sched_op) : nat :=
  match os with
  | [] => 0
  | o :: os => (if gives_up s o then 1 else 0) +
               match sched_step s o with
               | Some (_, s') => departures s' os
               | None => 0
               end
  end.

#[global] Instance active_dec x : Decision (active x).
Proof. unfold active. apply _. Defined.
#[global] Instance ready_dec i s : Decision (ready i s).
Proof. unfold ready, eligible. apply _. Defined.
#[global] Instance outranked_dec i s : Decision (outranked i s).
Proof.
  refine (cast_if (decide (Exists (fun x => active x /\ priority x < priority (task s i)) (tasks_ s))));
    unfold outranked; by rewrite <-Exists_exists.
Defined.

(** Why [i] waits no longer: it runs, it was suspended or deleted, or a more urgent
    task can run. *)
Definition released (i : nat) (s : t) : Prop :=
  (current_ s = i /\ state (task s i) = RUNNING) \/
  state (task s i) = SUSPENDED \/ state (task s i) = DELETED \/ outranked i s.

Lemma ready_runnable i s : ready i s -> runnable s i.
Proof. intros [Hi [Hs _]]. exists (task s i). split; [by apply task_lookup|by left]. Qed.

Lemma not_ready_released i s o sw s' :
  sched_wf s -> running_ok s -> ready i s -> sched_op_ok s o -> sched_step s o = Some (sw, s') ->
  ~ (ready i s' /\ ~ outranked i s') -> released i s'.
Proof.
  intros Hw Hr Hi Ho E Hn. unfold released. destruct (decide (outranked i s')) as [|Hno]; [auto|].
  assert (~ ready i s') as Hnr by naive_solver. clear Hn Hno.
  pose proof (ready_not_current s i Hr Hi) as Hne.
  destruct (sched_step_goal s o Hw Hr Ho) as (sw1 & s1 & E1 & (_ & Hr' & _) & _).
  rewrite E1 in E. injection E as -> ->.
  assert ((touched o <> Some i \/ o = Unblock i) \/ o = Suspend i \/ o = Delete i) as [Ht|Ht].
  { destruct o as [| | |j|j|j| |j| |]; cbn [touched]; try (by left; left);
      destruct (decide (j = i)) as [->|]; naive_solver. }
  - pose proof (proj1 (runnable_priority s i) (ready_runnable i s Hi)) as Hrun.
    apply (runnable_at_step _ _ _ _ _ _ E1) in Hrun as (x & Hx & Ha & Hp); [|done..].
    assert (task s' i = x) as Htx by (unfold task; by apply list_lookup_total_correct).
    destruct Ha as [Ha|Ha].
    + destruct Hnr. split; [by apply lookup_lt_Some in Hx|]. rewrite Htx. split; [done|].
      rewrite Hp. apply Hi.
    + left. rewrite Htx. split; [|done]. symmetry. by apply (Hr' i x Hx).
  - assert (forall y, task (update_task i (with_state y) s) i = with_state y (task s i)) as Hy.
    { intros y. unfold task at 1. apply list_lookup_total_correct.
      rewrite task_update, decide_True, task_lookup; [done|apply Hi|done]. }
    destruct Hi as [Hi _], Ht as [-> | ->]; cbn [sched_step] in E1;
      [unfold vTaskSuspend in E1|unfold vTaskDelete in E1];
      rewrite (proj2 (Nat.leb_gt _ _)), (proj2 (Nat.eqb_neq _ _)) in E1 by done;
      injection E1 as <- <-; rewrite Hy; auto.
Qed.

Lemma round_robin_run os s i :
  sched_wf s -> running_ok s -> (current_ s < task_count_ s)%nat -> ready i s ->
  run_okb s os = true -> (between (current_ s) i < departures s os)%nat ->
  exists s', s' ∈ sched_states s os /\ released i s'.
Proof.
  revert s. induction os as [|o os IH]; intros s Hw Hr Hc Hi Hok Hd; cbn [departures run_okb sched_states] in *;
    [lia|]. apply andb_true_iff in Hok as [Ho Hok]. apply op_okb_ok in Ho.
  destruct (sched_step_goal s o Hw Hr Ho) as (sw & s' & E & (Hw' & Hr' & Hsw) & _). rewrite E in *.
  assert (s' ∈ sched_states s' os) as Hin by (destruct os; left).
  destruct (decide (ready i s')) as [Hi'|Hi']; [destruct (decide (outranked i s')) as [Hq|Hq]|].
  - exists s'. split; [by right|]. unfold released. auto.
  - pose proof (step_nearer s i Hw Hr Hc Hi o sw s' Ho E Hi' Hq) as Hn.
    destruct (IH s' Hw' Hr') as (s2 & Hs2 & H2); [|done|done| |exists s2; split; [by right|done]].
    + destruct Hw' as (_ & _ & _ & [Hv|]); [|done].
      destruct Hn as [(_ & _ & Hn)|[-> _]]; [|by destruct Hsw].
      pose proof (current_valid s Hw Hc) as Hcv. by rewrite <-Hn, Hv in Hcv.
    + destruct Hn as [(_ & Hg & Hn)|[_ Hn]]; [rewrite Hg in Hd; cbn in Hd; by rewrite Hn|].
      destruct (gives_up s o); lia.
  - exists s'. split; [by right|]. apply (not_ready_released i s o sw); naive_solver.
Qed.

(** * Properties *)

(** C5: Round robin is fair.  Take any state that API calls can reach in which some
    task runs and task [i] is READY, and any further calls, in any order.  Once the
    running task has left the CPU more often than there are places between it and
    [i] in the table (at most 15), by delaying, yielding, blocking, ending or
    suspending itself, there was a state in which [i] was running, unless [i] was
    suspended or deleted or a more urgent task could run. *)
Theorem round_robin_fair s os i :
  sched_reachable s -> current_ s <> INVALID_TASK -> ready i s -> run_okb s os = true ->
  (between (current_ s) i <= 15)%nat /\
  ((between (current_ s) i < departures s os)%nat ->
   exists s', s' ∈ sched_states s os /\ released i s').
Proof.
  intros Hs Hne Hi Hok. destruct (reachable_ok s Hs) as [Hw Hr].
  pose proof Hw as (Hn & _ & _ & [|Hc]); [done|]. split; [|by apply round_robin_run].
  unfold between, MAX_TASKS in *. destruct Hi as [Hi _]. destruct (Nat.ltb_spec (current_ s) i); lia.
Qed.

(** Three tasks of the same priority; the last one's turn comes after two yields,
    and a tick in between does not change that. *)
Definition three_tasks : list sched_op := [Create 2; Create 2; Create 2; Start].

Lemma round_robin_fair_witness :
  exists s', s' ∈ sched_states (default new_scheduler (sched_run new_scheduler three_tasks))
                    [Delay 0; Tick 1; Delay 5] /\ released 2 s'.
Proof.
  refine (proj2 (round_robin_fair _ [Delay 0; Tick 1; Delay 5] 2 _ _ _ _) _).
  - apply (sched_run_reachable three_tasks new_scheduler); [constructor|vm_compute; reflexivity..].
  - discriminate.
  - split; [vm_compute; repeat constructor|split; reflexivity].
  - reflexivity.
  - vm_compute. repeat constructor.
Defined.
