(* ===== verification/Waiters.v ===== *)
(** The arrays of waiting tasks that the semaphore, the mutex, the queue and the
    event group each keep ([waiters_], [wait_count_]): the list of the first
    [wait_count_] elements. *)
From S2P Require Export Scheduler.

Section Waiters.
Context {A : Type} `{Inhabited A}.

(** [if (wait_count_ < MAX_TASKS) waiters_[wait_count_++] = w;] *)
Definition register (w : A) (l : list A) : list A :=
  if (length l <? Scheduler.MAX_TASKS)%nat then l ++ [w] else l.

(** [waiters_[i] = waiters_[--wait_count_];] for a positive count.  The slots from
    [wait_count_] on are written before they are read. *)
Definition compact (i : nat) (l : list A) : list A :=
  take (length l - 1) (<[i := l !!! (length l - 1)%nat]> l).
End Waiters.

(** The loop over the waiters from index [i] on, for the first of the smallest
    priorities. *)
Fixpoint best_from (prio : nat -> Z) (i : nat) (l : list nat) (best : nat) (best_prio : Z) : nat :=
  match l with
  | [] => best
  | w :: l => if prio w <? best_prio then best_from prio (S i) l i (prio w)
              else best_from prio (S i) l best best_prio
  end.

Definition best_index (prio : nat -> Z) (l : list nat) : nat :=
  match l with
  | [] => 0%nat
  | w :: l => best_from prio 1 l 0 (prio w)
  end.

(** The waiter to wake and the waiters left. *)
Definition pop_waiter (s : Scheduler.t) (l : list nat) : nat * list nat :=
  let i := best_index (Scheduler.get_priority s) l in (l !!! i, compact i l).

(** * The waiter chosen *)

Lemma best_from_spec prio i l best bp :
  let r := best_from prio i l best bp in
  (r = best /\ Forall (fun w => bp <= prio w) l) \/
  exists k w, r = (i + k)%nat /\ l !! k = Some w /\ prio w < bp /\ Forall (fun w' => prio w <= prio w') l.
Proof.
  revert i best bp. induction l as [|w l IH]; intros i best bp; cbn [best_from].
  - left. by split.
  - destruct (Z.ltb_spec (prio w) bp) as [Hlt|Hge].
    + right. destruct (IH (S i) i (prio w)) as [[-> Hl]|(k & v & -> & Hk & Hv & Hl)].
      * exists 0%nat, w. split; [lia|]. split; [done|]. split; [done|]. by constructor.
      * exists (S k), v. split; [lia|]. split; [done|]. split; [lia|]. constructor; [lia|done].
    + destruct (IH (S i) best bp) as [[-> Hl]|(k & v & -> & Hk & Hv & Hl)].
      * left. split; [done|]. by constructor.
      * right. exists (S k), v. split; [lia|]. split; [done|]. split; [done|]. constructor; [lia|done].
Qed.

Lemma best_index_spec prio l :
  l <> [] -> exists w, l !! best_index prio l = Some w /\ Forall (fun w' => prio w <= prio w') l.
Proof.
  destruct l as [|w l]; [done|]. intros _. cbn [best_index].
  destruct (best_from_spec prio 1 l 0 (prio w)) as [[-> Hl]|(k & v & -> & Hk & Hv & Hl)].
  - exists w. split; [done|]. by constructor.
  - exists v. split; [done|]. constructor; [lia|done].
Qed.

(** Compaction removes the element and permutes the others. *)
Lemma compact_permutation `{Inhabited A} i (l : list A) x :
  l !! i = Some x -> x :: compact i l ≡ₚ l.
Proof.
  intros Hi. pose proof (lookup_lt_Some _ _ _ Hi) as Hlt. unfold compact.
  destruct l as [|y l _] using rev_ind; [done|]. rewrite length_app in *. cbn [length] in *.
  replace (length l + 1 - 1)%nat with (length l) by lia.
  assert ((l ++ [y]) !!! length l = y) as ->.
  { apply list_lookup_total_correct. by rewrite list_lookup_middle. }
  destruct (Nat.eq_dec i (length l)) as [->|Hne].
  - rewrite list_lookup_middle in Hi by done. injection Hi as ->.
    rewrite list_insert_id by (by rewrite list_lookup_middle).
    rewrite take_app_length. apply Permutation_cons_append.
  - rewrite insert_app_l by lia. rewrite take_app_length' by (by rewrite length_insert).
    rewrite lookup_app_l in Hi by lia.
    rewrite <-Permutation_cons_append, insert_take_drop by lia.
    rewrite <-(take_drop_middle l i x Hi) at 3. rewrite <-!Permutation_middle. constructor.
Qed.

Lemma pop_waiter_spec s l :
  l <> [] -> let '(w, l') := pop_waiter s l in
  w :: l' ≡ₚ l /\ forall w', w' ∈ l -> Scheduler.get_priority s w <= Scheduler.get_priority s w'.
Proof.
  intros Hl. unfold pop_waiter.
  destruct (best_index_spec (Scheduler.get_priority s) l Hl) as (w & Hw & Hmin).
  rewrite (list_lookup_total_correct _ _ _ Hw). split; [by apply compact_permutation|].
  by apply Forall_forall.
Qed.
