(* ===== verification/Kernel.v ===== *)
(** Tasks running on the scheduler and calling the methods of a shared object
    (src/rtos/*.h).

    Tasks are cooperative: the code of a method between two scheduler calls runs
    without interruption, so a method is a set of such segments.  [resume] runs one
    segment on the object's state; it finishes with the method's result, or calls
    the scheduler and leaves the segment to run when that call returns, which may
    be after other tasks have run.  The saved contexts ([TCB::ctx]) are the segments
    still to run. *)
From stdpp Require Export gmap.
From S2P Require Export Scheduler Waiters.

(** What a segment ends with; [Crash] is undefined behaviour. *)
Inductive action (F V : Type) : Type :=
  | Finish (v : V)
  | Await (o : Scheduler.sched_op) (f : F)
  | Crash.
Arguments Finish {F V} v.
Arguments Await {F V} o f.
Arguments Crash {F V}.

(** An object with state [R], methods [M], segments [F] and results [V]. *)
Class Component (R M F V : Type) : Type := {
  start : M -> F;
  resume : Scheduler.t -> F -> R -> R * action F V
}.

(** What a context continues with: the task's own code, a segment of a method, or
    nothing any more. *)
Inductive continuation (F : Type) : Type :=
  | User
  | At (f : F)
  | Gone.
Arguments User {F}.
Arguments At {F} f.
Arguments Gone {F}.

Section Kernel.
Context {R M F V : Type} `{Component R M F V}.

(** A segment that ran: the task, the segment, the object's state before, the end. *)
Record event : Type := Ran { who : nat; segment : F; before : R; outcome : action F V }.

(** A saved context: whether it was left by [swapcontext] in [schedule_from], whose
    last assignment then still has to run, and what follows. *)
Record config : Type := mkConfig {
  sched : Scheduler.t;
  res : R;
  contexts : gmap nat (bool * continuation F);
  trace : list event   (* newest first *)
}.

Definition context_of (c : config) (i : nat) : bool * continuation F := default (false, User) (contexts c !! i).

Inductive result : Type :=
  | Next (c : config)
  | Undefined          (* undefined behaviour *)
  | NotEnabled.        (* not a step of this configuration *)

Definition switched (sw : switch) : bool := match sw with Stay => false | _ => true end.

(** A call of the scheduler from context [e], which continues with [k]. *)
Definition call (e : nat) (s : Scheduler.t) (o : Scheduler.sched_op) (r : R)
    (ctxs : gmap nat (bool * continuation F)) (tr : list event) (k : continuation F) : result :=
  match Scheduler.sched_step s o with
  | Some (sw, s') => Next (mkConfig s' r (<[e := (switched sw, k)]> ctxs) tr)
  | None => NotEnabled
  end.

(** Run segment [f]. *)
Definition exec (e : nat) (s : Scheduler.t) (f : F) (c : config) : result :=
  let '(r, a) := resume s f (res c) in
  let tr := Ran e f (res c) a :: trace c in
  match a with
  | Finish _ => Next (mkConfig s r (<[e := (false, User)]> (contexts c)) tr)
  | Await o f' => call e s o r (contexts c) tr (At f')
  | Crash => Undefined
  end.

(** What the running context does next: the code of a task may call any method or
    scheduler function. *)
Inductive input : Type :=
  | Go
  | Invoke (m : M)
  | Sys (o : Scheduler.sched_op).

(** The current task is the one whose context runs; the idle context has the index
    [INVALID_TASK].  [vTaskStartScheduler] saves the caller in the idle context, which
    is the running one as long as main calls it; a task that called it would overwrite
    the context of main, and [sched_op_ok] excludes that. *)
Definition kstep (c : config) (i : input) : result :=
  let e := Scheduler.current_ (sched c) in
  let '(sw, k) := context_of c e in
  let s := if sw then Scheduler.update_task e (with_state RUNNING) (sched c) else sched c in
  match k, i with
  | At f, Go => exec e s f c
  | User, Invoke m => exec e s (start m) c
  | User, Sys o =>
      call e s o (res c) (contexts c) (trace c)
        (match o with Scheduler.Exit => Gone | _ => User end)
  | Gone, _ => Undefined
  | _, _ => NotEnabled
  end.

Fixpoint krun (c : config) (inputs : list input) : result :=
  match inputs with
  | [] => Next c
  | i :: inputs => match kstep c i with
               | Next c' => krun c' inputs
               | r => r
               end
  end.

(** Main has created nothing yet and runs in the idle context. *)
Definition boot (r : R) : config := mkConfig Scheduler.new_scheduler r ∅ [].

End Kernel.
Arguments event : clear implicits.
Arguments config : clear implicits.
Arguments input : clear implicits.
Arguments result : clear implicits.
Arguments boot {R F V} r.
