(* ===== verification/Semaphore.v ===== *)
(** src/rtos/semaphore.h: the counting semaphore as a component of the kernel. *)
From S2P Require Export Kernel.

Module Semaphore.

Record t : Type := mkSem { count_ : Z; max_count_ : Z; waiters_ : list nat }.

Definition new (initial_count max_count : Z) : t := mkSem initial_count max_count [].

Inductive method : Type := Take | Give | TryTake.
(** The methods' first segments, and what follows their scheduler calls. *)
Inductive frame : Type := TakeEntry | TakeExit | GiveEntry | GiveExit | TryTakeEntry.
Inductive value : Type := Taken | Given | Tried (b : bool).

Definition take (s : Scheduler.t) (r : t) : t * action frame value :=
  if 0 <? count_ r then (mkSem (count_ r - 1) (max_count_ r) (waiters_ r), Finish Taken)
  else (mkSem (count_ r) (max_count_ r) (register (Scheduler.current_ s) (waiters_ r)),
        Await Scheduler.Block TakeExit).

Definition give (s : Scheduler.t) (r : t) : t * action frame value :=
  if (0 <? length (waiters_ r))%nat then
    let '(w, l) := pop_waiter s (waiters_ r) in
    (mkSem (count_ r) (max_count_ r) l, Await (Scheduler.Unblock w) GiveExit)
  else if count_ r <? max_count_ r then
    (mkSem (count_ r + 1) (max_count_ r) (waiters_ r), Finish Given)
  else (r, Finish Given).

Definition try_take (r : t) : t * action frame value :=
  if count_ r <=? 0 then (r, Finish (Tried false))
  else (mkSem (count_ r - 1) (max_count_ r) (waiters_ r), Finish (Tried true)).

Definition count (r : t) : Z := count_ r.
Definition max_count (r : t) : Z := max_count_ r.

Definition entry (m : method) : frame :=
  match m with Take => TakeEntry | Give => GiveEntry | TryTake => TryTakeEntry end.

Definition run (s : Scheduler.t) (f : frame) (r : t) : t * action frame value :=
  match f with
  | TakeEntry => take s r
  | TakeExit => (r, Finish Taken)
  | GiveEntry => give s r
  | GiveExit => (r, Finish Given)
  | TryTakeEntry => try_take r
  end.

#[global] Instance component : Component t method frame value := {| start := entry; resume := run |}.
End Semaphore.
