(* ===== verification/Mutex.v ===== *)
(** src/rtos/mutex.h: the mutex as a component of the kernel. *)
From S2P Require Export Kernel.

Module Mutex.

Record t : Type := mkMutex { owner_ : nat; waiters_ : list nat }.

Definition new : t := mkMutex Scheduler.INVALID_TASK [].

Inductive method : Type := Lock | Unlock | TryLock.
Inductive frame : Type := LockEntry | LockExit | UnlockEntry | UnlockExit | TryLockEntry.
Inductive value : Type := Locked | Unlocked | Tried (b : bool).

Definition lock (s : Scheduler.t) (r : t) : t * action frame value :=
  let me := Scheduler.current_ s in
  if (owner_ r =? Scheduler.INVALID_TASK)%nat then (mkMutex me (waiters_ r), Finish Locked)
  else (mkMutex (owner_ r) (register me (waiters_ r)), Await Scheduler.Block LockExit).

Definition unlock (s : Scheduler.t) (r : t) : t * action frame value :=
  if (0 <? length (waiters_ r))%nat then
    let '(w, l) := pop_waiter s (waiters_ r) in
    (mkMutex w l, Await (Scheduler.Unblock w) UnlockExit)
  else (mkMutex Scheduler.INVALID_TASK (waiters_ r), Finish Unlocked).

Definition try_lock (s : Scheduler.t) (r : t) : t * action frame value :=
  if negb (owner_ r =? Scheduler.INVALID_TASK)%nat then (r, Finish (Tried false))
  else (mkMutex (Scheduler.current_ s) (waiters_ r), Finish (Tried true)).

Definition is_locked (r : t) : bool := negb (owner_ r =? Scheduler.INVALID_TASK)%nat.
Definition owner (r : t) : nat := owner_ r.

Definition entry (m : method) : frame :=
  match m with Lock => LockEntry | Unlock => UnlockEntry | TryLock => TryLockEntry end.

Definition run (s : Scheduler.t) (f : frame) (r : t) : t * action frame value :=
  match f with
  | LockEntry => lock s r
  | LockExit => (r, Finish Locked)
  | UnlockEntry => unlock s r
  | UnlockExit => (r, Finish Unlocked)
  | TryLockEntry => try_lock s r
  end.

(** [struct Guard] on a mutex: the constructor calls [mtx_.lock()], the destructor
    [mtx_.unlock()]. *)
Module Guard.
Definition construct : method := Lock.
Definition destroy : method := Unlock.
End Guard.
Definition lock_guard : method := Guard.construct.

#[global] Instance component : Component t method frame value := {| start := entry; resume := run |}.
End Mutex.
