(* ===== verification/Queue.v ===== *)
(** src/rtos/queue.h: the blocking queue as a component of the kernel. *)
From S2P Require Export Kernel Ring.

Module Queue.
Section Queue.
Context {T : Type} `{Inhabited T} (N : nat).

Record t : Type := mkQueue {
  items : ring T;       (* [buf_], [head_], [tail_], [count_] *)
  recv_waiters_ : list nat;
  send_waiters_ : list nat
}.

Definition new : t := mkQueue (new_ring N inhabitant) [] [].

Inductive method : Type := Send (x : T) | Receive | TrySend (x : T) | TryReceive.
Inductive frame : Type :=
  | SendLoop (x : T)
  | SendExit
  | ReceiveLoop
  | ReceiveExit (x : T)
  | TrySendEntry (x : T)
  | TrySendExit
  | TryReceiveEntry
  | TryReceiveExit (x : T).
Inductive value : Type :=
  | Sent
  | Received (x : T)
  | TriedSend (b : bool)
  | TriedReceive (x : option T).

(** [wake_receiver] and [wake_sender] as the last thing a segment does: the
    segment [f] follows [unblock], or the method returns [v] at once. *)
Definition wake_receiver (s : Scheduler.t) (r : t) (f : frame) (v : value) : t * action frame value :=
  match recv_waiters_ r with
  | [] => (r, Finish v)
  | l => let '(w, l') := pop_waiter s l in
         (mkQueue (items r) l' (send_waiters_ r), Await (Scheduler.Unblock w) f)
  end.

Definition wake_sender (s : Scheduler.t) (r : t) (f : frame) (v : value) : t * action frame value :=
  match send_waiters_ r with
  | [] => (r, Finish v)
  | l => let '(w, l') := pop_waiter s l in
         (mkQueue (items r) (recv_waiters_ r) l', Await (Scheduler.Unblock w) f)
  end.

Definition with_items (q : ring T) (r : t) : t := mkQueue q (recv_waiters_ r) (send_waiters_ r).

(** The head of the loop of [send]: it comes back here after [block_current]. *)
Definition send (s : Scheduler.t) (x : T) (r : t) : t * action frame value :=
  match push N (items r) x with
  | None => (mkQueue (items r) (recv_waiters_ r)
               (register (Scheduler.current_ s) (send_waiters_ r)),
             Await Scheduler.Block (SendLoop x))
  | Some q => wake_receiver s (with_items q r) SendExit Sent
  end.

Definition receive (s : Scheduler.t) (r : t) : t * action frame value :=
  match pop N (items r) with
  | None => (mkQueue (items r) (register (Scheduler.current_ s) (recv_waiters_ r))
               (send_waiters_ r),
             Await Scheduler.Block ReceiveLoop)
  | Some (x, q) => wake_sender s (with_items q r) (ReceiveExit x) (Received x)
  end.

Definition try_send (s : Scheduler.t) (x : T) (r : t) : t * action frame value :=
  match push N (items r) x with
  | None => (r, Finish (TriedSend false))
  | Some q => wake_receiver s (with_items q r) TrySendExit (TriedSend true)
  end.

Definition try_receive (s : Scheduler.t) (r : t) : t * action frame value :=
  match pop N (items r) with
  | None => (r, Finish (TriedReceive None))
  | Some (x, q) => wake_sender s (with_items q r) (TryReceiveExit x) (TriedReceive (Some x))
  end.

Definition empty (r : t) : bool := (count_ (items r) =? 0)%nat.
Definition full (r : t) : bool := (count_ (items r) =? N)%nat.
Definition size (r : t) : nat := count_ (items r).
Definition capacity (r : t) : nat := N.

Definition entry (m : method) : frame :=
  match m with
  | Send x => SendLoop x
  | Receive => ReceiveLoop
  | TrySend x => TrySendEntry x
  | TryReceive => TryReceiveEntry
  end.

Definition run (s : Scheduler.t) (f : frame) (r : t) : t * action frame value :=
  match f with
  | SendLoop x => send s x r
  | SendExit => (r, Finish Sent)
  | ReceiveLoop => receive s r
  | ReceiveExit x => (r, Finish (Received x))
  | TrySendEntry x => try_send s x r
  | TrySendExit => (r, Finish (TriedSend true))
  | TryReceiveEntry => try_receive s r
  | TryReceiveExit x => (r, Finish (TriedReceive (Some x)))
  end.

Definition component : Component t method frame value := {| start := entry; resume := run |}.

End Queue.
Arguments t : clear implicits.
Arguments method : clear implicits.
Arguments frame : clear implicits.
Arguments value : clear implicits.
End Queue.
