(* ===== verification/EventGroup.v ===== *)
(** src/rtos/event_group.h: the event group as a component of the kernel. *)
From S2P Require Export Kernel.

Module EventGroup.

Record waiter : Type := mkWaiter { task : nat; wait_mask : Z; all : bool }.
#[global] Instance waiter_inhabited : Inhabited waiter := populate (mkWaiter 0 0 false).

Record t : Type := mkEvents { bits_ : Z; waiters_ : list waiter }.

Definition new : t := mkEvents 0 [].

Inductive method : Type :=
  | SetBits (bits : Z)
  | ClearBits (bits : Z)
  | GetBits
  | WaitBits (bits : Z) (wait_all clear_on_exit : bool)
  | CheckBits (bits : Z) (wait_all : bool).
(** [Compact i] follows the call of [unblock] in [check_waiters] at index [i]. *)
Inductive frame : Type :=
  | SetEntry (bits : Z)
  | Compact (i : nat)
  | ClearEntry (bits : Z)
  | GetEntry
  | WaitLoop (bits : Z) (wait_all clear_on_exit : bool)
  | CheckEntry (bits : Z) (wait_all : bool).
Inductive value : Type := Done | Bits (b : Z) | Checked (b : bool).

Definition satisfied (r : t) (bits : Z) (wait_all : bool) : bool :=
  if wait_all then Z.land (bits_ r) bits =? bits
  else negb (Z.land (bits_ r) bits =? 0).

(** The rest of the loop of [check_waiters] from index [i]: up to the next waiter
    whose condition holds. *)
Fixpoint next_satisfied (r : t) (i : nat) (l : list waiter) : option (nat * waiter) :=
  match l with
  | [] => None
  | w :: l => if satisfied r (wait_mask w) (all w) then Some (i, w) else next_satisfied r (S i) l
  end.

Definition check_waiters (i : nat) (r : t) : t * action frame value :=
  match next_satisfied r i (drop i (waiters_ r)) with
  | Some (j, w) => (r, Await (Scheduler.Unblock (task w)) (Compact j))
  | None => (r, Finish Done)
  end.

Definition set_bits (bits : Z) (r : t) : t * action frame value :=
  check_waiters 0 (mkEvents (Z.lor (bits_ r) bits) (waiters_ r)).

(** [waiters_[i] = waiters_[--wait_count_];] and on with the loop.  The 8-bit count
    goes from 0 to 255, past the end of the array of 16. *)
Definition compact_waiters (i : nat) (r : t) : t * action frame value :=
  match waiters_ r with
  | [] => (r, Crash)
  | l => check_waiters i (mkEvents (bits_ r) (compact i l))
  end.

Definition clear_bits (bits : Z) (r : t) : t :=
  mkEvents (Z.land (bits_ r) (u32 (Z.lnot bits))) (waiters_ r).

Definition wait_bits (s : Scheduler.t) (bits : Z) (wait_all clear_on_exit : bool) (r : t) :
    t * action frame value :=
  if negb (satisfied r bits wait_all) then
    (mkEvents (bits_ r)
       (register (mkWaiter (Scheduler.current_ s) bits wait_all) (waiters_ r)),
     Await Scheduler.Block (WaitLoop bits wait_all clear_on_exit))
  else (if clear_on_exit then clear_bits bits r else r, Finish (Bits (bits_ r))).

Definition entry (m : method) : frame :=
  match m with
  | SetBits b => SetEntry b
  | ClearBits b => ClearEntry b
  | GetBits => GetEntry
  | WaitBits b a c => WaitLoop b a c
  | CheckBits b a => CheckEntry b a
  end.

Definition run (s : Scheduler.t) (f : frame) (r : t) : t * action frame value :=
  match f with
  | SetEntry b => set_bits b r
  | Compact i => compact_waiters i r
  | ClearEntry b => (clear_bits b r, Finish Done)
  | GetEntry => (r, Finish (Bits (bits_ r)))
  | WaitLoop b a c => wait_bits s b a c r
  | CheckEntry b a => (r, Finish (Checked (satisfied r b a)))
  end.

#[global] Instance component : Component t method frame value := {| start := entry; resume := run |}.
End EventGroup.
