(* ===== verification/KernelProps.v ===== *)
(** Facts of the kernel that the synchronisation objects share: what a step of a
    well-behaved program leaves unchanged. *)
From S2P Require Export SchedLive Kernel.

Import Scheduler.

(** * The scheduler below the kernel *)

(** The running task is well defined and every deadline lies ahead. *)
Definition good (s : t) : Prop := sched_wf s /\ running_ok s /\ calm s.

(** Blocked until somebody unblocks it. *)
Definition parked (s : t) (j : nat) : Prop :=
  exists x, tasks_ s !! j = Some x /\ state x = BLOCKED /\ resume_tick x = 0.

Lemma parked_bound s j : parked s j -> (j < task_count_ s)%nat.
Proof. intros (x & Hx & _). by eapply lookup_lt_Some. Qed.

Lemma parked_not_current s j : good s -> parked s j -> j <> current_ s.
Proof.
  intros (_ & Hr & _) (x & Hx & Hb & _) E. apply Hr in Hx. by rewrite (proj2 Hx E) in Hb.
Qed.

Lemma parked_valid s j : good s -> parked s j -> j <> INVALID_TASK.
Proof.
  intros [[Hn _] _] Hj%parked_bound. unfold INVALID_TASK, MAX_TASKS in *. lia.
Qed.

Lemma parked_not_delayed s j : parked s j -> delayed (task s j) = false.
Proof.
  intros (x & Hx & _ & H0). unfold task. rewrite (list_lookup_total_correct _ _ _ Hx).
  unfold delayed. by rewrite H0, andb_false_r.
Qed.

Lemma good_step s o sw s' :
  good s -> sched_op_ok s o -> respects s o -> sched_step s o = Some (sw, s') -> good s'.
Proof.
  intros (Hw & Hr & Hc) Ho Hres E.
  destruct (sched_step_punctual s Hw Hr Hc o Ho Hres sw s' E) as (C & _).
  destruct (sched_step_goal s o Hw Hr Ho) as (sw1 & s1 & E1 & (W & R & _) & _).
  rewrite E1 in E. by injection E as -> ->.
Qed.

(** A parked task stays parked until it is itself touched. *)
Lemma parked_step s o sw s' j :
  good s -> sched_op_ok s o -> respects s o -> sched_step s o = Some (sw, s') ->
  touched o <> Some j -> parked s j -> parked s' j.
Proof.
  intros (Hw & Hr & Hc) Ho Hres E Ht (x & Hx & Hb & H0).
  destruct (sched_step_punctual s Hw Hr Hc o Ho Hres sw s' E) as (_ & _ & W).
  destruct (W j x Hx (conj Hb Ht)) as (x' & Hx' & Hwk). exists x'. split; [done|].
  unfold woken in Hwk. assert (delayed x = false) as Hd by (unfold delayed; by rewrite H0, andb_false_r).
  rewrite Hd, Hb, H0 in Hwk. destruct Hwk as [H1 [H2|[H2 _]]]; [|done]. by rewrite H1, H2.
Qed.

(** The current task parks itself. *)
Lemma block_parks s sw s' :
  good s -> current_ s <> INVALID_TASK -> sched_step s Block = Some (sw, s') ->
  parked s' (current_ s).
Proof.
  intros (Hw & Hr & Hc) Hne E. cbn [sched_step] in E. unfold block_current in E.
  rewrite (proj2 (Nat.eqb_neq _ _) Hne) in E. unfold schedule_from in E.
  destruct (proj2 (proj2 (proj2 Hw))) as [|Hlt]; [done|].
  pose proof (task_lookup s _ Hlt) as Hx.
  pose proof (current_not_delayed s _ Hr Hx) as Hd.
  pose proof (Hc _ (list_elem_of_lookup_2 _ _ _ Hx)) as H0. rewrite Hd in H0.
  assert (punctual None s (update_task (current_ s) (with_state BLOCKED) s)) as (Hc1 & _ & _).
  { apply update_state_punctual; [by apply punctual_refl| |].
    - intros x. by apply current_not_delayed.
    - intros x. by apply current_not_watched. }
  apply schedule_loop_timely in E as (_ & _ & W); [|by apply update_task_wf|done].
  destruct (W (current_ s) (with_state BLOCKED (task s (current_ s)))) as (x' & Hx' & Hwk).
  { rewrite task_update, decide_True by done. by rewrite Hx. }
  exists x'. split; [done|]. unfold woken in Hwk.
  assert (delayed (with_state BLOCKED (task s (current_ s))) = false) as Hd'.
  { unfold delayed. cbn [resume_tick with_state]. by rewrite H0, andb_false_r. }
  rewrite Hd' in Hwk. cbn [state resume_tick with_state] in Hwk.
  destruct Hwk as [H1 [H2|[H2 _]]]; [|done]. by rewrite H1, H0.
Qed.

(** Unblocking a task that is not more urgent than the current one. *)
Lemma unblock_quiet s j :
  parked s j -> priority (task s (current_ s)) <= priority (task s j) -> current_ s <> j ->
  sched_step s (Unblock j) = Some (Stay, update_task j (with_state READY) s).
Proof.
  intros Hp Hle Hne. pose proof (parked_bound s j Hp) as Hj. destruct Hp as (x & Hx & Hb & _).
  pose proof (list_lookup_total_correct _ _ _ Hx) as Hjx. fold (task s j) in Hjx.
  cbn [sched_step]. unfold unblock. rewrite (proj2 (Nat.leb_gt _ _) Hj).
  rewrite Hjx, Hb. rewrite bool_decide_eq_true_2 by done. cbn [negb current_ update_task].
  assert (task (update_task j (with_state READY) s) j = with_state READY x) as ->.
  { unfold task. apply list_lookup_total_correct. rewrite task_update, decide_True by done. by rewrite Hx. }
  assert (task (update_task j (with_state READY) s) (current_ s) = task s (current_ s)) as ->.
  { unfold task. rewrite !list_lookup_total_alt, task_update. by rewrite decide_False. }
  rewrite Hjx in Hle. cbn [priority with_state].
  rewrite (proj2 (Z.ltb_ge _ _)) by done. by rewrite andb_false_r.
Qed.

Lemma unblock_runs s w sw s' :
  parked s w -> sched_step s (Unblock w) = Some (sw, s') -> runnable s' w.
Proof.
  intros Hp E. pose proof (parked_bound s w Hp) as Hw. destruct Hp as (x & Hx & Hb & _).
  cbn [sched_step] in E. unfold unblock in E. rewrite (proj2 (Nat.leb_gt _ _) Hw) in E.
  pose proof (list_lookup_total_correct _ _ _ Hx) as Hwx. fold (task s w) in Hwx. rewrite Hwx, Hb in E.
  rewrite bool_decide_eq_true_2 in E by done. cbn [negb] in E.
  assert (runnable (update_task w (with_state READY) s) w) as Hr.
  { exists (with_state READY x). rewrite task_update, decide_True, Hx by done. split; [done|by left]. }
  case_match; [|by injection E as <- <-].
  eapply runnable_schedule; [exact E|]. apply runnable_update; [by intros _ y _; split; [left|]|done].
Qed.

(** The assignment after [swapcontext] in [schedule_from] changes nothing: a task
    whose context is switched to has been set RUNNING by the one that did. *)
Lemma after_swap_id s : running_ok s -> update_task (current_ s) (with_state RUNNING) s = s.
Proof.
  intros Hr. destruct s as [l n c]. unfold update_task. cbn [tasks_ tick_count_ current_] in *.
  f_equal. apply list_eq. intros i. destruct (decide (i = c)) as [->|Hne].
  - rewrite list_lookup_alter_eq. destruct (l !! c) as [x|] eqn:E; [|done].
    apply Hr in E. cbn. f_equal. destruct x as [p st r]. cbn in *. unfold with_state. cbn.
    by rewrite (proj2 E eq_refl).
  - by rewrite list_lookup_alter_ne.
Qed.

(** The waiters of an object are parked, so the current task finds room. *)
Lemma register_room s l :
  good s -> current_ s <> INVALID_TASK -> NoDup l -> Forall (parked s) l ->
  (current_ s ∉ l) /\ register (current_ s) l = l ++ [current_ s].
Proof.
  intros Hg Hne Hnd Hp. rewrite Forall_forall in Hp.
  assert (current_ s ∉ l) as Hni.
  { intros Hin. by apply (parked_not_current s (current_ s)); [|apply Hp|]. }
  split; [done|]. unfold register.
  assert (length (current_ s :: l) <= length (seq 0 (task_count_ s)))%nat as Hlen.
  { apply submseteq_length, NoDup_submseteq; [by constructor|].
    intros j [->|Hj]%elem_of_cons; apply elem_of_seq.
    - destruct Hg as [(_ & _ & _ & [|]) _]; [done|lia].
    - specialize (Hp j Hj). apply parked_bound in Hp. lia. }
  rewrite length_seq in Hlen. cbn [length] in Hlen. destruct Hg as [[Hn _] _].
  by rewrite (proj2 (Nat.ltb_lt _ _)) by lia.
Qed.

(** [good] and [parked] as tests. *)
Definition tcb_wfb (x : TCB) : bool :=
  (0 <=? priority x) && (priority x <? 256) && (0 <=? resume_tick x) && (resume_tick x <? 2 ^ 32).

Definition goodb (s : t) : bool :=
  (task_count_ s <=? MAX_TASKS)%nat && forallb tcb_wfb (tasks_ s) &&
  (0 <=? tick_count_ s) && (tick_count_ s <? 2 ^ 32) &&
  ((current_ s =? INVALID_TASK)%nat || (current_ s <? task_count_ s)%nat) &&
  forallb (fun i => bool_decide (state (task s i) = RUNNING <-> i = current_ s)) (seq 0 (task_count_ s)) &&
  forallb (fun x => if delayed x then tick_count_ s <? resume_tick x else resume_tick x =? 0) (tasks_ s).

Lemma goodb_ok s : goodb s = true -> good s.
Proof.
  unfold goodb. rewrite !andb_true_iff, !forallb_forall. intros ((((((H1 & H2) & H3) & H4) & H5) & H6) & H7).
  split; [|split].
  - split; [lia|]. split; [|split; [unfold in_u32; lia|]].
    + apply Forall_forall. intros x Hx. apply list_elem_of_In in Hx. apply H2 in Hx.
      unfold tcb_wfb in Hx. unfold tcb_wf, in_u8, in_u32. lia.
    + apply orb_true_iff in H5 as [H5|H5]; [left; lia|right; lia].
  - intros i x Hx. pose proof (lookup_lt_Some _ _ _ Hx) as Hi.
    assert (In i (seq 0 (task_count_ s))) as Hin by (apply in_seq; unfold task_count_; lia).
    apply H6 in Hin. apply bool_decide_eq_true in Hin. unfold task in Hin.
    by rewrite (list_lookup_total_correct _ _ _ Hx) in Hin.
  - intros x Hx. apply list_elem_of_In, H7 in Hx. destruct (delayed x); lia.
Qed.

Definition parkedb (s : t) (j : nat) : bool :=
  match tasks_ s !! j with
  | Some x => bool_decide (state x = BLOCKED) && (resume_tick x =? 0)
  | None => false
  end.

Lemma parkedb_ok s j : parkedb s j = true -> parked s j.
Proof.
  unfold parkedb, parked. destruct (tasks_ s !! j) as [x|]; [|done].
  intros [H1%bool_decide_eq_true H2%Z.eqb_eq]%andb_true_iff. eauto.
Qed.

(** * Disciplined programs *)

Section Discipline.
Context {R M F V : Type} `{Component R M F V}.
Implicit Types (c : config R F V) (i : input M).

Definition running (c : config R F V) : nat := current_ (sched c).
Definition doing (c : config R F V) (j : nat) : continuation F := snd (context_of c j).

(** The methods are called by tasks; the code of a task passes the scheduler valid
    arguments, does not let the tick count overflow, and does not suspend, delete
    or unblock a task that is waiting for a deadline or is inside a method. *)
Definition disciplined (c : config R F V) (i : input M) : Prop :=
  match i with
  | Go => True
  | Invoke _ => running c <> INVALID_TASK
  | Sys o => sched_op_ok (sched c) o /\ respects (sched c) o /\
             forall j, touched o = Some j -> doing c j = User
  end.

(** What runs: the segment waiting in the current context, or a method's first. *)
Definition next_segment (c : config R F V) (i : input M) : option F :=
  match doing c (running c), i with
  | At f, Go => Some f
  | User, Invoke m => Some (start m)
  | _, _ => None
  end.

Lemma kstep_next c i c' :
  good (sched c) -> kstep c i = Next c' ->
  (exists f, next_segment c i = Some f /\ exec (running c) (sched c) f c = Next c') \/
  exists o, i = Sys o /\ doing c (running c) = User /\
    call (running c) (sched c) o (res c) (contexts c) (trace c)
      (match o with Exit => Gone | _ => User end) = Next c'.
Proof.
  intros (_ & Hr & _) Hk. unfold kstep, next_segment, doing, running in *.
  destruct (context_of c (current_ (sched c))) as [sw k] eqn:Ek. cbn [snd].
  rewrite after_swap_id in Hk by done. assert ((if sw then sched c else sched c) = sched c) as E
    by (by destruct sw). rewrite E in Hk.
  destruct k as [|f|], i as [|m|o]; try done; [left; eauto|right; eauto|left; eauto].
Qed.

Lemma kstep_go c f :
  context_of c (running c) = (false, At f) -> kstep c Go = exec (running c) (sched c) f c.
Proof. intros E. unfold kstep. fold (running c). by rewrite E. Qed.

(** A segment that finishes. *)
Lemma exec_finish c c' f r v :
  resume (sched c) f (res c) = (r, Finish v) -> exec (running c) (sched c) f c = Next c' ->
  c' = mkConfig (sched c) r (<[running c := (false, User)]> (contexts c))
         (Ran (running c) f (res c) (Finish v) :: trace c).
Proof. intros E Hx. unfold exec in Hx. rewrite E in Hx. by injection Hx as <-. Qed.

(** A segment that calls the scheduler. *)
Lemma exec_await c c' f r o f' :
  resume (sched c) f (res c) = (r, Await o f') -> exec (running c) (sched c) f c = Next c' ->
  exists sw s', sched_step (sched c) o = Some (sw, s') /\
    c' = mkConfig s' r (<[running c := (switched sw, At f')]> (contexts c))
           (Ran (running c) f (res c) (Await o f') :: trace c).
Proof.
  intros E Hx. unfold exec, call in Hx. rewrite E in Hx.
  destruct (sched_step (sched c) o) as [[sw s']|]; [|done]. injection Hx as <-. eauto.
Qed.

Lemma exec_crash c c' f r :
  resume (sched c) f (res c) = (r, Crash) -> exec (running c) (sched c) f c = Next c' -> False.
Proof. intros E Hx. unfold exec in Hx. by rewrite E in Hx. Qed.

Lemma doing_insert s r ctxs tr e sw k j :
  doing (mkConfig s r (<[e := (sw, k)]> ctxs) tr : config R F V) j =
  if decide (j = e) then k else snd (default (false, User) (ctxs !! j)).
Proof.
  unfold doing, context_of. cbn [contexts]. case_decide as E.
  - subst. by rewrite lookup_insert_eq.
  - by rewrite lookup_insert_ne.
Qed.

Lemma call_next c c' o k :
  call (running c) (sched c) o (res c) (contexts c) (trace c) k = Next c' ->
  exists sw s', sched_step (sched c) o = Some (sw, s') /\
    c' = mkConfig s' (res c) (<[running c := (switched sw, k)]> (contexts c)) (trace c).
Proof.
  unfold call. destruct (sched_step (sched c) o) as [[sw s']|]; [|done]. intros [= <-]. eauto.
Qed.

(** ** Tasks waiting in a method *)

Section Waiting.
Context (inside : continuation F -> bool).

(** The tasks in the wait list [l] are distinct, parked, and inside the method. *)
Definition waits (c : config R F V) (l : list nat) : Prop :=
  NoDup l /\ Forall (fun j => parked (sched c) j /\ inside (doing c j) = true) l.

Lemma waits_elem c l j : waits c l -> j ∈ l -> parked (sched c) j /\ inside (doing c j) = true.
Proof. intros [_ Hw]. rewrite Forall_forall in Hw. apply Hw. Qed.

Lemma waits_not_running c l j : good (sched c) -> waits c l -> j ∈ l -> j <> running c.
Proof. intros Hg Hw Hj. apply parked_not_current; [done|]. by apply (waits_elem c l). Qed.

Lemma doing_other c c' k j :
  contexts c' = <[running c := k]> (contexts c) -> j <> running c -> doing c' j = doing c j.
Proof.
  intros Hc Hj. unfold doing, context_of. rewrite Hc. by rewrite lookup_insert_ne.
Qed.

Lemma doing_running c c' sw k :
  contexts c' = <[running c := (sw, k)]> (contexts c) -> doing c' (running c) = k.
Proof. intros Hc. unfold doing, context_of. rewrite Hc. by rewrite lookup_insert_eq. Qed.

(** A step of the running task alone. *)
Lemma waits_finish c c' l k :
  good (sched c) -> waits c l -> sched c' = sched c ->
  contexts c' = <[running c := k]> (contexts c) -> waits c' l.
Proof.
  intros Hg Hw Hs Hc. split; [apply Hw|]. apply Forall_forall. intros j Hj.
  rewrite Hs, (doing_other c c' k); [by apply (waits_elem c l)|done|by apply (waits_not_running c l)].
Qed.

(** A scheduler call: those that it does not touch wait on. *)
Lemma waits_step c c' o sw l l' k :
  good (sched c) -> waits c l -> sched_op_ok (sched c) o -> respects (sched c) o ->
  sched_step (sched c) o = Some (sw, sched c') -> l' ⊆ l -> NoDup l' ->
  (forall j, touched o = Some j -> j ∉ l') ->
  contexts c' = <[running c := k]> (contexts c) -> waits c' l'.
Proof.
  intros Hg Hw Ho Hres E Hl Hnd Ht Hc. split; [done|]. apply Forall_forall. intros j Hj.
  destruct (waits_elem c l j Hw (Hl j Hj)) as [Hp Hin].
  rewrite (doing_other c c' k); [|done|by apply (waits_not_running c l); [|done|apply Hl]].
  split; [|done]. eapply parked_step; [exact Hg|done|done|done| |done]. intros E'. by apply (Ht j).
Qed.

(** The running task joins the waiters. *)
Lemma waits_room c l :
  good (sched c) -> running c <> INVALID_TASK -> waits c l ->
  register (running c) l = l ++ [running c].
Proof.
  intros Hg Hne [Hnd Hw]. apply register_room; [done|done|done|].
  eapply Forall_impl; [exact Hw|]. by intros j [].
Qed.

Lemma waits_block c c' sw l f :
  good (sched c) -> running c <> INVALID_TASK -> waits c l -> inside (At f) = true ->
  sched_step (sched c) Block = Some (sw, sched c') ->
  contexts c' = <[running c := (switched sw, At f)]> (contexts c) -> waits c' (l ++ [running c]).
Proof.
  intros Hg Hne Hw Hf Hs Hc.
  assert (running c ∉ l) as Hni by (intros Hin; by apply (waits_not_running c l _ Hg Hw Hin)).
  assert (waits c' l) as [Hnd' Hw'].
  { apply (waits_step c c' Block sw l l (switched sw, At f)); try done; apply Hw. }
  split.
  - apply NoDup_app. split; [done|]. split; [|apply NoDup_singleton].
    by intros j Hj ->%list_elem_of_singleton.
  - apply Forall_app. split; [done|]. constructor; [|constructor].
    rewrite (doing_running c c' (switched sw) (At f) Hc).
    split; [by apply (block_parks (sched c) sw)|done].
Qed.

(** A waiter is taken off the list and unblocked. *)
Lemma waits_unblock c c' sw w l l' k :
  good (sched c) -> waits c l -> w :: l' ≡ₚ l ->
  sched_step (sched c) (Unblock w) = Some (sw, sched c') ->
  contexts c' = <[running c := k]> (contexts c) -> waits c' l'.
Proof.
  intros Hg Hw Hperm Hs Hc.
  assert (w ∈ l) as Hin by (rewrite <-Hperm; by left).
  destruct Hw as [Hnd Hw]. pose proof Hnd as Hnd'. rewrite <-Hperm in Hnd'. apply NoDup_cons in Hnd' as [Hnw Hnd'].
  apply (waits_step c c' (Unblock w) sw l l' k); try done.
  - apply parked_not_delayed. by apply (waits_elem c l w (conj Hnd Hw)).
  - intros j Hj. rewrite <-Hperm. by right.
  - by intros j [= <-].
Qed.

(** The code of a task calls the scheduler. *)
Lemma waits_sys c c' o sw l k :
  good (sched c) -> waits c l -> disciplined c (Sys o) -> inside User = false ->
  sched_step (sched c) o = Some (sw, sched c') ->
  contexts c' = <[running c := k]> (contexts c) -> waits c' l.
Proof.
  intros Hg Hw (Ho & Hres & Ht) Hu Hs Hc.
  apply (waits_step c c' o sw l l k); try done; [apply Hw|].
  intros j Hj Hin. destruct (waits_elem c l j Hw Hin) as [_ Hj']. rewrite (Ht j Hj) in Hj'. congruence.
Qed.
End Waiting.

Lemma good_sys c o sw s' :
  good (sched c) -> disciplined c (Sys o) -> sched_step (sched c) o = Some (sw, s') -> good s'.
Proof. intros Hg (Ho & Hres & _) Hs. by apply (good_step (sched c) o sw). Qed.

Lemma good_block s sw s' : good s -> sched_step s Block = Some (sw, s') -> good s'.
Proof. intros Hg Hs. by apply (good_step s Block sw). Qed.

Lemma good_unblock s w sw s' :
  good s -> parked s w -> sched_step s (Unblock w) = Some (sw, s') -> good s'.
Proof. intros Hg Hp Hs. apply (good_step s (Unblock w) sw); try done. by apply parked_not_delayed. Qed.

(** ** Programs that keep a discipline on the methods too *)

Context (method_ok : config R F V -> M -> Prop).

Inductive reachable (r : R) : config R F V -> Prop :=
  | at_boot : reachable r (boot r)
  | after_step c i c' :
      reachable r c -> disciplined c i ->
      (forall m, i = Invoke m -> method_ok c m) ->
      kstep c i = Next c' -> reachable r c'.

(** The states that disciplined programs can go on to from [c]. *)
Inductive continues (c : config R F V) : config R F V -> Prop :=
  | so_far : continues c c
  | one_more c1 i c2 :
      continues c c1 -> disciplined c1 i ->
      (forall m, i = Invoke m -> method_ok c1 m) ->
      kstep c1 i = Next c2 -> continues c c2.

Lemma continues_reachable r c c' : reachable r c -> continues c c' -> reachable r c'.
Proof. intros Hc. induction 1; [done|]. by eapply after_step. Qed.

Lemma boot_good r : good (sched (boot r : config R F V)).
Proof.
  destruct (reachable_ok _ sched_new) as [H1 H2]. split; [done|]. split; [done|].
  intros x Hx. by apply elem_of_nil in Hx.
Qed.

(** ** Checking a run *)

Definition respectsb (s : t) (o : sched_op) : bool :=
  match o with
  | Delay n | Tick n => tick_count_ s + n <? 2 ^ 32
  | Unblock i | Suspend i | Delete i => negb (delayed (task s i))
  | _ => true
  end.

Definition in_user_code (k : continuation F) : bool := match k with User => true | _ => false end.

Definition disciplinedb (c : config R F V) (i : input M) : bool :=
  match i with
  | Go => true
  | Invoke _ => negb (running c =? INVALID_TASK)%nat
  | Sys o => op_okb (sched c) o && respectsb (sched c) o &&
             match touched o with Some j => in_user_code (doing c j) | None => true end
  end.

Lemma disciplinedb_ok c i : disciplinedb c i = true -> disciplined c i.
Proof.
  destruct i as [|m|o]; cbn [disciplinedb disciplined]; [done|by intros ?%negb_true_iff%Nat.eqb_neq|].
  intros [[H1%op_okb_ok H2]%andb_true_iff H3]%andb_true_iff. split; [done|]. split.
  - destruct o; cbn in *; try done; try lia; by apply negb_true_iff.
  - intros j Ej. rewrite Ej in H3. unfold in_user_code in H3. by destruct (doing c j).
Qed.

(** Every step of the run is disciplined. *)
Fixpoint run_disciplined (mok : config R F V -> M -> bool) (c : config R F V)
    (inputs : list (input M)) : bool :=
  match inputs with
  | [] => true
  | i :: inputs =>
      disciplinedb c i && match i with Invoke m => mok c m | _ => true end &&
      match kstep c i with Next c' => run_disciplined mok c' inputs | _ => true end
  end.

Lemma krun_reachable mok r c c' inputs :
  (forall c m, mok c m = true -> method_ok c m) ->
  run_disciplined mok c inputs = true -> krun c inputs = Next c' ->
  reachable r c -> reachable r c'.
Proof.
  intros Hmok. revert c. induction inputs as [|i inputs IH]; intros c Hd Hk Hr; cbn in *.
  - by injection Hk as <-.
  - apply andb_true_iff in Hd as [[H1 H2]%andb_true_iff H3].
    destruct (kstep c i) as [c1| |] eqn:E; [|done|done].
    apply (IH c1 H3 Hk). eapply after_step; [done|by apply disciplinedb_ok| |done].
    intros m ->. by apply Hmok.
Qed.

Definition run_config (c : config R F V) (inputs : list (input M)) : config R F V :=
  match krun c inputs with Next c' => c' | _ => c end.

Lemma run_config_reachable mok r inputs :
  (forall c m, mok c m = true -> method_ok c m) ->
  run_disciplined mok (boot r) inputs = true ->
  (match krun (boot r) inputs with Next _ => true | _ => false end) = true ->
  reachable r (run_config (boot r) inputs).
Proof.
  intros Hm Hd Hk. unfold run_config. destruct (krun (boot r) inputs) as [c'| |] eqn:E; try done.
  apply (krun_reachable mok r (boot r) c' inputs); try done. constructor.
Qed.

End Discipline.
