(* ===== verification/HandOver.v ===== *)
(** Objects that hand what a task waits for to a waiter before they wake it: a task
    inside the method that is in no wait list has been woken and can run, so its
    share is never stuck with a blocked task. *)
From S2P Require Export KernelProps.

Import Scheduler.

Section HandOver.
Context {R M F V : Type} `{Component R M F V}.
Context (inside : continuation F -> bool) (waiters : R -> list nat).
Hypothesis (Huser : inside User = false) (Hgone : inside Gone = false).
Implicit Types (c : config R F V) (i : input M).

Definition awake c : Prop :=
  forall j, inside (doing c j) = true -> j ∉ waiters (res c) -> runnable (sched c) j.

(** What a segment may do to the wait list: nothing when it finishes, append the
    running task when it blocks, remove one waiter when it unblocks that waiter. *)
Definition orderly c (r : R) (a : action F V) : Prop :=
  match a with
  | Finish _ => waiters r = waiters (res c)
  | Await Block _ => waiters r = waiters (res c) ++ [running c]
  | Await (Unblock w) f => inside (At f) = false /\ w :: waiters r ≡ₚ waiters (res c)
  | Await _ _ => False
  | Crash => True
  end.

Lemma awake_other c c' o sw k j :
  sched_step (sched c) o = Some (sw, sched c') -> contexts c' = <[running c := k]> (contexts c) ->
  j <> running c -> touched o <> Some j \/ o = Unblock j ->
  awake c -> inside (doing c' j) = true -> j ∉ waiters (res c) -> runnable (sched c') j.
Proof.
  intros E Hc Hj Ht Ha Hin Hni. apply (runnable_step (sched c) o sw); [done..|].
  apply Ha; [|done]. by rewrite <-(doing_other c c' k j).
Qed.

Lemma awake_segment c c' f r a :
  good (sched c) -> waits inside c (waiters (res c)) -> awake c ->
  resume (sched c) f (res c) = (r, a) -> orderly c r a ->
  exec (running c) (sched c) f c = Next c' -> awake c'.
Proof.
  intros Hg Hw Ha Hr Ho Hx. destruct a as [v|o f'|]; [| |by destruct (exec_crash _ _ _ _ Hr Hx)].
  - apply (exec_finish _ _ _ _ _ Hr) in Hx as ->. intros j Hj Hni. cbn [sched res] in *.
    cbn [orderly] in Ho. rewrite Ho in Hni. rewrite doing_insert in Hj.
    case_decide; [congruence|]. by apply Ha.
  - destruct (exec_await _ _ _ _ _ _ Hr Hx) as (sw & s' & Hs & ->). set (c' := mkConfig _ _ _ _).
    intros j Hj Hni. cbn [sched res c'] in *. destruct o as [p| |n|w|w|w| |w|n| ]; cbn [orderly] in Ho; try done.
    + rewrite Ho, elem_of_app, list_elem_of_singleton in Hni.
      apply (awake_other c c' Block sw (switched sw, At f')); try done; [naive_solver|by left|naive_solver].
    + destruct Ho as [Hf Hperm]. destruct (decide (j = w)) as [->|Hne].
      * apply (unblock_runs (sched c) w sw); [|done]. apply (waits_elem inside c _ w Hw).
        rewrite <-Hperm. by left.
      * destruct (decide (j = running c)) as [->|Hjr].
        { rewrite (doing_running c c' (switched sw) (At f')) in Hj by done. congruence. }
        apply (awake_other c c' (Unblock w) sw (switched sw, At f')); try done; [left; cbn; congruence|].
        rewrite <-Hperm, elem_of_cons. naive_solver.
Qed.

Lemma awake_sys c c' o :
  awake c -> disciplined c (Sys (M := M) o) -> doing c (running c) = User ->
  call (running c) (sched c) o (res c) (contexts c) (trace c)
    (match o with Exit => Gone | _ => User end) = Next c' -> awake c'.
Proof using Huser Hgone.
  intros Ha (_ & _ & Ht) Hd Hx. apply call_next in Hx as (sw & s' & Hs & ->). set (c' := mkConfig _ _ _ _).
  intros j Hj Hni. set (k := match o with Exit => Gone | _ => User end) in *.
  destruct (decide (j = running c)) as [->|Hne].
  { rewrite (doing_running c c' (switched sw) k) in Hj by done. subst k. destruct o; congruence. }
  apply (awake_other c c' o sw (switched sw, k)); try done. left. intros E.
  rewrite (doing_other c c' (switched sw, k)), (Ht j E) in Hj by done. congruence.
Qed.

(** For a component whose segments are orderly in its reachable states. *)
Lemma awake_reachable method_ok r0 c :
  (forall c, reachable (M := M) method_ok r0 c ->
     good (sched c) /\ waits inside c (waiters (res c)) /\
     forall i f r a, disciplined c i -> next_segment c i = Some f ->
       resume (sched c) f (res c) = (r, a) -> orderly c r a) ->
  reachable (M := M) method_ok r0 c -> awake c.
Proof using Huser Hgone.
  intros Hinv. induction 1 as [|c i c' Hr IH Hd _ Hk].
  - intros j Hj. cbn in Hj. unfold doing, context_of in Hj. cbn in Hj.
    rewrite lookup_empty in Hj. cbn in Hj. congruence.
  - destruct (Hinv c Hr) as (Hg & Hw & Hseg).
    apply kstep_next in Hk as [(f & Hf & Hx)|(o & -> & Hu & Hx)]; [| |done].
    + destruct (resume (sched c) f (res c)) as [r a] eqn:E.
      apply (awake_segment c c' f r a); try done. by apply (Hseg i f).
    + by apply (awake_sys c c' o).
Qed.
End HandOver.
