(* ===== verification/SemaphoreProps.v ===== *)
(** src/rtos/semaphore.h: no token is made or lost, whatever the tasks do and in
    whatever order the scheduler runs them. *)
From S2P Require Export HandOver Semaphore.

Import Scheduler Semaphore.

#[global] Instance frame_eq_dec : EqDecision frame.
Proof. solve_decision. Defined.

Definition sem_config : Type := config t frame value.
Definition sem_event : Type := event t frame value.

(** * Accounting *)

(** The tokens that calls have come back with. *)
Definition returns_token (e : sem_event) : nat :=
  match outcome e with
  | Finish Taken | Finish (Tried true) => 1
  | _ => 0
  end.

(** The calls of [give] that were not absorbed by the maximum. *)
Definition gives_token (e : sem_event) : nat :=
  match segment e with
  | GiveEntry => if (0 <? length (waiters_ (before e)))%nat || (count_ (before e) <? max_count_ (before e))
                 then 1 else 0
  | _ => 0
  end.

Definition total (f : sem_event -> nat) (l : list sem_event) : nat := sum_list_with f l.

Definition in_take (k : continuation frame) : bool :=
  match k with At TakeExit => true | _ => false end.

(** Tasks that were given a token inside [take] and have not come back yet. *)
Definition handed (c : sem_config) : gset nat :=
  filter (fun j => in_take (doing c j) = true /\ j ∉ waiters_ (res c)) (dom (contexts c)).

Lemma elem_of_handed c j :
  j ∈ handed c <-> in_take (doing c j) = true /\ j ∉ waiters_ (res c).
Proof.
  unfold handed. rewrite elem_of_filter, elem_of_dom. split; [by intros [? _]|].
  intros Hj. split; [done|]. destruct Hj as [Hj _]. unfold doing, context_of in Hj.
  by destruct (contexts c !! j); [eexists|].
Qed.

Definition waiting_ok (c : sem_config) : Prop := waits in_take c (waiters_ (res c)).

Definition balance (c : sem_config) : Z :=
  count_ (res c) + Z.of_nat (total returns_token (trace c)) + Z.of_nat (size (handed c)) -
  Z.of_nat (total gives_token (trace c)).

Definition sem_inv (n m : Z) (c : sem_config) : Prop :=
  good (sched c) /\ waiting_ok c /\ balance c = n /\
  max_count_ (res c) = m /\ 0 <= count_ (res c) <= m /\
  (0 < count_ (res c) -> waiters_ (res c) = []).

(** * Preservation *)

(** A step of task [e] that leaves the waiters alone and is not the end of a [take]
    that was handed its token. *)
Lemma handed_same (c c' : sem_config) sw k :
  good (sched c) -> waiting_ok c -> waiters_ (res c') = waiters_ (res c) ->
  contexts c' = <[running c := (sw, k)]> (contexts c) ->
  in_take (doing c (running c)) = false -> in_take k = false -> handed c' = handed c.
Proof.
  intros Hg Hw Hr Hc Hd Hk. apply set_eq. intros j. rewrite !elem_of_handed, Hr.
  destruct c' as [s' r' ctx' tr']. cbn [contexts] in Hc. subst ctx'. rewrite doing_insert.
  case_decide as E; [subst j; by rewrite Hd, Hk|done].
Qed.

Lemma handed_take_exit (c c' : sem_config) k :
  good (sched c) -> waiting_ok c -> waiters_ (res c') = waiters_ (res c) ->
  contexts c' = <[running c := (k, User)]> (contexts c) ->
  in_take (doing c (running c)) = true -> size (handed c) = S (size (handed c')).
Proof.
  intros Hg Hw Hr Hc Hd.
  assert (running c ∈ handed c) as He.
  { apply elem_of_handed. split; [done|]. intros Hin. by apply (waits_not_running in_take c (waiters_ (res c)) (running c) Hg Hw Hin). }
  assert (handed c' = handed c ∖ {[running c]}) as ->.
  { apply set_eq. intros j. rewrite elem_of_difference, elem_of_singleton, !elem_of_handed, Hr.
    destruct c' as [s' r' ctx' tr']. cbn [contexts] in Hc. subst ctx'. rewrite doing_insert.
    unfold doing. case_decide; naive_solver. }
  rewrite size_difference by set_solver. rewrite size_singleton.
  assert (size (handed c) <> 0%nat); [|lia]. apply size_non_empty_iff. set_solver.
Qed.

Lemma handed_block (c c' : sem_config) sw :
  good (sched c) -> waiting_ok c -> waiters_ (res c') = waiters_ (res c) ++ [running c] ->
  contexts c' = <[running c := (sw, At TakeExit)]> (contexts c) ->
  in_take (doing c (running c)) = false -> handed c' = handed c.
Proof.
  intros Hg Hw Hr Hc Hd. apply set_eq. intros j. rewrite !elem_of_handed, Hr, elem_of_app, list_elem_of_singleton.
  destruct c' as [s' r' ctx' tr']. cbn [contexts] in Hc. subst ctx'. rewrite doing_insert.
  unfold doing in *. case_decide as E; [subst j; rewrite Hd|]; naive_solver.
Qed.

Lemma handed_give (c c' : sem_config) sw w :
  good (sched c) -> waiting_ok c -> w :: waiters_ (res c') ≡ₚ waiters_ (res c) ->
  contexts c' = <[running c := (sw, At GiveExit)]> (contexts c) ->
  in_take (doing c (running c)) = false -> size (handed c') = S (size (handed c)).
Proof.
  intros Hg Hw Hr Hc Hd.
  assert (w ∈ waiters_ (res c)) as Hin by (rewrite <-Hr; by left).
  pose proof (waits_not_running in_take c (waiters_ (res c)) w Hg Hw Hin) as Hne. destruct Hw as [Hnd Hw].
  rewrite Forall_forall in Hw. pose proof (Hw w Hin) as [_ Hwt].
  assert (w ∉ handed c) as Hnh by (rewrite elem_of_handed; naive_solver).
  assert (w ∉ waiters_ (res c')) as Hnw.
  { rewrite <-Hr in Hnd. by apply NoDup_cons in Hnd as [? _]. }
  assert (handed c' = {[w]} ∪ handed c) as ->.
  { apply set_eq. intros j. rewrite elem_of_union, elem_of_singleton, !elem_of_handed.
    rewrite <-Hr, elem_of_cons.
    destruct c' as [s' r' ctx' tr']. cbn [contexts res] in *. subst ctx'. rewrite doing_insert.
    unfold doing in *. case_decide as E; [subst j; rewrite Hd|].
    - split; [by intros []|]. intros [E|[E _]]; [by destruct Hne|done].
    - destruct (decide (j = w)) as [->|]; naive_solver. }
  rewrite size_union by set_solver. by rewrite size_singleton.
Qed.

(** A segment that finishes outside [take]'s hand-over. *)
Lemma finish_inv n m (c : sem_config) f r v :
  sem_inv n m c -> in_take (doing c (running c)) = false ->
  waiters_ r = waiters_ (res c) -> max_count_ r = max_count_ (res c) ->
  0 <= count_ r <= m -> (0 < count_ r -> waiters_ r = []) ->
  (let e := Ran (running c) f (res c) (Finish v) in
   count_ r + Z.of_nat (returns_token e) - Z.of_nat (gives_token e) = count_ (res c)) ->
  sem_inv n m (mkConfig (sched c) r (<[running c := (false, User)]> (contexts c))
                 (Ran (running c) f (res c) (Finish v) :: trace c)).
Proof.
  intros (Hg & Hw & Hb & Hm & Hc & He) Hd Hwt Hmx Hc' He' Hev. set (c' := mkConfig _ _ _ _).
  assert (handed c' = handed c) as Hh by (by apply (handed_same c c' false User)).
  split; [done|]. split; [|split; [|by split; [cbn; rewrite Hmx|]]].
  - unfold waiting_ok. cbn [res c']. rewrite Hwt. by apply (waits_finish in_take c c' _ (false, User)).
  - unfold balance in *. rewrite Hh. cbn [res trace c' total sum_list_with] in *.
    unfold total in *. cbn [sum_list_with] in *. lia.
Qed.

(** [take] without a token: the task parks itself among the waiters. *)
Lemma take_inv n m (c c' : sem_config) :
  sem_inv n m c -> running c <> INVALID_TASK -> in_take (doing c (running c)) = false ->
  count_ (res c) <= 0 -> exec (running c) (sched c) TakeEntry c = Next c' -> sem_inv n m c'.
Proof.
  intros (Hg & Hw & Hb & Hm & Hc & He) Hne Hd H0 Hx.
  assert (resume (sched c) TakeEntry (res c) =
    (mkSem (count_ (res c)) (max_count_ (res c)) (waiters_ (res c) ++ [running c]),
     Await Block TakeExit)) as Hr.
  { cbn. unfold take. rewrite (proj2 (Z.ltb_ge _ _)) by done.
    by rewrite <-(waits_room in_take c _ Hg Hne Hw). }
  apply (exec_await _ _ _ _ _ _ Hr) in Hx as (sw & s' & Hs & ->). set (c' := mkConfig _ _ _ _).
  assert (handed c' = handed c) as Hh by (by apply (handed_block c c' (switched sw))).
  split; [by apply (good_block (sched c) sw)|].
  split; [by apply (waits_block in_take c c' sw _ TakeExit)|].
  split; [|split; [done|split; [done|cbn; lia]]].
  unfold balance in *. rewrite Hh. exact Hb.
Qed.

(** [give] with a task waiting: the token is handed over. *)
Lemma give_inv n m (c c' : sem_config) :
  sem_inv n m c -> in_take (doing c (running c)) = false ->
  waiters_ (res c) <> [] -> exec (running c) (sched c) GiveEntry c = Next c' -> sem_inv n m c'.
Proof.
  intros (Hg & Hw & Hb & Hm & Hc & He) Hd Hne Hx.
  assert ((0 <? length (waiters_ (res c)))%nat = true) as Hl by (by destruct (waiters_ (res c))).
  pose proof (pop_waiter_spec (sched c) _ Hne) as Hpop.
  destruct (pop_waiter (sched c) (waiters_ (res c))) as [w l] eqn:Ep. destruct Hpop as [Hperm _].
  assert (resume (sched c) GiveEntry (res c) =
    (mkSem (count_ (res c)) (max_count_ (res c)) l, Await (Unblock w) GiveExit)) as Hr
    by (cbn; unfold give; by rewrite Hl, Ep).
  apply (exec_await _ _ _ _ _ _ Hr) in Hx as (sw & s' & Hs & ->). set (c' := mkConfig _ _ _ _).
  assert (parked (sched c) w) as Hpw by (apply (waits_elem in_take c _ w Hw); rewrite <-Hperm; by left).
  assert (size (handed c') = S (size (handed c))) as Hh
    by (by apply (handed_give c c' (switched sw) w)).
  assert (count_ (res c) = 0) as H0.
  { destruct (Z.lt_ge_cases 0 (count_ (res c))) as [Hlt|]; [|lia]. by destruct Hne; apply He. }
  split; [by apply (good_unblock (sched c) w sw)|].
  split; [|split; [|split; [done|split; [done|cbn; lia]]]].
  - by apply (waits_unblock in_take c c' sw w (waiters_ (res c)) l (switched sw, At GiveExit)).
  - unfold balance in *. rewrite Hh. cbn [res trace c' total sum_list_with count_] in *.
    unfold total in *. cbn [sum_list_with] in *. unfold gives_token at 1. cbn [segment before].
    rewrite Hl. unfold returns_token at 1. cbn [outcome orb]. lia.
Qed.

(** The end of a [take] that was handed its token. *)
Lemma take_exit_inv n m (c c' : sem_config) :
  sem_inv n m c -> in_take (doing c (running c)) = true ->
  exec (running c) (sched c) TakeExit c = Next c' -> sem_inv n m c'.
Proof.
  intros (Hg & Hw & Hb & Hm & Hc & He) Hd Hx.
  assert (resume (sched c) TakeExit (res c) = (res c, Finish Taken)) as Hr by done.
  apply (exec_finish _ _ _ _ _ Hr) in Hx as ->. set (c' := mkConfig _ _ _ _).
  assert (size (handed c) = S (size (handed c'))) as Hh by (by apply (handed_take_exit c c' false)).
  split; [done|]. split; [|split; [|by split]].
  - by apply (waits_finish in_take c c' _ (false, User)).
  - unfold balance in *. cbn [res trace c' total sum_list_with] in *. unfold total in *.
    cbn [sum_list_with] in *. unfold gives_token at 1. cbn [segment]. unfold returns_token at 1.
    cbn [outcome]. lia.
Qed.

(** A scheduler call from the code of a task. *)
Lemma sem_sys_inv n m (c c' : sem_config) o :
  sem_inv n m c -> disciplined c (Sys (M := method) o) -> doing c (running c) = User ->
  call (running c) (sched c) o (res c) (contexts c) (trace c)
    (match o with Exit => Gone | _ => User end) = Next c' -> sem_inv n m c'.
Proof.
  intros (Hg & Hw & Hb & Hm & Hc & He) Hdisc Hd Hx.
  apply call_next in Hx as (sw & s' & Hs & ->). set (c' := mkConfig _ _ _ _).
  set (k := match o with Exit => Gone | _ => User end) in *.
  assert (handed c' = handed c) as Hh.
  { apply (handed_same c c' (switched sw) k); try done; [by rewrite Hd|by destruct o]. }
  split; [by apply (good_sys (M := method) c o sw)|].
  split; [by apply (waits_sys (M := method) in_take c c' o sw _ (switched sw, k))|].
  split; [|by split]. unfold balance in *. by rewrite Hh.
Qed.

(** A suspended method is past its scheduler call. *)
Definition exits_only (c : sem_config) : Prop :=
  forall j f, doing c j = At f -> f = TakeExit \/ f = GiveExit.

Lemma exits_only_step (c c' : sem_config) i :
  good (sched c) -> exits_only c -> kstep (M := method) c i = Next c' -> exits_only c'.
Proof.
  intros Hg He Hk. apply kstep_next in Hk as [(f & _ & Hx)|(o & _ & _ & Hx)]; [| |done].
  - destruct (resume (sched c) f (res c)) as [r [v|o f'|]] eqn:Hr.
    + apply (exec_finish _ _ _ _ _ Hr) in Hx as ->. intros j f'. rewrite doing_insert.
      case_decide; [done|apply He].
    + destruct (exec_await _ _ _ _ _ _ Hr Hx) as (sw & s' & Hs & ->). intros j g. rewrite doing_insert.
      case_decide; [|apply He]. intros [= <-]. cbn [resume component] in Hr.
      destruct f; cbn [run] in Hr; try done.
      * unfold take in Hr. destruct (0 <? count_ (res c)); simplify_eq/=. by left.
      * unfold give in Hr. destruct (0 <? length _)%nat; [|by destruct (_ <? _)].
        destruct (pop_waiter _ _). simplify_eq/=. by right.
      * unfold try_take in Hr. by destruct (_ <=? _).
    + by destruct (exec_crash _ _ _ _ Hr Hx).
  - apply call_next in Hx as (sw & s' & Hs & ->). intros j g. rewrite doing_insert.
    case_decide; [by destruct o|apply He].
Qed.

Lemma give_alone_inv n m (c c' : sem_config) :
  sem_inv n m c -> in_take (doing c (running c)) = false -> waiters_ (res c) = [] ->
  exec (running c) (sched c) GiveEntry c = Next c' -> sem_inv n m c'.
Proof.
  intros Hi Hin El Hx. pose proof Hi as (Hg & Hw & Hb & Hm & Hc & Hz).
  destruct (Z.ltb_spec (count_ (res c)) (max_count_ (res c))) as [Hlt|Hge].
  - assert (resume (sched c) GiveEntry (res c) =
      (mkSem (count_ (res c) + 1) (max_count_ (res c)) (waiters_ (res c)), Finish Given)) as Hr
      by (cbn; unfold give; rewrite El; cbn; by rewrite (proj2 (Z.ltb_lt _ _))).
    apply (exec_finish _ _ _ _ _ Hr) in Hx as ->.
    apply (finish_inv n m); cbn; rewrite ?El; try done; try lia.
    unfold gives_token. cbn. rewrite ?El. cbn. rewrite (proj2 (Z.ltb_lt _ _)) by done. lia.
  - assert (resume (sched c) GiveEntry (res c) = (res c, Finish Given)) as Hr
      by (cbn; unfold give; rewrite El; cbn; by rewrite (proj2 (Z.ltb_ge _ _))).
    apply (exec_finish _ _ _ _ _ Hr) in Hx as ->.
    apply (finish_inv n m); cbn; rewrite ?El; try done; try lia.
    unfold gives_token. cbn. rewrite ?El. cbn. rewrite (proj2 (Z.ltb_ge _ _)) by done. lia.
Qed.

Lemma try_take_inv n m (c c' : sem_config) :
  sem_inv n m c -> in_take (doing c (running c)) = false ->
  exec (running c) (sched c) TryTakeEntry c = Next c' -> sem_inv n m c'.
Proof.
  intros Hi Hin Hx. pose proof Hi as (Hg & Hw & Hb & Hm & Hc & Hz).
  destruct (Z.leb_spec (count_ (res c)) 0) as [Hle|Hgt].
  - assert (resume (sched c) TryTakeEntry (res c) = (res c, Finish (Tried false))) as Hr
      by (cbn; unfold try_take; by rewrite (proj2 (Z.leb_le _ _))).
    apply (exec_finish _ _ _ _ _ Hr) in Hx as ->. apply (finish_inv n m); cbn; try done; lia.
  - assert (resume (sched c) TryTakeEntry (res c) =
      (mkSem (count_ (res c) - 1) (max_count_ (res c)) (waiters_ (res c)), Finish (Tried true))) as Hr
      by (cbn; unfold try_take; by rewrite (proj2 (Z.leb_gt _ _))).
    apply (exec_finish _ _ _ _ _ Hr) in Hx as ->. apply (finish_inv n m); cbn; try done; try lia.
    intros _. by apply Hz.
Qed.

Lemma sem_step n m (c c' : sem_config) i :
  sem_inv n m c -> exits_only c -> disciplined c i -> kstep (M := method) c i = Next c' -> sem_inv n m c'.
Proof.
  intros Hi He Hdisc Hk. pose proof Hi as (Hg & Hw & Hb & Hm & Hc & Hz).
  apply kstep_next in Hk as [(f & Hf & Hx)|(o & -> & Hd & Hx)]; [| |done]; [|by apply (sem_sys_inv n m c c' o)].
  assert (in_take (doing c (running c)) = bool_decide (f = TakeExit) /\
          (f = TakeEntry -> running c <> INVALID_TASK)) as [Hin Hne].
  { unfold next_segment in Hf. destruct (doing c (running c)) as [|g|] eqn:Ed, i as [|[]|]; simplify_eq/=;
      split; try done; destruct (He _ _ Ed) as [-> | ->]; done. }
  destruct f; cbn [bool_decide decide frame_eq_dec frame_rec frame_rect] in Hin.
  - destruct (Z.lt_ge_cases 0 (count_ (res c))) as [Hlt|Hle].
    + assert (resume (sched c) TakeEntry (res c) =
        (mkSem (count_ (res c) - 1) (max_count_ (res c)) (waiters_ (res c)), Finish Taken)) as Hr
        by (cbn; unfold take; by rewrite (proj2 (Z.ltb_lt _ _))).
      apply (exec_finish _ _ _ _ _ Hr) in Hx as ->. apply (finish_inv n m); cbn; try done; try lia.
      intros _. by apply Hz.
    + by apply (take_inv n m c c'); auto.
  - by apply (take_exit_inv n m c c').
  - destruct (waiters_ (res c)) as [|w l] eqn:El; [|apply (give_inv n m c c'); rewrite ?El; done].
    by apply (give_alone_inv n m c c').
  - assert (resume (sched c) GiveExit (res c) = (res c, Finish Given)) as Hr by done.
    apply (exec_finish _ _ _ _ _ Hr) in Hx as ->. apply (finish_inv n m); cbn; try done; lia.
  - by apply (try_take_inv n m c c').
Qed.

Definition sem_reachable (n m : Z) : sem_config -> Prop :=
  reachable (M := method) (fun _ _ => True) (new n m).

Lemma sem_reachable_inv n m c :
  0 <= n <= m -> sem_reachable n m c -> sem_inv n m c /\ exits_only c.
Proof.
  intros Hn Hr. induction Hr as [|c i c' Hr [IH He] Hd _ Hk].
  - split; [|by intros j f]. split; [apply boot_good|].
    split; [by split; constructor|]. split; [|by split].
    unfold balance. cbn. change (handed _) with (∅ : gset nat). rewrite size_empty. lia.
  - split; [by apply (sem_step n m c c' i)|]. apply (exits_only_step c c' i); [apply IH|done|done].
Qed.

(** * Properties *)

(** C4: Token conservation.  In every state that a disciplined program can reach,
    by any interleaving of its tasks: the count, the calls of take and try_take that
    came back with a token and the tokens handed to tasks that have not come back
    yet add up to the initial count and the effective calls of give; the count is
    between 0 and the maximum, and positive only if nobody waits; and the tasks in
    the wait list are distinct, inside take and blocked until a token is handed to
    them. *)
Theorem semaphore_conservation n m c :
  0 <= n <= m -> sem_reachable n m c ->
  count_ (res c) + Z.of_nat (total returns_token (trace c)) + Z.of_nat (size (handed c)) =
    n + Z.of_nat (total gives_token (trace c)) /\
  0 <= count_ (res c) <= m /\ (0 < count_ (res c) -> waiters_ (res c) = []) /\
  NoDup (waiters_ (res c)) /\
  forall j, j ∈ waiters_ (res c) -> parked (sched c) j /\ doing c j = At TakeExit.
Proof.
  intros Hn Hr. destruct (sem_reachable_inv n m c Hn Hr) as [(Hg & [Hnd Hw] & Hb & Hm & Hc & Hz) He].
  unfold balance in Hb. split; [lia|]. split; [done|]. split; [done|]. split; [done|].
  intros j Hj. rewrite Forall_forall in Hw. destruct (Hw j Hj) as [Hp Hin]. split; [done|].
  unfold in_take in Hin. destruct (doing c j) as [|f|] eqn:Ed; try done.
  by destruct (He j f Ed) as [-> | ->].
Qed.

(** A producer that gives two tokens to two consumers, the more urgent first. *)
Definition consumers : list (input method) :=
  [Sys (Create 2); Sys (Create 1); Sys (Create 3); Sys Start;
   Invoke Take; Invoke Take; Invoke Give; Go; Invoke TryTake; Sys (Delay 5); Go].

Definition consumers_end : sem_config := run_config (boot (new 0 5)) consumers.

Lemma semaphore_conservation_witness :
  total returns_token (trace consumers_end) = 1%nat /\ waiters_ (res consumers_end) = [0%nat] /\
  doing consumers_end 0 = At TakeExit.
Proof.
  split; [vm_compute; reflexivity|]. split; [vm_compute; reflexivity|].
  refine (proj2 (proj2 (proj2 (proj2 (proj2 (semaphore_conservation 0 5 consumers_end _ _)))) _ _)); [lia| |].
  - apply (run_config_reachable _ (fun _ _ => true)); [done|vm_compute; reflexivity..].
  - vm_compute. left.
Defined.

(** The count tells in advance what try_take would return. *)
Lemma try_take_count r :
  snd (try_take r) = Finish (Tried (0 <? count r)) /\
  count (fst (try_take r)) = (if 0 <? count r then count r - 1 else count r).
Proof. unfold try_take, count. destruct (Z.leb_spec (count_ r) 0), (Z.ltb_spec 0 (count_ r)); done || lia. Qed.

Lemma sem_orderly n m (c : sem_config) i f r a :
  sem_inv n m c -> exits_only c -> disciplined c i -> next_segment (M := method) c i = Some f ->
  resume (sched c) f (res c) = (r, a) -> orderly in_take waiters_ c r a.
Proof.
  intros (Hg & Hw & _) He Hd Hf Hr.
  assert (f = TakeEntry -> running c <> INVALID_TASK) as Hne.
  { unfold next_segment in Hf. destruct (doing c (running c)) as [|g|] eqn:Ed, i as [|[]|]; simplify_eq/=;
      try done; destruct (He _ _ Ed) as [-> | ->]; done. }
  cbn [resume component] in Hr. destruct f; cbn [run] in Hr; try (by injection Hr as <- <-).
  - unfold take in Hr. case_match; injection Hr as <- <-; [done|].
    apply (waits_room in_take c _ Hg); auto.
  - unfold give in Hr. destruct (Nat.ltb_spec 0 (length (waiters_ (res c)))) as [Hl|];
      [|case_match; by injection Hr as <- <-].
    pose proof (pop_waiter_spec (sched c) (waiters_ (res c))) as Hp.
    destruct (pop_waiter _ _) as [w l]. injection Hr as <- <-. split; [done|].
    apply Hp. by intros E; rewrite E in Hl; apply Nat.lt_irrefl in Hl.
  - unfold try_take in Hr. case_match; by injection Hr as <- <-.
Qed.

(** C8: No token is stuck.  In every state that a disciplined program can reach, a
    task that was handed a token inside take and has not come back yet is READY or
    RUNNING.  So when no task can run, no token is under way, and if a task then
    waits in take, the count is 0 and every token there ever was has been taken. *)
Theorem semaphore_no_stuck_token n m c :
  0 <= n <= m -> sem_reachable n m c ->
  (forall j, j ∈ handed c -> runnable (sched c) j) /\
  ((forall j, ~ runnable (sched c) j) ->
   handed c = ∅ /\
   (waiters_ (res c) <> [] ->
    count_ (res c) = 0 /\
    Z.of_nat (total returns_token (trace c)) = n + Z.of_nat (total gives_token (trace c)))).
Proof.
  intros Hn Hr.
  assert (awake in_take waiters_ c) as Ha.
  { apply (awake_reachable in_take waiters_ eq_refl eq_refl (fun _ _ => True) (new n m)); [|done].
    intros c1 Hc1. destruct (sem_reachable_inv n m c1 Hn Hc1) as [Hi He]. split; [apply Hi|].
    split; [apply Hi|]. intros i f r a. by apply (sem_orderly n m). }
  assert (forall j, j ∈ handed c -> runnable (sched c) j) as Hh.
  { intros j [Hj Hnw]%elem_of_handed. by apply Ha. }
  split; [done|]. intros Hidle.
  assert (handed c = ∅) as He by (apply set_eq; set_solver). split; [done|]. intros Hw.
  destruct (sem_reachable_inv n m c Hn Hr) as [(_ & _ & Hb & _ & Hc & Hz) _].
  assert (count_ (res c) = 0) as H0.
  { destruct (Z.lt_ge_cases 0 (count_ (res c))) as [Hlt|]; [by destruct Hw; apply Hz|lia]. }
  split; [done|]. unfold balance in Hb. rewrite He, size_empty in Hb. lia.
Qed.

(** One consumer and no token: nothing can run. *)
Definition starved : list (input method) := [Sys (Create 2); Sys Start; Invoke Take].
Definition starved_end : sem_config := run_config (boot (new 0 5)) starved.

Lemma semaphore_no_stuck_token_witness :
  waiters_ (res starved_end) = [0%nat] /\ count_ (res starved_end) = 0 /\
  Z.of_nat (total returns_token (trace starved_end)) =
    0 + Z.of_nat (total gives_token (trace starved_end)).
Proof.
  split; [vm_compute; reflexivity|].
  refine (proj2 (proj2 (semaphore_no_stuck_token 0 5 starved_end _ _) _) _); [lia| | |].
  - apply (run_config_reachable _ (fun _ _ => true)); [done|vm_compute; reflexivity..].
  - intros j (x & Hx & Hs).
    assert (tasks_ (sched starved_end) = [mkTCB 2 BLOCKED 0]) as E by (vm_compute; reflexivity).
    rewrite E in Hx. apply list_lookup_singleton_Some in Hx as [_ <-]. by destruct Hs.
  - vm_compute. discriminate.
Defined.

(** The discipline is needed: suspending and resuming a task that waits in take
    makes it come back from take although no token was ever given, and leaves it in
    the wait list, where the next give spends its token on nobody. *)
Theorem semaphore_suspend :
  exists inputs c c', krun (boot (new 0 5)) inputs = Next c /\
    total gives_token (trace c) = 0%nat /\ total returns_token (trace c) = 1%nat /\
    doing c 0 = User /\ waiters_ (res c) = [0%nat] /\
    krun c [Invoke Give; Go] = Next c' /\
    total gives_token (trace c') = 1%nat /\ total returns_token (trace c') = 1%nat /\
    handed c' = ∅ /\ count_ (res c') = 0.
Proof.
  exists [Sys (Create 1); Sys (Create 2); Sys Start; Invoke Take; Sys (Suspend 0); Sys (Resume 0);
          Sys (Delay 1); Go].
  eexists _, _. split; [vm_compute; reflexivity|]. vm_compute. repeat split.
Qed.
