(* ===== verification/Starvation.v ===== *)
(** src/rtos/semaphore.h: waiters of the same priority are not served in turn.  The
    last waiter takes the place of the one that was woken, so a task can wait for
    ever while two others of its priority take every token. *)
From S2P Require Export SemaphoreProps.

Import Scheduler Semaphore.

(** * Runs do not depend on the trace *)

Section Trace.
Context {R M F V : Type} `{Component R M F V}.

Definition add_trace (tr : list (event R F V)) (c : config R F V) : config R F V :=
  mkConfig (sched c) (res c) (contexts c) (trace c ++ tr).

Definition on_next (f : config R F V -> config R F V) (r : result R F V) : result R F V :=
  match r with Next c => Next (f c) | _ => r end.

Lemma call_trace e s o (r : R) ctxs tr0 tr k :
  call e s o r ctxs (tr0 ++ tr) k = on_next (add_trace tr) (call e s o r ctxs tr0 k).
Proof. unfold call. by destruct (sched_step s o) as [[sw s']|]. Qed.

Lemma exec_trace e s f tr c : exec e s f (add_trace tr c) = on_next (add_trace tr) (exec e s f c).
Proof.
  unfold exec. cbn [res add_trace contexts trace]. destruct (resume s f (res c)) as [r [v|o f'|]]; [done| |done].
  by rewrite app_comm_cons, call_trace.
Qed.

Lemma kstep_trace tr c (i : input M) : kstep (add_trace tr c) i = on_next (add_trace tr) (kstep c i).
Proof.
  unfold kstep, context_of. cbn [sched contexts res trace add_trace].
  destruct (default _ _) as [sw [|f|]], i as [|m|o]; try done; try apply exec_trace. apply call_trace.
Qed.

Lemma krun_trace tr c (l : list (input M)) :
  krun (add_trace tr c) l = on_next (add_trace tr) (krun c l).
Proof.
  revert c. induction l as [|i l IH]; intros c; cbn [krun]; [done|].
  rewrite kstep_trace. destruct (kstep c i) as [c'| |]; cbn [on_next]; [apply IH|done..].
Qed.

Lemma krun_app c (l1 l2 : list (input M)) :
  krun c (l1 ++ l2) = match krun c l1 with Next c' => krun c' l2 | r => r end.
Proof.
  revert c. induction l1 as [|i l1 IH]; intros c; cbn [krun app]; [done|].
  by destruct (kstep c i).
Qed.

(** A round that ends in the state it started in can go on for ever. *)
Lemma krun_rounds c (round : list (input M)) tr n :
  trace c = [] -> krun c round = Next (add_trace tr c) ->
  krun c (concat (replicate n round)) = Next (add_trace (concat (replicate n tr)) c).
Proof.
  intros Hc Hr. assert (add_trace [] c = c) as E0 by (destruct c; unfold add_trace; cbn in *; by rewrite app_nil_r).
  induction n as [|n IH]; cbn [replicate concat]; [by rewrite E0|].
  rewrite krun_app, Hr, krun_trace, IH. cbn [on_next]. unfold add_trace. cbn [sched res contexts trace].
  rewrite Hc. cbn [app]. do 2 f_equal. clear. induction n as [|n IH]; cbn [replicate concat]; [by rewrite app_nil_r|].
  by rewrite <-app_assoc, IH.
Qed.

(** Nor does the discipline of the scheduler. *)
Definition calm_inputs (c : config R F V) (l : list (input M)) : bool := run_disciplined (fun _ _ => true) c l.

Lemma calm_inputs_trace tr c l : calm_inputs (add_trace tr c) l = calm_inputs c l.
Proof.
  unfold calm_inputs. revert c. induction l as [|i l IH]; intros c; cbn [run_disciplined]; [done|].
  rewrite kstep_trace. replace (disciplinedb (add_trace tr c) i) with (disciplinedb c i) by (by destruct i).
  destruct (kstep c i) as [c'| |]; cbn [on_next]; by rewrite ?IH.
Qed.

Lemma calm_inputs_app c c' (l1 l2 : list (input M)) :
  krun c l1 = Next c' -> calm_inputs c (l1 ++ l2) = calm_inputs c l1 && calm_inputs c' l2.
Proof.
  unfold calm_inputs. revert c. induction l1 as [|i l1 IH]; intros c Hr; cbn [run_disciplined krun app] in *.
  - by injection Hr as <-.
  - destruct (kstep c i) as [c1| |]; [|done..]. by rewrite (IH c1 Hr), andb_assoc.
Qed.

Lemma calm_inputs_rounds c (round : list (input M)) tr n :
  krun c round = Next (add_trace tr c) -> calm_inputs c round = true ->
  calm_inputs c (concat (replicate n round)) = true.
Proof.
  intros Hr Hc. induction n as [|n IH]; cbn [replicate concat]; [done|].
  by rewrite (calm_inputs_app _ _ _ _ Hr), Hc, calm_inputs_trace.
Qed.
End Trace.

(** * A task that waits for ever *)

(** Tasks 0, 1, 2 and 3, all of priority 5.  The first three call [take]; task 3
    will give. *)
Definition setup : list (input method) :=
  [Sys (Create 5); Sys (Create 5); Sys (Create 5); Sys (Create 5); Sys Start;
   Invoke Take; Invoke Take; Sys (Delay 0); Sys (Delay 0); Invoke Take].

(** Task 3 gives a token and yields; the task that was woken comes back from [take]
    and calls it again. *)
Definition give_one : list (input method) := [Invoke Give; Go; Sys (Delay 0); Go; Invoke Take].
Definition round : list (input method) := give_one ++ give_one.
Definition rounds (n : nat) : list (input method) := concat (replicate n round).

(** The tokens that the calls of task [j] have come back with. *)
Definition taken (c : sem_config) (j : nat) : nat :=
  total (fun e => if (who e =? j)%nat then returns_token e else 0%nat) (trace c).

Definition all_waiting : sem_config := run_config (boot (new 0 5)) setup.
Definition untraced (c : sem_config) : sem_config := mkConfig (sched c) (res c) (contexts c) [].
Definition round_trace : list sem_event := trace (run_config (untraced all_waiting) round).

(** After two tokens everything is as it was, but for the trace. *)
Lemma round_returns :
  krun (M := method) (untraced all_waiting) round = Next (add_trace round_trace (untraced all_waiting)).
Proof. vm_compute. reflexivity. Qed.

Lemma rounds_end n :
  krun (M := method) all_waiting (rounds n) =
  Next (add_trace (trace all_waiting) (add_trace (concat (replicate n round_trace)) (untraced all_waiting))).
Proof.
  change all_waiting with (add_trace (trace all_waiting) (untraced all_waiting)) at 1.
  rewrite krun_trace. unfold rounds.
  by rewrite (krun_rounds (untraced all_waiting) round round_trace n eq_refl round_returns).
Qed.

Lemma rounds_reachable n c : krun (M := method) all_waiting (rounds n) = Next c -> sem_reachable 0 5 c.
Proof.
  intros Hk. apply (krun_reachable (fun _ _ => True) (fun _ _ => true) (new 0 5) all_waiting c (rounds n)); try done.
  - change all_waiting with (add_trace (trace all_waiting) (untraced all_waiting)).
    fold (calm_inputs (M := method) (add_trace (trace all_waiting) (untraced all_waiting)) (rounds n)).
    rewrite calm_inputs_trace. apply (calm_inputs_rounds _ _ round_trace); [apply round_returns|].
    vm_compute. reflexivity.
  - by apply (run_config_reachable _ (fun _ _ => true)); [done|vm_compute; reflexivity..].
Qed.

Lemma total_rounds f n l :
  total f (concat (replicate n round_trace) ++ l) = (n * total f round_trace + total f l)%nat.
Proof.
  unfold total. induction n as [|n IH]; cbn [replicate concat]; [done|].
  rewrite <-app_assoc, sum_list_with_app, IH. lia.
Qed.

(** C29: A waiter can starve.  Tasks 0, 1 and 2 have the same priority, wait in take
    in this order, and take again whenever they are woken, while task 3, of the same
    priority too, gives tokens.  give moves the last waiter into the place of the
    one it woke, so the tokens go to tasks 0 and 2 in turn: after any number of
    rounds each of those two has taken one token per round, and task 1, which
    waited before task 2, still waits and has taken none. *)
Theorem semaphore_starvation n :
  exists c, krun (boot (new 0 5)) (setup ++ rounds n) = Next c /\ sem_reachable 0 5 c /\
    (forall j, (j < 4)%nat -> get_priority (sched c) j = 5) /\
    total gives_token (trace c) = (2 * n)%nat /\
    taken c 0 = n /\ taken c 2 = n /\ taken c 1 = 0%nat /\
    1%nat ∈ waiters_ (res c) /\ doing c 1 = At TakeExit.
Proof.
  eexists. split; [|split; [eapply rounds_reachable, rounds_end|split]].
  - rewrite krun_app. change (krun _ setup) with (Next all_waiting). apply rounds_end.
  - intros j Hj. do 4 (destruct j as [|j]; [vm_compute; reflexivity|]). lia.
  - unfold taken. change (trace (add_trace _ _)) with (concat (replicate n round_trace) ++ trace all_waiting).
    rewrite !total_rounds. unfold all_waiting, round_trace.
    split; [vm_compute (total _ _); lia|]. split; [vm_compute (total _ _); lia|].
    split; [vm_compute (total _ _); lia|]. split; [vm_compute (total _ _); lia|].
    split; [|vm_compute; reflexivity]. vm_compute. right. left.
Qed.
