(* ===== verification/MutexProps.v ===== *)
(** src/rtos/mutex.h: mutual exclusion, whatever the tasks do and in whatever order
    the scheduler runs them. *)
From S2P Require Export HandOver Mutex.

Import Scheduler Mutex.

Definition mutex_config : Type := config t frame value.
Definition mutex_event : Type := event t frame value.

(** Task [j] holds the mutex: its last call that came back gave it the mutex and it
    has not called [unlock] since. *)
Fixpoint holds (l : list mutex_event) (j : nat) : bool :=
  match l with
  | [] => false
  | e :: l =>
      if (who e =? j)%nat then
        match segment e, outcome e with
        | UnlockEntry, _ => false
        | _, Finish Locked | _, Finish (Tried true) => true
        | _, _ => holds l j
        end
      else holds l j
  end.

Definition in_lock (k : continuation frame) : bool :=
  match k with At LockExit => true | _ => false end.

(** Only a task that holds the mutex unlocks it. *)
Definition unlock_ok (c : mutex_config) (m : method) : Prop :=
  match m with Unlock => holds (trace c) (running c) = true | _ => True end.

Definition exits_only (c : mutex_config) : Prop :=
  forall j f, doing c j = At f -> f = LockExit \/ f = UnlockExit.

(** The owner is the only task that holds the mutex or is about to come back with
    it; nobody waits for a free mutex. *)
Definition mutex_inv (c : mutex_config) : Prop :=
  good (sched c) /\ waits in_lock c (waiters_ (res c)) /\
  (forall j, holds (trace c) j = true -> owner_ (res c) = j /\ j <> INVALID_TASK) /\
  (forall j, in_lock (doing c j) = true -> j ∉ waiters_ (res c) ->
     owner_ (res c) = j /\ j <> INVALID_TASK) /\
  (owner_ (res c) = INVALID_TASK -> waiters_ (res c) = []) /\ exits_only c.

Lemma exits_only_finish (c c' : mutex_config) sw :
  exits_only c -> contexts c' = <[running c := (sw, User)]> (contexts c) -> exits_only c'.
Proof.
  intros He Hc j f. destruct (decide (j = running c)) as [->|Hj].
  - by rewrite (doing_running c c' sw User Hc).
  - rewrite (doing_other c c' (sw, User) j Hc Hj). apply He.
Qed.

Lemma exits_only_await (c c' : mutex_config) sw k :
  exits_only c -> contexts c' = <[running c := (sw, k)]> (contexts c) ->
  (forall f, k = At f -> f = LockExit \/ f = UnlockExit) -> exits_only c'.
Proof.
  intros He Hc Hk j f. destruct (decide (j = running c)) as [->|Hj].
  - rewrite (doing_running c c' sw k Hc). apply Hk.
  - rewrite (doing_other c c' (sw, k) j Hc Hj). apply He.
Qed.

Lemma holds_cons e f b o l j :
  holds (Ran e f b o :: l) j =
  if decide (j = e) then
    match f, o with
    | UnlockEntry, _ => false
    | _, Finish Locked | _, Finish (Tried true) => true
    | _, _ => holds l j
    end
  else holds l j.
Proof.
  cbn [holds who segment outcome]. destruct (Nat.eqb_spec e j) as [->|Hne].
  - by rewrite decide_True.
  - by rewrite decide_False.
Qed.

(** The running task gets the free mutex. *)
Lemma acquire_inv (c : mutex_config) f v :
  mutex_inv c -> running c <> INVALID_TASK -> owner_ (res c) = INVALID_TASK ->
  (f = LockEntry /\ v = Locked \/ f = TryLockEntry /\ v = Tried true) ->
  mutex_inv (mkConfig (sched c) (mkMutex (running c) (waiters_ (res c)))
    (<[running c := (false, User)]> (contexts c)) (Ran (running c) f (res c) (Finish v) :: trace c)).
Proof.
  intros (Hg & Hw & Hh & Hi & Hf & He) Hne Ho Hv. set (c' := mkConfig _ _ _ _).
  split; [done|]. split; [by apply (waits_finish in_lock c c' _ (false, User))|].
  split; [|split; [|split; [done|by apply (exits_only_finish c c' false)]]]; intros j.
  - cbn [trace c' res owner_]. rewrite holds_cons. case_decide as E; [by subst j|].
    intros Hj. destruct (Hh j Hj). congruence.
  - intros Hj. unfold c' in Hj. rewrite doing_insert in Hj. case_decide as E; [done|].
    fold (context_of c j) in Hj. fold (doing c j) in Hj. intros Hnw. destruct (Hi j Hj Hnw). congruence.
Qed.

(** The end of a [lock] that was handed the mutex. *)
Lemma lock_exit_inv (c : mutex_config) :
  mutex_inv c -> doing c (running c) = At LockExit ->
  mutex_inv (mkConfig (sched c) (res c)
    (<[running c := (false, User)]> (contexts c)) (Ran (running c) LockExit (res c) (Finish Locked) :: trace c)).
Proof.
  intros (Hg & Hw & Hh & Hi & Hf & He) Hd. set (c' := mkConfig _ _ _ _).
  destruct (Hi (running c)) as [Ho Hne].
  { by rewrite Hd. }
  { intros Hin. by apply (waits_not_running in_lock c _ _ Hg Hw Hin). }
  split; [done|]. split; [by apply (waits_finish in_lock c c' _ (false, User))|].
  split; [|split; [|split; [done|by apply (exits_only_finish c c' false)]]]; intros j.
  - cbn [trace c' res]. rewrite holds_cons. case_decide as E; [by subst j|apply Hh].
  - intros Hj. unfold c' in Hj. rewrite doing_insert in Hj. case_decide as E; [done|].
    by apply Hi.
Qed.

(** A segment that finishes and changes nothing. *)
Lemma idle_inv (c : mutex_config) f v :
  mutex_inv c -> (f = UnlockExit /\ v = Unlocked \/ f = TryLockEntry /\ v = Tried false) ->
  mutex_inv (mkConfig (sched c) (res c)
    (<[running c := (false, User)]> (contexts c)) (Ran (running c) f (res c) (Finish v) :: trace c)).
Proof.
  intros (Hg & Hw & Hh & Hi & Hf & He) Hv. set (c' := mkConfig _ _ _ _).
  split; [done|]. split; [by apply (waits_finish in_lock c c' _ (false, User))|].
  split; [|split; [|split; [done|by apply (exits_only_finish c c' false)]]]; intros j.
  - cbn [trace c' res]. rewrite holds_cons. case_decide as E; [|apply Hh].
    destruct Hv as [[-> ->]|[-> ->]]; apply Hh.
  - intros Hj. unfold c' in Hj. rewrite doing_insert in Hj. case_decide as E; [done|].
    by apply Hi.
Qed.

(** [unlock] with nobody waiting. *)
Lemma release_inv (c : mutex_config) :
  mutex_inv c -> doing c (running c) = User -> holds (trace c) (running c) = true ->
  waiters_ (res c) = [] ->
  mutex_inv (mkConfig (sched c) (mkMutex INVALID_TASK (waiters_ (res c)))
    (<[running c := (false, User)]> (contexts c)) (Ran (running c) UnlockEntry (res c) (Finish Unlocked) :: trace c)).
Proof.
  intros (Hg & Hw & Hh & Hi & Hf & He) Hd Hr Hno. set (c' := mkConfig _ _ _ _).
  destruct (Hh (running c) Hr) as [Ho Hne].
  split; [done|]. split; [by apply (waits_finish in_lock c c' _ (false, User))|].
  split; [|split; [|split; [done|by apply (exits_only_finish c c' false)]]]; intros j.
  - cbn [trace c' res]. rewrite holds_cons. case_decide as E; [done|].
    intros Hj. destruct (Hh j Hj). congruence.
  - intros Hj. unfold c' in Hj. rewrite doing_insert in Hj. case_decide as E; [done|].
    intros Hnw. destruct (Hi j Hj Hnw). congruence.
Qed.

(** [unlock] with a task waiting: the mutex is handed over. *)
Lemma hand_over_inv (c : mutex_config) sw s' w l :
  mutex_inv c -> doing c (running c) = User -> holds (trace c) (running c) = true ->
  w :: l ≡ₚ waiters_ (res c) -> sched_step (sched c) (Unblock w) = Some (sw, s') ->
  mutex_inv (mkConfig s' (mkMutex w l) (<[running c := (switched sw, At UnlockExit)]> (contexts c))
    (Ran (running c) UnlockEntry (res c) (Await (Unblock w) UnlockExit) :: trace c)).
Proof.
  intros (Hg & Hw & Hh & Hi & Hf & He) Hd Hr Hperm Hs. set (c' := mkConfig _ _ _ _).
  destruct (Hh (running c) Hr) as [Ho Hne].
  assert (parked (sched c) w) as Hp by (apply (waits_elem in_lock c _ w Hw); rewrite <-Hperm; by left).
  split; [by apply (good_unblock (sched c) w sw)|].
  split; [by apply (waits_unblock in_lock c c' sw w (waiters_ (res c)) l (switched sw, At UnlockExit))|].
  split; [|split; [|split]]; [intros j..| |].
  - cbn [trace c' res]. rewrite holds_cons. case_decide as E; [done|].
    intros Hj. destruct (Hh j Hj). congruence.
  - intros Hj. unfold c' in Hj. rewrite doing_insert in Hj. case_decide as E; [done|].
    cbn [res c' owner_ waiters_]. intros Hnw. destruct (decide (j = w)) as [->|Hjw].
    + split; [done|]. by apply (parked_valid (sched c)).
    + destruct (Hi j Hj); [|congruence]. rewrite <-Hperm. rewrite elem_of_cons. naive_solver.
  - cbn [res c' owner_ waiters_]. intros Hw'. by apply (parked_valid (sched c)) in Hw'.
  - apply (exits_only_await c c' (switched sw) (At UnlockExit)); [done|done|]. intros f [= <-]. by right.
Qed.

(** [lock] of a mutex that is not free. *)
Lemma lock_block_inv (c : mutex_config) sw s' :
  mutex_inv c -> running c <> INVALID_TASK -> owner_ (res c) <> INVALID_TASK ->
  sched_step (sched c) Block = Some (sw, s') ->
  mutex_inv (mkConfig s' (mkMutex (owner_ (res c)) (waiters_ (res c) ++ [running c]))
    (<[running c := (switched sw, At LockExit)]> (contexts c))
    (Ran (running c) LockEntry (res c) (Await Block LockExit) :: trace c)).
Proof.
  intros (Hg & Hw & Hh & Hi & Hf & He) Hne Ho Hs. set (c' := mkConfig _ _ _ _).
  split; [by apply (good_block (sched c) sw)|].
  split; [by apply (waits_block in_lock c c' sw _ LockExit)|].
  split; [|split; [|split]]; [intros j..| |].
  - cbn [trace c' res owner_]. rewrite holds_cons. case_decide as E; [subst j|]; apply Hh.
  - intros Hj. unfold c' in Hj. rewrite doing_insert in Hj. cbn [res c' owner_ waiters_].
    case_decide as E.
    + subst j. intros []. apply elem_of_app. right. by apply list_elem_of_singleton.
    + intros Hnw. apply Hi; [done|]. rewrite elem_of_app in Hnw. naive_solver.
  - by intros ?%Ho.
  - apply (exits_only_await c c' (switched sw) (At LockExit)); [done|done|]. intros f [= <-]. by left.
Qed.

Lemma mutex_sys_inv (c c' : mutex_config) o :
  mutex_inv c -> disciplined c (Sys (M := method) o) -> doing c (running c) = User ->
  call (running c) (sched c) o (res c) (contexts c) (trace c)
    (match o with Exit => Gone | _ => User end) = Next c' -> mutex_inv c'.
Proof.
  intros (Hg & Hw & Hh & Hi & Hf & He) Hdisc Hd Hx.
  apply call_next in Hx as (sw & s' & Hs & ->). set (c' := mkConfig _ _ _ _).
  set (k := match o with Exit => Gone | _ => User end) in *.
  split; [by apply (good_sys (M := method) c o sw)|].
  split; [by apply (waits_sys (M := method) in_lock c c' o sw _ (switched sw, k))|].
  split; [done|]. split; [|split; [done|]].
  - intros j Hj. unfold c' in Hj. rewrite doing_insert in Hj.
    case_decide as E; [by destruct o|by apply Hi].
  - apply (exits_only_await c c' (switched sw) k); [done|done|]. by destruct o.
Qed.

(** The running segment, by frame. *)
Lemma mutex_exec (c c' : mutex_config) f :
  mutex_inv c -> exec (running c) (sched c) f c = Next c' ->
  match f with
  | LockEntry | TryLockEntry => running c <> INVALID_TASK
  | LockExit => doing c (running c) = At LockExit
  | UnlockEntry => doing c (running c) = User /\ holds (trace c) (running c) = true
  | UnlockExit => True
  end -> mutex_inv c'.
Proof.
  intros Hm Hx Hf. pose proof Hm as (Hg & Hw & Hh & Hi & Hfree & He).
  assert (forall r v, resume (sched c) f (res c) = (r, Finish v) ->
    c' = mkConfig (sched c) r (<[running c := (false, User)]> (contexts c))
           (Ran (running c) f (res c) (Finish v) :: trace c)) as Hfin.
  { intros r v Hr. by apply (exec_finish _ _ _ _ _ Hr). }
  destruct f; cbn [resume component run] in Hfin.
  - unfold lock in Hfin. fold (running c) in Hfin.
    destruct (Nat.eqb_spec (owner_ (res c)) INVALID_TASK) as [Ho|Ho].
    + rewrite (Hfin _ _ eq_refl). apply acquire_inv; auto.
    + assert (resume (sched c) LockEntry (res c) =
        (mkMutex (owner_ (res c)) (waiters_ (res c) ++ [running c]), Await Block LockExit)) as Hr.
      { cbn. unfold lock. rewrite (proj2 (Nat.eqb_neq _ _)) by done.
        by rewrite <-(waits_room in_lock c _ Hg Hf Hw). }
      destruct (exec_await _ _ _ _ _ _ Hr Hx) as (sw & s' & Hs & ->). by apply lock_block_inv.
  - rewrite (Hfin _ _ eq_refl). by apply lock_exit_inv.
  - destruct Hf as [Hd Hr]. destruct (waiters_ (res c)) as [|w0 l0] eqn:El.
    + unfold unlock in Hfin. rewrite El in Hfin. rewrite (Hfin _ _ eq_refl). rewrite <-El at 1.
      by apply release_inv.
    + assert (waiters_ (res c) <> []) as Hne by (by rewrite El).
      pose proof (pop_waiter_spec (sched c) _ Hne) as Hpop.
      destruct (pop_waiter (sched c) (waiters_ (res c))) as [w l] eqn:Ep. destruct Hpop as [Hperm _].
      assert (resume (sched c) UnlockEntry (res c) = (mkMutex w l, Await (Unblock w) UnlockExit)) as Hrun.
      { cbn. unfold unlock. rewrite Ep. by rewrite El. }
      destruct (exec_await _ _ _ _ _ _ Hrun Hx) as (sw & s' & Hs & ->). by apply hand_over_inv.
  - rewrite (Hfin _ _ eq_refl). apply idle_inv; auto.
  - unfold try_lock in Hfin. fold (running c) in Hfin.
    destruct (Nat.eqb_spec (owner_ (res c)) INVALID_TASK) as [Ho|Ho]; cbn [negb] in Hfin;
      rewrite (Hfin _ _ eq_refl); [apply acquire_inv|apply idle_inv]; auto.
Qed.

Lemma mutex_step (c c' : mutex_config) i :
  mutex_inv c -> disciplined c i -> (forall m, i = Invoke m -> unlock_ok c m) ->
  kstep c i = Next c' -> mutex_inv c'.
Proof.
  intros Hm Hdisc Hok Hk. pose proof Hm as (Hg & _ & _ & _ & _ & He).
  apply kstep_next in Hk as [(f & Hf & Hx)|(o & -> & Hd & Hx)]; [|by apply (mutex_sys_inv c c' o)|done].
  apply (mutex_exec c c' f Hm Hx). unfold next_segment in Hf.
  destruct (doing c (running c)) as [|g|] eqn:Ed, i as [|m|]; try done; injection Hf as <-.
  - specialize (Hok m eq_refl). destruct m; cbn in *; auto.
  - destruct (He _ _ Ed) as [-> | ->]; done.
Qed.

Definition mutex_reachable : mutex_config -> Prop := reachable (M := method) unlock_ok new.

Lemma mutex_reachable_inv c : mutex_reachable c -> mutex_inv c.
Proof.
  induction 1 as [|c i c' Hr IH Hd Hok Hk].
  - split; [apply boot_good|]. split; [split; constructor|]. split; [done|]. split; [by intros j|].
    split; [done|by intros j f].
  - by apply (mutex_step c c' i).
Qed.

(** * Properties *)

(** C2: Mutual exclusion.  In every state that a disciplined program (methods are
    called by tasks; the tasks' own code passes the scheduler valid arguments and does
    not suspend, delete or unblock a task that is inside a method or waits for a
    deadline; the tick count does not overflow) can reach, by any interleaving, whose
    tasks unlock the mutex only while they hold it: at most one task
    holds it and it is the recorded owner; while a task holds it no other task is
    about to come back from lock with it; nobody waits for a free mutex; and a task
    in the wait list is inside lock and blocked until the mutex is handed to it. *)
Theorem mutual_exclusion c :
  mutex_reachable c ->
  (forall j k, holds (trace c) j = true -> holds (trace c) k = true -> j = k) /\
  (forall j, holds (trace c) j = true -> owner_ (res c) = j) /\
  (forall j k, holds (trace c) j = true -> doing c k = At LockExit -> k ∉ waiters_ (res c) -> j = k) /\
  (owner_ (res c) = INVALID_TASK -> waiters_ (res c) = []) /\
  NoDup (waiters_ (res c)) /\
  forall j, j ∈ waiters_ (res c) -> parked (sched c) j /\ doing c j = At LockExit.
Proof.
  intros (Hg & Hw & Hh & Hi & Hf & He)%mutex_reachable_inv.
  split; [intros j k [<- _]%Hh [<- _]%Hh; done|]. split; [by intros j [? _]%Hh|].
  split; [|split; [done|split; [apply Hw|]]].
  - intros j k [<- _]%Hh Hk Hnw. destruct (Hi k) as [<- _]; [by rewrite Hk|done|done].
  - intros j Hj. destruct (waits_elem in_lock c _ j Hw Hj) as [Hp Hin]. split; [done|].
    unfold in_lock in Hin. destruct (doing c j) as [|f|] eqn:Ed; try done.
    by destruct (He j f Ed) as [-> | ->].
Qed.

Definition unlock_okb (c : mutex_config) (m : method) : bool :=
  match m with Unlock => holds (trace c) (running c) | _ => true end.

(** Task 0 is preempted while it holds the mutex; task 1 has to wait for it. *)
Definition contention : list (input method) :=
  [Sys (Create 2); Sys (Create 1); Sys Start; Sys (Delay 2); Invoke Lock; Sys (Tick 2);
   Invoke TryLock; Invoke Lock].

Definition contention_end : mutex_config := run_config (boot new) contention.

Lemma mutual_exclusion_witness :
  holds (trace contention_end) 0 = true /\ owner_ (res contention_end) = 0%nat /\
  waiters_ (res contention_end) = [1%nat] /\ doing contention_end 1 = At LockExit.
Proof.
  assert (mutex_reachable contention_end) as Hr.
  { apply (run_config_reachable _ unlock_okb); [by intros c []|vm_compute; reflexivity..]. }
  assert (holds (trace contention_end) 0 = true) as Hh by (vm_compute; reflexivity).
  destruct (mutual_exclusion contention_end Hr) as (_ & Ho & _ & _ & _ & Hw).
  split; [exact Hh|]. split; [exact (Ho _ Hh)|]. split; [vm_compute; reflexivity|].
  refine (proj2 (Hw _ _)). vm_compute. left.
Defined.

(** The discipline is needed: task 1 waits in lock; task 0, the holder, suspends and
    resumes it, and it comes back from lock beside task 0. *)
Definition suspended : list (input method) :=
  [Sys (Create 1); Sys (Create 1); Sys Start; Invoke Lock; Sys (Delay 0); Invoke Lock;
   Sys (Suspend 1); Sys (Resume 1); Sys (Delay 0); Go].

Definition suspended_end : mutex_config := run_config (boot new) suspended.

Lemma mutex_suspend :
  krun (boot new) suspended = Next suspended_end /\
  holds (trace suspended_end) 0 = true /\ holds (trace suspended_end) 1 = true /\
  owner_ (res suspended_end) = 0%nat.
Proof. by vm_compute. Qed.

(** The observers tell in advance what a call would do. *)
Lemma try_lock_is_locked s r :
  snd (try_lock s r) = Finish (Tried (negb (is_locked r))) /\
  (is_locked r = false -> owner (fst (lock s r)) = current_ s).
Proof.
  unfold try_lock, lock, is_locked. destruct (owner_ r =? INVALID_TASK)%nat; [done|by split].
Qed.

(** * Hand-over *)

Lemma mutex_orderly (c : mutex_config) i f r a :
  mutex_inv c -> disciplined c i -> next_segment (M := method) c i = Some f ->
  resume (sched c) f (res c) = (r, a) -> orderly in_lock waiters_ c r a.
Proof.
  intros (Hg & Hw & _ & _ & _ & He) Hd Hf Hr.
  assert (f = LockEntry -> running c <> INVALID_TASK) as Hne.
  { unfold next_segment in Hf. destruct (doing c (running c)) as [|g|] eqn:Ed, i as [|[]|]; simplify_eq/=;
      try done; destruct (He _ _ Ed) as [-> | ->]; done. }
  cbn [resume component] in Hr. destruct f; cbn [run] in Hr; try (by injection Hr as <- <-).
  - unfold lock in Hr. case_match; injection Hr as <- <-; [done|].
    apply (waits_room in_lock c _ Hg); auto.
  - unfold unlock in Hr. destruct (Nat.ltb_spec 0 (length (waiters_ (res c)))) as [Hl|];
      [|by injection Hr as <- <-].
    pose proof (pop_waiter_spec (sched c) (waiters_ (res c))) as Hp.
    destruct (pop_waiter _ _) as [w l]. injection Hr as <- <-. split; [done|].
    apply Hp. by intros E; rewrite E in Hl; apply Nat.lt_irrefl in Hl.
  - unfold try_lock in Hr. case_match; by injection Hr as <- <-.
Qed.

(** The recorded owner holds the mutex or has been handed it. *)
Definition owned (c : mutex_config) : Prop :=
  let o := owner_ (res c) in
  o = INVALID_TASK \/ holds (trace c) o = true \/ (doing c o = At LockExit /\ o ∉ waiters_ (res c)).

(** A step that keeps the owner and does not end its hold. *)
Lemma owned_keep (c c' : mutex_config) k :
  owned c -> owner_ (res c') = owner_ (res c) -> contexts c' = <[running c := k]> (contexts c) ->
  (forall j, holds (trace c) j = true -> holds (trace c') j = true) ->
  (forall j, j <> running c -> j ∉ waiters_ (res c) -> j ∉ waiters_ (res c')) ->
  doing c (running c) <> At LockExit -> owned c'.
Proof.
  intros Ho Hr Hc Hh Hw Hd. unfold owned in *. rewrite Hr.
  destruct Ho as [Ho|[Ho|[Ho Hnw]]]; [by left|by right; left; apply Hh|right; right].
  assert (owner_ (res c) <> running c) as Hne by (intros E; by rewrite E in Ho).
  rewrite (doing_other c c' k) by done. auto.
Qed.

Lemma owned_exec (c c' : mutex_config) f :
  mutex_inv c -> owned c -> exec (running c) (sched c) f c = Next c' ->
  (f <> LockExit -> doing c (running c) <> At LockExit) ->
  (f = LockEntry -> running c <> INVALID_TASK) -> owned c'.
Proof.
  intros (Hg & Hw & _) Ho Hx Hd Hne.
  destruct (resume (sched c) f (res c)) as [r a] eqn:Hr.
  assert (forall v, a = Finish v -> c' = mkConfig (sched c) r (<[running c := (false, User)]> (contexts c))
           (Ran (running c) f (res c) (Finish v) :: trace c)) as Hfin.
  { intros v ->. by apply (exec_finish _ _ _ _ _ Hr). }
  pose proof Hr as Hrun. cbn [resume component] in Hr. destruct f; cbn [run] in Hr.
  - unfold lock in Hr. case_match; injection Hr as <- <-.
    + rewrite (Hfin _ eq_refl). right; left. cbn [res owner_ trace]. by rewrite holds_cons, decide_True.
    + destruct (exec_await _ _ _ _ _ _ Hrun Hx) as (sw & s' & _ & ->).
      apply (owned_keep c _ (switched sw, At LockExit)); auto; cbn [trace res waiters_].
      * intros j Hj. rewrite holds_cons. by case_decide.
      * intros j Hj Hnw. fold (running c). rewrite (waits_room in_lock c _ Hg) by auto.
        rewrite elem_of_app, list_elem_of_singleton. naive_solver.
  - injection Hr as <- <-. rewrite (Hfin _ eq_refl). unfold owned in *. cbn [res trace].
    rewrite holds_cons. case_decide as E; [by right; left|].
    destruct Ho as [Ho|[Ho|[Ho Hnw]]]; [by left|by right; left|right; right].
    rewrite doing_insert. rewrite decide_False by done. done.
  - unfold unlock in Hr. destruct (Nat.ltb_spec 0 (length (waiters_ (res c)))) as [Hl|];
      [|injection Hr as <- <-; rewrite (Hfin _ eq_refl); by left].
    pose proof (pop_waiter_spec (sched c) (waiters_ (res c))) as Hp.
    destruct (pop_waiter _ _) as [w l]. injection Hr as <- <-.
    destruct (exec_await _ _ _ _ _ _ Hrun Hx) as (sw & s' & _ & ->). right; right.
    assert (w :: l ≡ₚ waiters_ (res c)) as Hperm
      by (apply Hp; intros E; rewrite E in Hl; by apply Nat.lt_irrefl in Hl).
    assert (w ∈ waiters_ (res c)) as Hin by (rewrite <-Hperm; by left).
    cbn [res owner_ waiters_]. rewrite doing_insert, decide_False
      by (by apply (waits_not_running in_lock c _ w Hg Hw)).
    split.
    + destruct (waits_elem in_lock c _ w Hw Hin) as [_ Hl']. unfold doing, context_of in Hl'.
      unfold in_lock in Hl'. by destruct (snd _) as [|[]|].
    + destruct Hw as [Hnd _]. rewrite <-Hperm in Hnd. by apply NoDup_cons in Hnd as [? _].
  - injection Hr as <- <-. rewrite (Hfin _ eq_refl).
    apply (owned_keep c _ (false, User)); auto. intros j Hj. cbn [trace]. rewrite holds_cons. by case_decide.
  - unfold try_lock in Hr. destruct (negb _); injection Hr as <- <-; rewrite (Hfin _ eq_refl).
    + apply (owned_keep c _ (false, User)); auto. intros j Hj. cbn [trace]. rewrite holds_cons. by case_decide.
    + right; left. cbn [res owner_ trace]. fold (running c). by rewrite holds_cons, decide_True.
Qed.

Lemma owned_step (c c' : mutex_config) i :
  mutex_inv c -> owned c -> disciplined c i -> kstep (M := method) c i = Next c' -> owned c'.
Proof.
  intros Hm Ho Hd Hk. pose proof Hm as (Hg & _ & _ & _ & _ & He).
  apply kstep_next in Hk as [(f & Hf & Hx)|(o & -> & Hu & Hx)]; [| |done].
  - unfold next_segment in Hf. apply (owned_exec c c' f Hm Ho Hx);
      destruct (doing c (running c)) as [|g|] eqn:Ed, i as [|[]|]; simplify_eq/=; try done;
      destruct (He _ _ Ed) as [-> | ->]; done.
  - apply call_next in Hx as (sw & s' & _ & ->).
    apply (owned_keep c _ (switched sw, match o with Exit => Gone | _ => User end)); auto.
    by rewrite Hu.
Qed.

Lemma mutex_reachable_owned c : mutex_reachable c -> owned c.
Proof.
  induction 1 as [|c i c' Hr IH Hd Hok Hk]; [by left|].
  apply (owned_step c c' i); [by apply mutex_reachable_inv|done..].
Qed.

(** C7: The mutex is not stuck.  In every state that a disciplined program (as for
    mutual exclusion above) can reach whose tasks unlock the mutex only while they hold it:
    while a task waits, the mutex has a recorded owner, which holds it (this may be the
    waiting task itself, if it locked the mutex twice), or which is another task that
    was handed it and is READY or RUNNING to come back from lock with it.  So when no
    task can run and one waits, the recorded owner holds the mutex, having gone to
    sleep or ended with it. *)
Theorem mutex_no_stuck_owner c j :
  mutex_reachable c -> j ∈ waiters_ (res c) ->
  let o := owner_ (res c) in
  o <> INVALID_TASK /\
  (holds (trace c) o = true \/
   (doing c o = At LockExit /\ o <> j /\ runnable (sched c) o)) /\
  ((forall k, ~ runnable (sched c) k) -> holds (trace c) o = true).
Proof.
  intros Hr Hj o. pose proof (mutex_reachable_inv c Hr) as (_ & _ & _ & _ & Hf & _).
  assert (o <> INVALID_TASK) as Hne by (intros E; rewrite Hf in Hj by done; by apply elem_of_nil in Hj).
  assert (awake in_lock waiters_ c) as Ha.
  { apply (awake_reachable in_lock waiters_ eq_refl eq_refl unlock_ok new); [|done].
    intros c1 Hc1. pose proof (mutex_reachable_inv c1 Hc1) as Hi. split; [apply Hi|].
    split; [apply Hi|]. intros i f r a. by apply mutex_orderly. }
  destruct (mutex_reachable_owned c Hr) as [Ho|[Ho|[Ho Hnw]]]; [done|auto|].
  assert (runnable (sched c) o) as Hrun by (apply Ha; [unfold o; by rewrite Ho|done]).
  split; [done|]. split; [right|by intros Hk; destruct (Hk o)]. split; [done|]. split; [|done].
  intros E. apply Hnw. by fold o; rewrite E.
Qed.

(** Task 1, which waits, is handed the mutex while task 2 still waits for it. *)
Definition queued : list (input method) :=
  [Sys (Create 2); Sys (Create 1); Sys (Create 1); Sys Start; Sys (Delay 2); Sys (Delay 2); Invoke Lock;
   Sys (Tick 2); Invoke Lock; Invoke Lock; Invoke Unlock].

Definition queued_end : mutex_config := run_config (boot new) queued.

Lemma mutex_no_stuck_owner_witness :
  waiters_ (res queued_end) = [2%nat] /\ owner_ (res queued_end) = 1%nat /\
  holds (trace queued_end) 1 = false /\
  (holds (trace queued_end) 1 = true \/
   (doing queued_end 1 = At LockExit /\ 1%nat <> 2%nat /\ runnable (sched queued_end) 1)).
Proof.
  split; [vm_compute; reflexivity|]. split; [vm_compute; reflexivity|]. split; [vm_compute; reflexivity|].
  refine (proj1 (proj2 (mutex_no_stuck_owner queued_end 2 _ _))).
  - apply (run_config_reachable _ unlock_okb); [by intros c []|vm_compute; reflexivity..].
  - vm_compute. left.
Defined.
