(* ===== verification/MutexGuard.v ===== *)
(** src/rtos/mutex.h, [struct Guard]: programs that use the mutex only through scope
    guards, and what happens to a task that locks the mutex twice. *)
From S2P Require Export MutexProps.

Import Scheduler Mutex.

(** * Guards *)

(** The guards of task [j] that are alive: their constructor has come back and their
    destructor has not been called. *)
Fixpoint live_guards (l : list mutex_event) (j : nat) : nat :=
  match l with
  | [] => 0
  | e :: l =>
      if (who e =? j)%nat then
        match segment e, outcome e with
        | UnlockEntry, _ => pred (live_guards l j)
        | _, Finish Locked => S (live_guards l j)
        | _, _ => live_guards l j
        end
      else live_guards l j
  end.

(** Guards are constructed freely; a destructor runs for a guard that is alive. *)
Definition guard_ok (c : mutex_config) (m : method) : Prop :=
  m = lock_guard \/ (m = Guard.destroy /\ (0 < live_guards (trace c) (running c))%nat).

Definition guard_reachable : mutex_config -> Prop := reachable (M := method) guard_ok new.

Lemma live_guards_cons e f b o l j :
  live_guards (Ran e f b o :: l) j =
  if decide (j = e) then
    match f, o with
    | UnlockEntry, _ => pred (live_guards l j)
    | _, Finish Locked => S (live_guards l j)
    | _, _ => live_guards l j
    end
  else live_guards l j.
Proof.
  cbn [live_guards who segment outcome]. destruct (Nat.eqb_spec e j) as [->|Hne].
  - by rewrite decide_True.
  - by rewrite decide_False.
Qed.

(** A task has a guard as long as it holds the mutex; if it is locking the mutex
    that it holds, it waits. *)
Definition guards_inv (c : mutex_config) : Prop :=
  forall j, live_guards (trace c) j = (if holds (trace c) j then 1 else 0)%nat /\
            (holds (trace c) j = true -> doing c j = At LockExit -> j ∈ waiters_ (res c)).

(** A segment of the running task, and what it does to that task's events. *)
Lemma guards_segment (c : mutex_config) s r f o sw k :
  let c' := mkConfig s r (<[running c := (sw, k)]> (contexts c)) (Ran (running c) f (res c) o :: trace c) in
  guards_inv c ->
  (forall j, j <> running c -> holds (trace c) j = true -> j ∈ waiters_ (res c) -> j ∈ waiters_ r) ->
  live_guards (trace c') (running c) = (if holds (trace c') (running c) then 1 else 0)%nat ->
  (holds (trace c') (running c) = true -> k = At LockExit -> running c ∈ waiters_ r) ->
  guards_inv c'.
Proof.
  intros c' Hg Hw Hl Hk j. unfold c'. rewrite doing_insert. cbn [trace res].
  destruct (decide (j = running c)) as [->|Hj]; [by split|].
  destruct (Hg j) as [Hl' Hd]. rewrite live_guards_cons, holds_cons, !decide_False by done.
  split; [done|]. intros Hh Hlock. apply Hw; [done..|]. by apply Hd.
Qed.

(** Only one task holds the mutex. *)
Lemma holds_other (c : mutex_config) j :
  mutex_inv c -> holds (trace c) (running c) = true -> holds (trace c) j = true -> j = running c.
Proof. intros (_ & _ & Hh & _) [H1 _]%Hh [H2 _]%Hh. congruence. Qed.

(** What the segments of a program that uses guards are called for. *)
Definition guard_segment (c : mutex_config) (f : frame) : Prop :=
  match f with
  | LockEntry => running c <> INVALID_TASK
  | LockExit => doing c (running c) = At LockExit
  | UnlockEntry => holds (trace c) (running c) = true
  | UnlockExit => True
  | TryLockEntry => False
  end.

Lemma guards_exec (c c' : mutex_config) f :
  mutex_inv c -> guards_inv c -> guard_segment c f ->
  exec (running c) (sched c) f c = Next c' -> guards_inv c'.
Proof.
  intros Hm Hg Hf Hx. pose proof Hm as (Hs & Hw & Hh & _). destruct (Hg (running c)) as [Hl Hd].
  destruct (resume (sched c) f (res c)) as [r a] eqn:Hr. pose proof Hr as Hrun.
  cbn [resume component] in Hr. destruct f; cbn [run guard_segment] in Hr, Hf; [| | | |done].
  - unfold lock in Hr. case_match eqn:Eo; injection Hr as <- <-.
    + apply (exec_finish _ _ _ _ _ Hrun) in Hx as ->. apply guards_segment; [done..| |done].
      cbn [trace]. rewrite live_guards_cons, holds_cons, !decide_True by done. rewrite Hl.
      destruct (holds (trace c) (running c)) eqn:E; [|done]. apply Hh in E as [E1 E2].
      apply Nat.eqb_eq in Eo. congruence.
    + destruct (exec_await _ _ _ _ _ _ Hrun Hx) as (sw & s' & _ & ->). apply guards_segment; [done|..];
        fold (running c); rewrite ?(waits_room in_lock c _ Hs) by done; cbn [waiters_].
      * intros j _ _ Hj. apply elem_of_app. by left.
      * cbn [trace]. by rewrite live_guards_cons, holds_cons, !decide_True.
      * intros _ _. apply elem_of_app. right. by left.
  - injection Hr as <- <-. apply (exec_finish _ _ _ _ _ Hrun) in Hx as ->. apply guards_segment; [done..| |done].
    cbn [trace]. rewrite live_guards_cons, holds_cons, !decide_True by done. rewrite Hl.
    destruct (holds (trace c) (running c)); [|done].
    by destruct (waits_not_running in_lock c _ _ Hs Hw (Hd eq_refl Hf)).
  - assert (forall s' r' o sw k, guards_inv (mkConfig s' r' (<[running c := (sw, k)]> (contexts c))
      (Ran (running c) UnlockEntry (res c) o :: trace c))) as Hend.
    { intros s' r' o sw k. apply guards_segment; [done|..]; cbn [trace].
      - intros j Hj Hhj. by destruct Hj; apply holds_other.
      - rewrite live_guards_cons, holds_cons, !decide_True by done. by rewrite Hl, Hf.
      - by rewrite holds_cons, decide_True. }
    unfold unlock in Hr. case_match; [destruct (pop_waiter _ _)|]; injection Hr as <- <-.
    + destruct (exec_await _ _ _ _ _ _ Hrun Hx) as (sw & s' & _ & ->). apply Hend.
    + apply (exec_finish _ _ _ _ _ Hrun) in Hx as ->. apply Hend.
  - injection Hr as <- <-. apply (exec_finish _ _ _ _ _ Hrun) in Hx as ->. apply guards_segment; [done..| |done].
    cbn [trace]. by rewrite live_guards_cons, holds_cons, !decide_True.
Qed.

Lemma guards_sys (c c' : mutex_config) o :
  guards_inv c -> disciplined c (Sys (M := method) o) ->
  call (running c) (sched c) o (res c) (contexts c) (trace c)
    (match o with Exit => Gone | _ => User end) = Next c' -> guards_inv c'.
Proof.
  intros Hg _ Hx. apply call_next in Hx as (sw & s' & _ & ->). intros j. destruct (Hg j) as [Hl Hd].
  split; [done|]. rewrite doing_insert. case_decide; [by destruct o|done].
Qed.

(** The code of a task uses the mutex through guards only. *)
Lemma guard_unlocks_held c m : guards_inv c -> guard_ok c m -> unlock_ok c m.
Proof.
  intros Hg [->|[-> Hl]]; [done|]. cbn. destruct (Hg (running c)) as [E _]. rewrite E in Hl.
  by destruct (holds _ _); [|apply Nat.lt_irrefl in Hl].
Qed.

Lemma guards_step (c c' : mutex_config) i :
  mutex_inv c -> guards_inv c -> disciplined c i -> (forall m, i = Invoke m -> guard_ok c m) ->
  kstep c i = Next c' -> guards_inv c'.
Proof.
  intros Hm Hg Hdisc Hok Hk. pose proof Hm as (Hs & _ & _ & _ & _ & He).
  apply kstep_next in Hk as [(f & Hf & Hx)|(o & -> & _ & Hx)]; [|by apply (guards_sys c c' o)|done].
  apply (guards_exec c c' f Hm Hg); [|done]. unfold next_segment in Hf.
  destruct (doing c (running c)) as [|g|] eqn:Ed, i as [|m|]; try done; injection Hf as <-.
  - destruct (Hok m eq_refl) as [->|[-> Hl]]; [done|].
    apply (guard_unlocks_held c Unlock Hg). by right.
  - destruct (He _ _ Ed) as [-> | ->]; done.
Qed.

Lemma guard_reachable_inv c : guard_reachable c -> mutex_reachable c /\ guards_inv c.
Proof.
  induction 1 as [|c i c' Hr [IH Hg] Hd Hok Hk]; [by split; [constructor|intros j]|].
  split; [|by apply (guards_step c c' i); [apply mutex_reachable_inv|..]].
  eapply after_step; [exact IH|exact Hd| |exact Hk]. intros m Hm. by apply guard_unlocks_held; [|apply Hok].
Qed.

(** * A task that locks twice *)

(** Task [j] holds the mutex and waits for it, with the tasks [l]. *)
Definition self_locked (l : list nat) (j : nat) (c : mutex_config) : Prop :=
  holds (trace c) j = true /\ j ∈ l /\ l `prefix_of` waiters_ (res c).

Lemma self_locked_step l j (c c' : mutex_config) i :
  mutex_inv c -> self_locked l j c -> disciplined c i -> (forall m, i = Invoke m -> unlock_ok c m) ->
  kstep (M := method) c i = Next c' -> self_locked l j c'.
Proof.
  intros Hm (Hj & Hin & Hl) Hdisc Hok Hk. pose proof Hm as (Hs & Hw & _ & _ & _ & He).
  assert (j <> running c) as Hne.
  { apply (waits_not_running in_lock c _ j Hs Hw). by apply (elem_of_prefix _ _ _ Hin). }
  assert (forall s' r' f o k, l `prefix_of` waiters_ r' ->
    self_locked l j (mkConfig s' r' (<[running c := k]> (contexts c)) (Ran (running c) f (res c) o :: trace c)))
    as Hkeep by (intros s' r' f o k Hl'; split; [cbn [trace]; by rewrite holds_cons, decide_False|done]).
  apply kstep_next in Hk as [(f & Hf & Hx)|(o & -> & Hd & Hx)]; [| |done].
  - destruct (resume (sched c) f (res c)) as [r a] eqn:Hr.
    assert (l `prefix_of` waiters_ r) as Hl'.
    { assert (f = UnlockEntry -> False) as Hnu.
      { intros ->. unfold next_segment in Hf.
        destruct (doing c (running c)) as [|g|] eqn:Ed, i as [|m|]; try done; injection Hf as Hf.
        - destruct m; try done. specialize (Hok _ eq_refl). by destruct Hne; apply holds_other.
        - destruct (He _ _ Ed) as [-> | ->]; done. }
      cbn [resume component] in Hr. destruct f; cbn [run] in Hr; try done; try (by injection Hr as <- <-).
      - unfold lock in Hr. case_match; injection Hr as <- <-; [done|]. cbn [waiters_]. unfold register.
        case_match; [|done]. by apply prefix_app_r.
      - unfold try_lock in Hr. case_match; by injection Hr as <- <-. }
    destruct a as [v|o f'|]; [| |by destruct (exec_crash _ _ _ _ Hr Hx)].
    + apply (exec_finish _ _ _ _ _ Hr) in Hx as ->. by apply Hkeep.
    + destruct (exec_await _ _ _ _ _ _ Hr Hx) as (sw & s' & _ & ->). by apply Hkeep.
  - by apply call_next in Hx as (sw & s' & _ & ->).
Qed.

(** Neither it nor anybody else ever gets the mutex again. *)
Lemma self_locked_forever (c c' : mutex_config) j :
  mutex_reachable c -> holds (trace c) j = true -> j ∈ waiters_ (res c) -> continues (M := method) unlock_ok c c' ->
  owner_ (res c') = j /\ parked (sched c') j /\ waiters_ (res c) `prefix_of` waiters_ (res c').
Proof.
  intros Hr Hj Hin Hc.
  assert (self_locked (waiters_ (res c)) j c') as (Hj' & _ & Hl).
  { induction Hc as [|c1 i c2 Hc IH Hd Hok Hk]; [done|].
    apply (self_locked_step _ j c1 c2 i); try done. apply mutex_reachable_inv. by apply (continues_reachable unlock_ok new c). }
  pose proof (mutex_reachable_inv c' (continues_reachable unlock_ok new c c' Hr Hc)) as (_ & Hw & Hh & _).
  split; [by apply Hh|]. split; [|done]. apply (waits_elem in_lock c' _ j Hw). by apply (elem_of_prefix _ _ _ Hin).
Qed.

(** * Properties *)

(** C28: Scope guards.  In every state that disciplined programs (methods are called by
    tasks; the tasks' own code passes the scheduler valid arguments and does not
    suspend, delete or unblock a task that is inside a method or waits for a deadline;
    the tick count does not overflow) can reach which use the mutex only through guards,
    by any interleaving: they keep the rule that only the holder
    unlocks; a task has at most one guard alive, and has one exactly while it holds
    the mutex; at most one guard is alive, that of the recorded owner.  A task that
    constructs a second guard while its first one is alive is blocked for ever, in
    every continuation by a disciplined program that unlocks only what it holds, and
    so is every task that waits then.  ([mutex_suspend] shows two guards alive after
    the holder has suspended and resumed a task in lock.) *)
Theorem guards_safe c :
  guard_reachable c ->
  mutex_reachable c /\
  (forall j, live_guards (trace c) j = (if holds (trace c) j then 1 else 0)%nat) /\
  (forall j k, (0 < live_guards (trace c) j)%nat -> (0 < live_guards (trace c) k)%nat ->
     j = k /\ owner_ (res c) = j) /\
  forall j c', (0 < live_guards (trace c) j)%nat -> doing c j = At LockExit -> continues (M := method) unlock_ok c c' ->
    owner_ (res c') = j /\ (forall k, k ∈ waiters_ (res c) -> parked (sched c') k) /\ j ∈ waiters_ (res c').
Proof.
  intros [Hr Hg]%guard_reachable_inv. split; [done|]. split; [apply Hg|].
  assert (forall j, (0 < live_guards (trace c) j)%nat -> holds (trace c) j = true) as Hl.
  { intros j Hj. destruct (Hg j) as [E _]. rewrite E in Hj. by destruct (holds _ _); [|apply Nat.lt_irrefl in Hj]. }
  pose proof (mutex_reachable_inv c Hr) as (_ & _ & Hh & _).
  split; [by intros j k [H1 _]%Hl%Hh [H2 _]%Hl%Hh; split; congruence|].
  intros j c' Hj Hd Hc. apply Hl in Hj as Hj'. destruct (Hg j) as [_ Hin]. specialize (Hin Hj' Hd).
  destruct (self_locked_forever c c' j Hr Hj' Hin Hc) as (Ho & Hp & Hpre). split; [done|].
  pose proof (mutex_reachable_inv c' (continues_reachable unlock_ok new c c' Hr Hc)) as (_ & Hw & _).
  split; [|by apply (elem_of_prefix _ _ _ Hin)]. intros k Hk. apply (waits_elem in_lock c' _ k Hw).
  by apply (elem_of_prefix _ _ _ Hk).
Qed.

Definition guard_okb (c : mutex_config) (m : method) : bool :=
  match m with Lock => true | Unlock => (0 <? live_guards (trace c) (running c))%nat | TryLock => false end.

Lemma guard_okb_ok c m : guard_okb c m = true -> guard_ok c m.
Proof. destruct m; unfold guard_okb; [by left|intros Hl; right; split; [done|by apply Nat.ltb_lt]|done]. Qed.

(** Task 0 constructs a guard and is preempted by task 1, which constructs one too and
    waits; then task 0 constructs its second one, and task 2 goes on. *)
Definition second_guard : list (input method) :=
  [Sys (Create 2); Sys (Create 1); Sys (Create 3); Sys Start; Sys (Delay 2); Invoke lock_guard; Sys (Tick 2);
   Invoke lock_guard; Invoke lock_guard].

Definition second_guard_end : mutex_config := run_config (boot new) second_guard.
Definition second_guard_later : mutex_config := run_config second_guard_end [Sys (M := method) (Delay 0)].

Lemma guards_safe_witness :
  live_guards (trace second_guard_end) 0 = 1%nat /\ waiters_ (res second_guard_end) = [1%nat; 0%nat] /\
  running second_guard_end = 2%nat /\
  owner_ (res second_guard_later) = 0%nat /\
  (forall k, k ∈ waiters_ (res second_guard_end) -> parked (sched second_guard_later) k) /\
  0%nat ∈ waiters_ (res second_guard_later).
Proof.
  split; [vm_compute; reflexivity|]. split; [vm_compute; reflexivity|]. split; [vm_compute; reflexivity|].
  refine (proj2 (proj2 (proj2 (guards_safe second_guard_end _))) 0%nat second_guard_later _ _ _).
  - apply (run_config_reachable _ guard_okb); [exact guard_okb_ok|vm_compute; reflexivity..].
  - vm_compute. lia.
  - vm_compute. reflexivity.
  - eapply (one_more _ _ _ (Sys (Delay 0))); [apply so_far|apply disciplinedb_ok; vm_compute; reflexivity|done|].
    vm_compute. reflexivity.
Defined.
