(* ===== verification/QueueProps.v ===== *)
(** src/rtos/queue.h: first in, first out, whatever the tasks do and in whatever
    order the scheduler runs them. *)
From S2P Require Export KernelProps Queue.

Import Queue.

Section QueueProps.
Context {T : Type} `{Inhabited T} (N : nat) (HN : (0 < N)%nat).
#[local] Instance queue_component : Component (t T) (method T) (frame T) (value T) := component N.

Definition queue_config : Type := config (t T) (frame T) (value T).
Definition queue_event : Type := event (t T) (frame T) (value T).

(** The item a segment appends to the buffer, and the one it takes out. *)
Definition enqueues (e : queue_event) : list T :=
  match segment e with
  | SendLoop x | TrySendEntry x => if push N (items (before e)) x is Some _ then [x] else []
  | _ => []
  end.

Definition dequeues (e : queue_event) : list T :=
  match segment e with
  | ReceiveLoop | TryReceiveEntry => if pop N (items (before e)) is Some (x, _) then [x] else []
  | _ => []
  end.

(** In the order in which it happened; the trace has the newest event first. *)
Fixpoint history (f : queue_event -> list T) (l : list queue_event) : list T :=
  match l with
  | [] => []
  | e :: l => history f l ++ f e
  end.

Definition queue_inv (c : queue_config) : Prop :=
  ring_wf N (items (res c)) /\
  history enqueues (trace c) = history dequeues (trace c) ++ contents N (items (res c)).

(** The items are touched by the segment itself, not by the waking of a waiter. *)
Lemma wake_receiver_items s (r : t T) f v : items (fst (wake_receiver s r f v)) = items r.
Proof.
  unfold wake_receiver. destruct (recv_waiters_ r); [done|]. by destruct (pop_waiter _ _).
Qed.

Lemma wake_sender_items s (r : t T) f v : items (fst (wake_sender s r f v)) = items r.
Proof.
  unfold wake_sender. destruct (send_waiters_ r); [done|]. by destruct (pop_waiter _ _).
Qed.

(** The observers tell in advance what the calls that do not wait return, and the
    size is the number of items that the buffer stands for. *)
Lemma queue_observers s x (r : t T) :
  size r = length (contents N (items r)) /\
  (full N r = true <-> snd (try_send N s x r) = Finish (TriedSend false)) /\
  (empty r = true <-> snd (try_receive N s r) = Finish (TriedReceive None)) /\
  (ring_wf N (items r) -> (size r <= capacity N r)%nat).
Proof using HN.
  split; [by rewrite length_contents|]. unfold full, empty, try_send, try_receive, push, pop.
  split; [|split; [|by intros (_ & _ & _ & Hc & _)]].
  - destruct (_ =? _)%nat; [done|]. split; [done|]. unfold wake_receiver. destruct (recv_waiters_ _); [done|].
    by destruct (pop_waiter _ _).
  - destruct (_ =? _)%nat; [done|]. split; [done|]. unfold wake_sender. destruct (send_waiters_ _); [done|].
    by destruct (pop_waiter _ _).
Qed.

Definition segment_items (f : frame T) (q : ring T) : ring T :=
  match f with
  | SendLoop x | TrySendEntry x => default q (push N q x)
  | ReceiveLoop | TryReceiveEntry => from_option snd q (pop N q)
  | _ => q
  end.

Lemma run_items s f (r : t T) : items (fst (run N s f r)) = segment_items f (items r).
Proof.
  destruct f; cbn [run segment_items fst]; try done.
  - unfold send. destruct (push N (items r) x); [by rewrite wake_receiver_items|done].
  - unfold receive. destruct (pop N (items r)) as [[x q]|]; [by rewrite wake_sender_items|done].
  - unfold try_send. destruct (push N (items r) x); [by rewrite wake_receiver_items|done].
  - unfold try_receive. destruct (pop N (items r)) as [[x q]|]; [by rewrite wake_sender_items|done].
Qed.

(** One segment as an operation on the list of items. *)
Lemma segment_fifo (e : queue_event) :
  ring_wf N (items (before e)) ->
  let q := segment_items (segment e) (items (before e)) in
  ring_wf N q /\ contents N (items (before e)) ++ enqueues e = dequeues e ++ contents N q.
Proof.
  intros Hw. set (q0 := items (before e)) in *. unfold enqueues, dequeues. fold q0.
  pose proof (pop_spec N q0 Hw) as Hpop.
  assert (forall x, let q := default q0 (push N q0 x) in
    ring_wf N q /\ contents N q0 ++ (if push N q0 x is Some _ then [x] else []) = contents N q) as Hpush.
  { intros x. pose proof (push_spec N q0 x Hw) as Hp. destruct (_ =? _)%nat.
    - rewrite Hp. cbn. by rewrite app_nil_r.
    - destruct Hp as (r' & -> & Hw' & Hc'). cbn. by rewrite Hc'. }
  assert (let q := from_option snd q0 (pop N q0) in
    ring_wf N q /\ contents N q0 ++ [] = (if pop N q0 is Some (x, _) then [x] else []) ++ contents N q) as Hpop'.
  { rewrite app_nil_r. destruct (contents N q0) as [|x l] eqn:El.
    - rewrite Hpop. cbn. done.
    - destruct Hpop as (r' & -> & Hw' & <-). by cbn. }
  destruct (segment e); cbn [segment_items]; try apply Hpush; try apply Hpop';
    (split; [done|apply app_nil_r]).
Qed.

Lemma exec_fifo (c c' : queue_config) e s f :
  queue_inv c -> exec e s f c = Next c' -> queue_inv c'.
Proof.
  intros [Hw Hf] Hx. unfold exec in Hx. cbn [resume queue_component component] in Hx.
  pose proof (run_items s f (res c)) as Hi. destruct (run N s f (res c)) as [r a]. cbn [fst] in Hi.
  assert (res c' = r /\ trace c' = Ran e f (res c) a :: trace c) as [Hr Ht].
  { destruct a; [by injection Hx as <-| |done]. unfold call in Hx.
    destruct (Scheduler.sched_step s o) as [[sw s']|]; [|done]. by injection Hx as <-. }
  destruct (segment_fifo (Ran e f (res c) a) Hw) as [Hw' Hs]. cbn [segment before] in Hw', Hs.
  unfold queue_inv. rewrite Hr, Ht, Hi. split; [done|]. cbn [history].
  rewrite Hf, <-!app_assoc. f_equal. exact Hs.
Qed.

Lemma kstep_fifo (c c' : queue_config) (i : input (method T)) :
  queue_inv c -> kstep c i = Next c' -> queue_inv c'.
Proof.
  intros Hq Hk. unfold kstep in Hk. destruct (context_of c _) as [sw k].
  destruct k as [|f|], i as [|m|o]; try done; try (by eapply exec_fifo).
  unfold call in Hk. destruct (Scheduler.sched_step _ o) as [[sw' s']|]; [|done]. by injection Hk as <-.
Qed.

(** ** What a call of receive returns *)

Fixpoint last_of (j : nat) (l : list queue_event) : option queue_event :=
  match l with
  | [] => None
  | e :: l => if (who e =? j)%nat then Some e else last_of j l
  end.

Definition carries (k : continuation (frame T)) (x : T) : Prop :=
  k = At (ReceiveExit x) \/ k = At (TryReceiveExit x).

(** A task that is about to return an item took it out in its last segment. *)
Definition carried (c : queue_config) : Prop :=
  forall j x, carries (doing c j) x ->
    exists e, last_of j (trace c) = Some e /\ dequeues e = [x].

Lemma wake_receiver_next s (r : t T) f v o g : snd (wake_receiver s r f v) = Await o g -> g = f.
Proof.
  unfold wake_receiver. destruct (recv_waiters_ r); [done|]. destruct (pop_waiter _ _). by intros [= _ ->].
Qed.

Lemma wake_sender_next s (r : t T) f v o g : snd (wake_sender s r f v) = Await o g -> g = f.
Proof.
  unfold wake_sender. destruct (send_waiters_ r); [done|]. destruct (pop_waiter _ _). by intros [= _ ->].
Qed.

Lemma run_carries s f (r : t T) o g x e a :
  snd (run N s f r) = Await o g -> carries (At g) x -> dequeues (Ran e f r a) = [x].
Proof.
  intros Hr Hc. unfold dequeues. cbn [segment before].
  destruct f as [y| | |y|y| | |y]; cbn [run snd] in Hr; try done.
  - unfold send in Hr. destruct (push N (items r) y); [apply wake_receiver_next in Hr as ->|injection Hr as <- <-];
      by destruct Hc.
  - unfold receive in Hr. destruct (pop N (items r)) as [[y q]|].
    + apply wake_sender_next in Hr as ->. by destruct Hc as [[= ->]|].
    + injection Hr as <- <-. by destruct Hc.
  - unfold try_send in Hr. destruct (push N (items r) y); [apply wake_receiver_next in Hr as ->|done];
      by destruct Hc.
  - unfold try_receive in Hr. destruct (pop N (items r)) as [[y q]|]; [|done].
    apply wake_sender_next in Hr as ->. by destruct Hc as [|[= ->]].
Qed.

(** A wake-up at the end of a segment finishes with the given value. *)
Lemma wake_sender_value s (r : t T) f v v' : snd (wake_sender s r f v) = Finish v' -> v' = v.
Proof.
  unfold wake_sender. destruct (send_waiters_ r); [by intros [=]|]. by destruct (pop_waiter _ _).
Qed.

Lemma wake_receiver_value s (r : t T) f v v' : snd (wake_receiver s r f v) = Finish v' -> v' = v.
Proof.
  unfold wake_receiver. destruct (recv_waiters_ r); [by intros [=]|]. by destruct (pop_waiter _ _).
Qed.

Lemma run_returns s f (r : t T) v x e :
  snd (run N s f r) = Finish v -> v = Received x \/ v = TriedReceive (Some x) ->
  dequeues (Ran e f r (Finish v)) = [x] \/ carries (At f) x.
Proof.
  intros Hr Hv. unfold dequeues. cbn [segment before].
  destruct f as [y| | |y|y| | |y]; cbn [run snd] in Hr.
  - unfold send in Hr. destruct (push N (items r) y); [apply wake_receiver_value in Hr as ->|done];
      by destruct Hv.
  - injection Hr as <-. by destruct Hv.
  - unfold receive in Hr. destruct (pop N (items r)) as [[y q]|]; [|done].
    apply wake_sender_value in Hr as ->. left. by destruct Hv as [[= ->]|].
  - injection Hr as <-. right. left. by destruct Hv as [[= ->]|].
  - unfold try_send in Hr. destruct (push N (items r) y);
      [apply wake_receiver_value in Hr as ->|injection Hr as <-]; by destruct Hv.
  - injection Hr as <-. by destruct Hv.
  - unfold try_receive in Hr. destruct (pop N (items r)) as [[y q]|]; [|injection Hr as <-; by destruct Hv].
    apply wake_sender_value in Hr as ->. left. by destruct Hv as [|[= ->]].
  - injection Hr as <-. right. right. by destruct Hv as [|[= ->]].
Qed.

Lemma carried_insert s r (c : queue_config) e sw k tr :
  carried c ->
  (forall j, j <> e -> last_of j tr = last_of j (trace c)) ->
  (forall x, carries k x -> exists ev, last_of e tr = Some ev /\ dequeues ev = [x]) ->
  carried (mkConfig s r (<[e := (sw, k)]> (contexts c)) tr).
Proof.
  intros Hc Ht Hk j x. rewrite doing_insert. cbn [trace]. case_decide as E; [subst j; apply Hk|].
  rewrite Ht by done. apply Hc.
Qed.

Lemma exec_carried (c c' : queue_config) e s f :
  carried c -> exec e s f c = Next c' -> carried c'.
Proof.
  intros Hc Hx. unfold exec in Hx. cbn [resume queue_component component] in Hx.
  pose proof (fun o g x a => run_carries s f (res c) o g x e a) as Hrc.
  destruct (run N s f (res c)) as [r a]. cbn [snd] in Hrc.
  assert (forall ev tr j, who ev = e -> j <> e -> last_of j (ev :: tr) = last_of j tr) as Hl.
  { intros ev tr j <- Hj. cbn. by rewrite (proj2 (Nat.eqb_neq _ _)) by done. }
  destruct a as [v|o g|]; [| |done].
  - injection Hx as <-. apply carried_insert; [done|intros j; by apply Hl|]. by intros x [].
  - unfold call in Hx. destruct (Scheduler.sched_step s o) as [[sw s']|]; [|done]. injection Hx as <-.
    apply carried_insert; [done|intros j; by apply Hl|]. intros x Hx. eexists. split.
    + cbn. by rewrite Nat.eqb_refl.
    + by apply (Hrc o g x).
Qed.

Lemma kstep_carried (c c' : queue_config) (i : input (method T)) :
  carried c -> kstep c i = Next c' -> carried c'.
Proof.
  intros Hq Hk. unfold kstep in Hk. destruct (context_of c _) as [sw k].
  destruct k as [|f|], i as [|m|o]; try done; try (by eapply exec_carried).
  unfold call in Hk. destruct (Scheduler.sched_step _ o) as [[sw' s']|]; [|done]. injection Hk as <-.
  apply carried_insert; [done|done|]. by destruct o; intros x [].
Qed.

Lemma krun_inv (P : queue_config -> Prop) inputs c c' :
  (forall c1 c2 (i : input (method T)), P c1 -> kstep c1 i = Next c2 -> P c2) ->
  P c -> krun c inputs = Next c' -> P c'.
Proof.
  intros HP. revert c. induction inputs as [|i inputs IH]; intros c H0 Hk; cbn in Hk; [by injection Hk as <-|].
  destruct (kstep c i) as [c1| |] eqn:E; try done. apply (IH c1); [|done]. by eapply HP.
Qed.

(** C10: First in, first out.  Whatever calls the tasks make, of the queue and of
    the scheduler, and however the scheduler interleaves them: the items sent so
    far are, in the order in which they entered, the items received so far in the
    order in which they left, followed by the items in the queue, of which there
    are at most N.  Nothing is lost, duplicated or reordered. *)
Theorem queue_fifo inputs (c : queue_config) :
  krun (boot (new N)) inputs = Next c ->
  history enqueues (trace c) = history dequeues (trace c) ++ contents N (items (res c)) /\
  (length (contents N (items (res c))) <= N)%nat.
Proof.
  intros Hk. assert (queue_inv c) as [Hw Hf].
  { apply (krun_inv queue_inv inputs (boot (new N))); [apply kstep_fifo| |done].
    by split; [apply new_ring_wf|]. }
  split; [done|]. rewrite length_contents. apply Hw.
Qed.

(** Delivery.  The item that a call of receive or try_receive comes back with is
    one the same task took out of the queue in its last segment before, or in this
    very segment: with the order above, every item is returned to one caller. *)
Theorem queue_returns inputs (c c' : queue_config) i e x :
  krun (boot (new N)) inputs = Next c -> kstep c i = Next c' -> trace c' = e :: trace c ->
  outcome e = Finish (Received x) \/ outcome e = Finish (TriedReceive (Some x)) ->
  dequeues e = [x] \/
  exists e', last_of (who e) (trace c) = Some e' /\ dequeues e' = [x].
Proof.
  intros Hk Hi Ht Ho.
  assert (carried c) as Hc.
  { apply (krun_inv carried inputs (boot (new N))); [apply kstep_carried| |done]. by intros j y []. }
  unfold kstep in Hi. destruct (context_of c _) as [sw k] eqn:Ek.
  set (s := if sw then _ else _) in Hi.
  assert (exists f, exec (Scheduler.current_ (sched c)) s f c = Next c' /\ (k = At f \/ exists m, f = entry m))
    as (f & Hx & Hf).
  { destruct k as [|f|], i as [|m|o]; try done; [by eexists; split; [|right; eexists]| |by eauto].
    unfold call in Hi. destruct (Scheduler.sched_step _ o) as [[sw' s']|]; [|done]. injection Hi as <-.
    by apply (f_equal length) in Ht; cbn in Ht; lia. }
  unfold exec in Hx. cbn [resume queue_component component] in Hx.
  destruct (run N s f (res c)) as [r a] eqn:Er.
  assert (e = Ran (Scheduler.current_ (sched c)) f (res c) a) as ->.
  { destruct a; [injection Hx as <-; by injection Ht| |done]. unfold call in Hx.
    destruct (Scheduler.sched_step s o) as [[sw' s']|]; [|done]. injection Hx as <-. by injection Ht. }
  cbn [outcome who] in *. assert (exists v, a = Finish v /\ (v = Received x \/ v = TriedReceive (Some x)))
    as (v & -> & Hv) by (destruct Ho; eauto).
  destruct (run_returns s f (res c) v x (Scheduler.current_ (sched c))) as [Hd|Hcar];
    [by rewrite Er|done|by left|right].
  destruct Hf as [->|[m ->]]; [|by destruct m; destruct Hcar].
  apply (Hc (Scheduler.current_ (sched c)) x). unfold doing. by rewrite Ek.
Qed.

End QueueProps.

(** A queue of one item: the second send blocks until the consumer takes the first. *)
Definition one_slot : list (input (method nat)) :=
  [Sys (Scheduler.Create 1); Sys (Scheduler.Create 2); Sys Scheduler.Start;
   Invoke (Send 7%nat); Invoke (Send 8%nat); Invoke Receive; Go; Sys (Scheduler.Delay 3); Go].

Definition one_slot_run (inputs : list (input (method nat))) : config (t nat) (frame nat) (value nat) :=
  match krun (H := component (T := nat) 1) (boot (new 1)) inputs with Next c => c | _ => boot (new 1) end.

Lemma queue_fifo_witness :
  history (enqueues 1) (trace (one_slot_run one_slot)) = [7%nat; 8%nat] /\
  history (enqueues 1) (trace (one_slot_run one_slot)) =
    history (dequeues 1) (trace (one_slot_run one_slot)) ++ contents 1 (items (res (one_slot_run one_slot))).
Proof.
  split; [vm_compute; reflexivity|].
  refine (proj1 (queue_fifo 1 _ one_slot _ _)); [lia|vm_compute; reflexivity].
Defined.

Lemma queue_returns_witness :
  outcome (default (Ran 0 SendExit (new 1) Crash) (head (trace (one_slot_run one_slot)))) = Finish (Received 7%nat) /\
  exists e', last_of 1 (trace (one_slot_run (take 8 one_slot))) = Some e' /\ dequeues 1 e' = [7%nat].
Proof.
  split; [vm_compute; reflexivity|].
  destruct (queue_returns 1 (le_n 1) (take 8 one_slot) (one_slot_run (take 8 one_slot)) (one_slot_run one_slot)
    Go (default (Ran 0 SendExit (new 1) Crash) (head (trace (one_slot_run one_slot)))) 7%nat) as [H|H].
  - vm_compute. reflexivity.
  - vm_compute. reflexivity.
  - vm_compute. reflexivity.
  - left. vm_compute. reflexivity.
  - exfalso. revert H. vm_compute. discriminate.
  - exact H.
Defined.
