(* ===== verification/QueueLive.v ===== *)
(** src/rtos/queue.h: no wake-up is lost.  A task that waits for an item while there
    are items has been overtaken: at least as many tasks as there are items have
    been woken and not taken theirs yet. *)
From S2P Require Export QueueProps.

Import Scheduler Queue.

Section Credit.
Context {T : Type}.
Implicit Types (c : config (t T) (frame T) (value T)).
Context (inside : continuation (frame T) -> bool).

(** A task inside the loop that is neither waiting nor blocked. *)
Definition retrying c (l : list nat) (j : nat) : Prop :=
  (inside (doing c j) = true) /\ (j ∉ l) /\ runnable (sched c) j.

(** With [l] waiting, [n] units are spoken for. *)
Definition credit c (l : list nat) (n : nat) : Prop :=
  l = [] \/ exists ws, NoDup ws /\ (n <= length ws)%nat /\ Forall (retrying c l) ws.

Lemma credit_zero c l : credit c l 0.
Proof. right. exists []. split; [constructor|]. split; [done|constructor]. Qed.

(** What a step does to the tasks other than the running one. *)
Definition others_run c c' : Prop :=
  forall j, j <> running c -> inside (doing c j) = true -> runnable (sched c) j -> runnable (sched c') j.

Lemma retrying_other c c' l l' k j :
  contexts c' = <[running c := k]> (contexts c) -> others_run c c' -> l' ⊆ l ->
  j <> running c -> retrying c l j -> retrying c' l' j.
Proof.
  intros Hc Ho Hl Hj (H1 & H2 & H3). split; [by rewrite (doing_other c c' k)|]. split; [set_solver|by apply Ho].
Qed.

Lemma length_without (a : nat) (l : list nat) :
  NoDup l -> (length l <= S (length (filter (fun j => j <> a) l)))%nat.
Proof.
  induction 1 as [|x l Hx Hnd IH]; [cbn; lia|]. destruct (decide (x = a)) as [->|Hne].
  - rewrite filter_cons_False by (intros Hne; by apply Hne).
    assert (filter (fun j => j <> a) l = l) as ->; [|done].
    clear IH. induction l as [|y l IH]; [done|]. apply NoDup_cons in Hnd as [_ Hnd].
    rewrite filter_cons_True by set_solver. f_equal. apply IH; [set_solver|done].
  - rewrite filter_cons_True by done. cbn [length]. lia.
Qed.

(** A step of a task outside the loop, or one that takes a unit. *)
Lemma credit_keep c c' l n n' k :
  contexts c' = <[running c := k]> (contexts c) -> others_run c c' -> credit c l n ->
  (n' <= n)%nat -> inside (doing c (running c)) = false \/ (n' < n)%nat -> credit c' l n'.
Proof.
  intros Hc Ho [->|(ws & Hnd & Hlen & Hws)] Hn He; [by left|]. rewrite Forall_forall in Hws. right.
  destruct (decide (running c ∈ ws)) as [Hin|Hni].
  - destruct He as [He|He]; [destruct (Hws _ Hin) as [H1 _]; congruence|].
    exists (filter (fun j => j <> running c) ws). split; [by apply NoDup_filter|]. split.
    + pose proof (length_without (running c) ws Hnd). lia.
    + apply Forall_forall. intros j [Hj Hw]%list_elem_of_filter.
      eapply retrying_other; [exact Hc|exact Ho|done|done|by apply Hws].
  - exists ws. split; [done|]. split; [lia|]. apply Forall_forall. intros j Hj.
    eapply retrying_other; [exact Hc|exact Ho|done| |by apply Hws]. by intros ->.
Qed.

(** A waiter is woken for a unit that has come. *)
Lemma credit_wake c c' l l' w n k :
  contexts c' = <[running c := k]> (contexts c) -> others_run c c' -> credit c l n ->
  w :: l' ≡ₚ l -> NoDup l -> inside (doing c (running c)) = false ->
  inside (doing c w) = true -> runnable (sched c') w -> credit c' l' (S n).
Proof.
  intros Hc Ho Hcr Hp Hnd He Hw Hr. right.
  assert (w ∈ l) as Hin by (rewrite <-Hp; by left).
  destruct Hcr as [->|(ws & Hndw & Hlen & Hws)]; [by apply elem_of_nil in Hin|].
  rewrite Forall_forall in Hws. pose proof Hnd as Hnd'. rewrite <-Hp in Hnd'. apply NoDup_cons in Hnd' as [Hwl _].
  assert (w <> running c) as Hne by (intros ->; congruence).
  assert (w ∉ ws) as Hwws by (intros Hbad; by destruct (Hws _ Hbad) as (_ & Hni & _)).
  exists (w :: ws). split; [by constructor|]. split; [cbn; lia|]. constructor.
  - split; [by rewrite (doing_other c c' k)|done].
  - apply Forall_forall. intros j Hj. eapply retrying_other; [exact Hc|exact Ho| | |by apply Hws].
    + intros x Hx. rewrite <-Hp. by right.
    + intros ->. destruct (Hws _ Hj) as [H1 _]. congruence.
Qed.
End Credit.

(** * Steps *)

Section Steps.
Context {T : Type} (mine theirs : continuation (frame T) -> bool).
Hypothesis Hdisj : forall k, mine k = true -> theirs k = false.
Implicit Types (c : config (t T) (frame T) (value T)).

(** Both wait lists and what is spoken for on either side. *)
Definition live c (lm lt : list nat) (nm nt : nat) : Prop :=
  waits mine c lm /\ waits theirs c lt /\ credit mine c lm nm /\ credit theirs c lt nt.

Lemma others_run_step inside c c' o sw :
  sched_step (sched c) o = Some (sw, sched c') ->
  (forall j, touched o = Some j -> inside (doing c j) = true -> o = Unblock j) -> others_run inside c c'.
Proof.
  intros E Ht j Hj Hin Hr. apply (runnable_step (sched c) o sw); try done.
  destruct (decide (touched o = Some j)) as [Hto|]; [right; by apply Ht|by left].
Qed.

(** A unit is taken and nobody on the other side waits, or nothing changes hands. *)
Lemma live_finish c c' lm lt nm nt nm' nt' k :
  good (sched c) -> live c lm lt nm nt -> sched c' = sched c ->
  contexts c' = <[running c := k]> (contexts c) ->
  (nm' <= nm)%nat -> mine (doing c (running c)) = false \/ (nm' < nm)%nat ->
  lt = [] \/ ((nt' <= nt)%nat /\ theirs (doing c (running c)) = false) ->
  live c' lm lt nm' nt'.
Proof.
  intros Hg (Wm & Wt & Cm & Ct) Hs Hc Hm1 Hm2 Ht.
  assert (forall ins, others_run ins c c') as Ho by (intros ins j _ _; by rewrite Hs).
  split; [by eapply waits_finish|]. split; [by eapply waits_finish|]. split; [by eapply credit_keep|].
  destruct Ht as [->|[H1 H2]]; [by left|]. by eapply credit_keep; [done|done|done|done|left].
Qed.

(** A unit is taken and a waiter of the other side is woken. *)
Lemma live_wake c c' lm lt lt' w sw nm nt nm' k :
  good (sched c) -> live c lm lt nm nt -> w :: lt' ≡ₚ lt ->
  sched_step (sched c) (Unblock w) = Some (sw, sched c') ->
  contexts c' = <[running c := k]> (contexts c) ->
  (nm' <= nm)%nat -> mine (doing c (running c)) = false \/ (nm' < nm)%nat ->
  theirs (doing c (running c)) = false ->
  good (sched c') /\ live c' lm lt' nm' (S nt).
Proof.
  intros Hg (Wm & Wt & Cm & Ct) Hp Hs Hc Hm1 Hm2 Ht.
  assert (w ∈ lt) as Hin by (rewrite <-Hp; by left).
  destruct (waits_elem theirs c lt w Wt Hin) as [Hpw Hdw].
  assert (forall ins, others_run ins c c') as Ho.
  { intros ins. eapply others_run_step; [exact Hs|]. by intros j [= ->]. }
  split; [by apply (good_unblock (sched c) w sw)|]. split; [|split; [|split]].
  - apply (waits_step mine c c' (Unblock w) sw lm lm k); try done.
    + by apply parked_not_delayed.
    + apply Wm.
    + intros j [= <-] Hj. destruct (waits_elem mine c lm w Wm Hj) as [_ Hmw].
      apply Hdisj in Hmw. congruence.
  - by eapply waits_unblock.
  - by eapply credit_keep.
  - eapply credit_wake; [exact Hc|done|exact Ct|exact Hp|apply Wt|done|done|].
    by apply (unblock_runs (sched c) w sw).
Qed.

(** There is no unit to take: the running task waits. *)
Lemma live_block c c' lm lt nt sw f :
  good (sched c) -> running c <> INVALID_TASK -> live c lm lt 0 nt -> mine (At f) = true ->
  theirs (doing c (running c)) = false ->
  sched_step (sched c) Block = Some (sw, sched c') ->
  contexts c' = <[running c := (switched sw, At f)]> (contexts c) ->
  good (sched c') /\ live c' (lm ++ [running c]) lt 0 nt.
Proof.
  intros Hg Hne (Wm & Wt & Cm & Ct) Hf Ht Hs Hc.
  assert (forall ins, others_run ins c c') as Ho by (intros ins; by eapply others_run_step).
  split; [by apply (good_block (sched c) sw)|]. split; [by apply (waits_block mine c c' sw lm f)|].
  split; [|split; [apply credit_zero|by eapply credit_keep; [done|done|done|done|left]]].
  apply (waits_step theirs c c' Block sw lt lt (switched sw, At f)); try done. apply Wt.
Qed.

(** The code of a task calls the scheduler. *)
Lemma live_sys c c' o sw lm lt nm nt k :
  good (sched c) -> live c lm lt nm nt -> disciplined (M := method T) c (Sys o) ->
  mine User = false -> theirs User = false -> doing c (running c) = User ->
  sched_step (sched c) o = Some (sw, sched c') ->
  contexts c' = <[running c := k]> (contexts c) -> live c' lm lt nm nt.
Proof.
  intros Hg (Wm & Wt & Cm & Ct) Hd Hmu Htu Hu Hs Hc.
  assert (forall ins, ins User = false -> others_run ins c c') as Ho.
  { intros ins Hins. eapply others_run_step; [exact Hs|]. intros j Hj Hi.
    destruct Hd as (_ & _ & Hd). rewrite (Hd j Hj) in Hi. congruence. }
  split; [by eapply waits_sys|]. split; [by eapply waits_sys|].
  split; (eapply credit_keep; [done|by apply Ho|done|done|left; by rewrite Hu]).
Qed.
End Steps.

Lemma live_swap {T} (p q : continuation (frame T) -> bool) c lp lq np nq :
  live p q c lp lq np nq -> live q p c lq lp nq np.
Proof. intros (? & ? & ? & ?). by split_and!. Qed.

(** * The queue *)

Section Live.
Context {T : Type} `{Inhabited T} (N : nat).
#[local] Instance live_component : Component (t T) (method T) (frame T) (value T) := component N.
Implicit Types (c : config (t T) (frame T) (value T)).

Definition at_receive (k : continuation (frame T)) : bool := match k with At ReceiveLoop => true | _ => false end.
Definition at_send (k : continuation (frame T)) : bool := match k with At (SendLoop _) => true | _ => false end.

Lemma at_disjoint k : (at_receive k = true -> at_send k = false) /\ (at_send k = true -> at_receive k = false).
Proof. by destruct k as [|[]|]. Qed.

Definition used c : nat := count_ (items (res c)).

Definition queue_live c : Prop :=
  good (sched c) /\ (used c <= N)%nat /\ (forall f, doing c INVALID_TASK <> At f) /\
  live at_receive at_send c (recv_waiters_ (res c)) (send_waiters_ (res c)) (used c) (N - used c).

Lemma push_used (q q' : ring T) x :
  push N q x = Some q' -> count_ q <> N /\ count_ q' = S (count_ q).
Proof. unfold push. destruct (Nat.eqb_spec (count_ q) N); [done|]. intros [= <-]. cbn. lia. Qed.

Lemma pop_used (q q' : ring T) x :
  pop N q = Some (x, q') -> count_ q = S (count_ q').
Proof. unfold pop. destruct (Nat.eqb_spec (count_ q) 0); [done|]. intros [= _ <-]. cbn. lia. Qed.

Lemma idle_insert c s r tr k f :
  running c <> INVALID_TASK -> (forall f, doing c INVALID_TASK <> At f) ->
  doing (mkConfig s r (<[running c := k]> (contexts c)) tr : config (t T) (frame T) (value T)) INVALID_TASK <> At f.
Proof. intros Hne Hi. destruct k as [sw k]. rewrite doing_insert, decide_False by done. apply Hi. Qed.

(** An item enters. *)
Lemma sent_live c c' f g v x q :
  queue_live c -> running c <> INVALID_TASK -> at_receive (doing c (running c)) = false ->
  push N (items (res c)) x = Some q ->
  resume (M := method T) (sched c) f (res c) = wake_receiver (sched c) (with_items q (res c)) g v ->
  exec (running c) (sched c) f c = Next c' -> queue_live c'.
Proof.
  intros (Hg & Hu & Hi & Hl) Hne Hd Hp Hr Hx. apply push_used in Hp as [Hfull Hcount]. fold (used c) in *.
  unfold wake_receiver in Hr. cbn [recv_waiters_ with_items] in Hr.
  destruct (recv_waiters_ (res c)) as [|w0 l0] eqn:El.
  - apply (exec_finish _ _ _ _ _ Hr) in Hx as ->.
    split; [done|]. split; [change (count_ q <= N)%nat; lia|]. split; [intros; by apply idle_insert|].
    unfold used at 1 2. cbn [res items with_items recv_waiters_ send_waiters_]. rewrite El, Hcount.
    apply live_swap in Hl. apply live_swap.
    eapply live_finish; [done|exact Hl|done|done|lia|right; lia|by left].
  - pose proof (pop_waiter_spec (sched c) (w0 :: l0) ltac:(done)) as Hpop.
    destruct (pop_waiter (sched c) (w0 :: l0)) as [w l']. destruct Hpop as [Hperm _].
    apply (exec_await _ _ _ _ _ _ Hr) in Hx as (sw & s' & Hs & ->). set (c' := mkConfig _ _ _ _).
    apply live_swap in Hl.
    destruct (live_wake at_send at_receive (fun k => proj2 (at_disjoint k)) c c' _ _ l' w sw _ _ (N - S (used c))
      (switched sw, At g) Hg Hl Hperm Hs eq_refl) as [Hg' Hl']; [lia|right; lia|done|].
    split; [done|]. split; [change (count_ q <= N)%nat; lia|]. split; [intros; by apply idle_insert|].
    apply live_swap. unfold used. cbn [res c' items with_items recv_waiters_ send_waiters_]. by rewrite Hcount.
Qed.

(** An item leaves. *)
Lemma received_live c c' f g v x q :
  queue_live c -> running c <> INVALID_TASK -> at_send (doing c (running c)) = false ->
  pop N (items (res c)) = Some (x, q) ->
  resume (M := method T) (sched c) f (res c) = wake_sender (sched c) (with_items q (res c)) g v ->
  exec (running c) (sched c) f c = Next c' -> queue_live c'.
Proof.
  intros (Hg & Hu & Hi & Hl) Hne Hd Hp Hr Hx. apply pop_used in Hp as Hcount. fold (used c) in Hcount.
  unfold wake_sender in Hr. cbn [send_waiters_ with_items] in Hr.
  destruct (send_waiters_ (res c)) as [|w0 l0] eqn:El.
  - apply (exec_finish _ _ _ _ _ Hr) in Hx as ->.
    split; [done|]. split; [change (count_ q <= N)%nat; lia|]. split; [intros; by apply idle_insert|].
    unfold used at 1 2. cbn [res items with_items recv_waiters_ send_waiters_]. rewrite El.
    eapply live_finish; [done|exact Hl|done|done|lia|right; lia|by left].
  - pose proof (pop_waiter_spec (sched c) (w0 :: l0) ltac:(done)) as Hpop.
    destruct (pop_waiter (sched c) (w0 :: l0)) as [w l']. destruct Hpop as [Hperm _].
    apply (exec_await _ _ _ _ _ _ Hr) in Hx as (sw & s' & Hs & ->). set (c' := mkConfig _ _ _ _).
    destruct (live_wake at_receive at_send (fun k => proj1 (at_disjoint k)) c c' _ _ l' w sw _ _ (count_ q)
      (switched sw, At g) Hg Hl Hperm Hs eq_refl) as [Hg' Hl']; [lia|right; lia|done|].
    split; [done|]. split; [change (count_ q <= N)%nat; lia|]. split; [intros; by apply idle_insert|].
    unfold used. cbn [res c' items with_items recv_waiters_ send_waiters_].
    replace (N - count_ q)%nat with (S (N - used c)) by lia. done.
Qed.

(** The task waits. *)
Lemma send_blocks c c' x :
  queue_live c -> running c <> INVALID_TASK -> at_receive (doing c (running c)) = false ->
  push N (items (res c)) x = None -> exec (running c) (sched c) (SendLoop x) c = Next c' -> queue_live c'.
Proof.
  intros (Hg & Hu & Hi & Hl) Hne Hd Hp Hx.
  assert (used c = N) as Hfull by (unfold push in Hp; by destruct (Nat.eqb_spec (count_ (items (res c))) N)).
  assert (resume (M := method T) (sched c) (SendLoop x) (res c) =
    (mkQueue (items (res c)) (recv_waiters_ (res c)) (send_waiters_ (res c) ++ [running c]),
     Await Block (SendLoop x))) as Hr.
  { cbn. unfold send. rewrite Hp. destruct Hl as (_ & Wt & _). by rewrite <-(waits_room at_send c _ Hg Hne Wt). }
  apply (exec_await _ _ _ _ _ _ Hr) in Hx as (sw & s' & Hs & ->). set (c' := mkConfig _ _ _ _).
  rewrite Hfull, Nat.sub_diag in Hl. apply live_swap in Hl.
  destruct (live_block at_send at_receive c c' _ _ _ sw (SendLoop x) Hg Hne Hl eq_refl Hd Hs eq_refl) as [Hg' Hl'].
  split; [done|]. split; [done|]. split; [intros; by apply idle_insert|].
  apply live_swap. change (used c') with (used c). by rewrite Hfull, Nat.sub_diag.
Qed.

Lemma receive_blocks c c' :
  queue_live c -> running c <> INVALID_TASK -> at_send (doing c (running c)) = false ->
  pop N (items (res c)) = None -> exec (running c) (sched c) ReceiveLoop c = Next c' -> queue_live c'.
Proof.
  intros (Hg & Hu & Hi & Hl) Hne Hd Hp Hx.
  assert (used c = 0%nat) as Hempty by (unfold pop in Hp; by destruct (Nat.eqb_spec (count_ (items (res c))) 0)).
  assert (resume (M := method T) (sched c) ReceiveLoop (res c) =
    (mkQueue (items (res c)) (recv_waiters_ (res c) ++ [running c]) (send_waiters_ (res c)),
     Await Block ReceiveLoop)) as Hr.
  { cbn. unfold receive. rewrite Hp. destruct Hl as (Wm & _). by rewrite <-(waits_room at_receive c _ Hg Hne Wm). }
  apply (exec_await _ _ _ _ _ _ Hr) in Hx as (sw & s' & Hs & ->). set (c' := mkConfig _ _ _ _).
  rewrite Hempty in Hl.
  destruct (live_block at_receive at_send c c' _ _ _ sw ReceiveLoop Hg Hne Hl eq_refl Hd Hs eq_refl) as [Hg' Hl'].
  split; [done|]. split; [done|]. split; [intros; by apply idle_insert|].
  change (used c') with (used c). by rewrite Hempty.
Qed.

(** A segment that only returns. *)
Lemma return_live c c' f v :
  queue_live c -> running c <> INVALID_TASK ->
  at_receive (doing c (running c)) = false -> at_send (doing c (running c)) = false ->
  resume (M := method T) (sched c) f (res c) = (res c, Finish v) -> exec (running c) (sched c) f c = Next c' -> queue_live c'.
Proof.
  intros (Hg & Hu & Hi & Hl) Hne Hd1 Hd2 Hr Hx. apply (exec_finish _ _ _ _ _ Hr) in Hx as ->.
  split; [done|]. split; [done|]. split; [intros; by apply idle_insert|].
  eapply live_finish; [done|exact Hl|done|done|done|by left|by right].
Qed.

(** What one frame of the current task keeps, when the task waits in no other. *)
Lemma queue_frame_live c c' f :
  queue_live c -> running c <> INVALID_TASK ->
  (f <> ReceiveLoop -> at_receive (doing c (running c)) = false) ->
  ((forall x, f <> SendLoop x) -> at_send (doing c (running c)) = false) ->
  exec (running c) (sched c) f c = Next c' -> queue_live c'.
Proof.
  intros Hql Hne Hnr Hns Hx.
  destruct f as [x| | |x|x| | |x].
  - destruct (push N (items (res c)) x) as [q|] eqn:Ep.
    + eapply (sent_live c c' (SendLoop x)); [done|done|by apply Hnr|exact Ep| |exact Hx].
      cbn. unfold send. by rewrite Ep.
    + by eapply send_blocks; [done|done|by apply Hnr| |].
  - by eapply (return_live c c' SendExit); [done|done|by apply Hnr|by apply Hns|reflexivity|].
  - destruct (pop N (items (res c))) as [[x q]|] eqn:Ep.
    + eapply (received_live c c' ReceiveLoop); [done|done|by apply Hns|exact Ep| |exact Hx].
      cbn. unfold receive. by rewrite Ep.
    + by eapply receive_blocks; [done|done|by apply Hns| |].
  - by eapply (return_live c c' (ReceiveExit x)); [done|done|by apply Hnr|by apply Hns|reflexivity|].
  - destruct (push N (items (res c)) x) as [q|] eqn:Ep.
    + eapply (sent_live c c' (TrySendEntry x)); [done|done|by apply Hnr|exact Ep| |exact Hx].
      cbn. unfold try_send. by rewrite Ep.
    + eapply (return_live c c' (TrySendEntry x)); [done|done|by apply Hnr|by apply Hns| |done].
      cbn. unfold try_send. by rewrite Ep.
  - by eapply (return_live c c' TrySendExit); [done|done|by apply Hnr|by apply Hns|reflexivity|].
  - destruct (pop N (items (res c))) as [[x q]|] eqn:Ep.
    + eapply (received_live c c' TryReceiveEntry); [done|done|by apply Hns|exact Ep| |exact Hx].
      cbn. unfold try_receive. by rewrite Ep.
    + eapply (return_live c c' TryReceiveEntry); [done|done|by apply Hnr|by apply Hns| |done].
      cbn. unfold try_receive. by rewrite Ep.
  - by eapply (return_live c c' (TryReceiveExit x)); [done|done|by apply Hnr|by apply Hns|reflexivity|].
Qed.

Lemma queue_live_step c c' (i : input (method T)) :
  queue_live c -> disciplined c i -> kstep c i = Next c' -> queue_live c'.
Proof.
  intros Hl Hd Hk. destruct Hl as (Hg & Hu & Hi & Hlv).
  destruct (kstep_next c i c' Hg Hk) as [(f & Hf & Hx)|(o & -> & Huser & Hx)].
  - assert (running c <> INVALID_TASK) as Hne.
    { intros E. unfold next_segment in Hf. rewrite E in Hf. destruct (doing c INVALID_TASK) as [|g|] eqn:Eg;
        [|by apply (Hi g)|done]. by destruct i. }
    assert (queue_live c) as Hql by (by split_and!).
    assert ((forall g, at_receive (At g) = true \/ at_send (At g) = true -> doing c (running c) = At g -> f = g))
      as Hat.
    { intros g _ E. unfold next_segment in Hf. rewrite E in Hf. destruct i; try done. by injection Hf as <-. }
    assert (f <> ReceiveLoop -> at_receive (doing c (running c)) = false) as Hnr.
    { intros Hne'. destruct (doing c (running c)) as [|g|] eqn:Eg; try done.
      destruct g; try done. destruct Hne'. by apply (Hat ReceiveLoop); [left|]. }
    assert ((forall x, f <> SendLoop x) -> at_send (doing c (running c)) = false) as Hns.
    { intros Hne'. destruct (doing c (running c)) as [|g|] eqn:Eg; try done.
      destruct g; try done. destruct (Hne' x). by apply (Hat (SendLoop x)); [right|]. }
    by apply (queue_frame_live c c' f).
  - apply call_next in Hx as (sw & s' & Hs & ->).
    split; [by apply (good_sys (M := method T) c o sw)|]. split; [done|]. split.
    + intros f. rewrite doing_insert. case_decide; [by destruct o|]. apply Hi.
    + eapply live_sys; [exact Hg|exact Hlv|exact Hd|done|done|exact Huser|exact Hs|done].
Qed.

Lemma reachable_live ok c : (0 < N)%nat -> reachable (M := method T) ok (new N) c -> queue_live c.
Proof.
  intros HN. induction 1 as [|c i c' _ IH Hd _ Hk]; [|by eapply queue_live_step].
  split; [apply (boot_good)|]. split; [cbn; lia|]. split; [done|].
  split; [split; constructor|]. split; [split; constructor|]. split; by left.
Qed.

(** * Properties *)

(** C6: Liveness of the queue: no wake-up is lost.  In every run of a disciplined
    program: while a task waits in receive, at least as many other tasks as there are
    items are able to run and about to take one, and while a task waits in send, as
    many as there are free places.  So when no task can run, no receiver waits for a
    queue with items, no sender for one with room, and not both wait. *)
Theorem queue_no_lost_wakeup ok c :
  (0 < N)%nat -> reachable (M := method T) ok (new N) c ->
  (recv_waiters_ (res c) <> [] -> exists ws, NoDup ws /\ (length (contents N (items (res c))) <= length ws)%nat /\
     Forall (fun j => doing c j = At ReceiveLoop /\ runnable (sched c) j) ws) /\
  (send_waiters_ (res c) <> [] -> exists ws, NoDup ws /\
     (N - length (contents N (items (res c))) <= length ws)%nat /\
     Forall (fun j => (exists x, doing c j = At (SendLoop x)) /\ runnable (sched c) j) ws) /\
  ((forall j, ~ runnable (sched c) j) ->
     (recv_waiters_ (res c) <> [] -> contents N (items (res c)) = []) /\
     (send_waiters_ (res c) <> [] -> length (contents N (items (res c))) = N) /\
     (recv_waiters_ (res c) = [] \/ send_waiters_ (res c) = [])).
Proof.
  intros HN Hr. destruct (reachable_live ok c HN Hr) as (_ & Hu & _ & _ & _ & Cr & Cs).
  rewrite length_contents. fold (used c).
  assert (recv_waiters_ (res c) <> [] -> exists ws, NoDup ws /\ (used c <= length ws)%nat /\
     Forall (fun j => doing c j = At ReceiveLoop /\ runnable (sched c) j) ws) as Hrecv.
  { intros Hne. destruct Cr as [|(ws & H1 & H2 & H3)]; [done|]. exists ws. split; [done|]. split; [done|].
    eapply Forall_impl; [exact H3|]. intros j (Hj & _ & Hrun). split; [|done].
    by destruct (doing c j) as [|[]|]. }
  assert (send_waiters_ (res c) <> [] -> exists ws, NoDup ws /\ (N - used c <= length ws)%nat /\
     Forall (fun j => (exists x, doing c j = At (SendLoop x)) /\ runnable (sched c) j) ws) as Hsend.
  { intros Hne. destruct Cs as [|(ws & H1 & H2 & H3)]; [done|]. exists ws. split; [done|]. split; [done|].
    eapply Forall_impl; [exact H3|]. intros j (Hj & _ & Hrun). split; [|done].
    destruct (doing c j) as [|[]|]; try done. by eexists. }
  split; [done|]. split; [done|]. intros Hstuck.
  assert (recv_waiters_ (res c) <> [] -> used c = 0%nat) as H0.
  { intros Hne. destruct (Hrecv Hne) as (ws & _ & Hl & Hf). destruct ws as [|j ws]; [cbn in Hl; lia|].
    apply Forall_inv in Hf as [_ Hj]. by destruct (Hstuck j). }
  assert (send_waiters_ (res c) <> [] -> used c = N) as H1.
  { intros Hne. destruct (Hsend Hne) as (ws & _ & Hl & Hf). destruct ws as [|j ws]; [cbn in Hl; lia|].
    apply Forall_inv in Hf as [_ Hj]. by destruct (Hstuck j). }
  split; [|split; [done|]].
  - intros Hne. apply length_zero_iff_nil. rewrite length_contents. by apply H0.
  - destruct (recv_waiters_ (res c)) eqn:Er; [by left|]. destruct (send_waiters_ (res c)) eqn:Es; [by right|].
    assert (used c = 0%nat) by (by apply H0). assert (used c = N) by (by apply H1). lia.
Qed.

(** C26: Bounds of the wait lists.  In every run of a disciplined program the tasks
    in both wait lists are distinct existing tasks, all blocked, so together they are
    at most the number of tasks; while a task runs each list has a free slot, so the
    test against MAX_TASKS never drops a waiter and no index leaves its array. *)
Theorem queue_waiters_bounded ok c :
  (0 < N)%nat -> reachable (M := method T) ok (new N) c ->
  let all := recv_waiters_ (res c) ++ send_waiters_ (res c) in
  NoDup all /\ Forall (parked (sched c)) all /\
  (length all <= task_count_ (sched c) <= MAX_TASKS)%nat /\
  (running c <> INVALID_TASK ->
   (length all < MAX_TASKS)%nat /\
   register (running c) (recv_waiters_ (res c)) = recv_waiters_ (res c) ++ [running c] /\
   register (running c) (send_waiters_ (res c)) = send_waiters_ (res c) ++ [running c]).
Proof.
  intros HN Hr all. destruct (reachable_live ok c HN Hr) as (Hg & _ & _ & Wr & Ws & _).
  assert (NoDup all) as Hnd.
  { apply NoDup_app. split; [apply Wr|]. split; [|apply Ws]. intros j Hj Hj'.
    destruct (waits_elem _ c _ j Wr Hj) as [_ H1]. destruct (waits_elem _ c _ j Ws Hj') as [_ H2].
    apply at_disjoint in H1. congruence. }
  assert (Forall (parked (sched c)) all) as Hp.
  { apply Forall_app. split; apply Forall_forall; intros j Hj; [by apply (waits_elem _ c _ j Wr)|by apply (waits_elem _ c _ j Ws)]. }
  split; [done|]. split; [done|]. split.
  - split; [|apply Hg]. rewrite <-(length_seq (task_count_ (sched c)) 0).
    apply submseteq_length, NoDup_submseteq; [done|]. intros j Hj. apply elem_of_seq.
    rewrite Forall_forall in Hp. specialize (Hp j Hj). apply parked_bound in Hp. lia.
  - intros Hne. destruct (register_room (sched c) all Hg Hne Hnd Hp) as [_ Hroom].
    split; [|split; by eapply waits_room].
    unfold register in Hroom. destruct (Nat.ltb_spec (length all) MAX_TASKS); [done|].
    apply (f_equal length) in Hroom. rewrite length_app in Hroom. cbn in Hroom. lia.
Qed.
End Live.

(** * Witnesses *)

(** Two tasks wait in receive; a third sends, and the more urgent waiter runs. *)
Definition overtaken : list (input (method nat)) :=
  [Sys (Create 1); Sys (Create 2); Sys (Create 3); Sys Start; Invoke Receive; Invoke Receive; Invoke (Send 7%nat)].

Definition overtaken_run : config (t nat) (frame nat) (value nat) :=
  run_config (H := live_component (T := nat) 1) (boot (new 1)) overtaken.

Lemma overtaken_reachable :
  reachable (H := live_component (T := nat) 1) (fun _ _ => True) (new 1) overtaken_run.
Proof.
  apply (run_config_reachable (H := live_component (T := nat) 1) (fun _ _ => True) (fun _ _ => true));
    [done|vm_compute; reflexivity|vm_compute; reflexivity].
Qed.

Lemma queue_no_lost_wakeup_witness :
  contents 1 (items (res overtaken_run)) = [7%nat] /\ recv_waiters_ (res overtaken_run) = [1%nat] /\
  exists ws, NoDup ws /\ (1 <= length ws)%nat /\
    Forall (fun j => doing overtaken_run j = At ReceiveLoop /\ runnable (sched overtaken_run) j) ws.
Proof.
  split; [vm_compute; reflexivity|]. split; [vm_compute; reflexivity|].
  refine (proj1 (queue_no_lost_wakeup (T := nat) 1 (fun _ _ => True) overtaken_run (le_n 1) overtaken_reachable) _).
  vm_compute. discriminate.
Defined.

Lemma queue_waiters_bounded_witness :
  running overtaken_run = 0%nat /\ (length (recv_waiters_ (res overtaken_run)) < MAX_TASKS)%nat.
Proof.
  split; [vm_compute; reflexivity|].
  destruct (queue_waiters_bounded (T := nat) 1 (fun _ _ => True) overtaken_run (le_n 1) overtaken_reachable)
    as (_ & _ & _ & H).
  destruct H as [H _]; [vm_compute; discriminate|]. rewrite length_app in H.
  eapply Nat.le_lt_trans; [apply Nat.le_add_r|exact H].
Defined.
