(* ===== verification/EventGroupProps.v ===== *)
(** src/rtos/event_group.h: which waiters [set_bits] wakes when it is not preempted. *)
From S2P Require Export KernelProps EventGroup.

Import Scheduler EventGroup.

Definition event_config : Type := config t frame value.

Definition sat (b : Z) (w : waiter) : bool := satisfied (mkEvents b []) (wait_mask w) (all w).

Lemma satisfied_bits r w : satisfied r (wait_mask w) (all w) = sat (bits_ r) w.
Proof. done. Qed.

Lemma next_satisfied_spec r i l :
  match next_satisfied r i l with
  | Some (j, w) => exists k, j = (i + k)%nat /\ l !! k = Some w /\ sat (bits_ r) w = true /\
                     Forall (fun w => sat (bits_ r) w = false) (take k l)
  | None => Forall (fun w => sat (bits_ r) w = false) l
  end.
Proof.
  revert i. induction l as [|w l IH]; intros i; cbn [next_satisfied]; [constructor|].
  rewrite satisfied_bits. destruct (sat (bits_ r) w) eqn:E.
  - exists 0%nat. split; [lia|]. split; [done|]. split; [done|constructor].
  - specialize (IH (S i)). destruct (next_satisfied r (S i) l) as [[j w']|].
    + destruct IH as (k & -> & H1 & H2 & H3). exists (S k). split; [lia|]. split; [done|].
      split; [done|]. by constructor.
    + by constructor.
Qed.

(** The waiters whose condition the bits [b] satisfy, and the others. *)
Definition to_wake (b : Z) (l : list waiter) : list waiter := filter (fun w => sat b w = true) l.
Definition to_keep (b : Z) (l : list waiter) : list waiter := filter (fun w => sat b w = false) l.

(** Nobody who waits is more urgent than the running task. *)
Definition quiet (s : Scheduler.t) (l : list waiter) : Prop :=
  NoDup (task <$> l) /\
  Forall (fun w => parked s (task w) /\
                   priority (Scheduler.task s (current_ s)) <= priority (Scheduler.task s (task w))) l.

(** ** One turn of the loop *)

Definition make_ready (j : nat) (s : Scheduler.t) : Scheduler.t := update_task j (with_state READY) s.

Lemma task_make_ready s j k : j <> k -> Scheduler.task (make_ready j s) k = Scheduler.task s k.
Proof.
  intros Hne. unfold Scheduler.task, make_ready. rewrite !list_lookup_total_alt, task_update.
  by rewrite decide_False.
Qed.

Lemma quiet_rest s w l l' :
  good s -> quiet s l -> w :: l' ≡ₚ l -> quiet (make_ready (task w) s) l'.
Proof.
  intros Hg [Hnd Hq] Hperm. rewrite <-Hperm in Hnd. cbn in Hnd. apply NoDup_cons in Hnd as [Hni Hnd].
  rewrite Forall_forall in Hq. split; [done|]. apply Forall_forall. intros v Hv.
  assert (w ∈ l) as Hw by (rewrite <-Hperm; by left).
  assert (v ∈ l) as Hvl by (rewrite <-Hperm; by right).
  destruct (Hq v Hvl) as [Hp Hle].
  assert (task w <> task v) as Hne by (intros E; apply Hni; rewrite E; by apply list_elem_of_fmap_2).
  assert (task w <> current_ s) as Hc by (apply parked_not_current; [done|by apply (Hq w)]).
  change (current_ (make_ready (task w) s)) with (current_ s).
  rewrite !task_make_ready by done. split; [|done].
  destruct Hp as (x & Hx & Hb & H0). exists x. split; [|done].
  unfold make_ready. rewrite task_update. by rewrite decide_False by congruence.
Qed.

Lemma good_make_ready s w : good s -> parked s w ->
  priority (Scheduler.task s (current_ s)) <= priority (Scheduler.task s w) ->
  sched_step s (Unblock w) = Some (Stay, make_ready w s) /\ good (make_ready w s).
Proof.
  intros Hg Hp Hle. assert (sched_step s (Unblock w) = Some (Stay, make_ready w s)) as Hs.
  { apply unblock_quiet; [done|done|]. intros E. by apply (parked_not_current s w Hg Hp). }
  split; [done|]. by apply (good_unblock s w Stay).
Qed.

Lemma take_compact {A} `{Inhabited A} i (l : list A) :
  (i < length l)%nat -> take i (compact i l) = take i l.
Proof.
  intros Hi. unfold compact. rewrite take_take. rewrite Nat.min_l by lia. by rewrite take_insert_ge.
Qed.

Lemma filter_none (b : bool) f (l : list waiter) :
  Forall (fun w => f w = b) l -> filter (fun w => f w = negb b) l = [] /\ filter (fun w => f w = b) l = l.
Proof.
  induction 1 as [|w l Hw _ [IH1 IH2]]; [done|]. rewrite !filter_cons.
  rewrite decide_False by (rewrite Hw; by destruct b). rewrite decide_True by done.
  by rewrite IH1, IH2.
Qed.

(** What the loop leaves: the tasks [ws] made READY, nothing else changed. *)
Record woke (c c' : event_config) (ws : list nat) : Prop := {
  woke_running : running c' = running c;
  woke_user : doing c' (running c') = User;
  woke_good : good (sched c');
  woke_ready : forall j, j ∈ ws -> state (Scheduler.task (sched c') j) = READY;
  woke_other : forall j, j ∉ ws -> tasks_ (sched c') !! j = tasks_ (sched c) !! j
}.

(** The rest of [check_waiters] from index [i], when the waiters before [i] stay:
    it makes every satisfied waiter READY and keeps the others. *)
Definition check_goal (c : event_config) (f : frame) (b : Z) (l : list waiter) : Prop :=
  exists n c' ws, n = length (to_wake b l) /\
    (exists c1, exec (running c) (sched c) f c = Next c1 /\ krun (M := method) c1 (replicate n Go) = Next c') /\
    woke c c' ws /\ ws ≡ₚ task <$> to_wake b l /\
    bits_ (res c') = b /\ waiters_ (res c') ≡ₚ to_keep b l.

Lemma check_done (c : event_config) f b l :
  good (sched c) -> resume (sched c) f (res c) = (mkEvents b l, Finish Done) ->
  Forall (fun w => sat b w = false) l -> check_goal c f b l.
Proof.
  intros Hg Hr Hl. destruct (filter_none false (sat b) l Hl) as [H1 H2].
  unfold check_goal, to_wake, to_keep. cbn [negb] in H1. rewrite H1, H2.
  eexists 0%nat, _, []. split; [done|]. split; [eexists; split; [|reflexivity]|].
  - unfold exec. by rewrite Hr.
  - split; [|done]. split; try done.
    + by eapply (doing_running c _ false User).
    + by intros j ?%elem_of_nil.
Qed.

Lemma woke_cons c c1 c' w ws :
  sched c1 = make_ready w (sched c) -> (w < task_count_ (sched c))%nat -> w ∉ ws ->
  woke c1 c' ws -> woke c c' (w :: ws).
Proof.
  intros Hs Hw Hni [H1 H2 H3 H4 H5]. split; try done.
  - rewrite H1. unfold running. by rewrite Hs.
  - intros j [->|Hj]%elem_of_cons; [|by apply H4]. unfold Scheduler.task.
    rewrite list_lookup_total_alt, H5 by done. rewrite Hs. unfold make_ready.
    rewrite task_update, decide_True by done. by rewrite task_lookup.
  - intros j Hj. rewrite elem_of_cons in Hj. rewrite H5, Hs by naive_solver.
    unfold make_ready. rewrite task_update. by rewrite decide_False by naive_solver.
Qed.

Lemma to_wake_cons b w l' l :
  w :: l' ≡ₚ l -> sat b w = true ->
  to_wake b l ≡ₚ w :: to_wake b l' /\ to_keep b l ≡ₚ to_keep b l'.
Proof.
  intros Hp Hw. unfold to_wake, to_keep. rewrite <-Hp, !filter_cons.
  rewrite decide_True by done. by rewrite decide_False by (by rewrite Hw).
Qed.

Lemma check_loop n : forall (c : event_config) f b l i,
  length l = n -> good (sched c) -> resume (sched c) f (res c) = check_waiters i (mkEvents b l) ->
  quiet (sched c) l -> Forall (fun w => sat b w = false) (take i l) -> check_goal c f b l.
Proof.
  induction n as [|n IH]; intros c f b l i Hn Hg Hr Hq Hl.
  { destruct l; [|done]. unfold check_waiters in Hr. cbn [waiters_] in Hr.
    rewrite drop_nil in Hr. by apply check_done. }
  unfold check_waiters in Hr. cbn [waiters_] in Hr.
  pose proof (next_satisfied_spec (mkEvents b l) i (drop i l)) as Hnext. cbn [bits_] in Hnext.
  destruct (next_satisfied _ i (drop i l)) as [[j w]|].
  2: { apply check_done; [done|done|]. rewrite <-(take_drop i l). by apply Forall_app. }
  destruct Hnext as (k & -> & Hw & Hs & Hk). rewrite lookup_drop in Hw. set (j := (i + k)%nat) in *.
  pose proof (compact_permutation j l w Hw) as Hperm. pose proof (lookup_lt_Some _ _ _ Hw) as Hj.
  assert (w ∈ l) as Hin by (by eapply list_elem_of_lookup_2).
  pose proof Hq as [Hnd Hq']. rewrite Forall_forall in Hq'. destruct (Hq' w Hin) as [Hp Hle].
  destruct (good_make_ready (sched c) (task w) Hg Hp Hle) as [Hun Hg1].
  set (tr := Ran (running c) f (res c) (Await (Unblock (task w)) (Compact j)) :: trace c).
  set (c1 := mkConfig (make_ready (task w) (sched c)) (mkEvents b l)
    (<[running c := (false, At (Compact j))]> (contexts c)) tr : event_config).
  destruct (IH c1 (Compact j) b (compact j l) j) as (n' & c' & ws & Hn' & (c2 & Hx & Hrun) & Hwoke & Hws & Hb & Hkeep).
  - pose proof (Permutation_length Hperm) as E. cbn in E. lia.
  - done.
  - cbn. unfold compact_waiters. cbn [waiters_ bits_]. by destruct l.
  - by apply (quiet_rest (sched c) w l).
  - rewrite take_compact by done. unfold j. rewrite <-take_take_drop. by apply Forall_app.
  - destruct (to_wake_cons b w (compact j l) l Hperm Hs) as [Hwk Hkp].
    exists (S n'), c', (task w :: ws). split; [by rewrite Hwk, Hn'|]. split; [|split; [|split; [|split]]].
    + exists c1. split; [unfold exec, call; by rewrite Hr, Hun|]. cbn [replicate krun].
      rewrite (kstep_go c1 (Compact j)); [by rewrite Hx|].
      unfold context_of. cbn [contexts c1]. by rewrite lookup_insert_eq.
    + apply (woke_cons c c1); [done|by apply parked_bound| |done]. rewrite Hws.
      rewrite <-Hperm in Hnd. cbn in Hnd. apply NoDup_cons in Hnd as [Hni _].
      intros (v & Ev & Hv)%list_elem_of_fmap. apply Hni. rewrite Ev. apply list_elem_of_fmap_2.
      by apply list_elem_of_filter in Hv as [_ ?].
    + rewrite Hwk. cbn. by rewrite Hws.
    + done.
    + by rewrite Hkeep, Hkp.
Qed.

(** * Properties *)

(** set_bits.  When nobody who waits is more urgent than the running task,
    set_bits sets the bits and then comes back, in as many segments as it wakes
    tasks: the tasks whose condition (all of their bits, or any) now holds are READY
    and off the wait list, every other waiter is still on it, and no other task of
    the scheduler is touched. *)
Theorem set_bits_wakes (c : event_config) bits :
  let b := Z.lor (bits_ (res c)) bits in
  let l := waiters_ (res c) in
  good (sched c) -> doing c (running c) = User -> quiet (sched c) l ->
  exists c', krun c (Invoke (SetBits bits) :: replicate (length (to_wake b l)) Go) = Next c' /\
    running c' = running c /\ doing c' (running c') = User /\ bits_ (res c') = b /\
    waiters_ (res c') ≡ₚ to_keep b l /\
    (forall w, w ∈ to_wake b l -> state (Scheduler.task (sched c') (task w)) = READY) /\
    (forall j, (forall w, w ∈ to_wake b l -> j <> task w) ->
       tasks_ (sched c') !! j = tasks_ (sched c) !! j).
Proof.
  intros b l Hg Hd Hq.
  destruct (check_loop (length l) c (SetEntry bits) b l 0 eq_refl Hg eq_refl Hq) as
    (n & c' & ws & -> & (c1 & Hx & Hrun) & [H1 H2 H3 H4 H5] & Hws & Hb & Hk); [by rewrite take_0|].
  exists c'. split; [|split; [done|split; [done|split; [done|split; [done|split]]]]].
  - cbn [krun]. assert (kstep c (Invoke (SetBits bits)) = Next c1) as ->; [|done].
    unfold kstep. unfold doing in Hd. fold (running c).
    destruct (context_of c (running c)) as [sw k]. cbn [snd] in Hd. subst k.
    unfold running at 2. rewrite after_swap_id by apply Hg. destruct sw; exact Hx.
  - intros w Hw. apply H4. rewrite Hws. by apply list_elem_of_fmap_2.
  - intros j Hj. apply H5. rewrite Hws. intros (w & -> & Hw)%list_elem_of_fmap. by apply (Hj w).
Qed.

(** Task 2 is the most urgent; tasks 0 and 1 wait for bits 0 and 1. *)
Definition two_waiters : event_config :=
  run_config (boot new)
    [Sys (Create 2); Sys (Create 2); Sys (Create 1); Sys Start; Sys (Delay 5);
     Invoke (WaitBits 1 true true); Invoke (WaitBits 2 true true)].

Lemma set_bits_wakes_witness :
  to_wake 1 (waiters_ (res two_waiters)) = [mkWaiter 0 1 true] /\
  exists c', krun two_waiters (Invoke (SetBits 1) :: replicate 1 Go) = Next c' /\
    state (Scheduler.task (sched c') 0) = READY.
Proof.
  split; [vm_compute; reflexivity|].
  destruct (set_bits_wakes two_waiters 1) as (c' & Hk & _ & _ & _ & _ & Hr & _).
  - apply goodb_ok. vm_compute. reflexivity.
  - vm_compute. reflexivity.
  - assert (waiters_ (res two_waiters) = [mkWaiter 0 1 true; mkWaiter 1 2 true]) as -> by (vm_compute; reflexivity).
    split; [by apply (bool_decide_unpack (NoDup [0%nat; 1%nat]))|].
    repeat (constructor; [split; [apply parkedb_ok; vm_compute; reflexivity|vm_compute; discriminate]|]).
    constructor.
  - exists c'. split; [exact Hk|]. apply (Hr (mkWaiter 0 1 true)). vm_compute. left.
Defined.
