(* ===== verification/EventGroupLive.v ===== *)
(** src/rtos/event_group.h: no task sleeps on a condition that holds, as long as no
    [set_bits] is called while another one is still in [check_waiters]. *)
From S2P Require Export HandOver EventGroupProps.

Import Scheduler EventGroup.

Definition in_wait (k : continuation frame) : bool :=
  match k with At (WaitLoop _ _ _) => true | _ => false end.

(** The task in the loop of [check_waiters], if any, and its index: the waiter there
    has been unblocked and is about to be removed. *)
Definition stale : Type := option (nat * nat).

(** The waiters that are really waiting. *)
Definition live (st : stale) (l : list waiter) : list waiter :=
  match st with Some (_, i) => delete i l | None => l end.

(** The waiters whose condition was found not to hold. *)
Definition checked (st : stale) (l : list waiter) : list waiter :=
  match st with Some (_, i) => take i l | None => l end.

Definition asleep (b : Z) (w : waiter) : Prop := sat b w = false.

Definition registered (c : event_config) (w : waiter) : Prop :=
  exists clear, doing c (task w) = At (WaitLoop (wait_mask w) (all w) clear).

Definition live_tasks (st : stale) (r : t) : list nat := task <$> live st (waiters_ r).

Record event_inv (st : stale) (c : event_config) : Prop := {
  ev_good : good (sched c);
  ev_frames : forall j f, doing c j = At f -> in_wait (At f) = true \/ exists i, f = Compact i;
  ev_setter : forall j i, doing c j = At (Compact i) <-> st = Some (j, i);
  ev_index : forall j i, st = Some (j, i) ->
    (i < length (waiters_ (res c)))%nat /\ runnable (sched c) j;
  ev_waits : waits in_wait c (live_tasks st (res c));
  ev_registered : Forall (registered c) (live st (waiters_ (res c)));
  ev_awake : awake in_wait (live_tasks st) c;
  ev_asleep : Forall (asleep (bits_ (res c))) (checked st (waiters_ (res c)))
}.

(** * The wait list *)

Lemma live_app st l x :
  (forall j i, st = Some (j, i) -> (i < length l)%nat) -> live st (l ++ [x]) = live st l ++ [x].
Proof.
  intros Hi. destruct st as [[j i]|]; [|done]. specialize (Hi j i eq_refl). cbn [live].
  rewrite !delete_take_drop, take_app_le, drop_app_le by lia. by rewrite app_assoc.
Qed.

Lemma checked_app st l x (P : waiter -> Prop) :
  (forall j i, st = Some (j, i) -> (i < length l)%nat) ->
  Forall P (checked st l) -> P x -> Forall P (checked st (l ++ [x])).
Proof.
  intros Hi Hl Hx. destruct st as [[j i]|]; cbn [checked] in *.
  - specialize (Hi j i eq_refl). by rewrite take_app_le by lia.
  - apply Forall_app. split; [done|]. by constructor.
Qed.

Lemma compact_live i (l : list waiter) : (i < length l)%nat -> compact i l ≡ₚ delete i l.
Proof.
  intros Hi. destruct (lookup_lt_is_Some_2 l i Hi) as [x Hx].
  apply (Permutation_cons_inv (a := x)). rewrite (compact_permutation i l x Hx).
  by apply delete_Permutation.
Qed.

(** Clearing bits makes no condition true. *)
Lemma asleep_clear b bits w : asleep b w -> asleep (Z.land b (u32 (Z.lnot bits))) w.
Proof.
  unfold asleep, sat, satisfied. cbn [bits_]. set (m := u32 _).
  assert (Z.land (Z.land b m) (wait_mask w) = Z.land (Z.land b (wait_mask w)) m) as ->
    by (rewrite <-!Z.land_assoc; by rewrite (Z.land_comm m)).
  destruct (all w).
  - rewrite !Z.eqb_neq. intros Hne E. apply Hne. rewrite <-E at 2.
    rewrite <-E at 1. apply Z.bits_inj. intros n.
    pose proof (f_equal (fun x => Z.testbit x n) E) as En. cbn in En.
    rewrite !Z.land_spec in *. destruct (Z.testbit b n), (Z.testbit m n), (Z.testbit (wait_mask w) n); done.
  - rewrite !negb_false_iff, !Z.eqb_eq. by intros ->.
Qed.

(** The rest of the loop of [check_waiters]. *)
Lemma check_waiters_spec i r :
  Forall (asleep (bits_ r)) (take i (waiters_ r)) ->
  match next_satisfied r i (drop i (waiters_ r)) with
  | Some (j, w) => waiters_ r !! j = Some w /\ Forall (asleep (bits_ r)) (take j (waiters_ r))
  | None => Forall (asleep (bits_ r)) (waiters_ r)
  end.
Proof.
  intros Ht. pose proof (next_satisfied_spec r i (drop i (waiters_ r))) as Hs.
  destruct (next_satisfied _ _ _) as [[j w]|].
  - destruct Hs as (k & -> & Hk & _ & Hl). rewrite lookup_drop in Hk. split; [done|].
    rewrite <-(take_drop i (waiters_ r)), take_app.
    apply Forall_app. split; [apply Forall_take, Ht|].
    rewrite length_take. destruct (Nat.le_gt_cases i (length (waiters_ r))) as [Hle|Hgt].
    + rewrite Nat.min_l by done. by replace (i + k - i)%nat with k by lia.
    + apply lookup_lt_Some in Hk. lia.
  - rewrite <-(take_drop i (waiters_ r)). by apply Forall_app.
Qed.

(** * Steps *)

Lemma running_runnable (c : event_config) :
  good (sched c) -> running c <> INVALID_TASK -> runnable (sched c) (running c).
Proof.
  intros ((_ & _ & _ & [|Hc]) & Hr & _) Hne; [done|]. exists (Scheduler.task (sched c) (running c)).
  pose proof (task_lookup (sched c) _ Hc) as E. split; [done|]. right. by apply (Hr _ _ E).
Qed.

Section Step.
Context (c c' : event_config) (sw : bool) (k : continuation frame).
Hypothesis (Hg : good (sched c)) (Hc : contexts c' = <[running c := (sw, k)]> (contexts c)).

(** The running task is in none of the frames that the others are in. *)
Lemma frames_step :
  (forall j f, doing c j = At f -> in_wait (At f) = true \/ exists i, f = Compact i) ->
  (forall f, k = At f -> in_wait (At f) = true \/ exists i, f = Compact i) ->
  forall j f, doing c' j = At f -> in_wait (At f) = true \/ exists i, f = Compact i.
Proof using Hc.
  intros Hf Hk j f. destruct (decide (j = running c)) as [->|Hj].
  - rewrite (doing_running c c' sw k Hc). apply Hk.
  - rewrite (doing_other c c' (sw, k) j Hc Hj). apply Hf.
Qed.

Lemma registered_step l :
  waits in_wait c (task <$> l) -> Forall (registered c) l -> Forall (registered c') l.
Proof using Hg Hc.
  intros Hw. rewrite !Forall_forall. intros Hr w Hin. unfold registered.
  rewrite (doing_other c c' (sw, k)); [by apply Hr|done|].
  apply (waits_not_running in_wait c (task <$> l)); [done|done|]. by apply list_elem_of_fmap_2.
Qed.

End Step.

(** A call of the loop of [check_waiters] from index [i] with the waiters [l], made
    by the only task in [set_bits]. *)
Lemma check_step (c c' : event_config) f b l i :
  good (sched c) -> running c <> INVALID_TASK ->
  (forall j f, doing c j = At f -> in_wait (At f) = true \/ exists i, f = Compact i) ->
  (forall j n, j <> running c -> doing c j <> At (Compact n)) ->
  in_wait (doing c (running c)) = false ->
  waits in_wait c (task <$> l) -> Forall (registered c) l -> awake in_wait (fun _ => task <$> l) c ->
  Forall (asleep b) (take i l) ->
  resume (sched c) f (res c) = check_waiters i (mkEvents b l) ->
  exec (running c) (sched c) f c = Next c' -> exists st, event_inv st c'.
Proof.
  intros Hg Hne Hfr Hno Hin Hw Hreg Ha Ht Hr Hx.
  pose proof (check_waiters_spec i (mkEvents b l) Ht) as Hs. unfold check_waiters in Hr.
  destruct (next_satisfied _ _ _) as [[j w]|]; cbn [waiters_ bits_] in Hs.
  - destruct Hs as [Hj Hs]. destruct (exec_await _ _ _ _ _ _ Hr Hx) as (sw & s' & Hstep & ->).
    set (c1 := mkConfig _ _ _ _). exists (Some (running c, j)).
    assert (w :: delete j l ≡ₚ l) as Hperm by (symmetry; by apply delete_Permutation).
    assert (task w :: (task <$> delete j l) ≡ₚ task <$> l) as Hperm' by (by rewrite <-Hperm at 2).
    assert (task w ∈ task <$> l) as Hwin by (apply list_elem_of_fmap_2; by eapply list_elem_of_lookup_2).
    destruct (waits_elem in_wait c _ _ Hw Hwin) as [Hpw Hww].
    assert (contexts c1 = <[running c := (switched sw, At (Compact j))]> (contexts c)) as Hc by done.
    assert (waits in_wait c1 (task <$> delete j l)) as Hw1
      by (by apply (waits_unblock in_wait c c1 sw (task w) (task <$> l) _ (switched sw, At (Compact j)))).
    split.
    + by apply (good_unblock (sched c) (task w) sw).
    + apply (frames_step c c1 _ _ Hc Hfr). intros g [= <-]. eauto.
    + intros m n. destruct (decide (m = running c)) as [->|Hm].
      * rewrite (doing_running c c1 _ _ Hc). split; congruence.
      * rewrite (doing_other c c1 _ m Hc Hm). split; [by intros ?%Hno|congruence].
    + intros m n [= <- <-]. split; [by apply lookup_lt_Some in Hj|].
      apply (unblock_caller (sched c) (task w) sw); [done|by apply running_runnable].
    + exact Hw1.
    + apply (registered_step c c1 _ _ Hg Hc); [|by eapply (Forall_delete _ l j)].
      destruct Hw as [Hnd Hp]. rewrite <-Hperm' in Hnd, Hp. by inversion Hp; inversion Hnd.
    + intros m Hm Hni. cbn [live_tasks live waiters_ res c1] in Hni.
      destruct (decide (m = task w)) as [->|Hmw]; [by apply (unblock_runs (sched c) (task w) sw)|].
      destruct (decide (m = running c)) as [->|Hmr]; [by rewrite (doing_running c c1 _ _ Hc) in Hm|].
      apply (awake_other in_wait (fun _ => task <$> l) c c1 (Unblock (task w)) sw _ m Hstep Hc Hmr);
        [left; cbn; congruence|done|done|].
      rewrite <-Hperm', elem_of_cons. naive_solver.
    + exact Hs.
  - apply (exec_finish _ _ _ _ _ Hr) in Hx as ->. set (c1 := mkConfig _ _ _ _). exists None.
    assert (contexts c1 = <[running c := (false, User)]> (contexts c)) as Hc by done. split; try done.
    + by apply (frames_step c c1 _ _ Hc Hfr).
    + intros m n. split; [|done]. destruct (decide (m = running c)) as [->|Hm].
      * by rewrite (doing_running c c1 _ _ Hc).
      * rewrite (doing_other c c1 _ m Hc Hm). by intros ?%Hno.
    + by apply (waits_finish in_wait c c1 _ (false, User)).
    + by apply (registered_step c c1 _ _ Hg Hc).
    + intros m Hm Hni. cbn [live_tasks live waiters_ res c1] in Hni.
      destruct (decide (m = running c)) as [->|Hmr]; [by rewrite (doing_running c c1 _ _ Hc) in Hm|].
      rewrite (doing_other c c1 _ m Hc Hmr) in Hm. by apply Ha.
Qed.

Section Invariant.
Context (st : stale) (c : event_config).
Hypothesis Hi : event_inv st c.

Definition not_setting : Prop := forall i, doing c (running c) <> At (Compact i).

(** The setter is unchanged when the running task does not set. *)
Lemma setter_other (c' : event_config) sw k :
  contexts c' = <[running c := (sw, k)]> (contexts c) -> not_setting -> (forall i, k <> At (Compact i)) ->
  forall j i, doing c' j = At (Compact i) <-> st = Some (j, i).
Proof using Hi.
  intros Hc Hns Hk j i. destruct (decide (j = running c)) as [->|Hj].
  - rewrite (doing_running c c' sw k Hc). split; [by intros ?%Hk|].
    intros E. apply (ev_setter st c Hi) in E. by apply Hns in E.
  - rewrite (doing_other c c' (sw, k) j Hc Hj). apply (ev_setter st c Hi).
Qed.

(** A segment that finishes, with bits that satisfy no more conditions. *)
Lemma event_finish b f v :
  not_setting -> (forall w, asleep (bits_ (res c)) w -> asleep b w) ->
  event_inv st (mkConfig (sched c) (mkEvents b (waiters_ (res c)))
    (<[running c := (false, User)]> (contexts c)) (Ran (running c) f (res c) (Finish v) :: trace c)).
Proof using Hi.
  intros Hns Hb. destruct Hi as [Hg Hfr Hset Hix Hw Hreg Ha Hu]. set (c' := mkConfig _ _ _ _).
  assert (contexts c' = <[running c := (false, User)]> (contexts c)) as Hc by done. split; try done.
  - by apply (frames_step c c' _ _ Hc Hfr).
  - by apply (setter_other c' false User).
  - by apply (waits_finish in_wait c c' _ (false, User)).
  - by apply (registered_step c c' _ _ Hg Hc).
  - intros m Hm Hni. destruct (decide (m = running c)) as [->|Hmr]; [by rewrite (doing_running c c' _ _ Hc) in Hm|].
    rewrite (doing_other c c' _ m Hc Hmr) in Hm. by apply Ha.
  - by eapply Forall_impl.
Qed.

(** While a task runs outside [set_bits] there is room for it in the list. *)
Lemma event_room :
  running c <> INVALID_TASK -> not_setting -> (length (waiters_ (res c)) < MAX_TASKS)%nat.
Proof using Hi.
  intros Hne Hns. destruct Hi as [Hg Hfr Hset Hix Hw Hreg Ha Hu].
  assert (running c < task_count_ (sched c))%nat as Hlt by (by destruct Hg as ((_ & _ & _ & [|]) & _)).
  assert (task_count_ (sched c) <= MAX_TASKS)%nat as Hmax by apply Hg.
  set (l := task <$> live st (waiters_ (res c))). destruct Hw as [Hnd Hp].
  set (busy := running c :: match st with Some (j, _) => [j] | None => [] end).
  assert (NoDup (busy ++ l)) as Hnd'.
  { apply NoDup_app. split; [|split; [|done]].
    - unfold busy. destruct st as [[j i]|]; [|apply NoDup_singleton].
      apply NoDup_cons. split; [|apply NoDup_singleton]. intros E%list_elem_of_singleton.
      apply (Hns i). rewrite E. by apply Hset.
    - intros m Hm Hl. destruct (waits_elem in_wait c l m (conj Hnd Hp) Hl) as [Hpk Hin].
      apply elem_of_cons in Hm as [->|Hm]; [by apply (parked_not_current (sched c) (running c))|].
      destruct st as [[j i]|]; [|by apply elem_of_nil in Hm]. apply list_elem_of_singleton in Hm as ->.
      by rewrite (proj2 (Hset j i) eq_refl) in Hin. }
  assert (length (busy ++ l) <= length (seq 0 (task_count_ (sched c))))%nat as Hlen.
  { apply submseteq_length, NoDup_submseteq; [done|]. intros m Hm. apply elem_of_seq.
    apply elem_of_app in Hm as [[->|Hm]%elem_of_cons|Hm]; [lia| |].
    - destruct st as [[j i]|]; [|by apply elem_of_nil in Hm]. apply list_elem_of_singleton in Hm as ->.
      destruct (Hix j i eq_refl) as [_ (x & Hx & _)]. apply lookup_lt_Some in Hx. unfold task_count_. lia.
    - apply (waits_elem in_wait c l m (conj Hnd Hp)) in Hm as [Hm _]. apply parked_bound in Hm. lia. }
  rewrite length_seq, length_app in Hlen. unfold l, busy in Hlen. rewrite length_fmap in Hlen.
  destruct st as [[j i]|]; cbn [live length] in Hlen; [|lia].
  destruct (Hix j i eq_refl) as [Hil _]. rewrite length_delete in Hlen by (by apply lookup_lt_is_Some_2). lia.
Qed.

(** [wait_bits] with a condition that does not hold: the task joins the list. *)
Lemma event_block b a cl sw s' f r :
  running c <> INVALID_TASK -> not_setting -> satisfied (res c) b a = false ->
  sched_step (sched c) Block = Some (sw, s') ->
  r = mkEvents (bits_ (res c)) (waiters_ (res c) ++ [mkWaiter (running c) b a]) ->
  event_inv st (mkConfig s' r (<[running c := (switched sw, At (WaitLoop b a cl))]> (contexts c))
    (Ran (running c) f (res c) (Await Block (WaitLoop b a cl)) :: trace c)).
Proof using Hi.
  intros Hne Hns Hs Hstep ->. destruct Hi as [Hg Hfr Hset Hix Hw Hreg Ha Hu]. set (c' := mkConfig _ _ _ _).
  assert (contexts c' = <[running c := (switched sw, At (WaitLoop b a cl))]> (contexts c)) as Hc by done.
  assert (forall j i, st = Some (j, i) -> (i < length (waiters_ (res c)))%nat) as Hlt by (intros; by eapply Hix).
  assert (live_tasks st (res c') = live_tasks st (res c) ++ [running c]) as El.
  { unfold live_tasks. cbn [res c' waiters_]. by rewrite live_app, fmap_app by done. }
  split; cbn [sched res c' waiters_ bits_].
  - by apply (good_block (sched c) sw).
  - apply (frames_step c c' _ _ Hc Hfr). intros g [= <-]. by left.
  - by apply (setter_other c' (switched sw) (At (WaitLoop b a cl))).
  - intros j i E. destruct (Hix j i E) as [H1 H2]. rewrite length_app. split; [cbn; lia|].
    apply (runnable_step (sched c) Block sw); [done| |by left|done].
    intros ->. apply (Hns i). by apply Hset.
  - change (waits in_wait c' (live_tasks st (res c'))). rewrite El.
    by apply (waits_block in_wait c c' sw _ (WaitLoop b a cl)).
  - rewrite live_app by done. apply Forall_app. split.
    + by apply (registered_step c c' _ _ Hg Hc).
    + constructor; [|constructor]. exists cl. cbn [task wait_mask all]. by rewrite (doing_running c c' _ _ Hc).
  - intros m Hm Hni. rewrite El, elem_of_app, list_elem_of_singleton in Hni.
    apply (awake_other in_wait (live_tasks st) c c' Block sw _ m Hstep Hc); try done; [naive_solver|by left|naive_solver].
  - by apply checked_app.
Qed.

(** A scheduler call from the code of a task. *)
Lemma event_sys c' o :
  disciplined c (Sys (M := method) o) -> doing c (running c) = User ->
  call (running c) (sched c) o (res c) (contexts c) (trace c)
    (match o with Exit => Gone | _ => User end) = Next c' -> event_inv st c'.
Proof using Hi.
  intros Hdisc Hd Hx. destruct Hi as [Hg Hfr Hset Hix Hw Hreg Ha Hu].
  pose proof Hx as Hx'. apply call_next in Hx as (sw & s' & Hs & ->). set (c' := mkConfig _ _ _ _) in *.
  set (k := match o with Exit => Gone | _ => User end) in *.
  assert (contexts c' = <[running c := (switched sw, k)]> (contexts c)) as Hc by done.
  assert (forall i, k <> At (Compact i)) as Hk by (by destruct o).
  split; cbn [sched res c'].
  - by apply (good_sys (M := method) c o sw).
  - apply (frames_step c c' _ _ Hc Hfr). by destruct o.
  - apply (setter_other c' (switched sw) k Hc); [|done]. intros i. by rewrite Hd.
  - intros j i E. destruct (Hix j i E) as [H1 H2]. split; [done|].
    apply (runnable_step (sched c) o sw); [done| | |done].
    + intros ->. apply Hset in E. unfold running in Hd. by rewrite Hd in E.
    + left. intros Ht. destruct Hdisc as (_ & _ & Hdisc). apply Hset in E. by rewrite (Hdisc j Ht) in E.
  - by apply (waits_sys (M := method) in_wait c c' o sw _ (switched sw, k)).
  - by apply (registered_step c c' _ _ Hg Hc).
  - by apply (awake_sys (M := method) in_wait (live_tasks st) eq_refl eq_refl c c' o).
  - done.
Qed.
End Invariant.

(** [set_bits] is called when no other call of it is under way. *)
Definition alone (c : event_config) (m : method) : Prop :=
  match m with SetBits _ => forall j i, doing c j <> At (Compact i) | _ => True end.

(** The compaction after a waiter was woken, and the search that goes on. *)
Lemma compact_exec st (c c' : event_config) i :
  event_inv st c -> exec (running c) (sched c) (Compact i) c = Next c' -> running c <> INVALID_TASK ->
  doing c (running c) = At (Compact i) -> exists st', event_inv st' c'.
Proof.
  intros Hi Hx Hne Hf. pose proof Hi as [Hg Hfr Hset Hix Hw Hreg Ha Hu].
  pose proof (proj1 (Hset _ _) Hf) as ->. destruct (Hix _ _ eq_refl) as [Hlt _].
  pose proof (compact_live i (waiters_ (res c)) Hlt) as Hperm.
  assert (task <$> compact i (waiters_ (res c)) ≡ₚ live_tasks (Some (running c, i)) (res c)) as Hperm'
    by (unfold live_tasks; by rewrite Hperm).
  apply (check_step c c' (Compact i) (bits_ (res c)) (compact i (waiters_ (res c))) i); try done.
  - intros j n Hj E. apply Hset in E. congruence.
  - by rewrite Hf.
  - destruct Hw as [Hnd Hp]. split; by rewrite Hperm'.
  - by rewrite Hperm.
  - intros m Hm Hni. apply Ha; [done|]. by rewrite <-Hperm'.
  - by rewrite take_compact.
  - cbn. unfold compact_waiters. destruct (waiters_ (res c)); [cbn in Hlt; lia|done].
Qed.

(** One turn of the loop of [wait_bits]. *)
Lemma wait_exec st (c c' : event_config) b a cl :
  event_inv st c -> exec (running c) (sched c) (WaitLoop b a cl) c = Next c' -> running c <> INVALID_TASK ->
  not_setting c -> exists st', event_inv st' c'.
Proof.
  intros Hi Hx Hne Hf.
  destruct (satisfied (res c) b a) eqn:Es.
  - assert (exists b' v, (forall w, asleep (bits_ (res c)) w -> asleep b' w) /\
      resume (sched c) (WaitLoop b a cl) (res c) = (mkEvents b' (waiters_ (res c)), Finish v)) as (b' & v & Hb & Hr).
    { cbn. unfold wait_bits. rewrite Es. cbn [negb]. destruct cl.
      - eexists _, _. split; [|reflexivity]. intros w. apply asleep_clear.
      - exists (bits_ (res c)), (Bits (bits_ (res c))). split; [done|]. by destruct (res c). }
    apply (exec_finish _ _ _ _ _ Hr) in Hx as ->. exists st. by apply event_finish.
  - pose proof (event_room st c Hi Hne Hf) as Hroom.
    assert (resume (sched c) (WaitLoop b a cl) (res c) =
      (mkEvents (bits_ (res c)) (waiters_ (res c) ++ [mkWaiter (running c) b a]),
       Await Block (WaitLoop b a cl))) as Hr.
    { cbn. unfold wait_bits, register. rewrite Es. cbn [negb]. by rewrite (proj2 (Nat.ltb_lt _ _) Hroom). }
    destruct (exec_await _ _ _ _ _ _ Hr Hx) as (sw & s' & Hs & ->). exists st. by eapply event_block.
Qed.

Lemma event_exec st (c c' : event_config) f :
  event_inv st c -> exec (running c) (sched c) f c = Next c' -> running c <> INVALID_TASK ->
  match f with
  | SetEntry _ => st = None /\ doing c (running c) = User
  | Compact i => doing c (running c) = At f
  | _ => not_setting c
  end -> exists st', event_inv st' c'.
Proof.
  intros Hi Hx Hne Hf. pose proof Hi as [Hg Hfr Hset Hix Hw Hreg Ha Hu].
  destruct f as [b|i|b| |b a cl|b a].
  - destruct Hf as [-> Hd].
    apply (check_step c c' (SetEntry b) (Z.lor (bits_ (res c)) b) (waiters_ (res c)) 0); try done.
    + intros j n _ E. by apply Hset in E.
    + by rewrite Hd.
  - by apply (compact_exec st c c' i).
  - assert (resume (sched c) (ClearEntry b) (res c) = (clear_bits b (res c), Finish Done)) as Hr by done.
    apply (exec_finish _ _ _ _ _ Hr) in Hx as ->. exists st. apply event_finish; [done..|].
    intros w. apply asleep_clear.
  - assert (resume (sched c) GetEntry (res c) = (res c, Finish (Bits (bits_ (res c))))) as Hr by done.
    apply (exec_finish _ _ _ _ _ Hr) in Hx as ->. exists st.
    destruct (res c) as [b l] eqn:Er. pose proof (event_finish st c Hi b GetEntry (Bits b)) as E.
    rewrite Er in E. by apply E.
  - by apply (wait_exec st c c' b a cl).
  - assert (resume (sched c) (CheckEntry b a) (res c) = (res c, Finish (Checked (satisfied (res c) b a)))) as Hr by done.
    apply (exec_finish _ _ _ _ _ Hr) in Hx as ->. exists st.
    pose proof (event_finish st c Hi (bits_ (res c)) (CheckEntry b a) (Checked (satisfied (res c) b a))) as E.
    destruct (res c) as [b0 l]. by apply E.
Qed.

Lemma event_step st (c c' : event_config) i :
  event_inv st c -> disciplined c i -> (forall m, i = Invoke m -> alone c m) ->
  kstep (M := method) c i = Next c' -> exists st', event_inv st' c'.
Proof.
  intros Hi Hd Hok Hk. pose proof Hi as [Hg Hfr Hset Hix Hw Hreg Ha Hu].
  apply kstep_next in Hk as [(f & Hf & Hx)|(o & -> & Hu' & Hx)]; [| |done];
    [|exists st; by apply (event_sys st c Hi c' o)].
  assert (in_wait (doing c (running c)) = true \/ (exists i, doing c (running c) = At (Compact i)) ->
    running c <> INVALID_TASK) as Hval.
  { assert (running c ∉ live_tasks st (res c)) as Hni
      by (intros Hin; by apply (waits_not_running in_wait c _ _ Hg Hw Hin)).
    intros [Hin|[n Hn]].
    - destruct (Ha _ Hin Hni) as (x & Hx' & _). apply lookup_lt_Some in Hx'.
      destruct Hg as [[Hmax _] _]. unfold task_count_, INVALID_TASK, MAX_TASKS in *. lia.
    - apply Hset in Hn. destruct (Hix _ _ Hn) as [_ (x & Hx' & _)]. apply lookup_lt_Some in Hx'.
      destruct Hg as [[Hmax _] _]. unfold task_count_, INVALID_TASK, MAX_TASKS in *. lia. }
  unfold next_segment in Hf. destruct (doing c (running c)) as [|g|] eqn:Ed, i as [|m|]; try done; injection Hf as <-.
  - apply (event_exec st c c' _ Hi Hx Hd). specialize (Hok m eq_refl).
    assert (not_setting c) as Hns by (intros n; by rewrite Ed).
    destruct m; try done. split; [|done]. destruct st as [[j n]|]; [|done].
    by destruct (Hok j n); apply Hset.
  - apply (event_exec st c c' g Hi Hx).
    + apply Hval. destruct (Hfr _ _ Ed) as [H|[n ->]]; [by left|right; eauto].
    + destruct (Hfr _ _ Ed) as [H|[n ->]]; [|done]. destruct g; try done. intros n. by rewrite Ed.
Qed.

Definition event_reachable : event_config -> Prop := reachable (M := method) alone new.

Lemma event_reachable_inv c : event_reachable c -> exists st, event_inv st c.
Proof.
  induction 1 as [|c i c' Hr [st IH] Hd Hok Hk]; [|by apply (event_step st c c' i)].
  assert (forall j, doing (boot new : event_config) j = User) as Hdo
    by (intros j; unfold doing, context_of; cbn; by rewrite lookup_empty).
  exists None. split.
  - apply boot_good.
  - intros j f. by rewrite Hdo.
  - intros j i. by rewrite Hdo.
  - done.
  - split; constructor.
  - constructor.
  - intros j. by rewrite Hdo.
  - constructor.
Qed.

(** * Property *)

(** C9: No task sleeps on a condition that holds.  In every run of a disciplined program
    (methods are called by tasks; the tasks' own code passes the scheduler valid
    arguments and does not suspend, delete or unblock a task that is inside a method or
    waits for a deadline; the tick count does not overflow) in which [set_bits] is not
    called while another call of it is still waking tasks: a task that is blocked in
    [wait_bits] is in the wait list with its condition, which is never full when a task
    wants to join it; and when no call of [set_bits] is under way, or when no task can
    run, the condition of every task blocked there does not hold.  Both conditions are
    needed: [event_unblock] below and the nested call of EventGroupNested.v. *)
Theorem event_no_lost_wakeup c j bits wait_all clear :
  event_reachable c -> doing c j = At (WaitLoop bits wait_all clear) -> parked (sched c) j ->
  mkWaiter j bits wait_all ∈ waiters_ (res c) /\
  (running c <> INVALID_TASK -> (forall i, doing c (running c) <> At (Compact i)) ->
   (length (waiters_ (res c)) < MAX_TASKS)%nat) /\
  ((forall k i, doing c k <> At (Compact i)) \/ (forall k, ~ runnable (sched c) k) ->
   satisfied (res c) bits wait_all = false).
Proof.
  intros (st & Hi)%event_reachable_inv Hd Hp. pose proof Hi as [Hg Hfr Hset Hix Hw Hreg Ha Hu].
  assert (mkWaiter j bits wait_all ∈ live st (waiters_ (res c))) as Hin.
  { destruct (decide (j ∈ live_tasks st (res c))) as [Hl|Hl].
    - apply list_elem_of_fmap in Hl as (w & -> & Hl). rewrite Forall_forall in Hreg.
      destruct (Hreg w Hl) as [cl E]. rewrite Hd in E. injection E as -> -> ->. by destruct w.
    - destruct (Ha j) as (x & Hx & Hs); [by rewrite Hd|done|]. destruct Hp as (y & Hy & Hb & _).
      rewrite Hx in Hy. injection Hy as ->. destruct Hs; congruence. }
  split; [|split].
  - destruct st as [[k i]|]; [|done]. by apply (elem_of_sublist _ _ _ Hin), sublist_delete.
  - intros Hne Hns. by apply (event_room st c Hi).
  - intros Hq. assert (st = None) as ->.
    { destruct st as [[k i]|]; [|done]. destruct Hq as [Hq|Hq].
      - by destruct (Hq k i); apply Hset.
      - destruct (Hix k i eq_refl) as [_ Hrun]. by destruct (Hq k). }
    rewrite Forall_forall in Hu. exact (Hu _ Hin).
Qed.

Definition in_set (k : continuation frame) : bool := match k with At (Compact _) => true | _ => false end.

Definition aloneb (c : event_config) (m : method) : bool :=
  match m with SetBits _ => negb (bool_decide (map_Exists (fun _ x => in_set (snd x) = true) (contexts c))) | _ => true end.

Lemma aloneb_ok c m : aloneb c m = true -> alone c m.
Proof.
  destruct m; cbn; try done. intros H%negb_true_iff%bool_decide_eq_false_1 j i Hd. apply H.
  unfold doing, context_of in Hd. destruct (contexts c !! j) as [x|] eqn:E; [|done].
  exists j, x. cbn in Hd. by rewrite Hd.
Qed.

(** Tasks 0 and 1 wait for different bits.  Task 2 sets that of task 0, which is more
    urgent, takes the bit and waits again before [set_bits] goes on. *)
Definition rewaiting : list (input method) :=
  [Sys (Create 1); Sys (Create 3); Sys (Create 2); Sys Start; Invoke (WaitBits 1 true true);
   Sys (Delay 5); Invoke (WaitBits 2 true true); Sys (Tick 5);
   Invoke (SetBits 1); Go; Invoke (WaitBits 1 true true); Go].

Definition rewaiting_end : event_config := run_config (boot new) rewaiting.

Lemma event_no_lost_wakeup_witness :
  doing rewaiting_end 0 = At (WaitLoop 1 true true) /\ satisfied (res rewaiting_end) 1 true = false.
Proof.
  assert (doing rewaiting_end 0 = At (WaitLoop 1 true true)) as Hd by (vm_compute; reflexivity).
  split; [exact Hd|].
  refine (proj2 (proj2 (event_no_lost_wakeup rewaiting_end 0 1 true true _ Hd _)) _).
  - apply (run_config_reachable _ aloneb); [exact aloneb_ok|vm_compute; reflexivity..].
  - apply parkedb_ok. vm_compute. reflexivity.
  - left. intros k i E.
    assert (aloneb rewaiting_end (SetBits 0) = true) as Ha by (vm_compute; reflexivity).
    exact (aloneb_ok rewaiting_end (SetBits 0) Ha k i E).
Defined.

(** Without the discipline: task 1 unblocks task 0, which waits for bit 0, again and
    again.  Each time task 0 enters the list once more, until it is full; task 2 then
    waits for bit 1 without an entry, and when the bit is set, by the only call of
    [set_bits], nobody wakes it. *)
Definition unblocking : list (input method) :=
  [Sys (Create 2); Sys (Create 2); Sys (Create 3); Sys Start; Invoke (WaitBits 1 true true)] ++
  concat (replicate 15 [Sys (Unblock 0); Sys (Delay 0); Go]) ++
  [Sys (Delay 5); Invoke (WaitBits 2 true false); Invoke (SetBits 2)].

Definition unblocking_end : event_config := run_config (boot new) unblocking.

Lemma event_unblock :
  krun (boot new) unblocking = Next unblocking_end /\
  doing unblocking_end 2 = At (WaitLoop 2 true false) /\ parked (sched unblocking_end) 2 /\
  (forall k i, doing unblocking_end k <> At (Compact i)) /\
  waiters_ (res unblocking_end) = replicate 16 (mkWaiter 0 1 true) /\
  satisfied (res unblocking_end) 2 true = true.
Proof.
  split; [by vm_compute|]. split; [by vm_compute|]. split; [apply parkedb_ok; by vm_compute|].
  split; [|split; by vm_compute]. intros k i.
  assert (aloneb unblocking_end (SetBits 0) = true) as Ha by (by vm_compute).
  exact (aloneb_ok unblocking_end (SetBits 0) Ha k i).
Qed.
