(* ===== verification/EventGroupNested.v ===== *)
(** src/rtos/event_group.h: what happens when [set_bits] is called while another call of
    it is still waking tasks. *)
From S2P Require Export EventGroupLive.

Import Scheduler EventGroup.

(** * A blocked task that nobody unblocks *)

(** Task [j] is blocked without a deadline and does not run. *)
Definition out (j : nat) (s : Scheduler.t) : Prop := parked s j /\ current_ s <> j /\ j <> INVALID_TASK.

Lemma out_update j i f s : out j s -> i <> j -> out j (update_task i f s).
Proof.
  intros ((x & Hx & Hs) & Hc & Hv) Hi. split; [|done]. exists x. by rewrite task_update, decide_False.
Qed.

Lemma out_current j c s : out j s -> c <> j -> out j (with_current c s).
Proof. intros (Hp & _ & Hv) Hc. by split. Qed.

Lemma out_advance j now s : out j s -> out j (advance_to now s).
Proof.
  intros ((x & Hx & Hb & H0) & Hc & Hv). split; [|done]. exists x. split; [|done].
  unfold advance_to, wake_due. cbn [tasks_]. rewrite list_lookup_fmap, Hx. cbn.
  assert (delayed x = false) as -> by (unfold delayed; by rewrite H0, andb_false_r). done.
Qed.

Lemma scan_ready s best start l : scan s best start l <> INVALID_TASK -> is_ready (Scheduler.task s (scan s best start l)) = true.
Proof.
  induction l as [|i l IH]; [done|]. cbn [scan].
  destruct (is_ready _ && _) eqn:E; [by apply andb_true_iff in E as [? _]|apply IH].
Qed.

Lemma out_select j s : out j s -> select_next s <> j.
Proof.
  intros ((x & Hx & Hb & _) & _ & Hv) E. unfold select_next in E.
  destruct (_ =? 0xFF); [by rewrite E in Hv|]. set (n := scan _ _ _ _) in *.
  assert (is_ready (Scheduler.task s n) = true) as Hr by (apply scan_ready; by fold n; rewrite E).
  rewrite E in Hr. unfold Scheduler.task in Hr. rewrite (list_lookup_total_correct _ _ _ Hx) in Hr.
  apply bool_decide_eq_true in Hr. congruence.
Qed.

Lemma out_schedule j fuel prev s sw s' : schedule_loop fuel prev s = Some (sw, s') -> out j s -> out j s'.
Proof.
  revert s. induction fuel as [|fuel IH]; intros s E Ho; [done|]. cbn [schedule_loop] in E.
  pose proof (out_select j s Ho) as Hs. repeat case_match; try (injection E as <- <-).
  - by apply out_update.
  - by apply out_update; [apply out_current|].
  - by apply out_current; [|apply not_eq_sym, Ho].
  - by apply (IH _ E), out_advance.
Qed.

Lemma out_step j s o sw s' : sched_step s o = Some (sw, s') -> touched o <> Some j -> out j s -> out j s'.
Proof.
  intros E Ht Ho. pose proof Ho as ((x & Hx & Hb & H0) & Hc & Hv). pose proof (out_select j s Ho) as Hs.
  assert (forall f, out j (update_task (current_ s) f s)) as Hu by (intros; by apply out_update).
  destruct o as [p| |n|i|i|i| |i|n| ]; cbn [sched_step touched] in E, Ht.
  - injection E as <- <-. unfold xTaskCreate. case_match; [done|]. cbn [snd]. split; [|done].
    exists x. split; [|done]. cbn [tasks_]. by apply lookup_app_l_Some.
  - unfold vTaskStartScheduler in E. case_match; injection E as <- <-; [done|]. by apply out_update; [apply out_current|].
  - unfold vTaskDelay in E. repeat case_match; [by injection E as <- <-|..]; by eapply out_schedule.
  - unfold vTaskSuspend in E. repeat case_match; [by injection E as <- <-|..];
      [eapply out_schedule; [exact E|]|injection E as <- <-]; apply out_update; congruence.
  - injection E as <- <-. unfold vTaskResume. repeat case_match; try done.
    destruct (decide (i = j)) as [->|Hi]; [|by apply out_update].
    exfalso. unfold Scheduler.task in *. rewrite (list_lookup_total_correct _ _ _ Hx) in *.
    match goal with H : bool_decide _ = true |- _ => apply bool_decide_eq_true in H; congruence end.
  - unfold vTaskDelete in E. repeat case_match; [by injection E as <- <-|..];
      [eapply out_schedule; [exact E|]|injection E as <- <-]; apply out_update; congruence.
  - unfold block_current in E. case_match; [by injection E as <- <-|]. by eapply out_schedule.
  - unfold unblock in E. assert (i <> j) as Hi by congruence.
    repeat case_match; try (injection E as <- <-); try done; [|by apply out_update].
    eapply out_schedule; [exact E|]. by do 2 (apply out_update; [|done]).
  - unfold tick in E. pose proof (out_advance j (u32 (tick_count_ s + n)) s Ho) as Ha.
    case_match; [|by injection E as <- <-]. eapply out_schedule; [exact E|]. by apply out_update.
  - unfold task_exit, schedule_after_delete in E. by eapply out_schedule.
Qed.

(** * A waiter that is lost *)

(** Task [j] is blocked in [f] and no entry of the wait list is its own. *)
Definition lost (j : nat) (f : frame) (c : event_config) : Prop :=
  out j (sched c) /\ doing c j = At f /\ j ∉ task <$> waiters_ (res c).

Lemma elem_of_compact i (l : list waiter) w : l <> [] -> w ∈ compact i l -> w ∈ l.
Proof.
  intros Hl [k Hk]%list_elem_of_lookup. unfold compact in Hk.
  apply lookup_take_Some in Hk as [Hk _]. apply list_lookup_insert_Some in Hk as [(_ & <- & _)|[_ Hk]].
  - apply list_elem_of_lookup_total_2. destruct l; cbn; [done|lia].
  - by eapply list_elem_of_lookup_2.
Qed.

Lemma check_waiters_list i r r' a :
  check_waiters i r = (r', a) ->
  r' = r /\ (a = Finish Done \/ exists w n, a = Await (Unblock (task w)) (Compact n) /\ w ∈ waiters_ r).
Proof.
  unfold check_waiters. pose proof (next_satisfied_spec r i (drop i (waiters_ r))) as Hs.
  destruct (next_satisfied _ _ _) as [[n w]|]; intros [= <- <-]; (split; [done|]); [|by left].
  right. exists w, n. split; [done|]. destruct Hs as (k & _ & Hk & _). rewrite lookup_drop in Hk.
  by eapply list_elem_of_lookup_2.
Qed.

(** A segment adds at most the running task to the list, and unblocks only tasks in it. *)
Lemma segment_waiters s f r r' a :
  run s f r = (r', a) ->
  (forall x, x ∈ task <$> waiters_ r' -> x ∈ task <$> waiters_ r \/ x = current_ s) /\
  (forall o g, a = Await o g -> o = Block \/ exists x, o = Unblock x /\ x ∈ task <$> waiters_ r).
Proof.
  assert (forall i r0, task <$> waiters_ r0 ⊆ task <$> waiters_ r -> check_waiters i r0 = (r', a) ->
    (forall x, x ∈ task <$> waiters_ r' -> x ∈ task <$> waiters_ r \/ x = current_ s) /\
    (forall o g, a = Await o g -> o = Block \/ exists x, o = Unblock x /\ x ∈ task <$> waiters_ r)) as Hcheck.
  { intros i r0 Hsub [-> Ha]%check_waiters_list. split; [intros x Hx; left; by apply Hsub|].
    intros o g ->. right. destruct Ha as [|(w & n & [= -> ->] & Hw)]; [done|].
    exists (task w). split; [done|]. by apply Hsub, list_elem_of_fmap_2. }
  destruct f as [b|i|b| |b al cl|b al]; cbn [run].
  - apply (Hcheck 0%nat). done.
  - unfold compact_waiters. destruct (waiters_ r) as [|v l] eqn:El; [by intros [= <- <-]; rewrite El; split; [left|]|].
    rewrite <-El in *. apply Hcheck. intros x (w & -> & Hw)%list_elem_of_fmap. apply list_elem_of_fmap_2.
    apply (elem_of_compact i); [by rewrite El|done].
  - intros [= <- <-]. by split; [left|].
  - intros [= <- <-]. by split; [left|].
  - unfold wait_bits. destruct (negb _); intros [= <- <-].
    + split; [|intros o g [= <- <-]; by left]. cbn [waiters_]. intros x. unfold register.
      case_match; [|by left]. rewrite fmap_app, elem_of_app. intros [|Hx]; [by left|right].
      by apply list_elem_of_singleton in Hx.
    + split; [|done]. intros x. left. by destruct cl.
  - intros [= <- <-]. by split; [left|].
Qed.

(** A lost waiter stays where it is whatever the others do. *)
Lemma lost_move j f (c c' : event_config) r s0 s' x :
  lost j f c -> out j s' -> current_ s0 <> j ->
  (forall y, y ∈ task <$> waiters_ r -> y ∈ task <$> waiters_ (res c) \/ y = current_ s0) ->
  sched c' = s' -> res c' = r -> contexts c' = <[current_ s0 := x]> (contexts c) ->
  lost j f c'.
Proof.
  intros (_ & Hd & Hl) Ho Hc Hr Es Er Hx. unfold lost. rewrite Es, Er. split; [done|]. split.
  - rewrite <-Hd. unfold doing, context_of. rewrite Hx. by rewrite lookup_insert_ne.
  - intros [Hj|Hj]%Hr; congruence.
Qed.

Lemma lost_exec j f (c c' : event_config) s g :
  lost j f c -> out j s -> exec (current_ s) s g c = Next c' -> lost j f c'.
Proof.
  intros Hl Ho Hx. unfold exec in Hx. cbn [resume component] in Hx.
  destruct (run s g (res c)) as [r a] eqn:E. apply segment_waiters in E as [Hw Ha].
  assert (current_ s <> j) as Hc by apply Ho. destruct a as [v|o g'|]; [| |done].
  - injection Hx as <-. by eapply (lost_move j f c _ r s s).
  - unfold call in Hx. destruct (sched_step s o) as [[sw s']|] eqn:Es; [|done]. injection Hx as <-.
    eapply (lost_move j f c _ r s s'); try done. apply (out_step j s o sw); [done| |done].
    destruct (Ha o g' eq_refl) as [->|(y & -> & Hy)]; [done|]. cbn. intros [= ->].
    by apply Hl in Hy.
Qed.

Lemma lost_step j f (c c' : event_config) i :
  lost j f c -> disciplined c i -> kstep (M := method) c i = Next c' -> lost j f c'.
Proof.
  intros Hl Hd Hk. pose proof Hl as (Ho & Hdo & Hni). unfold kstep in Hk.
  assert (current_ (sched c) <> j) as Hc by apply Ho.
  destruct (context_of c (current_ (sched c))) as [sw k].
  set (s := if sw then _ else _) in Hk.
  assert (out j s) as Hs by (unfold s; destruct sw; [by apply out_update|done]).
  assert (current_ s = current_ (sched c)) as Ec by (unfold s; by destruct sw).
  rewrite <-Ec in Hk. destruct k as [|g|], i as [|m|o]; try done.
  - by apply (lost_exec j f c c' s (start m)).
  - unfold call in Hk. destruct (sched_step s o) as [[sw' s']|] eqn:Es; [|done]. injection Hk as <-.
    eapply (lost_move j f c _ (res c) s s'); try done; [|congruence|by left].
    apply (out_step j s o sw'); [done| |done]. intros E. destruct Hd as (_ & _ & Ht).
    apply Ht in E. congruence.
  - by apply (lost_exec j f c c' s g).
Qed.

Lemma lost_forever (mok : event_config -> method -> Prop) j f c c' :
  lost j f c -> continues (M := method) mok c c' -> lost j f c'.
Proof. intros Hl. induction 1 as [|c1 i c2 _ IH Hd _ Hk]; [done|]. by apply (lost_step j f c1 c2 i). Qed.

(** * Property *)

Definition any (c : event_config) (m : method) : Prop := True.

(** The running task is in its own code while another task is inside [set_bits],
    about to remove the waiter at index [i]: a call of [set_bits] would nest. *)
Definition preempts_set_bits (c : event_config) (i : nat) : Prop :=
  doing c (running c) = User /\ exists k, k <> running c /\ doing c k = At (Compact i).

Lemma any_reachable inputs :
  run_disciplined (fun _ _ => true) (boot new) inputs = true ->
  (match krun (boot new) inputs with Next _ => true | _ => false end) = true ->
  reachable any new (run_config (boot new : event_config) inputs).
Proof. by apply run_config_reachable. Qed.

(** Two waiters, one of them more urgent than the task that sets the bits; it is
    woken inside [set_bits]. *)
Definition woken_inside : list (input method) :=
  [Sys (Create 1); Sys (Create 2); Sys (Create 3); Sys Start; Sys (Delay 1);
   Invoke (WaitBits 2 true false); Sys (Delay 5); Invoke (WaitBits 1 true false);
   Invoke (SetBits 1); Go].

(** The same with this waiter only. *)
Definition woken_alone : list (input method) :=
  [Sys (Create 1); Sys (Create 3); Sys Start; Invoke (WaitBits 1 true false);
   Invoke (SetBits 1); Go].

(** C40: Preemption inside set_bits.  When [set_bits] wakes a more urgent task and that
    task calls [set_bits] before the first call has gone on, the inner call removes
    the waiter that the outer call was about to remove, and the outer call removes
    another one or reads outside the list.  (1) There is a run of a disciplined
    program with such a nested call after which no [set_bits] is under way, a task
    sits in [wait_bits] on a condition that holds, and it stays blocked there, on no
    wait list, in every state the system can go on to by any steps of a disciplined
    program.  (2) There is one in which the outer call finds the list empty when the
    inner call has come back, and its next step, which decrements the count below
    zero and reads [waiters_] out of bounds, is undefined behaviour. *)
Theorem set_bits_reentrant :
  (exists c i rest c' j bits,
     reachable any new c /\ preempts_set_bits c i /\
     krun c (Invoke (SetBits 0) :: rest) = Next c' /\ reachable any new c' /\
     (forall k n, doing c' k <> At (Compact n)) /\ satisfied (res c') bits true = true /\
     forall c'', continues any c' c'' ->
       doing c'' j = At (WaitLoop bits true false) /\ parked (sched c'') j /\
       j ∉ task <$> waiters_ (res c'')) /\
  (exists c i rest c',
     reachable any new c /\ preempts_set_bits c i /\
     krun c (Invoke (SetBits 0) :: rest) = Next c' /\ reachable any new c' /\
     doing c' (running c') = At (Compact i) /\ waiters_ (res c') = [] /\
     kstep c' Go = Undefined).
Proof.
  split.
  - set (rest := [Go; Sys (Delay 100); Go; Invoke (SetBits 2)] : list (input method)).
    set (c := run_config (boot new : event_config) woken_inside).
    set (c' := run_config (boot new : event_config) (woken_inside ++ Invoke (SetBits 0) :: rest)).
    exists c, 1%nat, rest, c', 1%nat, 2.
    split; [apply any_reachable; by vm_compute|].
    split; [split; [by vm_compute|exists 2%nat; split; by vm_compute]|].
    split; [by vm_compute|]. split; [apply any_reachable; by vm_compute|].
    split; [intros k n E; by apply (aloneb_ok c' (SetBits 0) eq_refl k n)|].
    split; [by vm_compute|].
    assert (lost 1 (WaitLoop 2 true false) c') as Hl.
    { split; [split; [apply parkedb_ok; by vm_compute|by vm_compute]|].
      split; [by vm_compute|]. assert (waiters_ (res c') = []) as -> by (by vm_compute).
      apply not_elem_of_nil. }
    intros c'' Hc. apply (lost_forever any _ _ _ _ Hl) in Hc as ((Hp & _) & Hd & Hn). done.
  - set (rest := [Go; Sys (Delay 100)] : list (input method)).
    exists (run_config (boot new : event_config) woken_alone), 0%nat, rest,
      (run_config (boot new : event_config) (woken_alone ++ Invoke (SetBits 0) :: rest)).
    split; [apply any_reachable; by vm_compute|].
    split; [split; [by vm_compute|exists 1%nat; split; by vm_compute]|].
    split; [by vm_compute|]. split; [apply any_reachable; by vm_compute|].
    by vm_compute.
Qed.
