(* ===== verification/Program.v ===== *)
(** Programs of several tasks: the functions given to [xTaskCreate], and main, as
    trees of what they do, run on the kernel with the objects they share.

    Between two calls a task has its processor for itself, so straight-line code is
    one function on the global variables [G]. *)
From S2P Require Export Kernel.

(** * Two objects side by side *)

Definition map_action {F F' V V'} (f : F -> F') (g : V -> V') (a : action F V) : action F' V' :=
  match a with
  | Finish v => Finish (g v)
  | Await o k => Await o (f k)
  | Crash => Crash
  end.

#[global] Instance pair_component {R1 M1 F1 V1 R2 M2 F2 V2}
    `{Component R1 M1 F1 V1} `{Component R2 M2 F2 V2} :
    Component (R1 * R2) (M1 + M2) (F1 + F2) (V1 + V2) := {|
  start m := match m with inl m => inl (start m) | inr m => inr (start m) end;
  resume s f r :=
    match f with
    | inl f => let '(r1, a) := resume s f (fst r) in ((r1, snd r), map_action inl inl a)
    | inr f => let '(r2, a) := resume s f (snd r) in ((fst r, r2), map_action inr inr a)
    end
|}.

(** * Tasks *)

Section Program.
Context {R M F V : Type} `{Component R M F V} {G : Type}.

(** [Spawn] is [xTaskCreate]; [NoFuel] marks where a bounded model of an endless
    loop ends. *)
Inductive prog : Type :=
  | Return
  | Invokes (m : M) (k : V -> prog)
  | Calls (o : Scheduler.sched_op) (k : prog)
  | Spawn (prio : Z) (body k : prog)
  | Do (f : Scheduler.t -> G -> G) (k : prog)
  | Read (k : Scheduler.t -> G -> prog)
  | NoFuel.

(** A task is in its own code, or waits for a method to return. *)
Inductive task_code : Type :=
  | Own (p : prog)
  | Calling (k : V -> prog).

Record system : Type := mkSystem {
  conf : config R F V;
  globals : G;
  code : gmap nat task_code
}.

Definition set_code (e : nat) (k : task_code) (d : system) (c : config R F V) : system :=
  mkSystem c (globals d) (<[e := k]> (code d)).

(** What a task is in after its method made a step. *)
Definition returned (k : V -> prog) (c : config R F V) : task_code :=
  match trace c with
  | Ran _ _ _ (Finish v) :: _ => Own (k v)
  | _ => Calling k
  end.

(** [Ended]: main has returned. *)
Inductive progress : Type :=
  | Going (d : system)
  | Ended (d : system)
  | Stuck.

Definition system_step (d : system) : progress :=
  let c := conf d in
  let e := Scheduler.current_ (sched c) in
  match snd (context_of c e), code d !! e with
  | At _, Some (Calling k) =>
      match kstep c Go with Next c' => Going (set_code e (returned k c') d c') | _ => Stuck end
  | User, Some (Own p) =>
      match p with
      | Return =>
          if (e =? Scheduler.INVALID_TASK)%nat then Ended d
          else match kstep c (Sys Scheduler.Exit) with Next c' => Going (set_code e (Own Return) d c') | _ => Stuck end
      | Invokes m k =>
          match kstep c (Invoke m) with Next c' => Going (set_code e (returned k c') d c') | _ => Stuck end
      | Calls o k =>
          match kstep c (Sys o) with Next c' => Going (set_code e (Own k) d c') | _ => Stuck end
      | Spawn prio body k =>
          match kstep c (Sys (Scheduler.Create prio)) with
          | Next c' => Going (mkSystem c' (globals d)
                         (<[e := Own k]> (<[Scheduler.task_count_ (sched c) := Own body]> (code d))))
          | _ => Stuck
          end
      | Do f k => Going (mkSystem c (f (sched c) (globals d)) (<[e := Own k]> (code d)))
      | Read k => Going (set_code e (Own (k (sched c) (globals d))) d c)
      | NoFuel => Stuck
      end
  | _, _ => Stuck
  end.

(** [None]: out of steps, or stuck. *)
Fixpoint system_run (n : nat) (d : system) : option system :=
  match n with
  | O => None
  | S n => match system_step d with
           | Going d => system_run n d
           | Ended d => Some d
           | Stuck => None
           end
  end.

(** Main runs in the idle context. *)
Definition system_boot (r : R) (g : G) (main : prog) : system :=
  mkSystem (boot r) g {[ Scheduler.INVALID_TASK := Own main ]}.

End Program.
Arguments prog : clear implicits.
Arguments task_code : clear implicits.
Arguments system : clear implicits.
