(* ===== verification/Blinky.v ===== *)
(** src/demo/blinky.cpp: producer, consumer and watchdog over a queue, a semaphore
    and an event group. *)
From S2P Require Export Text Program Semaphore Queue EventGroup.

#[local] Open Scope string_scope.
#[local] Open Scope Z_scope.

Module Blinky.
Import Scheduler.

#[global] Instance item_queue : Component (Queue.t Z) (Queue.method Z) (Queue.frame Z) (Queue.value Z) :=
  Queue.component 8.

Definition objects : Type := Queue.t Z * (Semaphore.t * EventGroup.t).
Definition method : Type := Queue.method Z + (Semaphore.method + EventGroup.method).
Definition frame : Type := Queue.frame Z + (Semaphore.frame + EventGroup.frame).
Definition value : Type := Queue.value Z + (Semaphore.value + EventGroup.value).

Definition BIT_PRODUCED : Z := 0x01.
Definition BIT_CONSUMED : Z := 0x02.
Definition TOTAL_ITEMS : Z := 10.

Record globals : Type := mkGlobals {
  g_produced : Z;
  g_consumed : Z;
  cout : list string;    (* lines, oldest first *)
  cerr : list string
}.

Definition print (f : Z -> string) (s : Scheduler.t) (g : globals) : globals :=
  mkGlobals (g_produced g) (g_consumed g) (cout g ++ [f (tick_count_ s)])%list (cerr g).
Definition complain (line : string) (_ : Scheduler.t) (g : globals) : globals :=
  mkGlobals (g_produced g) (g_consumed g) (cout g) (cerr g ++ [line])%list.
Definition count_produced (_ : Scheduler.t) (g : globals) : globals :=
  mkGlobals (g_produced g + 1) (g_consumed g) (cout g) (cerr g).
Definition count_consumed (_ : Scheduler.t) (g : globals) : globals :=
  mkGlobals (g_produced g) (g_consumed g + 1) (cout g) (cerr g).

Definition program : Type := prog method value globals.

Definition line (who : string) (item tick : Z) : string :=
  "[" ++ right 4 (dec tick) ++ "ms] " ++ who ++ " item=" ++ dec item.

(** The loop of [producer_task] with [n] items to go, from item [i] on. *)
Fixpoint producer_loop (n : nat) (i : Z) : program :=
  match n with
  | O => Invokes (inr (inl Semaphore.Give)) (fun _ => Return)
  | S n =>
      Invokes (inl (Queue.Send i)) (fun _ =>
      Do count_produced (
      Invokes (inr (inr (EventGroup.SetBits BIT_PRODUCED))) (fun _ =>
      Do (print (line "PROD" i)) (
      Calls (Delay 10) (producer_loop n (i + 1))))))
  end.
Definition producer_task : program := producer_loop (Z.to_nat TOTAL_ITEMS) 0.

Definition item_of (v : value) : Z :=
  match v with inl (Queue.Received x) => x | _ => 0 end.

Fixpoint consumer_loop (n : nat) : program :=
  match n with
  | O => Return
  | S n =>
      Invokes (inl Queue.Receive) (fun item =>
      Do count_consumed (
      Invokes (inr (inr (EventGroup.SetBits BIT_CONSUMED))) (fun _ =>
      Do (print (line "CONS" (item_of item))) (
      Calls (Delay 5) (consumer_loop n)))))
  end.
Definition consumer_task : program := consumer_loop (Z.to_nat TOTAL_ITEMS).

Definition TIMEOUT : Z := 500.
Definition INTERVAL : Z := 100.

(** The loop of [watchdog_task], at most [n] times. *)
Fixpoint watchdog_loop (n : nat) : program :=
  match n with
  | O => NoFuel
  | S n =>
      Read (fun s g =>
      if (g_produced g <? TOTAL_ITEMS) || (g_consumed g <? TOTAL_ITEMS) then
        let before := tick_count_ s in
        Calls (Delay INTERVAL) (Read (fun s _ =>
        let after := tick_count_ s in
        Invokes (inr (inr (EventGroup.CheckBits (BIT_PRODUCED .| BIT_CONSUMED) false))) (fun v =>
        let ok := match v with inr (inr (EventGroup.Checked b)) => b | _ => false end in
        if negb ok && (TIMEOUT <=? u32 (after - before)) then
          Do (complain ("[WATCHDOG] No activity for " ++ dec TIMEOUT ++ " ms -- system stuck!")) Return
        else
          Invokes (inr (inr (EventGroup.ClearBits (BIT_PRODUCED .| BIT_CONSUMED)))) (fun _ =>
          watchdog_loop n))))
      else Do (print (fun _ => "[WATCHDOG] All tasks healthy -- done.")) Return)
  end.

Definition WATCHDOG_FUEL : nat := 20.
Definition watchdog_task : program := watchdog_loop WATCHDOG_FUEL.

Definition main : program :=
  Do (print (fun _ => "=== MCU Simulator RTOS Demo ===")) (
  Do (print (fun _ => "")) (
  Spawn 0 watchdog_task (
  Spawn 1 producer_task (
  Spawn 1 consumer_task (
  Calls Start (
  Read (fun _ g =>
  Do (print (fun _ => "")) (
  Do (print (fun _ => "=== Results ===")) (
  Do (print (fun _ => "  Items produced : " ++ dec (g_produced g) ++ " / " ++ dec TOTAL_ITEMS)) (
  Do (print (fun _ => "  Items consumed : " ++ dec (g_consumed g) ++ " / " ++ dec TOTAL_ITEMS)) (
  Do (print (fun tick => "  Sim time       : " ++ dec tick ++ " ms")) Return))))))))))).

Definition exit_status (g : globals) : Z :=
  if (g_produced g =? TOTAL_ITEMS) && (g_consumed g =? TOTAL_ITEMS) then 0 else 1.

Definition boot : system objects method frame value globals :=
  system_boot (Queue.new 8, (Semaphore.new 0 0x7FFFFFFF, EventGroup.new)) (mkGlobals 0 0 [] []) main.

End Blinky.
