(* ===== verification/Uart.v ===== *)
(** src/peripherals/uart.h, uart.cpp: the UART.  The operations of the class
    over its two circular FIFOs, and the queue-level specification they
    implement. *)
From S2P Require Export Ring Peripheral.

Module Uart.

Definition FIFO_SIZE : nat := 256.

Definition REG_DR : Z := 0x00.
Definition REG_SR : Z := 0x04.
Definition REG_CR : Z := 0x08.
Definition REG_IRQ_THR : Z := 0x0C.
Definition REG_FIFO_LVL : Z := 0x10.

Definition SR_TX_EMPTY : Z := 1 .<< 0.
Definition SR_RX_READY : Z := 1 .<< 1.
Definition SR_RX_FULL : Z := 1 .<< 2.
Definition SR_TX_FULL : Z := 1 .<< 3.
Definition SR_RX_IRQ : Z := 1 .<< 4.

Definition CR_ENABLE : Z := 1 .<< 0.
Definition CR_RX_IRQ_EN : Z := 1 .<< 1.
Definition CR_LOOPBACK : Z := 1 .<< 2.

(** [tx_fifo_], [tx_head_], [tx_tail_], [tx_count_] are [tx_]; likewise [rx_]. *)
Record t : Type := mkUart {
  tx_ : ring Z;
  rx_ : ring Z;
  cr_ : Z;
  irq_thr_ : Z
}.

(** The constructor. *)
Definition new_uart : t :=
  mkUart (new_ring FIFO_SIZE 0) (new_ring FIFO_SIZE 0) CR_ENABLE 1.

Definition tx_push (u : t) (b : Z) : bool * t :=
  match push FIFO_SIZE (tx_ u) b with
  | None => (false, u)
  | Some r => (true, mkUart r (rx_ u) (cr_ u) (irq_thr_ u))
  end.

(** The byte popped is the out-parameter, written when [true] is returned. *)
Definition tx_pop (u : t) : option Z * t :=
  match pop FIFO_SIZE (tx_ u) with
  | None => (None, u)
  | Some (b, r) => (Some b, mkUart r (rx_ u) (cr_ u) (irq_thr_ u))
  end.

Definition rx_push (u : t) (b : Z) : bool * t :=
  match push FIFO_SIZE (rx_ u) b with
  | None => (false, u)
  | Some r => (true, mkUart (tx_ u) r (cr_ u) (irq_thr_ u))
  end.

Definition rx_pop (u : t) : option Z * t :=
  match pop FIFO_SIZE (rx_ u) with
  | None => (None, u)
  | Some (b, r) => (Some b, mkUart (tx_ u) r (cr_ u) (irq_thr_ u))
  end.

Definition tx_count (u : t) : nat := count_ (tx_ u).
Definition rx_count (u : t) : nat := count_ (rx_ u).

Definition rx_irq_pending (u : t) : bool := irq_thr_ u <=? Z.of_nat (rx_count u).

Definition build_sr (u : t) : Z :=
  let sr := 0 in
  let sr := if (tx_count u <? FIFO_SIZE)%nat then sr .| SR_TX_EMPTY else sr in
  let sr := if (0 <? rx_count u)%nat then sr .| SR_RX_READY else sr in
  let sr := if (rx_count u =? FIFO_SIZE)%nat then sr .| SR_RX_FULL else sr in
  let sr := if (tx_count u =? FIFO_SIZE)%nat then sr .| SR_TX_FULL else sr in
  let sr := if negb (cr_ u .& CR_RX_IRQ_EN =? 0) && rx_irq_pending u
            then sr .| SR_RX_IRQ else sr in
  sr.

Definition read_reg (u : t) (offset : Z) : Z * t :=
  if offset =? REG_DR then
    let '(b, u') := rx_pop u in (default 0 b, u')
  else if offset =? REG_SR then (build_sr u, u)
  else if offset =? REG_CR then (cr_ u, u)
  else if offset =? REG_IRQ_THR then (irq_thr_ u, u)
  else if offset =? REG_FIFO_LVL then
    (u32 (Z.of_nat (tx_count u) .<< 8) .| Z.of_nat (rx_count u), u)
  else (0, u).

Definition write_reg (u : t) (offset val : Z) : t :=
  if offset =? REG_DR then
    let b := u8 (val .& 0xFF) in
    if negb (cr_ u .& CR_LOOPBACK =? 0) then snd (rx_push u b)
    else snd (tx_push u b)
  else if offset =? REG_CR then mkUart (tx_ u) (rx_ u) (val .& 0x07) (irq_thr_ u)
  else if offset =? REG_IRQ_THR then
    mkUart (tx_ u) (rx_ u) (cr_ u)
      (if (val =? 0) || (Z.of_nat FIFO_SIZE <? val) then 1 else val)
  else u.

Definition inject_rx (u : t) (byte : Z) : bool * t := rx_push u byte.
Definition consume_tx (u : t) : option Z * t := tx_pop u.

(** The loop of [drain_tx]; [None] when the fuel runs out before it ends. *)
Fixpoint drain_loop (fuel : nat) (u : t) (acc : list Z) : option (list Z * t) :=
  match fuel with
  | O => None
  | S fuel =>
      match tx_pop u with
      | (Some b, u') => drain_loop fuel u' (acc ++ [b])
      | (None, u') => Some (acc, u')
      end
  end.

Definition drain_tx (u : t) : option (list Z * t) := drain_loop (S FIFO_SIZE) u [].

Definition reset (u : t) : t := mkUart (rewind (tx_ u)) (rewind (rx_ u)) CR_ENABLE 1.

Definition device : IPeripheral t := mkPeriph read_reg write_reg.

(** * Calls *)

(** A call of the public interface, and what it returns. *)
Inductive op : Type :=
  | ReadReg (offset : Z)
  | WriteReg (offset val : Z)
  | InjectRx (byte : Z)
  | ConsumeTx
  | DrainTx
  | Reset.

Inductive ret : Type :=
  | RVal (v : Z)
  | RBool (b : bool)
  | RByte (b : option Z)
  | RBytes (l : list Z)
  | RVoid.

Definition call (u : t) (o : op) : option (ret * t) :=
  match o with
  | ReadReg off => let '(v, u') := read_reg u off in Some (RVal v, u')
  | WriteReg off v => Some (RVoid, write_reg u off v)
  | InjectRx b => let '(r, u') := inject_rx u b in Some (RBool r, u')
  | ConsumeTx => let '(b, u') := consume_tx u in Some (RByte b, u')
  | DrainTx => match drain_tx u with
               | Some (l, u') => Some (RBytes l, u')
               | None => None
               end
  | Reset => Some (RVoid, reset u)
  end.

Fixpoint calls (u : t) (l : list op) : option (list ret * t) :=
  match l with
  | [] => Some ([], u)
  | o :: l =>
      match call u o with
      | None => None
      | Some (r, u1) =>
          match calls u1 l with
          | None => None
          | Some (rs, u2) => Some (r :: rs, u2)
          end
      end
  end.

End Uart.
