(* ===== verification/UartProps.v ===== *)
(** The UART implements a pair of bounded queues with four registers: the
    specification at that level and the refinement. *)
From Stdlib Require Import ZifyBool.
From S2P Require Export Uart PeripheralProps.

Import Uart.

(** * Specification *)

Module UartSpec.

Record state : Type := mkState {
  tx : list Z;
  rx : list Z;
  cr : Z;
  thr : Z
}.

Definition initial : state := mkState [] [] 1 1.

Definition full (l : list Z) : bool := (length l =? 256)%nat.
Definition enqueue (l : list Z) (b : Z) : list Z := if full l then l else l ++ [b].

(** SR: TX has room, RX has data, RX full, TX full, RX interrupt. *)
Definition status (s : state) : Z :=
  b2z (negb (full (tx s))) + 2 * b2z (negb (length (rx s) =? 0)%nat) +
  4 * b2z (full (rx s)) + 8 * b2z (full (tx s)) +
  16 * b2z (bit (cr s) 1 && (thr s <=? Z.of_nat (length (rx s)))).

(** FIFO_LVL: the two counts; a full RX queue shows in the low bit of TX's. *)
Definition level (s : state) : Z :=
  if full (rx s) then 256 * (Z.of_nat (length (tx s)) .| 1)
  else 256 * Z.of_nat (length (tx s)) + Z.of_nat (length (rx s)).

Definition read_reg (s : state) (off : Z) : Z * state :=
  if off =? 0x00 then (hd 0 (rx s), mkState (tx s) (tl (rx s)) (cr s) (thr s))
  else if off =? 0x04 then (status s, s)
  else if off =? 0x08 then (cr s, s)
  else if off =? 0x0C then (thr s, s)
  else if off =? 0x10 then (level s, s)
  else (0, s).

Definition write_reg (s : state) (off v : Z) : state :=
  if off =? 0x00 then
    if bit (cr s) 2 then mkState (tx s) (enqueue (rx s) (v mod 256)) (cr s) (thr s)
    else mkState (enqueue (tx s) (v mod 256)) (rx s) (cr s) (thr s)
  else if off =? 0x08 then mkState (tx s) (rx s) (v mod 8) (thr s)
  else if off =? 0x0C then
    mkState (tx s) (rx s) (cr s) (if (1 <=? v) && (v <=? 256) then v else 1)
  else s.

Definition call (s : state) (o : op) : ret * state :=
  match o with
  | ReadReg off => let '(v, s') := read_reg s off in (RVal v, s')
  | WriteReg off v => (RVoid, write_reg s off v)
  | InjectRx b =>
      (RBool (negb (full (rx s))), mkState (tx s) (enqueue (rx s) b) (cr s) (thr s))
  | ConsumeTx => (RByte (head (tx s)), mkState (tl (tx s)) (rx s) (cr s) (thr s))
  | DrainTx => (RBytes (tx s), mkState [] (rx s) (cr s) (thr s))
  | Reset => (RVoid, initial)
  end.

Fixpoint calls (s : state) (l : list op) : list ret * state :=
  match l with
  | [] => ([], s)
  | o :: l =>
      let '(r, s1) := call s o in
      let '(rs, s2) := calls s1 l in (r :: rs, s2)
  end.

End UartSpec.

(** * Refinement *)

Definition uart_wf (u : t) : Prop :=
  ring_wf FIFO_SIZE (tx_ u) /\ ring_wf FIFO_SIZE (rx_ u) /\
  in_u32 (cr_ u) /\ 1 <= irq_thr_ u <= 256.

Definition uart_abs (u : t) : UartSpec.state :=
  UartSpec.mkState (contents FIFO_SIZE (tx_ u)) (contents FIFO_SIZE (rx_ u)) (cr_ u) (irq_thr_ u).

Lemma new_uart_wf : uart_wf new_uart.
Proof.
  split; [|split; [|split]]; [apply new_ring_wf; unfold FIFO_SIZE; lia..|done|done].
Qed.

Section Queues.
Variables (u : t) (Hu : uart_wf u).

Lemma tx_push_spec b :
  uart_wf (snd (tx_push u b)) /\
  uart_abs (snd (tx_push u b)) =
  UartSpec.mkState (UartSpec.enqueue (contents FIFO_SIZE (tx_ u)) b)
    (contents FIFO_SIZE (rx_ u)) (cr_ u) (irq_thr_ u).
Proof.
  destruct Hu as (Ht & Hr & Hc & Hi). unfold tx_push, UartSpec.enqueue, UartSpec.full.
  pose proof (push_spec FIFO_SIZE (tx_ u) b Ht) as E. change 256%nat with FIFO_SIZE.
  destruct (_ =? _)%nat.
  - rewrite E. split; [exact Hu|done].
  - destruct E as (r & -> & Hw & Ec). split; [by split|]. unfold uart_abs; simpl. by rewrite Ec.
Qed.

Lemma rx_push_spec b :
  uart_wf (snd (rx_push u b)) /\
  fst (rx_push u b) = negb (UartSpec.full (contents FIFO_SIZE (rx_ u))) /\
  uart_abs (snd (rx_push u b)) =
  UartSpec.mkState (contents FIFO_SIZE (tx_ u))
    (UartSpec.enqueue (contents FIFO_SIZE (rx_ u)) b) (cr_ u) (irq_thr_ u).
Proof.
  destruct Hu as (Ht & Hr & Hc & Hi). unfold rx_push, UartSpec.enqueue, UartSpec.full.
  pose proof (push_spec FIFO_SIZE (rx_ u) b Hr) as E. change 256%nat with FIFO_SIZE.
  destruct (_ =? _)%nat.
  - rewrite E. split; [exact Hu|done].
  - destruct E as (r & -> & Hw & Ec). split; [by split|]. unfold uart_abs; simpl. by rewrite Ec.
Qed.

Lemma rx_pop_spec :
  uart_wf (snd (rx_pop u)) /\
  fst (rx_pop u) = List.head (contents FIFO_SIZE (rx_ u)) /\
  uart_abs (snd (rx_pop u)) =
  UartSpec.mkState (contents FIFO_SIZE (tx_ u)) (tl (contents FIFO_SIZE (rx_ u)))
    (cr_ u) (irq_thr_ u).
Proof.
  destruct Hu as (Ht & Hr & Hc & Hi). unfold rx_pop.
  pose proof (pop_spec FIFO_SIZE (rx_ u) Hr) as E.
  destruct (contents FIFO_SIZE (rx_ u)) as [|b l] eqn:El.
  - rewrite E. split; [exact Hu|]. split; [done|]. unfold uart_abs; simpl. by rewrite El.
  - destruct E as (r & -> & Hw & Ec). split; [by split|]. split; [done|].
    unfold uart_abs; simpl. by rewrite Ec.
Qed.

Lemma tx_pop_spec :
  uart_wf (snd (tx_pop u)) /\
  fst (tx_pop u) = List.head (contents FIFO_SIZE (tx_ u)) /\
  uart_abs (snd (tx_pop u)) =
  UartSpec.mkState (tl (contents FIFO_SIZE (tx_ u))) (contents FIFO_SIZE (rx_ u))
    (cr_ u) (irq_thr_ u).
Proof.
  destruct Hu as (Ht & Hr & Hc & Hi). unfold tx_pop.
  pose proof (pop_spec FIFO_SIZE (tx_ u) Ht) as E.
  destruct (contents FIFO_SIZE (tx_ u)) as [|b l] eqn:El.
  - rewrite E. split; [exact Hu|]. split; [done|]. unfold uart_abs; simpl. by rewrite El.
  - destruct E as (r & -> & Hw & Ec). split; [by split|]. split; [done|].
    unfold uart_abs; simpl. by rewrite Ec.
Qed.

End Queues.

(** The drain loop stops when the FIFO is empty, within one test more than it
    holds bytes. *)
Lemma drain_loop_spec fuel u acc :
  uart_wf u -> (tx_count u < fuel)%nat ->
  exists u', drain_loop fuel u acc = Some (acc ++ contents FIFO_SIZE (tx_ u), u') /\
    uart_wf u' /\
    uart_abs u' = UartSpec.mkState [] (contents FIFO_SIZE (rx_ u)) (cr_ u) (irq_thr_ u).
Proof.
  revert u acc. induction fuel as [|fuel IH]; intros u acc Hu Hf; [lia|].
  pose proof (tx_pop_spec u Hu) as (Hw & Hb & Ha). unfold tx_count in Hf.
  rewrite <-(length_contents FIFO_SIZE) in Hf. simpl.
  destruct (tx_pop u) as [o u'] eqn:E; simpl in *. subst o.
  destruct (contents FIFO_SIZE (tx_ u)) as [|b l] eqn:El; simpl.
  - exists u'. rewrite app_nil_r. done.
  - injection Ha as E1 E2 E3 E4.
    destruct (IH u' (acc ++ [b]) Hw) as (u2 & H1 & H2 & H3).
    { unfold tx_count. rewrite <-(length_contents FIFO_SIZE), E1. simpl in Hf. lia. }
    exists u2. rewrite H1, E1, <-app_assoc. split; [done|]. split; [done|].
    by rewrite H3, E2, E3, E4.
Qed.

Lemma status_spec u : uart_wf u -> build_sr u = UartSpec.status (uart_abs u).
Proof.
  intros (Ht & Hr & _). destruct Ht as (_ & _ & _ & Ht & _), Hr as (_ & _ & _ & Hr & _).
  unfold build_sr, UartSpec.status, UartSpec.full, rx_irq_pending, uart_abs, tx_count, rx_count.
  simpl UartSpec.tx. simpl UartSpec.rx. simpl UartSpec.cr. simpl UartSpec.thr.
  rewrite !length_contents. change 256%nat with FIFO_SIZE.
  unfold CR_RX_IRQ_EN. rewrite bit_mask_test by lia.
  assert ((count_ (tx_ u) <? FIFO_SIZE)%nat = negb (count_ (tx_ u) =? FIFO_SIZE)%nat) as ->
    by (destruct (Nat.ltb_spec (count_ (tx_ u)) FIFO_SIZE),
          (Nat.eqb_spec (count_ (tx_ u)) FIFO_SIZE); simpl; lia || done).
  assert ((0 <? count_ (rx_ u))%nat = negb (count_ (rx_ u) =? 0)%nat) as ->
    by (by destruct (count_ (rx_ u))).
  by destruct (_ =? FIFO_SIZE)%nat, (_ =? 0)%nat, (_ =? FIFO_SIZE)%nat, (_ && _).
Qed.

Lemma level_spec u :
  uart_wf u ->
  u32 (Z.of_nat (tx_count u) .<< 8) .| Z.of_nat (rx_count u) = UartSpec.level (uart_abs u).
Proof.
  intros (Ht & Hr & _). destruct Ht as (_ & _ & _ & Ht & _), Hr as (_ & _ & _ & Hr & _).
  unfold UartSpec.level, UartSpec.full, uart_abs, tx_count, rx_count, FIFO_SIZE in *.
  simpl UartSpec.tx. simpl UartSpec.rx. rewrite !length_contents.
  rewrite u32_small by (unfold in_u32; rewrite Z.shiftl_mul_pow2 by lia; lia).
  destruct (Nat.eqb_spec (count_ (rx_ u)) 256) as [->|].
  - change (Z.of_nat 256) with (1 .<< 8). rewrite <-Z.shiftl_lor, Z.shiftl_mul_pow2 by lia. lia.
  - rewrite lor_shiftl by lia. lia.
Qed.

(** Arguments of the types of the code's parameters. *)
Definition op_wf (o : op) : Prop :=
  match o with
  | ReadReg off => in_u32 off
  | WriteReg off v => in_u32 off /\ in_u32 v
  | InjectRx b => in_u8 b
  | _ => True
  end.

Lemma call_refines u o :
  uart_wf u -> op_wf o ->
  exists r u', call u o = Some (r, u') /\ uart_wf u' /\
    UartSpec.call (uart_abs u) o = (r, uart_abs u').
Proof.
  intros Hu Ho. pose proof Hu as (Ht & Hr & Hc & Hi).
  destruct o as [off|off v|b| | |]; simpl.
  - unfold read_reg, UartSpec.read_reg, REG_DR, REG_SR, REG_CR, REG_IRQ_THR, REG_FIFO_LVL.
    repeat case_if; try (eexists _, _; split; [done|]; split; [done|done]).
    + pose proof (rx_pop_spec u Hu) as (Hw & Hb & Ha). destruct (rx_pop u) as [b u'].
      simpl in *. eexists _, _. split; [done|]. split; [done|]. rewrite Ha, Hb.
      by destruct (contents FIFO_SIZE (rx_ u)).
    + eexists _, _. split; [done|]. split; [done|]. by rewrite status_spec.
    + eexists _, _. split; [done|]. split; [done|]. by rewrite level_spec.
  - eexists _, _. split; [done|].
    unfold write_reg, UartSpec.write_reg, REG_DR, REG_CR, REG_IRQ_THR, CR_LOOPBACK.
    rewrite bit_mask_test by lia. simpl UartSpec.cr.
    assert (u8 (v .& 255) = v mod 256) as -> by
      (change 255 with (Z.ones 8); rewrite land_mask by lia; change (2 ^ 8) with 256; word_lia).
    assert ((v =? 0) || (Z.of_nat FIFO_SIZE <? v) = negb ((1 <=? v) && (v <=? 256))) as ->
      by (destruct Ho as [_ [Hv _]]; unfold FIFO_SIZE; lia).
    rewrite if_negb. repeat case_if; try (split; [done|done]).
    + destruct (rx_push_spec u Hu (v mod 256)) as (Hw & _ & ->). done.
    + destruct (tx_push_spec u Hu (v mod 256)) as (Hw & ->). done.
    + change 7 with (Z.ones 3). rewrite land_mask by lia. change (2 ^ 3) with 8.
      split; [|done]. split; [done|]. split; [done|]. split; [simpl; word_lia|done].
  - destruct (rx_push_spec u Hu b) as (Hw & Hb & Ha). unfold inject_rx.
    destruct (rx_push u b) as [r u']. simpl in *. eexists _, _. split; [done|].
    split; [done|]. by rewrite Ha, Hb.
  - pose proof (tx_pop_spec u Hu) as (Hw & Hb & Ha). unfold consume_tx.
    destruct (tx_pop u) as [b u']. simpl in *. eexists _, _. split; [done|].
    split; [done|]. by rewrite Ha, Hb.
  - destruct (drain_loop_spec (S FIFO_SIZE) u [] Hu) as (u' & E & Hw & Ha).
    { destruct Ht as (_ & _ & _ & Ht & _). unfold tx_count. lia. }
    unfold drain_tx. rewrite E. eexists _, _. split; [done|]. split; [done|]. by rewrite Ha.
  - eexists _, _. split; [done|]. split; [|done].
    split; [|split; [|done]]; by apply rewind_wf.
Qed.

(** * Properties *)

(** C19: The UART refines the queue specification.  Any sequence of calls on a
    new UART (register reads and writes, bytes injected, consumed, drained,
    resets) returns exactly what the bounded queues of [UartSpec] return, the
    drain loop included, and leaves the FIFOs holding those queues: no byte is
    lost, repeated or reordered below 256 bytes, and bytes beyond are dropped. *)
Theorem uart_refines (l : list op) :
  Forall op_wf l ->
  exists rs u', calls new_uart l = Some (rs, u') /\ uart_wf u' /\
    UartSpec.calls UartSpec.initial l = (rs, uart_abs u').
Proof.
  intros Hl. change UartSpec.initial with (uart_abs new_uart).
  generalize new_uart new_uart_wf. induction Hl as [|o l Ho Hl IH]; intros u Hu; simpl.
  - eauto.
  - destruct (call_refines u o Hu Ho) as (r & u1 & -> & Hu1 & ->).
    destruct (IH u1 Hu1) as (rs & u2 & -> & Hu2 & ->). eauto.
Qed.

(** In loopback mode, then reading back, then the status. *)
Lemma uart_refines_witness :
  let l := [WriteReg 8 7; WriteReg 0 0x41; WriteReg 0 0x42; ReadReg 0; ReadReg 4] in
  exists rs u', calls new_uart l = Some (rs, u') /\ uart_wf u' /\
    rs = [RVoid; RVoid; RVoid; RVal 0x41; RVal 0x13].
Proof.
  destruct (uart_refines [WriteReg 8 7; WriteReg 0 0x41; WriteReg 0 0x42; ReadReg 0; ReadReg 4])
    as (rs & u' & H1 & H2 & H3).
  { repeat constructor; lia. }
  exists rs, u'. split; [exact H1|]. split; [exact H2|].
  vm_compute in H3. injection H3 as <- _. reflexivity.
Defined.

(** Two UARTs on one bus, at their addresses of [PeriphMap]. *)
Definition uart0 : Member (t * t) t := {| get_member := fst; set_member u w := (u, snd w) |}.
Definition uart1 : Member (t * t) t := {| get_member := snd; set_member u w := (fst w, u) |}.
Definition two_uarts : list (PeripheralBus.Entry (W := t * t)) :=
  [PeripheralBus.mkEntry PeriphMap.UART0_BASE PeriphMap.REGION_SIZE (@member _ _ uart0 device);
   PeripheralBus.mkEntry PeriphMap.UART1_BASE PeriphMap.REGION_SIZE (@member _ _ uart1 device)].

Local Ltac periph_map :=
  unfold PeriphMap.UART0_BASE, PeriphMap.UART1_BASE, PeriphMap.REGION_SIZE.

(** Writing DR of the second UART leaves the first as it was. *)
Lemma bus_decode_witness :
  PeripheralBus.bus_write (PeripheralBus.mkBus two_uarts) (new_uart, new_uart) 0x40001000 0x41 =
  Ok (new_uart, write_reg new_uart 0 0x41).
Proof.
  destruct (bus_decode two_uarts) as [_ H].
  assert (Forall window_ok two_uarts) as Hw 
    by (apply List.Forall_cons; [|apply List.Forall_cons; [|apply List.Forall_nil]];
        unfold window_ok; simpl; periph_map; lia).
  assert (ForallOrdPairs disjoint two_uarts) as Hd.
  { repeat constructor. unfold disjoint. simpl. periph_map. lia. }
  assert (in_u32 0x40001000) as Ha by (split; reflexivity || lia).
  destruct (H Hw Hd 0x40001000 (new_uart, new_uart) 0x41 Ha) as [H1 _].
  destruct (H1 (PeripheralBus.mkEntry PeriphMap.UART1_BASE PeriphMap.REGION_SIZE
                  (@member _ _ uart1 device))) as (_ & _ & E).
  - right. left. reflexivity.
  - unfold in_window. simpl. periph_map. lia.
  - exact E.
Defined.
