(* ===== verification/SensorDemo.v ===== *)
(** src/demo/sensor_demo.cpp: a task that reads the LM75 over I2C and two that pass
    its readings on, to CAN and to the UART, all through the peripheral bus.

    The readings are multiples of half a degree, which a [float] holds exactly, and
    are counted in half degrees. *)
From S2P Require Export Text Program Queue Peripheral Uart Spi I2c Can.

#[local] Open Scope string_scope.
#[local] Open Scope Z_scope.

Module SensorDemo.
Import Scheduler.

Definition POLL_DELAY_TICKS : Z := 500.
Definition SENSOR_ERROR : Z := -999 * 2.
Definition TEMP_SCALE_BASE : Z := 250.

Record TempReading : Type := mkReading { r_tick : Z; raw : Z; celsius : Z }.
#[global] Instance TempReading_inhabited : Inhabited TempReading := populate (mkReading 0 0 0).

(** [to_can] and [to_uart]. *)
#[global] Instance reading_queue : Component (Queue.t TempReading) (Queue.method TempReading)
    (Queue.frame TempReading) (Queue.value TempReading) := Queue.component 8.

Definition objects : Type := Queue.t TempReading * Queue.t TempReading.
Definition method : Type := Queue.method TempReading + Queue.method TempReading.
Definition frame : Type := Queue.frame TempReading + Queue.frame TempReading.
Definition value : Type := Queue.value TempReading + Queue.value TempReading.

(** * The peripherals *)

Record devices : Type := mkDevices { uart0 : Uart.t; spi0 : Spi.t; i2c0 : I2c.t; can : Can.world }.

#[global] Instance uart0_member : Member devices Uart.t := {|
  get_member := uart0; set_member u d := mkDevices u (spi0 d) (i2c0 d) (can d) |}.
#[global] Instance spi0_member : Member devices Spi.t := {|
  get_member := spi0; set_member s d := mkDevices (uart0 d) s (i2c0 d) (can d) |}.
#[global] Instance i2c0_member : Member devices I2c.t := {|
  get_member := i2c0; set_member i d := mkDevices (uart0 d) (spi0 d) i (can d) |}.
#[global] Instance can_member : Member devices Can.world := {|
  get_member := can; set_member c d := mkDevices (uart0 d) (spi0 d) (i2c0 d) c |}.

(** [can_bus] is bus 0 with the nodes 0 and 1. *)
Definition new_devices : devices :=
  mkDevices Uart.new_uart Spi.new_spi I2c.new_i2c
    (Can.new_can 1 (Some 0%nat) (Can.new_can 0 (Some 0%nat) (Can.mkWorld ∅ {[ 0%nat := [] ]}))).

(** [uncaught] is the exception that would have left a task function. *)
Record globals : Type := mkGlobals {
  dev : devices;
  periph_bus : PeripheralBus.t (W := devices);
  uncaught : option periph_error;
  stdout : list string
}.

Definition with_dev (d : devices) (g : globals) : globals :=
  mkGlobals d (periph_bus g) (uncaught g) (stdout g).
Definition failed (e : periph_error) (g : globals) : globals :=
  mkGlobals (dev g) (periph_bus g) (Some e) (stdout g).
Definition print (s : string) (g : globals) : globals :=
  mkGlobals (dev g) (periph_bus g) (uncaught g) (stdout g ++ [s])%list.

Definition attach (base : Z) (p : IPeripheral devices) (g : globals) : globals :=
  match PeripheralBus.attach (periph_bus g) base p PeriphMap.REGION_SIZE with
  | Ok b => mkGlobals (dev g) b (uncaught g) (stdout g)
  | Err e => failed e g
  end.

Definition bus_write (addr v : Z) (g : globals) : globals :=
  match PeripheralBus.bus_write (periph_bus g) (dev g) addr v with
  | Ok d => with_dev d g
  | Err e => failed e g
  end.

Definition bus_read (addr : Z) (g : globals) : Z * globals :=
  match PeripheralBus.bus_read (periph_bus g) (dev g) addr with
  | Ok (v, d) => (v, with_dev d g)
  | Err e => (0, failed e g)
  end.

Definition program : Type := prog method value globals.

Definition write (addr v : Z) (k : program) : program := Do (fun _ => bus_write addr v) k.
Definition read (addr : Z) (k : Z -> program) : program :=
  Read (fun _ g => Do (fun _ _ => snd (bus_read addr g)) (k (fst (bus_read addr g)))).

(** * Task 1 *)

(** [post r k]: both sends. *)
Definition post (r : TempReading) (k : program) : program :=
  Invokes (inl (Queue.Send r)) (fun _ => Invokes (inr (Queue.Send r)) (fun _ => k)).

(** The reading that the two data bytes make. *)
Definition make_reading (tick msb lsb : Z) : TempReading :=
  let half := negb (lsb .& 0x80 =? 0) in
  mkReading tick (s16 ((s16 msb .<< 1) .| (if half then 1 else 0)))
    (2 * s8 msb + (if half then 1 else 0)).

Definition set_sensor (temp_c10 : Z) (_ : Scheduler.t) (g : globals) : globals :=
  let i := i2c0 (dev g) in
  with_dev (set_member (I2c.with_lm75 (Lm75.set_temperature_c10 (I2c.lm75_ i) temp_c10) i) (dev g)) g.

(** The loop from [reading] on, [n] times. *)
Fixpoint i2c_loop (n : nat) (reading : Z) : program :=
  match n with
  | O => Return
  | S n =>
      Calls (Delay POLL_DELAY_TICKS) (
      write (PeriphMap.I2C0_BASE + I2c.REG_REG_ADDR) Lm75.REG_TEMP (
      write (PeriphMap.I2C0_BASE + I2c.REG_CR) (Lm75.DEFAULT_ADDR .| I2c.CR_READ .| I2c.CR_START) (
      read (PeriphMap.I2C0_BASE + I2c.REG_SR) (fun sr =>
      if sr .& I2c.SR_ACK_OK =? 0 then
        Read (fun s _ => post (mkReading (tick_count_ s) (-1) SENSOR_ERROR) (i2c_loop n (reading + 1)))
      else
        read (PeriphMap.I2C0_BASE + I2c.REG_DR) (fun msb =>
        read (PeriphMap.I2C0_BASE + I2c.REG_DR) (fun lsb =>
        Read (fun s _ =>
        Do (set_sensor (TEMP_SCALE_BASE + reading * 5)) (
        post (make_reading (tick_count_ s) (u8 msb) (u8 lsb)) (i2c_loop n (reading + 1)))))))))) 
  end.
Definition task_i2c_reader : program := i2c_loop 10 0.

(** * Task 2 *)

Definition reading_of (v : value) : TempReading :=
  match v with inl (Queue.Received r) | inr (Queue.Received r) => r | _ => inhabitant end.

Definition TEMP_CAN_ID : Z := 0x1B0.
Definition can_word (r : TempReading) : Z := u32 ((r_tick r .& 0xFFFF) .<< 16) .| u16 (raw r).

(** The endless loop, at most [n] times. *)
Fixpoint can_loop (n : nat) : program :=
  match n with
  | O => NoFuel
  | S n =>
      Invokes (inl Queue.Receive) (fun v =>
      let r := reading_of v in
      write (PeriphMap.CAN0_BASE + Can.REG_TX_ID) TEMP_CAN_ID (
      write (PeriphMap.CAN0_BASE + Can.REG_TX_DLC) 4 (
      write (PeriphMap.CAN0_BASE + Can.REG_TX_D0) (can_word r) (
      write (PeriphMap.CAN0_BASE + Can.REG_TX_D1) 0 (
      write (PeriphMap.CAN0_BASE + Can.REG_TX_SEND) 1 (
      read (PeriphMap.CAN0_BASE + Can.REG_SR) (fun _ => can_loop n)))))))
  end.

Definition CAN_FUEL : nat := 11.
Definition task_can_forwarder : program := can_loop CAN_FUEL.

(** * Task 3 *)

Definition signed (v : Z) : string := if v <? 0 then "-" ++ dec (- v) else dec v.

(** [t] in half degrees; the conversions to [int] round towards zero. *)
Definition fmt_temp (t : Z) : string :=
  let integer := Z.quot t 2 in
  let frac := (t - 2 * integer) * 5 in
  signed integer ++ "." ++ signed (Z.abs frac).

Definition nl : string := String (char 10) "".

Definition uart_line (r : TempReading) : string :=
  "[UART] tick=" ++ dec (r_tick r) ++ " temp=" ++ fmt_temp (celsius r) ++ "C" ++ nl.

Fixpoint codes (s : string) : list Z :=
  match s with "" => [] | String c s => (Text.code c :: codes s)%list end.

Fixpoint write_all (addr : Z) (l : list Z) (k : program) : program :=
  match l with [] => k | b :: l => write addr b (write_all addr l k) end.

(** The loop with [n] readings to go until the count of 10. *)
Fixpoint uart_loop (n : nat) : program :=
  match n with
  | O => Return
  | S n =>
      Invokes (inr Queue.Receive) (fun v =>
      write_all (PeriphMap.UART0_BASE + Uart.REG_DR) (codes (uart_line (reading_of v))) (uart_loop n))
  end.
Definition task_uart_logger : program := uart_loop 10.

(** * Main *)

Definition banner : string := "=== MCU Sensor Pipeline Demo ===" ++ nl.

(** The direct writes of the banner. *)
Definition write_uart (b : Z) (g : globals) : globals :=
  with_dev (set_member (Uart.write_reg (uart0 (dev g)) Uart.REG_DR b) (dev g)) g.

Definition print_banner (_ : Scheduler.t) (g : globals) : globals :=
  foldl (fun g b => write_uart b g) g (codes banner).

Fixpoint text_of (l : list Z) : string :=
  match l with [] => "" | b :: l => String (char b) (text_of l) end.

Definition dump_uart (_ : Scheduler.t) (g : globals) : globals :=
  match Uart.drain_tx (uart0 (dev g)) with
  | Some (bytes, u) => print (text_of bytes) (with_dev (set_member u (dev g)) g)
  | None => g
  end.

(** [%.1f] of a number of halves. *)
Definition one_decimal (halves : Z) : string :=
  (if halves <? 0 then "-" else "") ++ dec (Z.abs halves / 2) ++ "." ++
  (if Z.odd halves then "5" else "0").

Definition can_line (f : CanFrame) : string :=
  let d0 := le_value (take 4 (data f)) in
  let tick_lo := u16 ((d0 .>> 16) .& 0xFFFF) in
  let raw := s16 (d0 .& 0xFFFF) in
  "  CAN ID=0x" ++ zeros 3 (HEX (id f)) ++ " DLC=" ++ dec (dlc f) ++ " tick=" ++ dec tick_lo ++
  " temp=" ++ one_decimal (2 * (raw .>> 1) + (if raw .& 1 =? 0 then 0 else 1)) ++ " C" ++ nl.

Definition can1 (g : globals) : option Can.t := Can.nodes (can (dev g)) !! 1%nat.

(** The loop over the received frames; at most [n] are there. *)
Fixpoint dump_can (n : nat) (g : globals) : globals :=
  match n, can1 g with
  | S n, Some c =>
      if Can.rx_ready c then
        let f := Can.rx_peek c in
        dump_can n (print (can_line f)
                      (with_dev (set_member (Can.write_reg 1 (can (dev g)) Can.REG_RX_POP 1) (dev g)) g))
      else g
  | _, _ => g
  end.

Definition rx_count (g : globals) : nat := match can1 g with Some c => Can.rx_count c | None => 0%nat end.

Definition main : program :=
  Do (fun _ => attach PeriphMap.UART0_BASE (member Uart.device)) (
  Do (fun _ => attach PeriphMap.SPI0_BASE (member Spi.device)) (
  Do (fun _ => attach PeriphMap.I2C0_BASE (member I2c.device)) (
  Do (fun _ => attach PeriphMap.CAN0_BASE (member (Can.device 0))) (
  Do (fun _ => attach PeriphMap.CAN1_BASE (member (Can.device 1))) (
  write (PeriphMap.UART0_BASE + Uart.REG_CR) Uart.CR_ENABLE (
  Do print_banner (
  Spawn 2 task_i2c_reader (
  Spawn 1 task_can_forwarder (
  Spawn 2 task_uart_logger (
  Calls Start (
  Do dump_uart (
  Read (fun _ g =>
  Do (fun _ => print (nl ++ "--- CAN1 received " ++ dec (Z.of_nat (rx_count g)) ++ " frame(s) ---" ++ nl)) (
  Do (fun _ => dump_can Can.RX_CAPACITY) Return)))))))))))))).

Definition boot : system objects method frame value globals :=
  system_boot (Queue.new 8, Queue.new 8) (mkGlobals new_devices PeripheralBus.empty None []) main.

End SensorDemo.
