(* ===== verification/DemoProps.v ===== *)
(** The two demos run to their end on the kernel, with what they print, and what
    becomes of a temperature on its way from the sensor to the CAN receiver. *)
From Stdlib Require Import ZifyBool.
From S2P Require Export Blinky SensorDemo.

#[local] Open Scope string_scope.
#[local] Open Scope Z_scope.
#[local] Open Scope list_scope.

(** More fuel changes nothing. *)
Lemma system_run_more {R M F V G} `{Component R M F V} n k (d d' : system R M F V G) :
  system_run n d = Some d' -> (n <= k)%nat -> system_run k d = Some d'.
Proof.
  revert k d. induction n as [|n IH]; intros k d Hr Hk; [done|]. destruct k as [|k]; [lia|].
  cbn [system_run] in *. destruct (system_step d); [|done|done]. apply IH; [done|lia].
Qed.

(** What a run that ends ends in. *)
Lemma system_run_ends {R M F V G} `{Component R M F V} n k (d0 : system R M F V G) (P : system R M F V G -> Prop) :
  match system_run n d0 with Some d => P d | None => False end -> (n <= k)%nat ->
  exists d, system_run k d0 = Some d /\ P d.
Proof.
  intros Hr Hk. destruct (system_run n d0) as [d|] eqn:E; [|done]. exists d.
  split; [by apply (system_run_more n)|done].
Qed.

(** * A reading as a CAN frame *)

Import SensorDemo.

Lemma low16 x : x .& 0xFFFF = x mod 0x10000.
Proof. change 0xFFFF with (Z.ones 16). by rewrite land_mask by lia. Qed.

Lemma raw_value tick msb lsb :
  in_u8 msb -> raw (make_reading tick msb lsb) = 2 * msb + (if lsb .& 0x80 =? 0 then 0 else 1).
Proof.
  intros Hm. unfold make_reading. cbn [raw]. unfold in_u8 in Hm.
  assert (s16 msb = msb) as -> by (unfold s16, u16; rewrite Z.mod_small by lia; case_if; lia).
  destruct (lsb .& 0x80 =? 0); cbn [negb]; rewrite lor_shiftl by lia; change (2 ^ 1) with 2;
    unfold s16, u16; rewrite Z.mod_small by lia; case_if; lia.
Qed.

Lemma can_word_value tick r :
  in_u32 tick -> can_word (mkReading tick (raw r) (celsius r)) = (tick mod 0x10000) * 0x10000 + u16 (raw r).
Proof.
  intros Ht. unfold can_word. cbn [r_tick raw]. rewrite low16, Z.shiftl_mul_pow2 by lia.
  change (2 ^ 16) with 0x10000. rewrite u32_small by word_lia.
  change (tick mod 0x10000 * 0x10000) with (tick mod 0x10000 * 2 ^ 16) at 1.
  rewrite <-(Z.shiftl_mul_pow2 _ 16) by lia. rewrite lor_shiftl; [done|lia|apply u16_range].
Qed.

Lemma halves_split x : 2 * (x .>> 1) + (if x .& 1 =? 0 then 0 else 1) = x.
Proof.
  rewrite Z.shiftr_div_pow2 by lia. change (2 ^ 1) with 2. change (x .& 1) with (x .& Z.ones 1).
  rewrite land_mask by lia. change (2 ^ 1) with 2. case_if; word_lia.
Qed.

(** * Properties *)

(** A temperature on its way to the CAN receiver.  What the demo prints of the
    frame made of a reading is the tick modulo 2^16 and the temperature of the
    sensor when it is not negative; a negative one arrives 256 degrees too high,
    because the upper data byte is not sign-extended into [raw]. *)
Theorem can_temperature tick s :
  let msb := Lm75.regs_ s !!! 0%nat in
  let lsb := Lm75.regs_ s !!! 1%nat in
  in_u32 tick -> in_u8 msb -> in_u8 lsb ->
  let r := make_reading tick msb lsb in
  celsius r = Lm75.temperature_c_halves s /\
  can_line (mkFrame TEMP_CAN_ID 4 (le_bytes 4 (can_word r) ++ le_bytes 4 0)) =
  ("  CAN ID=0x1B0 DLC=4 tick=" ++ dec (tick mod 0x10000)%Z ++ " temp=" ++
   one_decimal (if 0 <=? celsius r then celsius r else celsius r + 2 * 256)%Z ++ " C" ++ nl)%string.
Proof.
  intros msb lsb Ht Hm Hl r. split.
  { unfold r, make_reading, Lm75.temperature_c_halves. cbn [celsius]. fold msb lsb.
    destruct (lsb .& 0x80 =? 0); cbn [negb]; lia. }
  pose proof (raw_value tick msb lsb Hm) as Hraw. fold r in Hraw.
  assert (u16 (raw r) = raw r) as Hu by (rewrite Hraw; unfold in_u8, u16 in *; destruct (lsb .& 0x80 =? 0); apply Z.mod_small; lia).
  assert (can_word r = (tick mod 0x10000) * 0x10000 + raw r) as Hw.
  { rewrite <-Hu. by apply (can_word_value tick r). }
  assert (le_value (take 4 (le_bytes 4 (can_word r) ++ le_bytes 4 0)) = can_word r) as Hd.
  { rewrite take_app_length' by done. apply le_value_small. change (256 ^ Z.of_nat 4) with 0x100000000.
    rewrite Hw, <-Hu. pose proof (u16_range (raw r)). word_lia. }
  unfold can_line. cbn [data id dlc]. rewrite Hd, Hw, !low16, Z.shiftr_div_pow2 by lia. change (2 ^ 16) with 0x10000.
  assert (0 <= raw r < 512) as Hr by (rewrite Hraw; unfold in_u8 in *; destruct (lsb .& 0x80 =? 0); lia).
  replace (((tick mod 0x10000 * 0x10000 + raw r) / 0x10000) mod 0x10000) with (tick mod 0x10000) by word_lia.
  replace ((tick mod 0x10000 * 0x10000 + raw r) mod 0x10000) with (raw r) by word_lia.
  assert (s16 (raw r) = raw r) as -> by (unfold s16; rewrite Hu; case_if; lia).
  rewrite halves_split, u16_small by word_lia.
  assert (raw r = if 0 <=? celsius r then celsius r else celsius r + 2 * 256) as ->; [|done].
  rewrite Hraw. unfold r, make_reading. cbn [celsius]. unfold s8. rewrite u8_small by done.
  unfold in_u8 in *. destruct (lsb .& 0x80 =? 0); cbn [negb]; repeat case_if; lia.
Qed.

(** The ten readings: the sensor starts at 25.0 degrees and is set after each. *)
Definition readings : list TempReading :=
  (fun k => let halves := 50 + Z.max 0 (k - 1) in mkReading (500 * (k + 1)) halves halves) <$> seqZ 0 10.

Fixpoint concat_lines (l : list string) : string :=
  match l with [] => "" | s :: l => (s ++ concat_lines l)%string end.

Definition can_text (r : TempReading) : string :=
  ("  CAN ID=0x1B0 DLC=4 tick=" ++ dec (r_tick r) ++ " temp=" ++ one_decimal (celsius r) ++ " C" ++ nl)%string.

(** The sensor demo from boot to its last line.  It ends without an exception,
    its reader having polled the sensor every 500 ticks; the CAN node has received
    all ten readings in order; but of the UART log, which nobody reads before the
    end, only the 256 bytes that fit the transmit FIFO are printed: the banner and
    eight readings.  The last two lines are lost. *)
Theorem sensor_demo_output n :
  (750 <= n)%nat ->
  exists d, system_run n SensorDemo.boot = Some d /\
    uncaught (Program.globals d) = None /\ Scheduler.tick_count_ (sched (conf d)) = 5000 /\
    stdout (Program.globals d) =
      (banner ++ concat_lines (uart_line <$> take 8 readings))%string ::
      (nl ++ "--- CAN1 received 10 frame(s) ---" ++ nl)%string :: (can_text <$> readings) /\
    String.length (banner ++ concat_lines (uart_line <$> take 8 readings)) = Uart.FIFO_SIZE.
Proof.
  intros Hn. apply (system_run_ends 750); [|done]. vm_compute. split_and!; reflexivity.
Qed.

(** The blinky demo from boot to its last line: it ends at tick 100 with exit
    status 0, ten items produced and consumed, each consumed in the tick it was
    produced in and in order, and no complaint of the watchdog. *)
Theorem blinky_output n :
  (150 <= n)%nat ->
  exists d, system_run n Blinky.boot = Some d /\
    Blinky.exit_status (Program.globals d) = 0 /\ Scheduler.tick_count_ (sched (conf d)) = 100 /\
    Blinky.cerr (Program.globals d) = [] /\
    Blinky.cout (Program.globals d) =
      ["=== MCU Simulator RTOS Demo ==="; ""] ++
      concat ((fun i => [Blinky.line "PROD" i (10 * i); Blinky.line "CONS" i (10 * i)]) <$> seqZ 0 10) ++
      ["[WATCHDOG] All tasks healthy -- done."; ""; "=== Results ==="; "  Items produced : 10 / 10";
       "  Items consumed : 10 / 10"; "  Sim time       : 100 ms"]%string.
Proof.
  intros Hn. apply (system_run_ends 150); [|done]. vm_compute. split_and!; reflexivity.
Qed.

(** * Witnesses *)

(** Minus one degree is printed as 255. *)
Lemma can_temperature_witness :
  can_line (mkFrame TEMP_CAN_ID 4 (le_bytes 4 (can_word (make_reading 500 0xFF 0)) ++ le_bytes 4 0)) =
  ("  CAN ID=0x1B0 DLC=4 tick=500 temp=255.0 C" ++ nl)%string.
Proof.
  destruct (can_temperature 500 (Lm75.mkLm75 [0xFF; 0; 0; 0; 0x50; 0; 0x4B; 0])) as [_ H];
    [split; [discriminate|reflexivity]|split; [discriminate|reflexivity]|split; [discriminate|reflexivity]|].
  etransitivity; [exact H|]. vm_compute. reflexivity.
Defined.

Lemma sensor_demo_output_witness :
  exists d, system_run 750 SensorDemo.boot = Some d /\ Scheduler.tick_count_ (sched (conf d)) = 5000.
Proof.
  destruct (sensor_demo_output 750 (le_n 750)) as (d & H1 & _ & H2 & _). exists d. exact (conj H1 H2).
Defined.

Lemma blinky_output_witness :
  exists d, system_run 150 Blinky.boot = Some d /\ Blinky.exit_status (Program.globals d) = 0.
Proof.
  destruct (blinky_output 150 (le_n 150)) as (d & H1 & H2 & _). exists d. exact (conj H1 H2).
Defined.
